(** * The stochastic address manager (multi-index variant)

    A shallow embedding of [src/addrman_multi.cpp] (class [AddrManMultiImpl])
    together with the helper templates of its implementation header, and of
    the places where the sibling [src/addrman.cpp] (class [AddrManImpl])
    behaves differently.

    Conventions.
    - C++ integers are mathematical integers ([Z]) and every operation that
      can leave the range of its type has the wrap-around written out
      ([wrapU], [wrapS]).
    - Iterators and pointers into the multi-index container are node names
      ([ptr]); a node keeps its name for its whole life, as a node of
      [boost::multi_index_container] keeps its address.
    - [assert] failures and exceptions are [None] in the [option] monad.
    - The collaborators that live outside the sources (network addresses,
      the keyed hash, the address codec, the random generator, the clock)
      are the fields of the class [NetTypes]; the clock is an explicit
      argument [now]. *)

From Stdlib Require Import ZArith Lia Bool Ascii.
From stdpp Require Import base tactics option list sorting gmap.

Local Open Scope Z_scope.

(** ** Fixed-width integers *)

Definition wrapU (w z : Z) : Z := z mod 2 ^ w.
Definition wrapS (w z : Z) : Z := (z + 2 ^ (w - 1)) mod 2 ^ w - 2 ^ (w - 1).

Definition in_u (w z : Z) : Prop := 0 <= z < 2 ^ w.
Definition in_s (w z : Z) : Prop := - 2 ^ (w - 1) <= z < 2 ^ (w - 1).

(** [int64_t] arithmetic. *)
Definition add64 (a b : Z) : Z := wrapS 64 (a + b).
Definition sub64 (a b : Z) : Z := wrapS 64 (a - b).
(** [int] arithmetic. *)
Definition add32 (a b : Z) : Z := wrapS 32 (a + b).
(** [size_t] arithmetic. *)
Definition mulsz (a b : Z) : Z := wrapU 64 (a * b).
Definition subsz (a b : Z) : Z := wrapU 64 (a - b).

(** ** Configuration constants *)

Definition ADDRMAN_TRIED_BUCKET_COUNT_LOG2 : Z := 8.
Definition ADDRMAN_TRIED_BUCKET_COUNT : Z := Z.shiftl 1 ADDRMAN_TRIED_BUCKET_COUNT_LOG2.
Definition ADDRMAN_NEW_BUCKET_COUNT_LOG2 : Z := 10.
Definition ADDRMAN_NEW_BUCKET_COUNT : Z := Z.shiftl 1 ADDRMAN_NEW_BUCKET_COUNT_LOG2.
Definition ADDRMAN_BUCKET_SIZE_LOG2 : Z := 6.
Definition ADDRMAN_BUCKET_SIZE : Z := Z.shiftl 1 ADDRMAN_BUCKET_SIZE_LOG2.

Definition ADDRMAN_TRIED_BUCKETS_PER_GROUP : Z := 8.
Definition ADDRMAN_NEW_BUCKETS_PER_SOURCE_GROUP : Z := 64.
Definition ADDRMAN_NEW_BUCKETS_PER_ADDRESS : Z := 8.
Definition ADDRMAN_HORIZON_DAYS : Z := 30.
Definition ADDRMAN_RETRIES : Z := 3.
Definition ADDRMAN_MAX_FAILURES : Z := 10.
Definition ADDRMAN_MIN_FAIL_DAYS : Z := 7.
Definition ADDRMAN_REPLACEMENT_HOURS : Z := 4.
Definition ADDRMAN_SET_TRIED_COLLISION_SIZE : Z := 10.
Definition ADDRMAN_TEST_WINDOW : Z := 40 * 60.

(** ** The input of the hash writer

    [CHashWriter(SER_GETHASH, 0) << a << b << ...] hashes the serialisations
    of its operands in that order.  One constructor per operand type that the
    bucket functions feed to it. *)

Inductive HashItem : Type :=
| HUint256 (k : Z)            (* uint256 *)
| HBytes (v : list Z)         (* std::vector<unsigned char> *)
| HUint64 (z : Z)             (* uint64_t *)
| HUint8 (z : Z)              (* uint8_t *)
| HInt (z : Z).               (* int *)

(** The ASCII codes of the two table tags. *)
Definition tag_N : Z := 78.
Definition tag_K : Z := 75.

(** ** External collaborators *)

Class NetTypes : Type := {
  (** an address with its port, and an address without it *)
  CService : Type;
  CNetAddr : Type;
  CService_eq_dec :: EqDecision CService;
  CNetAddr_eq_dec :: EqDecision CNetAddr;
  (** the base-class view of a [CService] *)
  ToNetAddr : CService → CNetAddr;
  (** [operator<] of [CService], the order of the by-address index *)
  CService_ltb : CService → CService → bool;
  (** [CService::GetKey], [CNetAddr::GetGroup(asmap)] *)
  GetKey : CService → list Z;
  GetGroup : CNetAddr → list bool → list Z;
  IsRoutable : CService → bool;
  (** [GetNetClass], as the number of the network *)
  GetNetClass : CService → Z;
  (** [CHashWriter::GetCheapHash], a [uint64_t] *)
  GetCheapHash : list HashItem → Z;
  (** the codecs of [CAddress] (service, time, service flags) and of
      [CNetAddr]; the flag says whether the stream version carries
      [ADDRV2_FORMAT] *)
  ser_CAddress : bool → CService * Z * Z → list Z;
  unser_CAddress : bool → list Z → option ((CService * Z * Z) * list Z);
  ser_CNetAddr : bool → CNetAddr → list Z;
  unser_CNetAddr : bool → list Z → option (CNetAddr * list Z);
  (** [randbits(30) < fChanceFactor * GetChance() * (1 << 30)] of [Select_]:
      the draw, the number of rejections so far (the exponent of 1.2), and
      the two inputs of [GetChance]: time since the last try and attempts *)
  chance_accepts : Z → nat → Z → Z → bool;
}.

Section AddrMan.
Context `{NT : NetTypes}.

(** ** AddrInfo *)

Record AddrInfo : Type := mkAddrInfo {
  service : CService;         (* the CService base *)
  nTime : Z;                  (* CAddress::nTime, uint32_t *)
  nServices : Z;              (* CAddress::nServices, uint64_t *)
  source : CNetAddr;
  nLastTry : Z;               (* int64_t *)
  nLastCountAttempt : Z;      (* int64_t *)
  nLastSuccess : Z;           (* int64_t *)
  nAttempts : Z;              (* int *)
  fInTried : bool;
  nRandomPos : Z;             (* int, -1 for an alias *)
  m_bucket : Z;
  m_bucketpos : Z;
}.

Definition set_source (v : CNetAddr) (i : AddrInfo) : AddrInfo :=
  mkAddrInfo (service i) (nTime i) (nServices i) v (nLastTry i)
    (nLastCountAttempt i) (nLastSuccess i) (nAttempts i) (fInTried i)
    (nRandomPos i) (m_bucket i) (m_bucketpos i).
Definition set_nTime (v : Z) (i : AddrInfo) : AddrInfo :=
  mkAddrInfo (service i) v (nServices i) (source i) (nLastTry i)
    (nLastCountAttempt i) (nLastSuccess i) (nAttempts i) (fInTried i)
    (nRandomPos i) (m_bucket i) (m_bucketpos i).
Definition set_nServices (v : Z) (i : AddrInfo) : AddrInfo :=
  mkAddrInfo (service i) (nTime i) v (source i) (nLastTry i)
    (nLastCountAttempt i) (nLastSuccess i) (nAttempts i) (fInTried i)
    (nRandomPos i) (m_bucket i) (m_bucketpos i).
Definition set_nLastTry (v : Z) (i : AddrInfo) : AddrInfo :=
  mkAddrInfo (service i) (nTime i) (nServices i) (source i) v
    (nLastCountAttempt i) (nLastSuccess i) (nAttempts i) (fInTried i)
    (nRandomPos i) (m_bucket i) (m_bucketpos i).
Definition set_nLastCountAttempt (v : Z) (i : AddrInfo) : AddrInfo :=
  mkAddrInfo (service i) (nTime i) (nServices i) (source i) (nLastTry i)
    v (nLastSuccess i) (nAttempts i) (fInTried i)
    (nRandomPos i) (m_bucket i) (m_bucketpos i).
Definition set_nLastSuccess (v : Z) (i : AddrInfo) : AddrInfo :=
  mkAddrInfo (service i) (nTime i) (nServices i) (source i) (nLastTry i)
    (nLastCountAttempt i) v (nAttempts i) (fInTried i)
    (nRandomPos i) (m_bucket i) (m_bucketpos i).
Definition set_nAttempts (v : Z) (i : AddrInfo) : AddrInfo :=
  mkAddrInfo (service i) (nTime i) (nServices i) (source i) (nLastTry i)
    (nLastCountAttempt i) (nLastSuccess i) v (fInTried i)
    (nRandomPos i) (m_bucket i) (m_bucketpos i).
Definition set_fInTried (v : bool) (i : AddrInfo) : AddrInfo :=
  mkAddrInfo (service i) (nTime i) (nServices i) (source i) (nLastTry i)
    (nLastCountAttempt i) (nLastSuccess i) (nAttempts i) v
    (nRandomPos i) (m_bucket i) (m_bucketpos i).
Definition set_nRandomPos (v : Z) (i : AddrInfo) : AddrInfo :=
  mkAddrInfo (service i) (nTime i) (nServices i) (source i) (nLastTry i)
    (nLastCountAttempt i) (nLastSuccess i) (nAttempts i) (fInTried i)
    v (m_bucket i) (m_bucketpos i).
Definition set_bucket (b p : Z) (i : AddrInfo) : AddrInfo :=
  mkAddrInfo (service i) (nTime i) (nServices i) (source i) (nLastTry i)
    (nLastCountAttempt i) (nLastSuccess i) (nAttempts i) (fInTried i)
    (nRandomPos i) b p.

(** [AddrInfo(addrIn, addrSource)]: the copied [CAddress], the source and the
    member initialisers. *)
Definition AddrInfo_new (addr : CService * Z * Z) (src : CNetAddr) : AddrInfo :=
  mkAddrInfo (addr.1.1) (addr.1.2) (addr.2) src 0 0 0 0 false (-1) 0 0.

(** ** BucketHasher *)

Definition GetTriedBucket (i : AddrInfo) (nKey : Z) (asmap : list bool) : Z :=
  let hash1 := GetCheapHash [HUint256 nKey; HBytes (GetKey (service i))] in
  let hash2 := GetCheapHash [HUint256 nKey;
                             HBytes (GetGroup (ToNetAddr (service i)) asmap);
                             HUint64 (hash1 mod ADDRMAN_TRIED_BUCKETS_PER_GROUP)] in
  hash2 mod ADDRMAN_TRIED_BUCKET_COUNT.

Definition GetNewBucket (i : AddrInfo) (nKey : Z) (src : CNetAddr)
    (asmap : list bool) : Z :=
  let vchSourceGroupKey := GetGroup src asmap in
  let hash1 := GetCheapHash [HUint256 nKey;
                             HBytes (GetGroup (ToNetAddr (service i)) asmap);
                             HBytes vchSourceGroupKey] in
  let hash2 := GetCheapHash [HUint256 nKey; HBytes vchSourceGroupKey;
                             HUint64 (hash1 mod ADDRMAN_NEW_BUCKETS_PER_SOURCE_GROUP)] in
  hash2 mod ADDRMAN_NEW_BUCKET_COUNT.

Definition GetBucketPosition (i : AddrInfo) (nKey : Z) (fNew : bool)
    (nBucket : Z) : Z :=
  let hash1 := GetCheapHash [HUint256 nKey;
                             HUint8 (if fNew then tag_N else tag_K);
                             HInt nBucket; HBytes (GetKey (service i))] in
  hash1 mod ADDRMAN_BUCKET_SIZE.

Definition Rebucket (key : Z) (asmap : list bool) (i : AddrInfo) : AddrInfo :=
  let b := if fInTried i then GetTriedBucket i key asmap
           else GetNewBucket i key (source i) asmap in
  set_bucket b (GetBucketPosition i key (negb (fInTried i)) b) i.

(** ** Quality predicate *)

Definition IsTerrible (i : AddrInfo) (nNow : Z) : bool :=
  if bool_decide (nLastTry i ≠ 0) && (sub64 nNow 60 <=? nLastTry i) then false
  else if add64 nNow (10 * 60) <? nTime i then true
  else if (nTime i =? 0)
          || (ADDRMAN_HORIZON_DAYS * 24 * 60 * 60 <? sub64 nNow (nTime i)) then true
  else if (nLastSuccess i =? 0) && (ADDRMAN_RETRIES <=? nAttempts i) then true
  else if (ADDRMAN_MIN_FAIL_DAYS * 24 * 60 * 60 <? sub64 nNow (nLastSuccess i))
          && (ADDRMAN_MAX_FAILURES <=? nAttempts i) then true
  else false.

(** [AddrInfo::GetChance] multiplies floating-point numbers; the test that
    [Select_] makes on it is the collaborator [chance_accepts], fed with the
    two integers that [GetChance] reads. *)
Definition GetChance_accepts (draw : Z) (rejections : nat) (i : AddrInfo)
    (nNow : Z) : bool :=
  chance_accepts draw rejections (Z.max (sub64 nNow (nLastTry i)) 0)
    (Z.min (nAttempts i) 8).

(** ** The multi-index container

    A node is a name and its [AddrInfo].  The container is the sequence of
    its nodes in the order of the [ByAddress] index; [ordered_non_unique]
    puts a new node after the nodes with an equivalent key. *)

Abbreviation ptr := nat.
Abbreviation node := (ptr * AddrInfo)%type.
Abbreviation AddrManIndex := (list node).

Definition ByAddressKey : Type := CService * bool.
Definition ByBucketView : Type := bool * Z * Z.

Definition is_alias (i : AddrInfo) : bool := nRandomPos i =? -1.

Definition ByAddressExtractor (i : AddrInfo) : ByAddressKey :=
  (service i, is_alias i).
Definition ByBucketExtractor (i : AddrInfo) : ByBucketView :=
  (fInTried i, m_bucket i, m_bucketpos i).

(** [operator<] of [std::pair<const CService&, bool>]. *)
Definition ByAddress_ltb (k1 k2 : ByAddressKey) : bool :=
  CService_ltb k1.1 k2.1
  || (negb (CService_ltb k2.1 k1.1) && (negb k1.2 && k2.2)).

(** [operator<] of [std::tuple<bool, int, int>]. *)
Definition ByBucket_ltb (k1 k2 : ByBucketView) : bool :=
  let '(t1, b1, p1) := k1 in
  let '(t2, b2, p2) := k2 in
  (negb t1 && t2)
  || (bool_decide (t1 = t2) && ((b1 <? b2) || ((b1 =? b2) && (p1 <? p2)))).

(** Not-greater by a key, for a strict order [ltb] on the keys. *)
Definition key_le {K : Type} (ltb : K → K → bool) (key : node → K)
    (x y : node) : Prop :=
  ltb (key y) (key x) = false.

(** A slot as a number, and the slots that the tables have. *)
Definition slot_code (k : ByBucketView) : nat :=
  Z.to_nat ((if k.1.1 then ADDRMAN_NEW_BUCKET_COUNT * ADDRMAN_BUCKET_SIZE else 0)
            + k.1.2 * ADDRMAN_BUCKET_SIZE + k.2).

Definition slot_in_range (k : ByBucketView) : Prop :=
  0 <= k.1.2 < ADDRMAN_NEW_BUCKET_COUNT ∧ 0 <= k.2 < ADDRMAN_BUCKET_SIZE.

(** Not-greater, the order in which the by-bucket index keeps its nodes. *)
Definition ByBucket_le (x y : node) : Prop :=
  ByBucket_ltb (ByBucketExtractor y.2) (ByBucketExtractor x.2) = false.

Global Instance ByBucket_le_dec x y : Decision (ByBucket_le x y).
Proof. unfold ByBucket_le. apply _. Defined.

(** The nodes in the order of the [ByBucket] index. *)
Definition ByBucket (idx : AddrManIndex) : list node :=
  merge_sort ByBucket_le idx.

(** [lower_bound], [upper_bound] and [find] of an ordered index, on the
    sequence of its nodes; [None] is [end()]. *)
Fixpoint lower_bound {K : Type} (ltb : K → K → bool) (key : node → K)
    (k : K) (l : list node) : option node :=
  match l with
  | [] => None
  | y :: l' => if ltb (key y) k then lower_bound ltb key k l' else Some y
  end.

Definition find_in {K : Type} (ltb : K → K → bool) (key : node → K)
    (k : K) (l : list node) : option node :=
  match lower_bound ltb key k l with
  | Some y => if ltb k (key y) then None else Some y
  | None => None
  end.

Definition ByAddress_lower_bound (k : ByAddressKey) (idx : AddrManIndex) :=
  lower_bound ByAddress_ltb (λ y, ByAddressExtractor y.2) k idx.
Definition ByAddress_find (k : ByAddressKey) (idx : AddrManIndex) :=
  find_in ByAddress_ltb (λ y, ByAddressExtractor y.2) k idx.
Definition ByBucket_find (k : ByBucketView) (idx : AddrManIndex) :=
  find_in ByBucket_ltb (λ y, ByBucketExtractor y.2) k (ByBucket idx).

(** [count] of the by-address index (used as a boolean in [MakeTried]). *)
Definition ByAddress_count (k : ByAddressKey) (idx : AddrManIndex) : Z :=
  Z.of_nat (length (filter
    (λ y : node, ByAddress_ltb (ByAddressExtractor y.2) k = false
                 ∧ ByAddress_ltb k (ByAddressExtractor y.2) = false) idx)).

(** [m_index.insert]: the node goes to the upper bound of its key. *)
Fixpoint index_insert (x : node) (l : AddrManIndex) : AddrManIndex :=
  match l with
  | [] => [x]
  | y :: l' =>
      if ByAddress_ltb (ByAddressExtractor x.2) (ByAddressExtractor y.2)
      then x :: y :: l'
      else y :: index_insert x l'
  end.

Definition index_erase (p : ptr) (l : AddrManIndex) : AddrManIndex :=
  filter (λ y : node, y.1 ≠ p) l.

(** Writing through an iterator.  No caller changes the address or the alias
    flag of a node, so the node keeps its place in the by-address order. *)
Definition index_modify (p : ptr) (f : AddrInfo → AddrInfo)
    (l : AddrManIndex) : AddrManIndex :=
  map (λ y : node, if decide (y.1 = p) then (y.1, f y.2) else y) l.

(** Dereferencing an iterator; [None] for a dangling one. *)
Fixpoint index_lookup (p : ptr) (l : AddrManIndex) : option AddrInfo :=
  match l with
  | [] => None
  | y :: l' => if decide (y.1 = p) then Some y.2 else index_lookup p l'
  end.

(** The nodes from [lower_bound(k)] on, and the nodes before
    [upper_bound(k)]. *)
Fixpoint from_lower_bound (k : ByAddressKey) (l : AddrManIndex) : AddrManIndex :=
  match l with
  | [] => []
  | y :: l' => if ByAddress_ltb (ByAddressExtractor y.2) k
               then from_lower_bound k l' else l
  end.
Fixpoint upto_upper_bound (k : ByAddressKey) (l : AddrManIndex) : AddrManIndex :=
  match l with
  | [] => []
  | y :: l' => if ByAddress_ltb k (ByAddressExtractor y.2)
               then [] else y :: upto_upper_bound k l'
  end.

(** The nodes from the iterator [p] on, in by-address order. *)
Fixpoint from_iterator (p : ptr) (l : AddrManIndex) : AddrManIndex :=
  match l with
  | [] => []
  | y :: l' => if decide (y.1 = p) then l else from_iterator p l'
  end.

(** ** The state of the manager *)

Record State : Type := mkState {
  nKey : Z;                          (* uint256 *)
  m_asmap : list bool;
  m_index : AddrManIndex;
  next_ptr : ptr;                    (* the next fresh node name *)
  vRandom : list ptr;
  nTried : Z;
  nNew : Z;
  nLastGood : Z;
  m_tried_collisions : gset ptr;
  m_consistency_check_ratio : Z;
  insecure_rand : list Z;            (* the draws still to come *)
}.

Definition set_nKey (v : Z) (s : State) : State :=
  mkState v (m_asmap s) (m_index s) (next_ptr s) (vRandom s) (nTried s)
    (nNew s) (nLastGood s) (m_tried_collisions s)
    (m_consistency_check_ratio s) (insecure_rand s).
Definition set_index (v : AddrManIndex) (s : State) : State :=
  mkState (nKey s) (m_asmap s) v (next_ptr s) (vRandom s) (nTried s)
    (nNew s) (nLastGood s) (m_tried_collisions s)
    (m_consistency_check_ratio s) (insecure_rand s).
Definition set_next_ptr (v : ptr) (s : State) : State :=
  mkState (nKey s) (m_asmap s) (m_index s) v (vRandom s) (nTried s)
    (nNew s) (nLastGood s) (m_tried_collisions s)
    (m_consistency_check_ratio s) (insecure_rand s).
Definition set_vRandom (v : list ptr) (s : State) : State :=
  mkState (nKey s) (m_asmap s) (m_index s) (next_ptr s) v (nTried s)
    (nNew s) (nLastGood s) (m_tried_collisions s)
    (m_consistency_check_ratio s) (insecure_rand s).
Definition set_nTried (v : Z) (s : State) : State :=
  mkState (nKey s) (m_asmap s) (m_index s) (next_ptr s) (vRandom s) v
    (nNew s) (nLastGood s) (m_tried_collisions s)
    (m_consistency_check_ratio s) (insecure_rand s).
Definition set_nNew (v : Z) (s : State) : State :=
  mkState (nKey s) (m_asmap s) (m_index s) (next_ptr s) (vRandom s) (nTried s)
    v (nLastGood s) (m_tried_collisions s)
    (m_consistency_check_ratio s) (insecure_rand s).
Definition set_nLastGood (v : Z) (s : State) : State :=
  mkState (nKey s) (m_asmap s) (m_index s) (next_ptr s) (vRandom s) (nTried s)
    (nNew s) v (m_tried_collisions s)
    (m_consistency_check_ratio s) (insecure_rand s).
Definition set_tried_collisions (v : gset ptr) (s : State) : State :=
  mkState (nKey s) (m_asmap s) (m_index s) (next_ptr s) (vRandom s) (nTried s)
    (nNew s) (nLastGood s) v
    (m_consistency_check_ratio s) (insecure_rand s).
Definition set_insecure_rand (v : list Z) (s : State) : State :=
  mkState (nKey s) (m_asmap s) (m_index s) (next_ptr s) (vRandom s) (nTried s)
    (nNew s) (nLastGood s) (m_tried_collisions s)
    (m_consistency_check_ratio s) v.

(** [AddrManMultiImpl(asmap, deterministic, consistency_check_ratio)]; the
    key is [uint256{1}] in deterministic mode and drawn otherwise. *)
Definition AddrMan_new (key : Z) (asmap : list bool) (ratio : Z)
    (rand : list Z) : State :=
  mkState key asmap [] 0%nat [] 0 0 1 ∅ ratio rand.

(** ** The random generator

    [randrange(n)] is below [n]; the state of the generator is the list of
    the draws still to come (zeros once the list is used up). *)
Definition randrange (n : Z) (s : State) : Z * State :=
  match insecure_rand s with
  | [] => (0, s)
  | r :: t => (r mod n, set_insecure_rand t s)
  end.
Definition randbool (s : State) : bool * State :=
  let '(r, s') := randrange 2 s in (negb (r =? 0), s').
Definition randbits (bits : Z) (s : State) : Z * State :=
  randrange (2 ^ bits) s.

(** ** Private operations *)

Definition CountAddr (addr : CService) (s : State) : Z :=
  match ByAddress_lower_bound (addr, false) (m_index s) with
  | None => 0
  | Some _ =>
      Z.of_nat (length (upto_upper_bound (addr, true)
                          (from_lower_bound (addr, false) (m_index s))))
  end.

Definition UpdateStat (info : AddrInfo) (inc : Z) (s : State) : State :=
  if nRandomPos info =? -1 then s
  else if fInTried info then set_nTried (nTried s + inc) s
  else set_nNew (nNew s + inc) s.

(** [Modify(it, fun)] of the implementation header. *)
Definition Modify (it : ptr) (f : AddrInfo → AddrInfo) (s : State)
    : option State :=
  info ← index_lookup it (m_index s);
  let s1 := UpdateStat info (-1) s in
  let s2 := set_index (index_modify it
              (λ i, Rebucket (nKey s1) (m_asmap s1) (f i)) (m_index s1)) s1 in
  info' ← index_lookup it (m_index s2);
  Some (UpdateStat info' 1 s2).

(** [Insert(info, alias)] of the implementation header; the new iterator
    comes with the state. *)
Definition Insert (info : AddrInfo) (alias : bool) (s : State) : ptr * State :=
  let info := Rebucket (nKey s) (m_asmap s) info in
  let info := set_nRandomPos
                (if alias then -1 else Z.of_nat (length (vRandom s))) info in
  let s1 := UpdateStat info 1 s in
  let it := next_ptr s1 in
  let s2 := set_next_ptr (S it) (set_index (index_insert (it, info) (m_index s1)) s1) in
  (it, if alias then s2 else set_vRandom (vRandom s2 ++ [it]) s2).

Definition SwapRandom (nRndPos1 nRndPos2 : Z) (s : State) : option State :=
  if decide (nRndPos1 = nRndPos2) then Some s
  else if decide (0 <= nRndPos1 < Z.of_nat (length (vRandom s))
                  ∧ 0 <= nRndPos2 < Z.of_nat (length (vRandom s))) then
    it1 ← vRandom s !! Z.to_nat nRndPos1;
    it2 ← vRandom s !! Z.to_nat nRndPos2;
    _ ← index_lookup it1 (m_index s);
    _ ← index_lookup it2 (m_index s);
    let idx := index_modify it1 (set_nRandomPos nRndPos2) (m_index s) in
    let idx := index_modify it2 (set_nRandomPos nRndPos1) idx in
    Some (set_vRandom (<[Z.to_nat nRndPos2 := it1]>
                         (<[Z.to_nat nRndPos1 := it2]> (vRandom s)))
            (set_index idx s))
  else None.

Definition EraseInner (it : ptr) (s : State) : option State :=
  info ← index_lookup it (m_index s);
  '(it, s) ←
    (if nRandomPos info =? -1 then Some (it, s)
     else
       match ByAddress_find (service info, true) (m_index s) with
       | Some it_alias =>
           let s := if decide (it_alias.1 ∈ m_tried_collisions s)
                    then set_tried_collisions ({[it]} ∪ m_tried_collisions s) s
                    else s in
           s ← Modify it (set_source (source it_alias.2)) s;
           Some (it_alias.1, s)
       | None =>
           s ← SwapRandom (nRandomPos info) (Z.of_nat (length (vRandom s)) - 1) s;
           Some (it, set_vRandom (removelast (vRandom s)) s)
       end);
  info ← index_lookup it (m_index s);
  let s := set_tried_collisions (m_tried_collisions s ∖ {[it]}) s in
  let s := UpdateStat info (-1) s in
  Some (set_index (index_erase it (m_index s)) s).

(** [Erase(it)] projects the iterator to the by-address index. *)
Definition Erase (it : ptr) (s : State) : option State := EraseInner it s.

(** A [CAddress] read off a node. *)
Definition to_CAddress (i : AddrInfo) : CService * Z * Z :=
  (service i, nTime i, nServices i).

(** The loop [while (lower_bound(addr, false) is a node of addr) Erase(it)]
    of [MakeTried] and of [Unserialize]; every round erases one node, so
    [fuel] rounds with [fuel] the size of the index are enough. *)
Fixpoint Erase_address (fuel : nat) (addr : CService) (s : State)
    : option State :=
  match ByAddress_lower_bound (addr, false) (m_index s) with
  | None => Some s
  | Some it_existing =>
      if decide (service it_existing.2 = addr) then
        match fuel with
        | O => None
        | S fuel' => s ← Erase it_existing.1 s; Erase_address fuel' addr s
        end
      else Some s
  end.

(** The block of [MakeTried] for an occupied tried slot: the occupant goes
    back to the new table, evicting what is in its slot there. *)
Definition MakeTried_evict (it_existing : node) (s : State) : option State :=
  let info_evict := it_existing.2 in
  s ← Erase it_existing.1 s;
  let info_evict :=
    Rebucket (nKey s) (m_asmap s) (set_fInTried false info_evict) in
  s ← match ByBucket_find (ByBucketExtractor info_evict) (m_index s) with
      | Some it_new_existing => Erase it_new_existing.1 s
      | None => Some s
      end;
  let alias :=
    negb (ByAddress_count (service info_evict, false) (m_index s) =? 0) in
  Some (Insert info_evict alias s).2.

Definition MakeTried (it : ptr) (s : State) : option State :=
  info ← index_lookup it (m_index s);
  if fInTried info then None
  else
    s ← Erase it s;
    s ← Erase_address (length (m_index s)) (service info) s;
    let info := Rebucket (nKey s) (m_asmap s) (set_fInTried true info) in
    s ← match ByBucket_find (ByBucketExtractor info) (m_index s) with
        | Some it_existing => MakeTried_evict it_existing s
        | None => Some s
        end;
    Some (Insert info false s).2.

(** The tail of [AddSingle], from [info.Rebucket] on. *)
Definition AddSingle_place (info : AddrInfo) (alias : bool) (now : Z)
    (s : State) : option (bool * State) :=
  let info := Rebucket (nKey s) (m_asmap s) info in
  match ByBucket_find (ByBucketExtractor info) (m_index s) with
  | None => Some (true, (Insert info alias s).2)
  | Some it_existing =>
      if decide (service it_existing.2 ≠ service info) then
        let infoExisting := it_existing.2 in
        if IsTerrible infoExisting now
           || (negb alias && (1 <? CountAddr (service infoExisting) s))
        then
          s ← Erase it_existing.1 s;
          Some (true, (Insert info alias s).2)
        else Some (false, s)
      else Some (false, s)
  end.

Definition AddSingle (addr : CService * Z * Z) (src : CNetAddr)
    (nTimePenalty : Z) (now : Z) (s : State) : option (bool * State) :=
  let '(svc, a_nTime, a_nServices) := addr in
  if negb (IsRoutable svc) then Some (false, s)
  else
    let it := ByAddress_find (svc, false) (m_index s) in
    let nTimePenalty :=
      if decide (ToNetAddr svc = src) then 0 else nTimePenalty in
    let info := set_fInTried false (AddrInfo_new addr src) in
    match it with
    | Some it =>
        let fCurrentlyOnline := sub64 now a_nTime <? 24 * 60 * 60 in
        let nUpdateInterval :=
          if fCurrentlyOnline then 60 * 60 else 24 * 60 * 60 in
        s ← (if negb (a_nTime =? 0)
                && ((nTime it.2 =? 0)
                    || (nTime it.2 <?
                        sub64 (sub64 a_nTime nUpdateInterval) nTimePenalty))
             then Modify it.1
                    (set_nTime (wrapU 32 (Z.max 0 (sub64 a_nTime nTimePenalty)))) s
             else Some s);
        s ← Modify it.1
              (λ i, set_nServices (Z.lor (nServices i) a_nServices) i) s;
        cur ← index_lookup it.1 (m_index s);
        if (a_nTime =? 0) || (negb (nTime cur =? 0) && (a_nTime <=? nTime cur))
        then Some (false, s)
        else if fInTried cur then Some (false, s)
        else
          let aliases := CountAddr svc s in
          if aliases =? ADDRMAN_NEW_BUCKETS_PER_ADDRESS then Some (false, s)
          else
            let nFactor := wrapS 32 (2 ^ aliases) in
            let '(r, s) := if 1 <? nFactor then randrange nFactor s else (0, s) in
            if (1 <? nFactor) && negb (r =? 0) then Some (false, s)
            else AddSingle_place info true now s
    | None =>
        let info :=
          set_nTime (wrapU 32 (Z.max 0 (sub64 a_nTime nTimePenalty))) info in
        AddSingle_place info false now s
    end.

Definition Good_ (addr : CService) (test_before_evict : bool) (nTime' : Z)
    (s : State) : option (bool * State) :=
  let s := set_nLastGood nTime' s in
  match ByAddress_find (addr, false) (m_index s) with
  | None => Some (false, s)
  | Some it =>
      s ← Modify it.1
            (λ i, set_nAttempts 0 (set_nLastTry nTime' (set_nLastSuccess nTime' i))) s;
      info ← index_lookup it.1 (m_index s);
      if fInTried info then Some (false, s)
      else
        let tried_bucket := GetTriedBucket info (nKey s) (m_asmap s) in
        let tried_bucket_pos :=
          GetBucketPosition info (nKey s) false tried_bucket in
        let it_collision :=
          ByBucket_find (true, tried_bucket, tried_bucket_pos) (m_index s) in
        if test_before_evict && bool_decide (is_Some it_collision) then
          let s :=
            if Z.of_nat (size (m_tried_collisions s))
               <? ADDRMAN_SET_TRIED_COLLISION_SIZE
            then set_tried_collisions ({[it.1]} ∪ m_tried_collisions s) s
            else s in
          Some (false, s)
        else
          s ← MakeTried it.1 s;
          Some (true, s)
  end.

Fixpoint Add_loop (vAddr : list (CService * Z * Z)) (src : CNetAddr)
    (nTimePenalty now added : Z) (s : State) : option (Z * State) :=
  match vAddr with
  | [] => Some (added, s)
  | a :: rest =>
      '(r, s) ← AddSingle a src nTimePenalty now s;
      Add_loop rest src nTimePenalty now (added + (if r : bool then 1 else 0)) s
  end.

Definition Add_ (vAddr : list (CService * Z * Z)) (src : CNetAddr)
    (nTimePenalty now : Z) (s : State) : option (bool * State) :=
  '(added, s) ← Add_loop vAddr src nTimePenalty now 0 s;
  Some (0 <? added, s).

Definition Attempt_ (addr : CService) (fCountFailure : bool) (nTime' : Z)
    (s : State) : option State :=
  match ByAddress_find (addr, false) (m_index s) with
  | None => Some s
  | Some it =>
      let last_good := nLastGood s in
      Modify it.1
        (λ i, let i := set_nLastTry nTime' i in
              if fCountFailure && (nLastCountAttempt i <? last_good)
              then set_nAttempts (add32 (nAttempts i) 1)
                     (set_nLastCountAttempt nTime' i)
              else i) s
  end.

Definition Connected_ (addr : CService) (nTime' : Z) (s : State)
    : option State :=
  match ByAddress_find (addr, false) (m_index s) with
  | None => Some s
  | Some it =>
      let nUpdateInterval := 20 * 60 in
      if nUpdateInterval <? sub64 nTime' (nTime it.2)
      then Modify it.1 (set_nTime (wrapU 32 nTime')) s
      else Some s
  end.

Definition SetServices_ (addr : CService) (nServices' : Z) (s : State)
    : option State :=
  match ByAddress_find (addr, false) (m_index s) with
  | None => Some s
  | Some it => Modify it.1 (set_nServices nServices') s
  end.

(** ** The collision set

    [m_tried_collisions] is a [std::set<const AddrInfo*>]: it keeps its
    elements in the order of the addresses of the nodes.  That order is not
    fixed by the program; it comes in as [order], a list of the names of the
    nodes in increasing order of their addresses.  The elements of the set in
    the order in which an iterator passes them: *)
Definition in_order (order : list ptr) (X : gset ptr) : list ptr :=
  filter (λ p, p ∈ X) order.

(** One round of the loop of [ResolveCollisions_], for the element [it]. *)
Definition ResolveCollisions_round (it : ptr) (now : Z) (s : State)
    : option State :=
  info_new ← index_lookup it (m_index s);
  let tried_bucket := GetTriedBucket info_new (nKey s) (m_asmap s) in
  let tried_bucket_pos :=
    GetBucketPosition info_new (nKey s) false tried_bucket in
  '(erase_collision, s) ←
    match ByBucket_find (true, tried_bucket, tried_bucket_pos) (m_index s) with
    | Some it_old =>
        let info_old := it_old.2 in
        if sub64 now (nLastSuccess info_old)
           <? ADDRMAN_REPLACEMENT_HOURS * (60 * 60)
        then Some (true, s)
        else if sub64 now (nLastTry info_old)
                <? ADDRMAN_REPLACEMENT_HOURS * (60 * 60)
        then
          if 60 <? sub64 now (nLastTry info_old) then
            '(_, s) ← Good_ (service info_new) false now s;
            Some (true, s)
          else Some (false, s)
        else if ADDRMAN_TEST_WINDOW <? sub64 now (nLastSuccess info_new)
        then
          '(_, s) ← Good_ (service info_new) false now s;
          Some (true, s)
        else Some (false, s)
    | None =>
        '(_, s) ← Good_ (service info_new) false now s;
        Some (true, s)
    end;
  Some (if erase_collision : bool
        then set_tried_collisions (m_tried_collisions s ∖ {[it]}) s
        else s).

(** The loop of [ResolveCollisions_].  The iterator [it] is the element it
    points at, [None] for [end()]; the recursion walks along [order] up to
    that element.  [next_it] is taken before the round, from the set as it
    is then: an element that the round adds between the two is passed over,
    and an element that a round erases is not visited later, as it is no
    longer in the set.  Only when the round erases the element of [next_it]
    itself the iterator is invalidated, and going on with it has no defined
    result ([None]). *)
Fixpoint ResolveCollisions_loop (order : list ptr) (it : option ptr)
    (now : Z) (s : State) : option State :=
  match order with
  | [] => Some s
  | p :: rest =>
      if decide (it = Some p) then
        let next_it := head (in_order rest (m_tried_collisions s)) in
        s ← ResolveCollisions_round p now s;
        match next_it with
        | Some nx =>
            if decide (nx ∈ m_tried_collisions s)
            then ResolveCollisions_loop rest next_it now s
            else None
        | None => Some s
        end
      else ResolveCollisions_loop rest it now s
  end.

Definition ResolveCollisions_ (order : list ptr) (now : Z) (s : State)
    : option State :=
  ResolveCollisions_loop order
    (head (in_order order (m_tried_collisions s))) now s.

(** [None] inside the result is the value-initialised pair [{}];
    [std::advance] counts the elements in the order of the set. *)
Definition SelectTriedCollision_ (order : list ptr) (s : State)
    : option (option ((CService * Z * Z) * Z) * State) :=
  if Z.of_nat (size (m_tried_collisions s)) =? 0 then Some (None, s)
  else
    let '(r, s) := randrange (Z.of_nat (size (m_tried_collisions s))) s in
    it_new ← in_order order (m_tried_collisions s) !! Z.to_nat r;
    newInfo ← index_lookup it_new (m_index s);
    let tried_bucket := GetTriedBucket newInfo (nKey s) (m_asmap s) in
    let tried_bucket_pos :=
      GetBucketPosition newInfo (nKey s) false tried_bucket in
    match ByBucket_find (true, tried_bucket, tried_bucket_pos) (m_index s) with
    | Some it_old => Some (Some (to_CAddress it_old.2, nLastTry it_old.2), s)
    | None => Some (None, s)
    end.

(** [AddressPosition(tried, multiplicity, bucket, position)]. *)
Definition FindAddressEntry_ (addr : CService) (s : State)
    : option (bool * Z * Z * Z) :=
  match ByAddress_find (addr, false) (m_index s) with
  | None => None
  | Some it =>
      let addr_info := it.2 in
      if fInTried addr_info then
        let bucket := GetTriedBucket addr_info (nKey s) (m_asmap s) in
        Some (true, 1, bucket,
              GetBucketPosition addr_info (nKey s) false bucket)
      else
        let bucket :=
          GetNewBucket addr_info (nKey s) (source addr_info) (m_asmap s) in
        Some (false, CountAddr (service addr_info) s, bucket,
              GetBucketPosition addr_info (nKey s) true bucket)
  end.

(** ** Selection *)

(** [for (i = 0; i < ADDRMAN_BUCKET_SIZE; ++i)] of [Select_]. *)
Fixpoint Select_scan (n : nat) (i : Z) (tried : bool) (bucket pos : Z)
    (idx : AddrManIndex) : option node :=
  match n with
  | O => None
  | S n' =>
      match ByBucket_find (tried, bucket, (pos + i) mod ADDRMAN_BUCKET_SIZE) idx with
      | Some it => Some it
      | None => Select_scan n' (i + 1) tried bucket pos idx
      end
  end.

(** [while (1)] of [Select_]; [fuel] bounds the number of rounds. *)
Fixpoint Select_loop (fuel : nat) (tried : bool) (rejections : nat) (now : Z)
    (s : State) : option (option ((CService * Z * Z) * Z) * State) :=
  match fuel with
  | O => None
  | S fuel' =>
      let '(bucket, s) :=
        randrange (if tried then ADDRMAN_TRIED_BUCKET_COUNT
                   else ADDRMAN_NEW_BUCKET_COUNT) s in
      let '(pos, s) := randrange ADDRMAN_BUCKET_SIZE s in
      match Select_scan (Z.to_nat ADDRMAN_BUCKET_SIZE) 0 tried bucket pos
              (m_index s) with
      | None => Select_loop fuel' tried rejections now s
      | Some it =>
          let '(draw, s) := randbits 30 s in
          if GetChance_accepts draw rejections it.2 now
          then Some (Some (to_CAddress it.2, nLastTry it.2), s)
          else Select_loop fuel' tried (S rejections) now s
      end
  end.

Definition Select_ (fuel : nat) (newOnly : bool) (now : Z) (s : State)
    : option (option ((CService * Z * Z) * Z) * State) :=
  match m_index s with
  | [] => Some (None, s)
  | _ :: _ =>
      if newOnly && (nNew s =? 0) then Some (None, s)
      else
        let '(use_tried, s) :=
          if negb newOnly && (0 <? nTried s) then
            if nNew s =? 0 then (true, s)
            else let '(b, s) := randbool s in (negb b, s)
          else (false, s) in
        Select_loop fuel use_tried 0 now s
  end.

Fixpoint GetAddr_loop (fuel : nat) (n nNodes : Z) (network : option Z)
    (now : Z) (addresses : list (CService * Z * Z)) (s : State)
    : option (list (CService * Z * Z) * State) :=
  match fuel with
  | O => Some (addresses, s)
  | S fuel' =>
      if nNodes <=? Z.of_nat (length addresses) then Some (addresses, s)
      else
        let '(r, s) := randrange (subsz (Z.of_nat (length (vRandom s))) n) s in
        let nRndPos := r + n in
        s ← SwapRandom n nRndPos s;
        it ← vRandom s !! Z.to_nat n;
        ai ← index_lookup it (m_index s);
        if match network with
           | Some net => negb (GetNetClass (service ai) =? net)
           | None => false
           end
        then GetAddr_loop fuel' (n + 1) nNodes network now addresses s
        else if IsTerrible ai now
        then GetAddr_loop fuel' (n + 1) nNodes network now addresses s
        else GetAddr_loop fuel' (n + 1) nNodes network now
               (addresses ++ [to_CAddress ai]) s
  end.

(** The number of addresses that [GetAddr_] aims at. *)
Definition GetAddr_nNodes (max_addresses max_pct : Z) (s : State) : Z :=
  let nNodes := Z.of_nat (length (vRandom s)) in
  let nNodes := if max_pct =? 0 then nNodes else mulsz max_pct nNodes / 100 in
  if max_addresses =? 0 then nNodes else Z.min nNodes max_addresses.

Definition GetAddr_ (max_addresses max_pct : Z) (network : option Z)
    (now : Z) (s : State) : option (list (CService * Z * Z) * State) :=
  GetAddr_loop (length (vRandom s)) 0
    (GetAddr_nNodes max_addresses max_pct s) network now [] s.

(** ** The consistency checker *)

Fixpoint CheckAddrman_ByAddress (prev : option node) (l : list node)
    (s : State) (counted_new counted_tried : Z) : Z + Z * Z :=
  match l with
  | [] => inr (counted_new, counted_tried)
  | it :: rest =>
      let info := it.2 in
      let same_as_prev :=
        match prev with
        | Some p => bool_decide (service info = service p.2)
        | None => false
        end in
      let r : Z + Z * Z :=
        if nRandomPos info =? -1 then
          if fInTried info then inl (-1)
          else if negb same_as_prev then inl (-2)
          else inr (counted_new, counted_tried)
        else
          if (nRandomPos info <? 0)
             || (Z.of_nat (length (vRandom s)) <=? nRandomPos info)
          then inl (-22)
          else if negb (bool_decide
                          (vRandom s !! Z.to_nat (nRandomPos info) = Some it.1))
          then inl (-23)
          else if same_as_prev then inl (-3)
          else if fInTried info then inr (counted_new, counted_tried + 1)
          else inr (counted_new + 1, counted_tried) in
      match r with
      | inl e => inl e
      | inr (cn, ct) =>
          let copy := Rebucket (nKey s) (m_asmap s) info in
          if negb (m_bucket copy =? m_bucket info)
             || negb (m_bucketpos copy =? m_bucketpos info)
          then inl (-5)
          else CheckAddrman_ByAddress (Some it) rest s cn ct
      end
  end.

(** Whether two neighbours of the by-bucket order share their key. *)
Fixpoint CheckAddrman_ByBucket (prev : option node) (l : list node) : bool :=
  match l with
  | [] => false
  | it :: rest =>
      match prev with
      | Some p =>
          if bool_decide (ByBucketExtractor it.2 = ByBucketExtractor p.2)
          then true else CheckAddrman_ByBucket (Some it) rest
      | None => CheckAddrman_ByBucket (Some it) rest
      end
  end.

Definition CheckAddrman (s : State) : Z :=
  match CheckAddrman_ByAddress None (m_index s) s 0 0 with
  | inl e => e
  | inr (counted_new, counted_tried) =>
      if negb (counted_new =? nNew s) then -6
      else if negb (counted_tried =? nTried s) then -7
      else if negb (counted_new + counted_tried
                    =? Z.of_nat (length (vRandom s))) then -8
      else if CheckAddrman_ByBucket None (ByBucket (m_index s)) then -10
      else 0
  end.

Definition Check (s : State) : option State :=
  if m_consistency_check_ratio s =? 0 then Some s
  else
    let '(r, s) := randrange (wrapU 64 (m_consistency_check_ratio s)) s in
    if 1 <=? r then Some s
    else if CheckAddrman s =? 0 then Some s
    else None.

(** ** Public operations *)

Definition Add (vAddr : list (CService * Z * Z)) (src : CNetAddr)
    (nTimePenalty now : Z) (s : State) : option (bool * State) :=
  s ← Check s;
  '(ret, s) ← Add_ vAddr src nTimePenalty now s;
  s ← Check s;
  Some (ret, s).

Definition Good (addr : CService) (nTime' : Z) (s : State)
    : option (bool * State) :=
  s ← Check s;
  '(ret, s) ← Good_ addr true nTime' s;
  s ← Check s;
  Some (ret, s).

Definition Attempt (addr : CService) (fCountFailure : bool) (nTime' : Z)
    (s : State) : option State :=
  s ← Check s; s ← Attempt_ addr fCountFailure nTime' s; Check s.

Definition ResolveCollisions (order : list ptr) (now : Z) (s : State)
    : option State :=
  s ← Check s; s ← ResolveCollisions_ order now s; Check s.

Definition SelectTriedCollision (order : list ptr) (s : State)
    : option (option ((CService * Z * Z) * Z) * State) :=
  s ← Check s;
  '(ret, s) ← SelectTriedCollision_ order s;
  s ← Check s;
  Some (ret, s).

Definition Select (fuel : nat) (newOnly : bool) (now : Z) (s : State)
    : option (option ((CService * Z * Z) * Z) * State) :=
  s ← Check s;
  '(ret, s) ← Select_ fuel newOnly now s;
  s ← Check s;
  Some (ret, s).

Definition GetAddr (max_addresses max_pct : Z) (network : option Z)
    (now : Z) (s : State) : option (list (CService * Z * Z) * State) :=
  s ← Check s;
  '(ret, s) ← GetAddr_ max_addresses max_pct network now s;
  s ← Check s;
  Some (ret, s).

Definition Connected (addr : CService) (nTime' : Z) (s : State)
    : option State :=
  s ← Check s; s ← Connected_ addr nTime' s; Check s.

Definition SetServices (addr : CService) (nServices' : Z) (s : State)
    : option State :=
  s ← Check s; s ← SetServices_ addr nServices' s; Check s.

Definition FindAddressEntry (addr : CService) (s : State)
    : option (option (bool * Z * Z * Z) * State) :=
  s ← Check s;
  let entry := FindAddressEntry_ addr s in
  s ← Check s;
  Some (entry, s).

Definition AddrMan_size (s : State) : Z := Z.of_nat (length (vRandom s)).

(** ** Serialisation

    A stream is the list of its bytes.  Integers are written little-endian
    in two's complement, as [serialize.h] does. *)

Fixpoint ser_le (n : nat) (z : Z) : list Z :=
  match n with
  | O => []
  | S n' => z mod 256 :: ser_le n' (z / 256)
  end.

Fixpoint read_le (n : nat) (bs : list Z) : option (Z * list Z) :=
  match n with
  | O => Some (0, bs)
  | S n' =>
      match bs with
      | [] => None
      | b :: bs' =>
          '(v, rest) ← read_le n' bs';
          Some (b mod 256 + 256 * v, rest)
      end
  end.

Definition ser_uint8 (z : Z) : list Z := ser_le 1 z.
Definition ser_int32 (z : Z) : list Z := ser_le 4 z.
Definition ser_uint32 (z : Z) : list Z := ser_le 4 z.
Definition ser_int64 (z : Z) : list Z := ser_le 8 z.
Definition ser_uint256 (z : Z) : list Z := ser_le 32 z.

Definition unser_uint8 (bs : list Z) : option (Z * list Z) := read_le 1 bs.
Definition unser_uint32 (bs : list Z) : option (Z * list Z) := read_le 4 bs.
Definition unser_uint256 (bs : list Z) : option (Z * list Z) := read_le 32 bs.
Definition unser_int32 (bs : list Z) : option (Z * list Z) :=
  '(v, rest) ← read_le 4 bs; Some (wrapS 32 v, rest).
Definition unser_int64 (bs : list Z) : option (Z * list Z) :=
  '(v, rest) ← read_le 8 bs; Some (wrapS 64 v, rest).

Definition V0_HISTORICAL : Z := 0.
Definition V1_DETERMINISTIC : Z := 1.
Definition V2_ASMAP : Z := 2.
Definition V3_BIP155 : Z := 3.
Definition V4_MULTIPORT : Z := 4.
Definition V5_MULTIINDEX : Z := 5.
Definition FILE_FORMAT : Z := V5_MULTIINDEX.
Definition INCOMPATIBILITY_BASE : Z := 32.

(** [for (i = 0; i < alias_count; ++i)] of [Serialize], walking the
    by-address index from the main entry on. *)
Fixpoint Serialize_sources (n : nat) (addrit : list node) (in_tried : bool)
    : option (list Z) :=
  match n with
  | O => Some []
  | S n' =>
      match addrit with
      | [] => None
      | it :: rest =>
          if bool_decide (fInTried it.2 = in_tried) then
            out ← Serialize_sources n' rest in_tried;
            Some (ser_CNetAddr true (source it.2) ++ out)
          else None
      end
  end.

(** The loop of [Serialize] over the by-bucket index. *)
Fixpoint Serialize_loop (l : list node) (n_left : Z) (in_tried : bool)
    (s : State) : option (list Z) :=
  match l with
  | [] => Some []
  | it :: rest =>
      if nRandomPos it.2 =? -1 then Serialize_loop rest n_left in_tried s
      else
        '(n_left, in_tried) ←
          (if n_left =? 0
           then if in_tried then None else Some (nTried s, true)
           else Some (n_left, in_tried));
        let alias_count := CountAddr (service it.2) s in
        let out1 :=
          ser_CAddress true (to_CAddress it.2)
          ++ ser_int64 (nLastTry it.2)
          ++ ser_int64 (nLastCountAttempt it.2)
          ++ ser_int64 (nLastSuccess it.2)
          ++ ser_int32 (nAttempts it.2) in
        out2 ← (if negb in_tried then Some (ser_uint32 alias_count)
                else if alias_count =? 1 then Some [] else None);
        out3 ← Serialize_sources (Z.to_nat alias_count)
                  (from_iterator it.1 (m_index s)) in_tried;
        out4 ← Serialize_loop rest (n_left - 1) in_tried s;
        Some (out1 ++ out2 ++ out3 ++ out4)
  end.

Definition Serialize (s : State) : option (list Z) :=
  body ← Serialize_loop (ByBucket (m_index s)) (nNew s) false s;
  Some (ser_uint8 FILE_FORMAT
        ++ ser_uint8 (INCOMPATIBILITY_BASE + V5_MULTIINDEX)
        ++ ser_uint256 (nKey s)
        ++ ser_int32 (nNew s)
        ++ ser_int32 (nTried s)
        ++ body).

(** [for (i = 0; i < sources; ++i)] of [Unserialize]: every source after the
    first is read from the stream, the entry is placed and inserted. *)
Fixpoint Unserialize_sources (n : nat) (first : bool) (v2 : bool)
    (info : AddrInfo) (bs : list Z) (s : State) : option (list Z * State) :=
  match n with
  | O => Some (bs, s)
  | S n' =>
      '(info, bs) ←
        (if first then Some (info, bs)
         else '(src, bs) ← unser_CNetAddr v2 bs; Some (set_source src info, bs));
      let info := Rebucket (nKey s) (m_asmap s) info in
      s ← match ByBucket_find (ByBucketExtractor info) (m_index s) with
          | Some it_bucket => Erase it_bucket.1 s
          | None => Some s
          end;
      '(alias, s) ←
        match ByAddress_lower_bound (service info, false) (m_index s) with
        | Some it_addr =>
            if decide (service it_addr.2 = service info) then
              if fInTried info then
                s ← Erase_address (length (m_index s)) (service info) s;
                Some (false, s)
              else Some (true, s)
            else Some (false, s)
        | None => Some (false, s)
        end;
      Unserialize_sources n' false v2 info bs (Insert info alias s).2
  end.

(** One round of [for (i = 0; i < read_new + read_tried; ++i)]. *)
Definition Unserialize_entry (format : Z) (v2 : bool) (i read_new : Z)
    (bs : list Z) (s : State) : option (list Z * State) :=
  if V5_MULTIINDEX <=? format then
    '(addr, bs) ← unser_CAddress v2 bs;
    '(last_try, bs) ← unser_int64 bs;
    '(last_count_attempt, bs) ← unser_int64 bs;
    '(last_success, bs) ← unser_int64 bs;
    '(attempts, bs) ← unser_int32 bs;
    '(sources, bs) ← (if i <? read_new then unser_uint32 bs else Some (1, bs));
    if sources =? 0 then Some (bs, s)
    else
      '(src, bs) ← unser_CNetAddr v2 bs;
      let info :=
        mkAddrInfo addr.1.1 addr.1.2 addr.2 src last_try last_count_attempt
          last_success attempts (negb (i <? read_new)) (-1) 0 0 in
      Unserialize_sources (Z.to_nat sources) true v2 info bs s
  else
    '(addr, bs) ← unser_CAddress v2 bs;
    '(src, bs) ← unser_CNetAddr v2 bs;
    '(last_success, bs) ← unser_int64 bs;
    '(attempts, bs) ← unser_int32 bs;
    let info :=
      mkAddrInfo addr.1.1 addr.1.2 addr.2 src 0 0 last_success attempts
        (negb (i <? read_new)) (-1) 0 0 in
    Unserialize_sources 1 true v2 info bs s.

Fixpoint Unserialize_entries (n : nat) (format : Z) (v2 : bool)
    (i read_new : Z) (bs : list Z) (s : State) : option (list Z * State) :=
  match n with
  | O => Some (bs, s)
  | S n' =>
      '(bs, s) ← Unserialize_entry format v2 i read_new bs s;
      Unserialize_entries n' format v2 (i + 1) read_new bs s
  end.

(** The bucket section of the old formats is read and ignored. *)
Fixpoint Unserialize_skip_ints (n : nat) (bs : list Z) : option (list Z) :=
  match n with
  | O => Some bs
  | S n' => '(_, bs) ← unser_int32 bs; Unserialize_skip_ints n' bs
  end.
Fixpoint Unserialize_skip_buckets (n : nat) (bs : list Z) : option (list Z) :=
  match n with
  | O => Some bs
  | S n' =>
      '(num_entries, bs) ← unser_int32 bs;
      bs ← Unserialize_skip_ints (Z.to_nat num_entries) bs;
      Unserialize_skip_buckets n' bs
  end.

(** [Unserialize]; what is left of the stream comes with the state. *)
Definition Unserialize (bs : list Z) (s : State) : option (list Z * State) :=
  match m_index s with
  | _ :: _ => None
  | [] =>
      '(format, bs) ← unser_uint8 bs;
      let v2 := V3_BIP155 <=? format in
      '(compat, bs) ← unser_uint8 bs;
      let lowest_compatible := wrapU 8 (compat - INCOMPATIBILITY_BASE) in
      if FILE_FORMAT <? lowest_compatible then None
      else
        '(key, bs) ← unser_uint256 bs;
        let s := set_nKey key s in
        '(read_new, bs) ← unser_int32 bs;
        '(read_tried, bs) ← unser_int32 bs;
        '(nUBuckets, bs) ←
          (if format <? V5_MULTIINDEX then
             '(n, bs) ← unser_int32 bs;
             Some (if V1_DETERMINISTIC <=? format
                   then Z.lxor n (Z.shiftl 1 30) else n, bs)
           else Some (0, bs));
        '(bs, s) ← Unserialize_entries
                     (Z.to_nat (wrapS 32 (read_new + read_tried)))
                     format v2 0 read_new bs s;
        bs ← (if format <? V5_MULTIINDEX then
                bs ← Unserialize_skip_buckets (Z.to_nat nUBuckets) bs;
                if V2_ASMAP <=? format
                then '(_, bs) ← unser_uint256 bs; Some bs
                else Some bs
              else Some bs);
        if CheckAddrman s =? 0 then Some (bs, s) else None
  end.

(** ** Laws of the collaborators *)

(** A strict total order given by its boolean test. *)
Record StrictOrderB {K : Type} (ltb : K → K → bool) : Prop := {
  ltb_irrefl : ∀ a, ltb a a = false;
  ltb_trans : ∀ a b c, ltb a b = true → ltb b c = true → ltb a c = true;
  ltb_total : ∀ a b, ltb a b = false → ltb b a = false → a = b;
}.

Definition CAddress_in_range (a : CService * Z * Z) : Prop :=
  in_u 32 a.1.2 ∧ in_u 64 a.2.

Class NetLaws : Prop := {
  CService_order : StrictOrderB CService_ltb;
  (** reading back what was written, whatever follows in the stream *)
  CAddress_roundtrip : ∀ v2 a rest,
    CAddress_in_range a →
    unser_CAddress v2 (ser_CAddress v2 a ++ rest) = Some (a, rest);
  CNetAddr_roundtrip : ∀ v2 a rest,
    unser_CNetAddr v2 (ser_CNetAddr v2 a ++ rest) = Some (a, rest);
  (** the time is a [uint32_t] and the service flags a [uint64_t] *)
  CAddress_unser_range : ∀ v2 bs a rest,
    unser_CAddress v2 bs = Some (a, rest) → CAddress_in_range a;
}.

(** ** Invariants of the data model *)

(** The ranges of the fields of an entry. *)
Definition AddrInfo_in_range (i : AddrInfo) : Prop :=
  in_u 32 (nTime i) ∧ in_u 64 (nServices i) ∧ in_s 64 (nLastTry i)
  ∧ in_s 64 (nLastCountAttempt i) ∧ in_s 64 (nLastSuccess i)
  ∧ in_s 32 (nAttempts i).

(** The number of nodes with a property. *)
Definition count_nodes (P : node → Prop) `{∀ n, Decision (P n)}
    (idx : AddrManIndex) : Z :=
  Z.of_nat (length (filter P idx)).

Definition canonical_new (n : node) : Prop :=
  is_alias n.2 = false ∧ fInTried n.2 = false.
Definition canonical_tried (n : node) : Prop :=
  is_alias n.2 = false ∧ fInTried n.2 = true.

Global Instance canonical_new_dec n : Decision (canonical_new n).
Proof. unfold canonical_new. apply _. Defined.
Global Instance canonical_tried_dec n : Decision (canonical_tried n).
Proof. unfold canonical_tried. apply _. Defined.

(** The by-address index is in order. *)
Definition ByAddress_le (x y : node) : Prop :=
  ByAddress_ltb (ByAddressExtractor y.2) (ByAddressExtractor x.2) = false.
Definition ByAddress_sorted (idx : AddrManIndex) : Prop :=
  StronglySorted ByAddress_le idx.

(** Invariant 1: a slot holds at most one entry. *)
Definition slots_unique (idx : AddrManIndex) : Prop :=
  ∀ n1 n2, n1 ∈ idx → n2 ∈ idx →
    ByBucketExtractor n1.2 = ByBucketExtractor n2.2 → n1 = n2.

(** Invariants 2 and 3: one main entry per address; aliases are in the new
    table next to a main entry of the new table. *)
Definition canonical_unique (idx : AddrManIndex) : Prop :=
  ∀ n1 n2, n1 ∈ idx → n2 ∈ idx →
    is_alias n1.2 = false → is_alias n2.2 = false →
    service n1.2 = service n2.2 → n1 = n2.
Definition aliases_ok (idx : AddrManIndex) : Prop :=
  ∀ n, n ∈ idx → is_alias n.2 = true →
    fInTried n.2 = false
    ∧ ∃ c, c ∈ idx ∧ is_alias c.2 = false ∧ fInTried c.2 = false
           ∧ service c.2 = service n.2.

(** Invariant 5: the slot of an entry is the one the hasher computes. *)
Definition buckets_ok (key : Z) (asmap : list bool) (idx : AddrManIndex)
    : Prop :=
  ∀ n, n ∈ idx → Rebucket key asmap n.2 = n.2.

(** What the container alone has to satisfy. *)
Record index_ok (key : Z) (asmap : list bool) (idx : AddrManIndex)
    : Prop := {
  ok_sorted : ByAddress_sorted idx;
  ok_ptrs : NoDup idx.*1;
  ok_buckets : buckets_ok key asmap idx;
  ok_slots : slots_unique idx;
  ok_canonical : canonical_unique idx;
  ok_aliases : aliases_ok idx;
  ok_ranges : ∀ n, n ∈ idx → AddrInfo_in_range n.2;
}.

(** Invariant 7: the random vector and the positions of the main entries. *)
Definition vRandom_ok (idx : AddrManIndex) (vRandom : list ptr) : Prop :=
  (∀ n, n ∈ idx → is_alias n.2 = false →
     0 <= nRandomPos n.2
     ∧ vRandom !! Z.to_nat (nRandomPos n.2) = Some n.1)
  ∧ (∀ i p, vRandom !! i = Some p →
       ∃ e, (p, e) ∈ idx ∧ nRandomPos e = Z.of_nat i).

Record Inv (s : State) : Prop := {
  inv_index : index_ok (nKey s) (m_asmap s) (m_index s);
  inv_fresh : ∀ n, n ∈ m_index s → (n.1 < next_ptr s)%nat;
  inv_nNew : nNew s = count_nodes canonical_new (m_index s);
  inv_nTried : nTried s = count_nodes canonical_tried (m_index s);
  inv_vRandom : vRandom_ok (m_index s) (vRandom s);
  inv_collisions : ∀ p, p ∈ m_tried_collisions s → p ∈ (m_index s).*1;
  inv_key : in_u 256 (nKey s);
}.

(** The entries of an address. *)
Definition has_service (a : CService) (n : node) : Prop := service n.2 = a.
Global Instance has_service_dec a n : Decision (has_service a n).
Proof. unfold has_service. apply _. Defined.

(** Two values of an entry that differ in statistics and random position
    only. *)
Definition same_place (e e' : AddrInfo) : Prop :=
  service e' = service e ∧ source e' = source e
  ∧ fInTried e' = fInTried e ∧ is_alias e' = is_alias e
  ∧ m_bucket e' = m_bucket e ∧ m_bucketpos e' = m_bucketpos e.

(** Two values of an entry that differ in the random position only. *)
Definition same_entry (e e' : AddrInfo) : Prop :=
  is_alias e' = is_alias e ∧ set_nRandomPos 0 e' = set_nRandomPos 0 e.

(** Two states that differ in the container and the random vector only. *)
Definition same_config (s s' : State) : Prop :=
  nKey s' = nKey s ∧ m_asmap s' = m_asmap s ∧ next_ptr s' = next_ptr s
  ∧ nLastGood s' = nLastGood s
  ∧ m_consistency_check_ratio s' = m_consistency_check_ratio s
  ∧ insecure_rand s' = insecure_rand s.

(** Two states with the same key, map, clock of [Good] and random tape. *)
Definition same_env (s s' : State) : Prop :=
  nKey s' = nKey s ∧ m_asmap s' = m_asmap s
  ∧ nLastGood s' = nLastGood s
  ∧ m_consistency_check_ratio s' = m_consistency_check_ratio s
  ∧ insecure_rand s' = insecure_rand s.

(** The entries of [idx] are those of [idx'], up to random positions. *)
Definition same_entries (idx idx' : AddrManIndex) : Prop :=
  idx'.*1 = idx.*1
  ∧ (∀ n, n ∈ idx → ∃ e', (n.1, e') ∈ idx' ∧ same_entry n.2 e')
  ∧ (∀ n', n' ∈ idx' → ∃ e, (n'.1, e) ∈ idx ∧ same_entry e n'.2).

(** What [Erase] of an entry [e] leaves behind. *)
Record erase_post (s : State) (e : AddrInfo) (s' : State) : Prop := {
  erased_inv : Inv s';
  erased_config : same_config s s';
  erased_length : length (m_index s) = S (length (m_index s'));
  (** no entry appears and no entry changes its address or its table *)
  erased_old : ∀ n', n' ∈ m_index s' →
    ∃ n, n ∈ m_index s ∧ n'.1 = n.1 ∧ service n'.2 = service n.2
         ∧ is_alias n'.2 = is_alias n.2 ∧ fInTried n'.2 = fInTried n.2;
  (** no slot becomes occupied *)
  erased_slots : ∀ n', n' ∈ m_index s' →
    ∃ n, n ∈ m_index s ∧ ByBucketExtractor n.2 = ByBucketExtractor n'.2;
  (** the entries of the other addresses stay *)
  erased_others : ∀ n, n ∈ m_index s → service n.2 ≠ service e →
    ∃ e', (n.1, e') ∈ m_index s' ∧ same_entry n.2 e';
  (** the slot of [e] is free *)
  erased_free : ∀ n', n' ∈ m_index s' →
    ByBucketExtractor n'.2 ≠ ByBucketExtractor e;
  (** the address of [e] has one entry less *)
  erased_count : ∀ a,
    count_nodes (has_service a) (m_index s')
    = count_nodes (has_service a) (m_index s)
      - (if decide (a = service e) then 1 else 0);
}.

(** What a run of [Erase] calls leaves behind. *)
Record shrinks (s s' : State) : Prop := {
  shr_config : same_config s s';
  shr_old : ∀ n', n' ∈ m_index s' →
    ∃ n, n ∈ m_index s ∧ n'.1 = n.1 ∧ service n'.2 = service n.2
         ∧ is_alias n'.2 = is_alias n.2 ∧ fInTried n'.2 = fInTried n.2;
  shr_slots : ∀ n', n' ∈ m_index s' →
    ∃ n, n ∈ m_index s ∧ ByBucketExtractor n.2 = ByBucketExtractor n'.2;
  shr_count : ∀ a,
    count_nodes (has_service a) (m_index s')
    <= count_nodes (has_service a) (m_index s);
}.

(** The entries of the addresses in [P] stay, up to random positions. *)
Definition keeps (P : CService → Prop) (s s' : State) : Prop :=
  ∀ n, n ∈ m_index s → P (service n.2) →
    ∃ e', (n.1, e') ∈ m_index s' ∧ same_entry n.2 e'.

(** The entry that [Insert] stores. *)
Definition Insert_info (info : AddrInfo) (alias : bool) (s : State)
    : AddrInfo :=
  set_nRandomPos (if alias then -1 else Z.of_nat (length (vRandom s)))
    (Rebucket (nKey s) (m_asmap s) info).

(** Invariant 4: at most [ADDRMAN_NEW_BUCKETS_PER_ADDRESS] entries per
    address. *)
Definition refs_bounded (s : State) : Prop :=
  ∀ a, CountAddr a s <= ADDRMAN_NEW_BUCKETS_PER_ADDRESS.

(** No entry is in the tried table. *)
Definition no_tried (s : State) : Prop :=
  ∀ n, n ∈ m_index s → fInTried n.2 = false.

(** The same bound on the container as a sequence. *)
Definition entries_bounded (s : State) : Prop :=
  ∀ a, count_nodes (has_service a) (m_index s)
       <= ADDRMAN_NEW_BUCKETS_PER_ADDRESS.

(** What every operation establishes: the invariants hold afterwards, and
    the bound on the entries of an address is kept. *)
Definition good_step (s s' : State) : Prop :=
  Inv s' ∧ (entries_bounded s → entries_bounded s').

(** ** The states that the public interface reaches *)

(** A list of node names can be the order of the addresses of the nodes:
    no name twice, and every element of the collision set in it.  The
    operations that walk the set are taken with every such order. *)
Definition ptr_order (order : list ptr) (s : State) : Prop :=
  NoDup order ∧ ∀ p, p ∈ m_tried_collisions s → p ∈ order.

Inductive step : State → State → Prop :=
| step_Add vAddr src nTimePenalty now s r s' :
    Forall CAddress_in_range vAddr → in_s 64 nTimePenalty → in_s 64 now →
    Add vAddr src nTimePenalty now s = Some (r, s') → step s s'
| step_Good addr nTime' s r s' :
    in_s 64 nTime' →
    Good addr nTime' s = Some (r, s') → step s s'
| step_Attempt addr fCountFailure nTime' s s' :
    in_s 64 nTime' →
    Attempt addr fCountFailure nTime' s = Some s' → step s s'
| step_Connected addr nTime' s s' :
    in_s 64 nTime' →
    Connected addr nTime' s = Some s' → step s s'
| step_SetServices addr nServices' s s' :
    in_u 64 nServices' →
    SetServices addr nServices' s = Some s' → step s s'
| step_ResolveCollisions order now s s' :
    in_s 64 now → ptr_order order s →
    ResolveCollisions order now s = Some s' → step s s'
| step_SelectTriedCollision order s r s' :
    ptr_order order s →
    SelectTriedCollision order s = Some (r, s') → step s s'
| step_Select fuel newOnly now s r s' :
    Select fuel newOnly now s = Some (r, s') → step s s'
| step_GetAddr max_addresses max_pct network now s r s' :
    GetAddr max_addresses max_pct network now s = Some (r, s') → step s s'
| step_FindAddressEntry addr s r s' :
    FindAddressEntry addr s = Some (r, s') → step s s'.

(** Reachable from a new manager by the operations, without loading. *)
Inductive api_reachable : State → Prop :=
| api_new key asmap ratio rand :
    in_u 256 key → api_reachable (AddrMan_new key asmap ratio rand)
| api_step s s' : api_reachable s → step s s' → api_reachable s'.

(** Reachable when loading a stream into a new manager is allowed too. *)
Inductive reachable : State → Prop :=
| reach_new key asmap ratio rand :
    in_u 256 key → reachable (AddrMan_new key asmap ratio rand)
| reach_Unserialize key asmap ratio rand bs rest s :
    Unserialize bs (AddrMan_new key asmap ratio rand) = Some (rest, s) →
    reachable s
| reach_step s s' : reachable s → step s s' → reachable s'.

(** ** What serialisation keeps

    The main entries without their place in the random vector, and the
    aliases as address and source. *)
Definition main_entries (s : State) : list AddrInfo :=
  map (λ n : node, set_nRandomPos 0 n.2)
    (filter (λ n : node, is_alias n.2 = false) (m_index s)).
Definition alias_entries (s : State) : list (CService * CNetAddr) :=
  map (λ n : node, (service n.2, source n.2))
    (filter (λ n : node, is_alias n.2 = true) (m_index s)).

Definition state_equiv (s s' : State) : Prop :=
  nKey s = nKey s' ∧ nNew s = nNew s' ∧ nTried s = nTried s'
  ∧ main_entries s ≡ₚ main_entries s'
  ∧ alias_entries s ≡ₚ alias_entries s'.

(** ** The stream of a manager

    The entries of an address in the order of the by-address index, the
    main entries of a sequence of nodes, and the record that [Serialize]
    writes for a main entry. *)
Definition entries_of (a : CService) (idx : AddrManIndex) : list node :=
  filter (has_service a) idx.

Definition main_nodes (l : list node) : list node :=
  filter (λ n : node, is_alias n.2 = false) l.

Definition Serialize_record (s : State) (c : node) : list Z :=
  ser_CAddress true (to_CAddress c.2)
  ++ ser_int64 (nLastTry c.2)
  ++ ser_int64 (nLastCountAttempt c.2)
  ++ ser_int64 (nLastSuccess c.2)
  ++ ser_int32 (nAttempts c.2)
  ++ (if fInTried c.2 then []
      else ser_uint32 (Z.of_nat (length (entries_of (service c.2) (m_index s)))))
  ++ concat (map (λ n : node, ser_CNetAddr true (source n.2))
               (entries_of (service c.2) (m_index s))).

(** The manager [u] holds the nodes [Q] of the manager [s]: the main
    entries with their fields, the aliases with address and source, every
    node in the slot it has in [s]. *)
Record loaded (s : State) (Q : list node) (u : State) : Prop := {
  ld_inv : Inv u;
  ld_key : nKey u = nKey s;
  ld_asmap : m_asmap u = m_asmap s;
  ld_sub : ∀ n, n ∈ Q → n ∈ m_index s;
  ld_nodup : NoDup Q;
  ld_main :
    main_entries u
    ≡ₚ map (λ n : node, set_nRandomPos 0 n.2) (main_nodes Q);
  ld_alias :
    alias_entries u
    ≡ₚ map (λ n : node, (service n.2, source n.2))
         (filter (λ n : node, is_alias n.2 = true) Q);
  ld_nodes : ∀ n', n' ∈ m_index u →
    ∃ n, n ∈ Q ∧ service n'.2 = service n.2
         ∧ ByBucketExtractor n'.2 = ByBucketExtractor n.2;
}.

(** ** What [Add] leaves of a tried entry

    Two values of an entry that differ in the time, the services and the
    random position only. *)
Definition same_but_seen (e e' : AddrInfo) : Prop :=
  set_nTime 0 (set_nServices 0 (set_nRandomPos 0 e'))
  = set_nTime 0 (set_nServices 0 (set_nRandomPos 0 e)).

(** The tried counter stays and every tried entry stays, up to the time,
    the services and the random position. *)
Definition tried_kept (s s' : State) : Prop :=
  nTried s' = nTried s
  ∧ ∀ n : node, n ∈ m_index s → fInTried n.2 = true →
      ∃ e', (n.1, e') ∈ m_index s' ∧ same_but_seen n.2 e'.

(** No entry was stored or removed: the same nodes, counters, random vector
    and collision set; an entry can differ in its time and services. *)
Definition nothing_stored (s s' : State) : Prop :=
  (m_index s').*1 = (m_index s).*1 ∧ next_ptr s' = next_ptr s
  ∧ nNew s' = nNew s ∧ nTried s' = nTried s ∧ vRandom s' = vRandom s
  ∧ m_tried_collisions s' = m_tried_collisions s
  ∧ ∀ n : node, n ∈ m_index s →
      ∃ e', (n.1, e') ∈ m_index s' ∧ same_but_seen n.2 e'.

End AddrMan.

Abbreviation ptr := nat.
Abbreviation node := (ptr * AddrInfo)%type.
Abbreviation AddrManIndex := (list node).

(** * A small instance of the collaborators

    Addresses are natural numbers, the group of an address is its quotient
    by 64, and the hash adds up what it is fed, except that it is [0] on
    two operands and on anything tagged ['K'].  It is used to run the
    operations on concrete managers. *)
Module Toy.

Definition sum_list (l : list Z) : Z := foldr Z.add 0 l.

Definition item_value (i : HashItem) : Z :=
  match i with
  | HUint256 _ => 0
  | HBytes v => sum_list v
  | HUint64 z => z
  | HUint8 z => z
  | HInt z => z
  end.

Definition is_K (i : HashItem) : bool :=
  match i with
  | HUint8 z => z =? tag_K
  | _ => false
  end.

Definition hash (items : list HashItem) : Z :=
  if existsb is_K items then 0
  else if (length items =? 2)%nat then 0
  else sum_list (map item_value items).

(** A natural number in unary, closed by a zero byte. *)
Fixpoint ser_nat (n : nat) : list Z :=
  match n with
  | O => [0]
  | S n' => 1 :: ser_nat n'
  end.

Fixpoint unser_nat (bs : list Z) : option (nat * list Z) :=
  match bs with
  | [] => None
  | b :: rest =>
      if b =? 0 then Some (O, rest)
      else '(n, rest') ← unser_nat rest; Some (S n, rest')
  end.

#[export] Instance NT : NetTypes := {|
  CService := nat;
  CNetAddr := nat;
  ToNetAddr := λ a, a;
  CService_ltb := Nat.ltb;
  GetKey := λ a, [Z.of_nat a];
  GetGroup := λ a _, [Z.of_nat a / 64];
  IsRoutable := λ _, true;
  GetNetClass := λ _, 0;
  GetCheapHash := hash;
  ser_CAddress := λ _ a, ser_le 4 a.1.2 ++ ser_le 8 a.2 ++ ser_nat a.1.1;
  unser_CAddress := λ _ bs,
    '(t, bs) ← read_le 4 bs;
    '(sv, bs) ← read_le 8 bs;
    '(a, bs) ← unser_nat bs;
    Some ((a, t, sv), bs);
  ser_CNetAddr := λ _ a, ser_nat a;
  unser_CNetAddr := λ _ bs, unser_nat bs;
  chance_accepts := λ _ _ _ _, true;
|}.

(** The state of a run, or the starting state if the run failed. *)
Definition run {A} (s0 : State) (o : option (A * State)) : State :=
  match o with
  | Some (_, s) => s
  | None => s0
  end.

Definition s_new : State := AddrMan_new 0 [] 0 [].

(** The node that a search found, or a node that is nowhere. *)
Definition found (o : option node) : node :=
  default (0%nat, AddrInfo_new (0%nat, 0, 0) 0%nat) o.

(** The entry of a node, or an entry that is nowhere. *)
Definition entry_at (p : ptr) (s : State) : AddrInfo :=
  default (found None).2 (index_lookup p (m_index s)).

(** One address, announced by itself at time 1000. *)
Definition s_one : State :=
  run s_new (Add [(1%nat, 1000, 0)] 1%nat 0 1000 s_new).

(** The same address announced again by a source of another group. *)
Definition s_alias : State :=
  run s_one (Add [(1%nat, 2000, 0)] 100%nat 0 2000 s_one).

(** One address announced with time [0]. *)
Definition s_t0 : State :=
  run s_new (Add [(1%nat, 0, 0)] 1%nat 0 1000 s_new).

(** Twelve addresses of one group; all of them hash to one tried slot. *)
Definition twelve : list (nat * Z * Z) :=
  map (λ a : nat, (a, 1000, 0)) (seq 1 12).
Definition s_twelve : State := run s_new (Add twelve 1%nat 0 1000 s_new).

(** [Good] on the first eleven: the first is promoted, the next ten fill the
    collision set. *)
Definition s_full : State :=
  foldl (λ s (a : nat), run s (Good a 1000 s)) s_twelve (seq 1 11).

(** A stream in the current format with one new entry that lists nine
    sources of nine groups. *)
Definition nine : list Z :=
  ser_uint8 FILE_FORMAT ++ ser_uint8 (INCOMPATIBILITY_BASE + V5_MULTIINDEX)
  ++ ser_uint256 0 ++ ser_int32 1 ++ ser_int32 0
  ++ ser_CAddress true (1%nat, 1000, 0)
  ++ ser_int64 0 ++ ser_int64 0 ++ ser_int64 0 ++ ser_int32 0
  ++ ser_uint32 9
  ++ concat (map (λ k : nat, ser_CNetAddr true (64 * k)%nat) (seq 0 9)).
Definition s_nine : State := run s_new (Unserialize nine s_new).

(** One tried address and three new ones that collide with it; the third
    new address is in the slot that the tried one would go back to. *)
Definition s_three : State :=
  let s := run s_new (Add [(1%nat, 1000, 0)] 1%nat 0 1000 s_new) in
  let s := run s (Good 1%nat 1000 s) in
  let s := run s (Add [(2%nat, 1000, 0); ((64 * 256 + 1)%nat, 1000, 0);
                       (3%nat, 1000, 0)] 1%nat 0 1000 s) in
  let s := run s (Good 2%nat 1000 s) in
  let s := run s (Good 3%nat 1000 s) in
  run s (Good (64 * 256 + 1)%nat 1000 s).

(** The address that is in the tried table, if there is exactly one. *)
Definition tried_address (s : State) : option nat :=
  match filter (λ n : node, fInTried n.2 = true) (m_index s) with
  | [n] => Some (service n.2)
  | _ => None
  end.

End Toy.

(** * The placement functions in the words of the specification

    [H] is the cheap hash and [‖] the concatenation of the hashed
    operands; the constants are those of the specification. *)
Section SpecWords.
Context `{NT : NetTypes}.

Definition spec_BPG : Z := 8.
Definition spec_TRIED_BUCKETS : Z := 256.
Definition spec_BPSG : Z := 64.
Definition spec_NEW_BUCKETS : Z := 1024.
Definition spec_BUCKET_SIZE : Z := 64.

Definition spec_tag (is_new : bool) : Z :=
  Z.of_nat (Ascii.nat_of_ascii (if is_new then "N"%char else "K"%char)).

Definition spec_tried_bucket (K : Z) (addr : CService) (asmap : list bool)
    : Z :=
  let b1 := GetCheapHash [HUint256 K; HBytes (GetKey addr)] mod spec_BPG in
  GetCheapHash [HUint256 K; HBytes (GetGroup (ToNetAddr addr) asmap);
                HUint64 b1] mod spec_TRIED_BUCKETS.

Definition spec_new_bucket (K : Z) (addr : CService) (src : CNetAddr)
    (asmap : list bool) : Z :=
  let b1 := GetCheapHash [HUint256 K;
                          HBytes (GetGroup (ToNetAddr addr) asmap);
                          HBytes (GetGroup src asmap)] mod spec_BPSG in
  GetCheapHash [HUint256 K; HBytes (GetGroup src asmap); HUint64 b1]
    mod spec_NEW_BUCKETS.

Definition spec_bucket_pos (K : Z) (is_new : bool) (bucket : Z)
    (addr : CService) : Z :=
  GetCheapHash [HUint256 K; HUint8 (spec_tag is_new); HInt bucket;
                HBytes (GetKey addr)] mod spec_BUCKET_SIZE.

End SpecWords.

(** * Arithmetic and searches in sorted sequences *)

(** * Fixed-width integers *)

Lemma wrapU_small w z : in_u w z → wrapU w z = z.
Proof. unfold in_u, wrapU. intros. apply Z.mod_small. lia. Qed.

Lemma wrapU_range w z : 0 <= w → in_u w (wrapU w z).
Proof.
  unfold in_u, wrapU. intros. apply Z.mod_pos_bound.
  apply Z.pow_pos_nonneg; lia.
Qed.

Lemma wrapS_small w z : 0 < w → in_s w z → wrapS w z = z.
Proof.
  unfold in_s, wrapS. intros Hw Hz.
  assert (2 ^ w = 2 * 2 ^ (w - 1)) as E.
  { rewrite <- Z.pow_succ_r by lia. f_equal. lia. }
  rewrite Z.mod_small; lia.
Qed.

Lemma wrapS_range w z : 0 < w → in_s w (wrapS w z).
Proof.
  unfold in_s, wrapS. intros Hw.
  assert (2 ^ w = 2 * 2 ^ (w - 1)) as E.
  { rewrite <- Z.pow_succ_r by lia. f_equal. lia. }
  assert (0 < 2 ^ (w - 1)) by (apply Z.pow_pos_nonneg; lia).
  pose proof (Z.mod_pos_bound (z + 2 ^ (w - 1)) (2 ^ w)). lia.
Qed.

Lemma sub64_exact a b : in_s 64 (a - b) → sub64 a b = a - b.
Proof. intros. unfold sub64. apply wrapS_small; [lia | done]. Qed.

Lemma add64_exact a b : in_s 64 (a + b) → add64 a b = a + b.
Proof. intros. unfold add64. apply wrapS_small; [lia | done]. Qed.

(** * The two orders of the index *)

Lemma ByBucket_order : StrictOrderB ByBucket_ltb.
Proof.
  split.
  - intros [[t b] p]. unfold ByBucket_ltb.
    destruct t; simpl; rewrite ?bool_decide_eq_true_2 by done; simpl; lia.
  - intros [[t1 b1] p1] [[t2 b2] p2] [[t3 b3] p3]. unfold ByBucket_ltb.
    destruct t1, t2, t3; simpl; try done;
      rewrite ?bool_decide_eq_true_2 by done; simpl; lia.
  - intros [[t1 b1] p1] [[t2 b2] p2]. unfold ByBucket_ltb.
    destruct t1, t2; simpl; try done;
      rewrite ?bool_decide_eq_true_2 by done; simpl; intros;
      assert (b1 = b2) by lia; assert (p1 = p2) by lia; congruence.
Qed.

Section Orders.
Context `{NT : NetTypes} {NL : NetLaws}.

Lemma ByAddress_order : StrictOrderB ByAddress_ltb.
Proof.
  destruct CService_order as [Hi Ht Htot].
  split.
  - intros [a b]. unfold ByAddress_ltb. simpl. rewrite Hi. by destruct b.
  - intros [a1 b1] [a2 b2] [a3 b3]. unfold ByAddress_ltb. simpl.
    intros H1 H2.
    destruct (CService_ltb a1 a2) eqn:E12; simpl in H1.
    + destruct (CService_ltb a2 a3) eqn:E23; simpl in H2.
      * by rewrite (Ht _ _ _ E12 E23).
      * destruct (CService_ltb a3 a2) eqn:E32; simpl in H2; [done|].
        rewrite (Htot _ _ E23 E32) in E12. by rewrite E12.
    + destruct (CService_ltb a2 a1) eqn:E21; simpl in H1; [done|].
      rewrite (Htot _ _ E12 E21).
      destruct (CService_ltb a2 a3) eqn:E23; simpl in *; [done|].
      destruct (CService_ltb a3 a2) eqn:E32; simpl in *; [done|].
      destruct b1, b2, b3; simpl in *; done.
  - intros [a1 b1] [a2 b2]. unfold ByAddress_ltb. simpl.
    intros H1 H2.
    destruct (CService_ltb a1 a2) eqn:E12; simpl in H1; [done|].
    destruct (CService_ltb a2 a1) eqn:E21; simpl in H2; [done|].
    simpl in *. rewrite (Htot _ _ E12 E21).
    destruct b1, b2; simpl in *; done.
Qed.

End Orders.

(** * Searching an ordered sequence *)

Section Search.
Context `{NT : NetTypes}.
Context {K : Type} (ltb : K → K → bool) (key : node → K).
Context (Hord : StrictOrderB ltb).

Local Abbreviation kle := (key_le ltb key).

Lemma lower_bound_elem k l n :
  lower_bound ltb key k l = Some n → n ∈ l ∧ ltb (key n) k = false.
Proof.
  induction l as [|y l IH]; simpl; [done|].
  destruct (ltb (key y) k) eqn:E.
  - intros H. destruct (IH H). split; [by right | done].
  - intros [= <-]. split; [by left | done].
Qed.

Lemma find_in_elem k l n :
  find_in ltb key k l = Some n → n ∈ l ∧ key n = k.
Proof.
  unfold find_in. destruct (lower_bound ltb key k l) as [y|] eqn:E; [|done].
  destruct (ltb k (key y)) eqn:E'; [done|]. intros [= <-].
  destruct (lower_bound_elem _ _ _ E) as [Hin Hlt].
  split; [done|]. by apply (ltb_total _ Hord).
Qed.

Lemma lower_bound_sorted k l n :
  StronglySorted kle l → n ∈ l → ltb (key n) k = false →
  ∃ y, lower_bound ltb key k l = Some y ∧ ltb (key n) (key y) = false.
Proof.
  induction l as [|x l IH]; simpl; intros Hs Hin Hn.
  - by apply elem_of_nil in Hin.
  - apply StronglySorted_inv in Hs as [Hs Hx].
    destruct (ltb (key x) k) eqn:E.
    + apply elem_of_cons in Hin as [->|Hin]; [congruence|].
      by apply IH.
    + exists x. split; [done|].
      apply elem_of_cons in Hin as [->|Hin]; [apply (ltb_irrefl _ Hord)|].
      rewrite Forall_forall in Hx. by apply Hx.
Qed.

Lemma find_in_sorted k l n :
  StronglySorted kle l → n ∈ l → key n = k →
  ∃ y, find_in ltb key k l = Some y.
Proof.
  intros Hs Hin Hk.
  destruct (lower_bound_sorted k l n Hs Hin) as (y & Hy & Hle).
  { rewrite Hk. apply (ltb_irrefl _ Hord). }
  exists y. unfold find_in. rewrite Hy.
  rewrite <- Hk. by rewrite Hle.
Qed.

Lemma find_in_None k l :
  StronglySorted kle l → find_in ltb key k l = None →
  ∀ n, n ∈ l → key n ≠ k.
Proof.
  intros Hs Hnone n Hin Hk.
  destruct (find_in_sorted k l n Hs Hin Hk) as [y Hy]. congruence.
Qed.

Lemma key_le_trans : Transitive kle.
Proof.
  intros x y z Hxy Hyz. unfold key_le in *.
  destruct (ltb (key z) (key x)) eqn:E; [|done].
  destruct (ltb (key x) (key y)) eqn:E2.
  - by rewrite (ltb_trans _ Hord _ _ _ E E2) in Hyz.
  - rewrite <- (ltb_total _ Hord _ _ E2 Hxy) in Hyz. congruence.
Qed.

Lemma key_le_total : Total kle.
Proof.
  intros x y. unfold key_le.
  destruct (ltb (key y) (key x)) eqn:E; [|by left].
  right. destruct (ltb (key x) (key y)) eqn:E2; [|done].
  pose proof (ltb_trans _ Hord _ _ _ E E2) as H.
  by rewrite (ltb_irrefl _ Hord) in H.
Qed.

End Search.

(** * The container *)

(** * The container *)

Lemma StronglySorted_map_rel {A} (R : relation A) (g : A → A) l :
  (∀ x y, R x y → R (g x) (g y)) →
  StronglySorted R l → StronglySorted R (map g l).
Proof.
  intros Hg. induction 1 as [|x l Hs IH Hx]; simpl; constructor; [done|].
  rewrite Forall_forall in Hx. apply Forall_forall. intros y Hy.
  apply list_elem_of_fmap in Hy as (z & -> & Hz). auto.
Qed.

Lemma StronglySorted_filter {A} (R : relation A) (P : A → Prop)
    `{∀ x, Decision (P x)} l :
  StronglySorted R l → StronglySorted R (filter P l).
Proof.
  induction 1 as [|x l Hs IH Hx]; [constructor|].
  rewrite filter_cons. destruct (decide (P x)); [|done].
  constructor; [done|]. rewrite Forall_forall in Hx. apply Forall_forall.
  intros y Hy. apply list_elem_of_filter in Hy as [_ Hy]. auto.
Qed.


Section Index.
Context `{NT : NetTypes}.
Implicit Types (idx : list node) (n x : node) (p : ptr) (e : AddrInfo).

(** ** Dereferencing *)

Lemma index_lookup_Some p idx e : index_lookup p idx = Some e → (p, e) ∈ idx.
Proof.
  induction idx as [|[q e'] idx IH]; simpl; [done|].
  destruct (decide (q = p)) as [->|Hne].
  - intros [= ->]. by left.
  - intros H. right. auto.
Qed.

Lemma index_lookup_elem p e idx :
  NoDup idx.*1 → (p, e) ∈ idx → index_lookup p idx = Some e.
Proof.
  induction idx as [|[q e'] idx IH]; simpl; intros Hnd Hin.
  - by apply elem_of_nil in Hin.
  - apply NoDup_cons in Hnd as [Hq Hnd].
    apply elem_of_cons in Hin as [[= -> ->]|Hin].
    + by rewrite decide_True.
    + rewrite decide_False; [auto|].
      intros ->. apply Hq. apply list_elem_of_fmap. by exists (p, e).
Qed.

Lemma index_lookup_None p idx : index_lookup p idx = None ↔ p ∉ idx.*1.
Proof.
  induction idx as [|[q e'] idx IH]; simpl.
  - split; [intros _ H; by apply elem_of_nil in H | done].
  - rewrite elem_of_cons. destruct (decide (q = p)) as [->|Hne]; simpl.
    + split; [done | intros H; exfalso; apply H; by left].
    + rewrite IH. split; [intros H [?|?]; [congruence | done] | tauto].
Qed.

Lemma index_lookup_is_Some p idx : is_Some (index_lookup p idx) ↔ p ∈ idx.*1.
Proof.
  destruct (index_lookup p idx) eqn:E.
  - split; [|eauto]. intros _. apply index_lookup_Some in E.
    apply list_elem_of_fmap. by exists (p, a).
  - split; [by intros [? ?]|]. intros H. by apply index_lookup_None in E.
Qed.

(** ** Insertion *)

Lemma index_insert_perm x idx : index_insert x idx ≡ₚ x :: idx.
Proof.
  induction idx as [|y idx IH]; simpl; [done|].
  destruct (ByAddress_ltb _ _); [done|].
  rewrite IH. apply Permutation_swap.
Qed.

Lemma elem_of_index_insert n x idx :
  n ∈ index_insert x idx ↔ n = x ∨ n ∈ idx.
Proof. rewrite index_insert_perm. apply elem_of_cons. Qed.

(** ** Erasure *)

Lemma elem_of_index_erase n p idx : n ∈ index_erase p idx ↔ n ∈ idx ∧ n.1 ≠ p.
Proof. unfold index_erase. rewrite list_elem_of_filter. tauto. Qed.

Lemma index_erase_fst p idx :
  (index_erase p idx).*1 = filter (λ q, q ≠ p) idx.*1.
Proof.
  unfold index_erase. induction idx as [|[q e] idx IH]; [done|].
  rewrite fmap_cons, (filter_cons (λ y : node, y.1 ≠ p)).
  rewrite (filter_cons (λ q, q ≠ p)). simpl.
  destruct (decide (q ≠ p)); [rewrite fmap_cons; f_equal|]; apply IH.
Qed.

Lemma index_erase_NoDup p idx : NoDup idx.*1 → NoDup (index_erase p idx).*1.
Proof. rewrite index_erase_fst. apply NoDup_filter. Qed.

Lemma index_erase_sorted p idx :
  ByAddress_sorted idx → ByAddress_sorted (index_erase p idx).
Proof. apply StronglySorted_filter. Qed.

Lemma index_erase_not_in p idx : p ∉ (index_erase p idx).*1.
Proof.
  rewrite index_erase_fst. intros H. apply list_elem_of_filter in H. tauto.
Qed.

Lemma index_erase_absent p idx : p ∉ idx.*1 → index_erase p idx = idx.
Proof.
  unfold index_erase. induction idx as [|[q e] idx IH]; [done|].
  rewrite fmap_cons, not_elem_of_cons. intros [Hq Hidx].
  rewrite filter_cons_True; [f_equal; auto|].
  simpl. intros ->. by apply Hq.
Qed.

Lemma index_erase_cons p x idx :
  index_erase p (x :: idx) =
  if decide (x.1 = p) then index_erase p idx else x :: index_erase p idx.
Proof.
  unfold index_erase. rewrite filter_cons.
  destruct (decide (x.1 = p)), (decide (x.1 ≠ p)); done.
Qed.

Lemma index_erase_length p e idx :
  NoDup idx.*1 → (p, e) ∈ idx →
  length idx = S (length (index_erase p idx)).
Proof.
  induction idx as [|[q e'] idx IH]; intros Hnd Hin.
  - by apply elem_of_nil in Hin.
  - rewrite fmap_cons in Hnd. apply NoDup_cons in Hnd as [Hq Hnd].
    rewrite index_erase_cons. simpl.
    apply elem_of_cons in Hin as [[= -> ->]|Hin].
    + rewrite decide_True by done. by rewrite index_erase_absent.
    + rewrite decide_False; [simpl; f_equal; auto|].
      intros ->. apply Hq. apply list_elem_of_fmap. by exists (p, e).
Qed.

(** ** Writing through an iterator *)

Lemma index_modify_fst p f idx : (index_modify p f idx).*1 = idx.*1.
Proof.
  unfold index_modify. induction idx as [|[q e] idx IH]; [done|].
  rewrite map_cons, !fmap_cons. f_equal; [|apply IH].
  simpl. by destruct (decide (q = p)).
Qed.

Lemma elem_of_index_modify n p f idx :
  n ∈ index_modify p f idx ↔
  (n ∈ idx ∧ n.1 ≠ p) ∨ (∃ e, (p, e) ∈ idx ∧ n = (p, f e)).
Proof.
  unfold index_modify. rewrite list_elem_of_fmap. split.
  - intros ([q e] & -> & Hin). simpl. destruct (decide (q = p)) as [->|Hne].
    + right. eauto.
    + left. done.
  - intros [[Hin Hne]|(e & Hin & ->)].
    + exists n. split; [|done]. by rewrite decide_False.
    + exists (p, e). split; [|done]. simpl. by rewrite decide_True.
Qed.

Lemma index_modify_sorted p f idx :
  (∀ e, ByAddressExtractor (f e) = ByAddressExtractor e) →
  ByAddress_sorted idx → ByAddress_sorted (index_modify p f idx).
Proof.
  intros Hf. apply StronglySorted_map_rel. intros [q1 e1] [q2 e2].
  unfold ByAddress_le. simpl.
  destruct (decide (q1 = p)), (decide (q2 = p)); simpl; by rewrite ?Hf.
Qed.

Lemma index_lookup_modify p q f idx :
  index_lookup q (index_modify p f idx) =
  if decide (q = p) then f <$> index_lookup q idx else index_lookup q idx.
Proof.
  unfold index_modify. induction idx as [|[r e] idx IH]; simpl.
  - by destruct (decide (q = p)).
  - destruct (decide (r = p)) as [->|Hrp]; simpl.
    + destruct (decide (p = q)) as [<-|Hpq].
      * by rewrite decide_True.
      * rewrite IH. done.
    + destruct (decide (r = q)) as [->|Hrq]; [by rewrite decide_False|].
      rewrite IH. done.
Qed.

Lemma index_lookup_erase p q idx :
  index_lookup q (index_erase p idx) =
  if decide (q = p) then None else index_lookup q idx.
Proof.
  unfold index_erase. induction idx as [|[r e] idx IH]; simpl.
  - by destruct (decide (q = p)).
  - rewrite filter_cons. simpl.
    destruct (decide (r ≠ p)) as [Hrp|Hrp]; simpl.
    + destruct (decide (r = q)) as [->|Hrq]; [by rewrite decide_False|].
      apply IH.
    + assert (r = p) as -> by (destruct (decide (r = p)); tauto).
      rewrite IH. destruct (decide (q = p)) as [->|]; [done|].
      by rewrite decide_False.
Qed.

Lemma index_lookup_insert q x idx :
  x.1 ∉ idx.*1 →
  index_lookup q (index_insert x idx) =
  if decide (q = x.1) then Some x.2 else index_lookup q idx.
Proof.
  intros Hx. induction idx as [|[r e] idx IH]; simpl.
  - destruct (decide (x.1 = q)) as [<-|]; [by rewrite decide_True|].
    by rewrite decide_False.
  - simpl in Hx. rewrite not_elem_of_cons in Hx. destruct Hx as [Hx1 Hx2].
    destruct (ByAddress_ltb _ _); simpl.
    + destruct (decide (x.1 = q)) as [<-|]; [by rewrite decide_True|].
      by rewrite (decide_False (P := q = x.1)).
    + destruct (decide (r = q)) as [->|Hrq]; [by rewrite decide_False|].
      by apply IH.
Qed.

(** ** Counting *)

Section Count.
Context (P : node → Prop) `{∀ n, Decision (P n)}.

Lemma count_nodes_insert x idx :
  count_nodes P (index_insert x idx) =
  count_nodes P idx + (if decide (P x) then 1 else 0).
Proof.
  unfold count_nodes. rewrite index_insert_perm, filter_cons.
  destruct (decide (P x)); simpl; lia.
Qed.

Lemma count_nodes_erase p e idx :
  NoDup idx.*1 → (p, e) ∈ idx →
  count_nodes P (index_erase p idx) =
  count_nodes P idx - (if decide (P (p, e)) then 1 else 0).
Proof.
  unfold count_nodes.
  induction idx as [|[q e'] idx IH]; intros Hnd Hin.
  - by apply elem_of_nil in Hin.
  - rewrite fmap_cons in Hnd. apply NoDup_cons in Hnd as [Hq Hnd].
    rewrite index_erase_cons. simpl.
    apply elem_of_cons in Hin as [[= -> ->]|Hin].
    + rewrite decide_True by done. rewrite index_erase_absent by done.
      rewrite (filter_cons P). destruct (decide (P (q, e'))); simpl; lia.
    + rewrite decide_False.
      2:{ intros ->. apply Hq. apply list_elem_of_fmap. by exists (p, e). }
      rewrite !(filter_cons P). specialize (IH Hnd Hin).
      destruct (decide (P (q, e'))); simpl length; lia.
Qed.

Lemma count_nodes_modify p f idx :
  (∀ e, (p, e) ∈ idx → P (p, f e) ↔ P (p, e)) →
  count_nodes P (index_modify p f idx) = count_nodes P idx.
Proof.
  unfold count_nodes, index_modify. intros Hf. f_equal.
  induction idx as [|[q e] idx IH]; [done|].
  rewrite map_cons. cbn [fst snd].
  assert (length (filter P (map (λ y : node,
            if decide (y.1 = p) then (y.1, f y.2) else y) idx))
          = length (filter P idx)) as IH'.
  { apply IH. intros e' He'. apply Hf. by right. }
  destruct (decide (q = p)) as [->|Hne].
  - specialize (Hf e (ltac:(by left))).
    rewrite (filter_cons P (p, f e)), (filter_cons P (p, e)).
    destruct (decide (P (p, f e))), (decide (P (p, e)));
      cbn [length]; first [ by rewrite IH' | exfalso; tauto ].
  - rewrite !(filter_cons P (q, e)).
    destruct (decide (P (q, e))); cbn [length]; by rewrite IH'.
Qed.

Lemma count_nodes_nonneg idx : 0 <= count_nodes P idx.
Proof. unfold count_nodes. lia. Qed.

End Count.

(** ** The by-bucket view *)

Lemma ByBucket_perm idx : ByBucket idx ≡ₚ idx.
Proof. apply merge_sort_Permutation. Qed.

Lemma ByBucket_sorted idx : StronglySorted ByBucket_le (ByBucket idx).
Proof.
  apply StronglySorted_merge_sort.
  - apply (key_le_trans ByBucket_ltb (λ y : node, ByBucketExtractor y.2) ByBucket_order).
  - apply (key_le_total ByBucket_ltb (λ y : node, ByBucketExtractor y.2) ByBucket_order).
Qed.

Lemma ByBucket_find_Some k idx n :
  ByBucket_find k idx = Some n → n ∈ idx ∧ ByBucketExtractor n.2 = k.
Proof.
  intros H.
  apply (find_in_elem ByBucket_ltb (λ y : node, ByBucketExtractor y.2)
           ByBucket_order) in H as [Hin Hk].
  by rewrite ByBucket_perm in Hin.
Qed.

Lemma ByBucket_find_None k idx :
  ByBucket_find k idx = None → ∀ n, n ∈ idx → ByBucketExtractor n.2 ≠ k.
Proof.
  intros H n Hin.
  apply (find_in_None ByBucket_ltb (λ y : node, ByBucketExtractor y.2)
           ByBucket_order k (ByBucket idx) (ByBucket_sorted idx) H n).
  by rewrite ByBucket_perm.
Qed.

Lemma ByBucket_find_unique k idx n :
  slots_unique idx → n ∈ idx → ByBucketExtractor n.2 = k →
  ByBucket_find k idx = Some n.
Proof.
  intros Hu Hin Hk. destruct (ByBucket_find k idx) as [y|] eqn:E.
  - apply ByBucket_find_Some in E as [Hy Hky]. f_equal. apply Hu; congruence.
  - exfalso. by eapply ByBucket_find_None.
Qed.

End Index.

(** * The by-address order *)

(** * The by-address order *)

Section ByAddress.
Context `{NT : NetTypes} {NL : NetLaws}.
Implicit Types (idx : list node) (n x y : node) (p : ptr) (e : AddrInfo)
  (a : CService).

Local Abbreviation akey := (λ y : node, ByAddressExtractor y.2).

Lemma ByAddress_le_trans : Transitive ByAddress_le.
Proof. apply (key_le_trans ByAddress_ltb akey ByAddress_order). Qed.

Lemma ByAddress_ltb_asym k1 k2 :
  ByAddress_ltb k1 k2 = true → ByAddress_ltb k2 k1 = false.
Proof.
  intros H. destruct (ByAddress_ltb k2 k1) eqn:E; [|done].
  pose proof (ltb_trans _ ByAddress_order _ _ _ H E) as H'.
  by rewrite (ltb_irrefl _ ByAddress_order) in H'.
Qed.

Lemma CService_ltb_irrefl a : CService_ltb a a = false.
Proof. apply (ltb_irrefl _ CService_order). Qed.

Lemma CService_ltb_asym a b : CService_ltb a b = true → CService_ltb b a = false.
Proof.
  intros H. destruct (CService_ltb b a) eqn:E; [|done].
  pose proof (ltb_trans _ CService_order _ _ _ H E) as H'.
  by rewrite CService_ltb_irrefl in H'.
Qed.

(** Comparing with the two keys of an address. *)
Lemma ltb_key_main e a :
  ByAddress_ltb (ByAddressExtractor e) (a, false) = CService_ltb (service e) a.
Proof.
  unfold ByAddress_ltb, ByAddressExtractor. simpl.
  rewrite andb_false_r, andb_false_r. apply orb_false_r.
Qed.

Lemma ltb_alias_key e a :
  ByAddress_ltb (a, true) (ByAddressExtractor e) = CService_ltb a (service e).
Proof.
  unfold ByAddress_ltb, ByAddressExtractor. simpl.
  rewrite andb_false_r. apply orb_false_r.
Qed.

Lemma index_insert_sorted x idx :
  ByAddress_sorted idx → ByAddress_sorted (index_insert x idx).
Proof.
  unfold ByAddress_sorted.
  induction 1 as [|y l Hs IH Hy]; simpl; [repeat constructor|].
  destruct (ByAddress_ltb _ _) eqn:E.
  - constructor; [by constructor|].
    assert (ByAddress_le x y) as Hxy by (by apply ByAddress_ltb_asym).
    constructor; [done|].
    eapply Forall_impl; [exact Hy|]. intros z Hz.
    by apply (ByAddress_le_trans x y z).
  - constructor; [done|]. apply Forall_forall. intros z Hz.
    apply elem_of_index_insert in Hz as [->|Hz]; [exact E|].
    rewrite Forall_forall in Hy. auto.
Qed.

Lemma ByAddress_find_Some k idx n :
  ByAddress_find k idx = Some n →
  n ∈ idx ∧ service n.2 = k.1 ∧ is_alias n.2 = k.2.
Proof.
  intros H.
  apply (find_in_elem ByAddress_ltb akey ByAddress_order) in H as [Hin Hk].
  split; [done|]. destruct k. by inversion Hk.
Qed.

Lemma ByAddress_find_None k idx :
  ByAddress_sorted idx → ByAddress_find k idx = None →
  ∀ n, n ∈ idx → ¬ (service n.2 = k.1 ∧ is_alias n.2 = k.2).
Proof.
  intros Hs H n Hin [H1 H2].
  apply (find_in_None ByAddress_ltb akey ByAddress_order k idx Hs H n Hin).
  destruct k. simpl in *. unfold ByAddressExtractor. congruence.
Qed.


Lemma ByAddress_find_is_Some k idx n :
  ByAddress_sorted idx → n ∈ idx → service n.2 = k.1 → is_alias n.2 = k.2 →
  is_Some (ByAddress_find k idx).
Proof.
  intros Hs Hin H1 H2.
  destruct (ByAddress_find k idx) eqn:E; [eauto|].
  exfalso. eapply ByAddress_find_None; eauto.
Qed.

(** [lower_bound] of the main key of an address, followed by the test that
    the node found has this address. *)
Lemma lower_bound_address_Some a idx y :
  ByAddress_lower_bound (a, false) idx = Some y → y ∈ idx.
Proof.
  intros H. by apply (lower_bound_elem ByAddress_ltb akey) in H as [? _].
Qed.

Lemma lower_bound_address_found a idx n :
  ByAddress_sorted idx → n ∈ idx → service n.2 = a →
  ∃ y, ByAddress_lower_bound (a, false) idx = Some y ∧ service y.2 = a.
Proof.
  intros Hs Hin Ha.
  destruct (lower_bound_sorted ByAddress_ltb akey ByAddress_order
              (a, false) idx n Hs Hin) as (y & Hy & Hle).
  { rewrite ltb_key_main, Ha. apply CService_ltb_irrefl. }
  exists y. split; [done|].
  apply (lower_bound_elem ByAddress_ltb akey) in Hy as [_ Hy].
  rewrite ltb_key_main in Hy.
  unfold ByAddress_ltb, ByAddressExtractor in Hle. simpl in Hle.
  apply orb_false_iff in Hle as [Hle _]. rewrite Ha in Hle.
  by apply (ltb_total _ CService_order).
Qed.

Lemma lower_bound_address_absent a idx :
  ByAddress_sorted idx →
  match ByAddress_lower_bound (a, false) idx with
  | Some y => service y.2 ≠ a
  | None => True
  end →
  ∀ n, n ∈ idx → service n.2 ≠ a.
Proof.
  intros Hs H n Hin Ha.
  destruct (lower_bound_address_found a idx n Hs Hin Ha) as (y & Hy & Hya).
  rewrite Hy in H. done.
Qed.

(** ** Counting the entries of an address *)

Lemma upto_upper_bound_filter a idx :
  ByAddress_sorted idx →
  Forall (λ n, CService_ltb (service n.2) a = false) idx →
  upto_upper_bound (a, true) idx = filter (has_service a) idx.
Proof.
  induction 1 as [|y l Hs IH Hy]; [done|].
  intros Hge. apply Forall_cons in Hge as [Hy_ge Hl_ge].
  simpl. rewrite ltb_alias_key.
  destruct (CService_ltb a (service y.2)) eqn:E.
  - symmetry. apply elem_of_nil_inv. intros z Hz.
    apply list_elem_of_filter in Hz as [Hz Hin]. unfold has_service in Hz.
    apply elem_of_cons in Hin as [->|Hin].
    + rewrite Hz in E. by rewrite CService_ltb_irrefl in E.
    + rewrite Forall_forall in Hy. specialize (Hy z Hin).
      unfold ByAddress_le, ByAddress_ltb, ByAddressExtractor in Hy.
      simpl in Hy. apply orb_false_iff in Hy as [Hy _]. rewrite Hz in Hy.
      congruence.
  - rewrite filter_cons_True.
    + f_equal. by apply IH.
    + unfold has_service. by apply (ltb_total _ CService_order).
Qed.

Lemma from_lower_bound_filter a idx :
  ByAddress_sorted idx →
  upto_upper_bound (a, true) (from_lower_bound (a, false) idx)
  = filter (has_service a) idx.
Proof.
  intros Hs. induction Hs as [|y l Hs IH Hy]; [done|].
  cbn [from_lower_bound]. rewrite ltb_key_main.
  destruct (CService_ltb (service y.2) a) eqn:E.
  - rewrite filter_cons_False; [done|].
    unfold has_service. intros Ha. rewrite Ha in E.
    by rewrite CService_ltb_irrefl in E.
  - apply upto_upper_bound_filter; [by constructor|].
    constructor; [done|]. eapply Forall_impl; [exact Hy|].
    intros z Hz. unfold ByAddress_le, ByAddress_ltb, ByAddressExtractor in Hz.
    simpl in Hz. apply orb_false_iff in Hz as [Hz _].
    destruct (CService_ltb (service z.2) a) eqn:E2; [|done].
    destruct (CService_ltb a (service y.2)) eqn:E3.
    + by rewrite (ltb_trans _ CService_order _ _ _ E2 E3) in Hz.
    + rewrite <- (ltb_total _ CService_order _ _ E E3) in E2. congruence.
Qed.

Lemma lower_bound_None_from k idx :
  ByAddress_lower_bound k idx = None → from_lower_bound k idx = [].
Proof.
  unfold ByAddress_lower_bound.
  induction idx as [|y l IH]; simpl; [done|].
  destruct (ByAddress_ltb _ _); [done|]. done.
Qed.

Lemma CountAddr_filter a s :
  ByAddress_sorted (m_index s) →
  CountAddr a s = Z.of_nat (length (filter (has_service a) (m_index s))).
Proof.
  intros Hs. unfold CountAddr.
  rewrite <- (from_lower_bound_filter a _ Hs).
  destruct (ByAddress_lower_bound _ _) eqn:E; [done|].
  by rewrite (lower_bound_None_from _ _ E).
Qed.

Lemma CountAddr_count a s :
  ByAddress_sorted (m_index s) →
  CountAddr a s = count_nodes (has_service a) (m_index s).
Proof. apply CountAddr_filter. Qed.

Lemma ByAddress_count_main a idx :
  ByAddress_count (a, false) idx =
  count_nodes (λ n, service n.2 = a ∧ is_alias n.2 = false) idx.
Proof.
  unfold ByAddress_count, count_nodes. f_equal. f_equal.
  apply list_filter_iff. intros n. split.
  - intros [H1 H2].
    pose proof (ltb_total _ ByAddress_order _ _ H1 H2) as Hk.
    unfold ByAddressExtractor in Hk. by inversion Hk.
  - intros [H1 H2]. unfold ByAddressExtractor. rewrite H1, H2.
    by rewrite (ltb_irrefl _ ByAddress_order).
Qed.

End ByAddress.

(** * The invariants of the container *)

Lemma StronglySorted_map_rel_in {A} (R : relation A) (g : A → A) l :
  (∀ a b, a ∈ l → b ∈ l → R a b → R (g a) (g b)) →
  StronglySorted R l → StronglySorted R (map g l).
Proof.
  intros Hg Hs. induction Hs as [|x l Hs IH Hx]; simpl; constructor.
  - apply IH. intros a b Ha Hb. apply Hg; by right.
  - rewrite Forall_forall in Hx. apply Forall_forall. intros y Hy.
    apply list_elem_of_fmap in Hy as (z & -> & Hz).
    apply Hg; [by left | by right | auto].
Qed.

(** * What the container keeps *)

Section IndexOk.
Context `{NT : NetTypes} {NL : NetLaws}.
Implicit Types (idx : list node) (n x y c : node) (p : ptr) (e : AddrInfo)
  (a : CService).

(** ** Rebucket *)

Lemma Rebucket_congr key asmap e e' :
  service e' = service e → source e' = source e → fInTried e' = fInTried e →
  ByBucketExtractor (Rebucket key asmap e')
  = ByBucketExtractor (Rebucket key asmap e).
Proof.
  intros H1 H2 H3. unfold Rebucket, ByBucketExtractor, GetTriedBucket,
    GetNewBucket, GetBucketPosition. simpl. by rewrite H1, H2, H3.
Qed.

Lemma Rebucket_same_place key asmap e : same_place e (Rebucket key asmap e)
  ↔ Rebucket key asmap e = e.
Proof.
  split.
  - intros (_ & _ & _ & _ & Hb & Hp). destruct e.
    unfold Rebucket, set_bucket in *. simpl in *. f_equal; done.
  - intros ->. done.
Qed.

Lemma Rebucket_fixed key asmap e e' :
  Rebucket key asmap e = e → same_place e e' → Rebucket key asmap e' = e'.
Proof.
  intros He (H1 & H2 & H3 & H4 & H5 & H6).
  pose proof (Rebucket_congr key asmap e e' H1 H2 H3) as Hc.
  rewrite He in Hc. unfold ByBucketExtractor in Hc.
  injection Hc as _ Hb Hp.
  destruct e'. unfold Rebucket, set_bucket in *. simpl in *.
  f_equal; congruence.
Qed.

Lemma Rebucket_idem key asmap e :
  Rebucket key asmap (Rebucket key asmap e) = Rebucket key asmap e.
Proof. by destruct e. Qed.

Lemma Rebucket_set_nRandomPos key asmap v e :
  Rebucket key asmap (set_nRandomPos v e)
  = set_nRandomPos v (Rebucket key asmap e).
Proof. by destruct e. Qed.

Lemma same_place_refl e : same_place e e.
Proof. done. Qed.

Lemma same_place_key e e' :
  same_place e e' → ByAddressExtractor e' = ByAddressExtractor e.
Proof. intros (H1 & _ & _ & H4 & _). unfold ByAddressExtractor. congruence. Qed.

Lemma same_place_slot e e' :
  same_place e e' → ByBucketExtractor e' = ByBucketExtractor e.
Proof.
  intros (_ & _ & H3 & _ & H5 & H6). unfold ByBucketExtractor. congruence.
Qed.

(** ** Writing statistics or a random position *)

Lemma node_unique idx p e e' :
  NoDup idx.*1 → (p, e) ∈ idx → (p, e') ∈ idx → e = e'.
Proof.
  intros Hnd H1 H2. apply (index_lookup_elem _ _ _ Hnd) in H1, H2. congruence.
Qed.

Lemma index_ok_modify key asmap idx p f :
  index_ok key asmap idx →
  (∀ e, (p, e) ∈ idx → same_place e (f e) ∧ AddrInfo_in_range (f e)) →
  index_ok key asmap (index_modify p f idx).
Proof.
  intros [Hs Hnd Hb Hu Hc Ha Hr] Hf.
  assert (∀ n', n' ∈ index_modify p f idx →
            ∃ n, n ∈ idx ∧ n'.1 = n.1 ∧ same_place n.2 n'.2
                 ∧ AddrInfo_in_range n'.2) as Hback.
  { intros n' Hn'. apply elem_of_index_modify in Hn' as [[Hin Hne]|(e & Hin & ->)].
    - exists n'. split_and!; try done. by apply Hr.
    - exists (p, e). destruct (Hf e Hin) as [Hsp Hrg].
      split; [done|]. split; [done|]. split; done. }
  assert (∀ n, n ∈ idx → ∃ n', n' ∈ index_modify p f idx ∧ n'.1 = n.1
                                ∧ same_place n.2 n'.2) as Hforth.
  { intros [q e] Hin. destruct (decide (q = p)) as [->|Hne].
    - exists (p, f e). split; [|split; [done|by apply Hf]].
      apply elem_of_index_modify. right. eauto.
    - exists (q, e). split; [|split; done].
      apply elem_of_index_modify. left. done. }
  assert (∀ n1' n2' n1 n2, n1' ∈ index_modify p f idx →
            n2' ∈ index_modify p f idx → n1 ∈ idx → n2 ∈ idx →
            n1'.1 = n1.1 → n2'.1 = n2.1 → n1 = n2 → n1' = n2') as Hsame.
  { intros n1' n2' n1 n2 H1 H2 H3 H4 E1 E2 ->.
    assert (NoDup (index_modify p f idx).*1) as Hnd'
      by (by rewrite index_modify_fst).
    destruct n1' as [q1 e1], n2' as [q2 e2]. simpl in *. subst.
    f_equal. eapply node_unique; eauto. }
  split.
  - apply StronglySorted_map_rel_in; [|done].
    intros [q1 e1] [q2 e2] H1 H2. unfold ByAddress_le. simpl.
    destruct (decide (q1 = p)) as [->|], (decide (q2 = p)) as [->|]; simpl;
      rewrite ?(same_place_key _ _ (proj1 (Hf _ H1))),
              ?(same_place_key _ _ (proj1 (Hf _ H2))); done.
  - by rewrite index_modify_fst.
  - intros n' Hn'. destruct (Hback n' Hn') as (n & Hin & _ & Hsp & _).
    eapply Rebucket_fixed; eauto.
  - intros n1' n2' H1 H2 Hk.
    destruct (Hback _ H1) as (n1 & Hin1 & E1 & Hsp1 & _).
    destruct (Hback _ H2) as (n2 & Hin2 & E2 & Hsp2 & _).
    apply (Hsame n1' n2' n1 n2); auto. apply Hu; auto.
    rewrite <- (same_place_slot _ _ Hsp1), <- (same_place_slot _ _ Hsp2). done.
  - intros n1' n2' H1 H2 A1 A2 Hsv.
    destruct (Hback _ H1) as (n1 & Hin1 & E1 & Hsp1 & _).
    destruct (Hback _ H2) as (n2 & Hin2 & E2 & Hsp2 & _).
    apply (Hsame n1' n2' n1 n2); auto.
    destruct Hsp1 as (S1 & _ & _ & L1 & _), Hsp2 as (S2 & _ & _ & L2 & _).
    apply Hc; auto; congruence.
  - intros n' Hn' Hal.
    destruct (Hback _ Hn') as (n & Hin & E & (S1 & _ & T1 & L1 & _) & _).
    destruct (Ha n Hin) as (Ht & c & Hcin & Hcal & Hct & Hcs); [congruence|].
    split; [congruence|].
    destruct (Hforth c Hcin) as (c' & Hc' & _ & (S2 & _ & T2 & L2 & _)).
    exists c'. split_and!; auto; congruence.
  - intros n' Hn'. by destruct (Hback n' Hn') as (n & _ & _ & _ & ?).
Qed.

(** ** Insertion *)

Lemma index_ok_insert key asmap idx x :
  index_ok key asmap idx →
  x.1 ∉ idx.*1 →
  Rebucket key asmap x.2 = x.2 →
  AddrInfo_in_range x.2 →
  (∀ n, n ∈ idx → ByBucketExtractor n.2 ≠ ByBucketExtractor x.2) →
  (if is_alias x.2
   then fInTried x.2 = false
        ∧ ∃ c, c ∈ idx ∧ is_alias c.2 = false ∧ fInTried c.2 = false
               ∧ service c.2 = service x.2
   else ∀ n, n ∈ idx → service n.2 ≠ service x.2) →
  index_ok key asmap (index_insert x idx).
Proof.
  intros [Hs Hnd Hb Hu Hc Ha Hr] Hfresh Hbx Hrx Hfree Hkind.
  split.
  - by apply index_insert_sorted.
  - rewrite index_insert_perm. rewrite fmap_cons. by apply NoDup_cons.
  - intros n Hn. apply elem_of_index_insert in Hn as [->|Hn]; auto.
  - intros n1 n2 H1 H2 Hk.
    apply elem_of_index_insert in H1 as [->|H1];
      apply elem_of_index_insert in H2 as [->|H2]; auto.
    + exfalso. by apply (Hfree n2 H2).
    + exfalso. by apply (Hfree n1 H1).
  - intros n1 n2 H1 H2 A1 A2 Hsv.
    apply elem_of_index_insert in H1 as [->|H1];
      apply elem_of_index_insert in H2 as [->|H2]; auto.
    + rewrite A1 in Hkind. exfalso. by apply (Hkind n2 H2).
    + rewrite A2 in Hkind. exfalso. by apply (Hkind n1 H1).
  - intros n Hn Hal. apply elem_of_index_insert in Hn as [->|Hn].
    + rewrite Hal in Hkind. destruct Hkind as (Ht & c & Hcin & ?).
      split; [done|]. exists c. split; [|done].
      apply elem_of_index_insert. by right.
    + destruct (Ha n Hn Hal) as (Ht & c & Hcin & ?).
      split; [done|]. exists c. split; [|done].
      apply elem_of_index_insert. by right.
  - intros n Hn. apply elem_of_index_insert in Hn as [->|Hn]; auto.
Qed.

(** ** Erasure *)

(** An alias goes, or a main entry that has no alias. *)
Lemma index_ok_erase key asmap idx p e :
  index_ok key asmap idx →
  (p, e) ∈ idx →
  (is_alias e = false →
   ∀ n, n ∈ idx → service n.2 = service e → n = (p, e)) →
  index_ok key asmap (index_erase p idx).
Proof.
  intros [Hs Hnd Hb Hu Hc Ha Hr] Hin Halone.
  split.
  - by apply index_erase_sorted.
  - by apply index_erase_NoDup.
  - intros n Hn. apply elem_of_index_erase in Hn as [Hn _]. auto.
  - intros n1 n2 H1 H2. apply elem_of_index_erase in H1 as [H1 _].
    apply elem_of_index_erase in H2 as [H2 _]. auto.
  - intros n1 n2 H1 H2. apply elem_of_index_erase in H1 as [H1 _].
    apply elem_of_index_erase in H2 as [H2 _]. auto.
  - intros n Hn Hal. apply elem_of_index_erase in Hn as [Hn Hne].
    destruct (Ha n Hn Hal) as (Ht & c & Hcin & Hcal & Hct & Hcs).
    split; [done|]. exists c. split; [|done].
    apply elem_of_index_erase. split; [done|].
    intros Hcp. destruct c as [q ec]. simpl in *. subst q.
    assert (ec = e) as -> by (eapply node_unique; eauto).
    specialize (Halone Hcal n Hn (eq_sym Hcs)). subst n. done.
  - intros n Hn. apply elem_of_index_erase in Hn as [Hn _]. auto.
Qed.

(** A main entry with an alias takes over the source of the alias, which
    goes in its place. *)
Lemma index_ok_take_over key asmap idx p e pa ea :
  index_ok key asmap idx →
  (p, e) ∈ idx → is_alias e = false →
  (pa, ea) ∈ idx → is_alias ea = true → service ea = service e →
  index_ok key asmap
    (index_erase pa
       (index_modify p (λ i, Rebucket key asmap (set_source (source ea) i)) idx)).
Proof.
  intros Hok Hin Hal Hina Hala Hsv.
  pose proof Hok as [Hs Hnd Hb Hu Hc Ha Hr].
  set (e' := Rebucket key asmap (set_source (source ea) e)).
  assert (p ≠ pa) as Hppa.
  { intros ->. assert (e = ea) by (eapply node_unique; eauto). congruence. }
  assert (fInTried e = false ∧ fInTried ea = false) as [Hte Htea].
  { destruct (Ha _ Hina Hala) as (Ht & c & Hcin & Hcal & Hct & Hcs).
    split; [|done]. simpl in *.
    assert (c = (p, e)) as -> by (apply Hc; simpl; auto; congruence). done. }
  assert (ByBucketExtractor e' = ByBucketExtractor ea) as Hslot.
  { unfold e'. rewrite <- (Hb _ Hina) at 2. simpl.
    apply Rebucket_congr; simpl; congruence. }
  assert (∀ n', n' ∈ index_erase pa (index_modify p
             (λ i, Rebucket key asmap (set_source (source ea) i)) idx) ↔
           (n' ∈ idx ∧ n'.1 ≠ p ∧ n'.1 ≠ pa) ∨ n' = (p, e')) as Hchar.
  { intros n'. rewrite elem_of_index_erase, elem_of_index_modify. split.
    - intros [[[H1 H2]|(e0 & H1 & ->)] H3]; [left; done|right].
      by rewrite (node_unique _ _ _ _ Hnd H1 Hin).
    - intros [(H1 & H2 & H3)| ->]; [split; [left|]; done|].
      split; [right; eauto | done]. }
  split.
  - apply index_erase_sorted, index_modify_sorted; [|done]. by intros [].
  - apply index_erase_NoDup. by rewrite index_modify_fst.
  - intros n' Hn'. apply Hchar in Hn' as [(H1 & _)| ->]; [auto|].
    apply Rebucket_idem.
  - intros n1 n2 H1 H2 Hk.
    apply Hchar in H1 as [(H1 & N1 & N1')| ->];
      apply Hchar in H2 as [(H2 & N2 & N2')| ->]; auto.
    + exfalso. apply N1'. simpl in Hk. rewrite Hslot in Hk.
      by rewrite (Hu n1 (pa, ea) H1 Hina Hk).
    + exfalso. apply N2'. simpl in Hk. rewrite Hslot in Hk.
      by rewrite (Hu n2 (pa, ea) H2 Hina (eq_sym Hk)).
  - intros n1 n2 H1 H2 A1 A2 Hs12.
    apply Hchar in H1 as [(H1 & N1 & N1')| ->];
      apply Hchar in H2 as [(H2 & N2 & N2')| ->]; auto.
    + exfalso. apply N1. by rewrite (Hc n1 (p, e) H1 Hin A1 Hal Hs12).
    + exfalso. apply N2. by rewrite (Hc n2 (p, e) H2 Hin A2 Hal (eq_sym Hs12)).
  - intros n Hn Haln. apply Hchar in Hn as [(Hn & N1 & N2)| ->].
    + destruct (Ha n Hn Haln) as (Ht & c & Hcin & Hcal & Hct & Hcs).
      split; [done|]. destruct (decide (c.1 = p)) as [Hcp|Hcp].
      * exists (p, e'). split_and!; [apply Hchar; by right|done|done|].
        destruct c as [q ec]. simpl in *. subst q.
        by rewrite (node_unique _ _ _ _ Hnd Hin Hcin).
      * exists c. split_and!; auto. apply Hchar. left. split_and!; auto.
        intros Hcpa. destruct c as [q ec]. simpl in *. subst q.
        rewrite (node_unique _ _ _ _ Hnd Hcin Hina) in Hcal. congruence.
    + simpl in Haln. unfold is_alias in *. simpl in Haln. congruence.
  - intros n Hn. apply Hchar in Hn as [(Hn & _)| ->]; [auto|].
    apply (Hr _ Hin).
Qed.

End IndexOk.

(** * Modify and SwapRandom *)

(** * The private operations keep the invariant *)

Section Private.
Context `{NT : NetTypes} {NL : NetLaws}.
Implicit Types (idx : list node) (n x y c : node) (p it : ptr) (e : AddrInfo)
  (a : CService) (s : State).

Lemma index_modify_ext p f g idx :
  (∀ e, (p, e) ∈ idx → f e = g e) →
  index_modify p f idx = index_modify p g idx.
Proof.
  intros H. unfold index_modify. apply map_ext_in. intros [q e] Hin.
  simpl. destruct (decide (q = p)) as [->|]; [|done].
  f_equal. apply H. by apply list_elem_of_In.
Qed.

Lemma same_entry_refl e : same_entry e e.
Proof. done. Qed.

Lemma same_entry_fields e e' :
  same_entry e e' →
  service e' = service e ∧ source e' = source e ∧ fInTried e' = fInTried e
  ∧ is_alias e' = is_alias e ∧ m_bucket e' = m_bucket e
  ∧ m_bucketpos e' = m_bucketpos e ∧ nTime e' = nTime e
  ∧ nServices e' = nServices e ∧ nLastTry e' = nLastTry e
  ∧ nLastCountAttempt e' = nLastCountAttempt e
  ∧ nLastSuccess e' = nLastSuccess e ∧ nAttempts e' = nAttempts e.
Proof.
  intros [Ha H]. destruct e, e'. unfold set_nRandomPos in H. simpl in *.
  injection H as -> -> -> -> -> -> -> -> -> -> ->. done.
Qed.

Lemma same_entry_place e e' : same_entry e e' → same_place e e'.
Proof.
  intros H. apply same_entry_fields in H. unfold same_place. tauto.
Qed.

Lemma same_entry_range e e' :
  same_entry e e' → AddrInfo_in_range e → AddrInfo_in_range e'.
Proof.
  intros H. apply same_entry_fields in H. unfold AddrInfo_in_range.
  destruct H as (_ & _ & _ & _ & _ & _ & -> & -> & -> & -> & -> & ->). done.
Qed.

Lemma same_entry_set_pos e v :
  is_alias e = false → 0 <= v → same_entry e (set_nRandomPos v e).
Proof.
  intros Ha Hv. split; [|by destruct e].
  rewrite Ha. unfold is_alias. simpl. lia.
Qed.

Lemma same_entry_trans e1 e2 e3 :
  same_entry e1 e2 → same_entry e2 e3 → same_entry e1 e3.
Proof. intros [A1 B1] [A2 B2]. split; congruence. Qed.

Lemma same_entry_sym e1 e2 : same_entry e1 e2 → same_entry e2 e1.
Proof. intros [A1 B1]. split; congruence. Qed.

Lemma elem_of_ptrs n idx : n ∈ idx → n.1 ∈ idx.*1.
Proof. intros H. apply list_elem_of_fmap. by exists n. Qed.

(** ** Modify with a function that writes statistics only *)

Lemma UpdateStat_index info inc s : m_index (UpdateStat info inc s) = m_index s.
Proof. unfold UpdateStat. by repeat case_match. Qed.

Lemma Modify_stat s it e f :
  Inv s → (it, e) ∈ m_index s →
  same_place e (f e) → nRandomPos (f e) = nRandomPos e →
  AddrInfo_in_range (f e) →
  Modify it f s = Some (set_index (index_modify it f (m_index s)) s)
  ∧ Inv (set_index (index_modify it f (m_index s)) s).
Proof.
  intros [Hok Hfr HnN HnT [Hv1 Hv2] Hcol Hkey] Hin Hsp Hpos Hrg.
  pose proof Hok as [Hs Hnd Hb Hu Hc Ha Hr].
  assert (∀ e0, (it, e0) ∈ m_index s → e0 = e) as Huniq.
  { intros e0 H0. eapply node_unique; eauto. }
  assert (Rebucket (nKey s) (m_asmap s) (f e) = f e) as Hfix.
  { eapply Rebucket_fixed; [|exact Hsp]. by apply (Hb _ Hin). }
  split.
  - unfold Modify. rewrite (index_lookup_elem _ _ _ Hnd Hin). simpl.
    rewrite !UpdateStat_index.
    assert (nKey (UpdateStat e (-1) s) = nKey s) as -> by
      (unfold UpdateStat; by repeat case_match).
    assert (m_asmap (UpdateStat e (-1) s) = m_asmap s) as -> by
      (unfold UpdateStat; by repeat case_match).
    rewrite (index_modify_ext it _ f).
    2:{ intros e0 H0. by rewrite (Huniq e0 H0). }
    rewrite index_lookup_modify, decide_True by done.
    rewrite (index_lookup_elem _ _ _ Hnd Hin). simpl. f_equal.
    destruct Hsp as (_ & _ & Ht & Hal & _). unfold is_alias in Hal.
    unfold UpdateStat. rewrite Ht. 
    destruct (nRandomPos (f e) =? -1) eqn:E1; rewrite <- Hal; [done|].
    destruct s; destruct (fInTried e); unfold set_index, set_nTried, set_nNew;
      simpl; f_equal; lia.
  - assert (index_ok (nKey s) (m_asmap s) (index_modify it f (m_index s)))
      as Hok'.
    { apply index_ok_modify; [done|]. intros e0 H0.
      by rewrite (Huniq e0 H0). }
    split; simpl; try done.
    + intros n Hn. apply elem_of_index_modify in Hn as [[Hn _]|(e0 & Hn & ->)].
      * by apply Hfr.
      * apply (Hfr _ Hn).
    + rewrite HnN. symmetry. apply count_nodes_modify. intros e0 H0.
      rewrite (Huniq e0 H0). unfold canonical_new. cbn [fst snd].
      destruct Hsp as (_ & _ & E1 & E2 & _). by rewrite E1, E2.
    + rewrite HnT. symmetry. apply count_nodes_modify. intros e0 H0.
      rewrite (Huniq e0 H0). unfold canonical_tried. cbn [fst snd].
      destruct Hsp as (_ & _ & E1 & E2 & _). by rewrite E1, E2.
    + split.
      * intros n Hn Hal.
        apply elem_of_index_modify in Hn as [[Hn _]|(e0 & Hn & ->)]; auto.
        rewrite (Huniq e0 Hn) in *. cbn [fst snd] in *. rewrite Hpos.
        apply (Hv1 (it, e) Hin). cbn [fst snd].
        destruct Hsp as (_ & _ & _ & E & _). congruence.
      * intros i p Hi. destruct (Hv2 i p Hi) as (e0 & H0 & Hp0).
        destruct (decide (p = it)) as [->|Hne].
        -- exists (f e). rewrite (Huniq e0 H0) in *. split; [|congruence].
           apply elem_of_index_modify. right. eauto.
        -- exists e0. split; [|done]. apply elem_of_index_modify. left. done.
    + intros p Hp. rewrite index_modify_fst. auto.
Qed.

Lemma Modify_eq s it e f :
  NoDup (m_index s).*1 → (it, e) ∈ m_index s →
  let f' := λ i, Rebucket (nKey s) (m_asmap s) (f i) in
  is_alias (f e) = is_alias e → fInTried (f e) = fInTried e →
  Modify it f s = Some (set_index (index_modify it f' (m_index s)) s).
Proof.
  intros Hnd Hin f' Hal Ht.
  unfold Modify. rewrite (index_lookup_elem _ _ _ Hnd Hin). simpl.
  rewrite !UpdateStat_index.
  assert (nKey (UpdateStat e (-1) s) = nKey s) as -> by
    (unfold UpdateStat; by repeat case_match).
  assert (m_asmap (UpdateStat e (-1) s) = m_asmap s) as -> by
    (unfold UpdateStat; by repeat case_match).
  fold f'.
  rewrite index_lookup_modify, decide_True by done.
  rewrite (index_lookup_elem _ _ _ Hnd Hin). simpl. f_equal.
  assert (is_alias (f' e) = is_alias e) as Hal' by (unfold f'; by destruct (f e), e).
  assert (fInTried (f' e) = fInTried e) as Ht' by (unfold f'; by destruct (f e), e).
  unfold is_alias in Hal'. unfold UpdateStat. rewrite Ht', Hal'.
  destruct (nRandomPos e =? -1); [done|].
  destruct s; destruct (fInTried e); unfold set_index, set_nTried, set_nNew;
    simpl; f_equal; lia.
Qed.

(** ** SwapRandom *)

Lemma same_entries_refl idx : same_entries idx idx.
Proof.
  split; [done|]. split; intros [q e] Hin; exists e; split; done.
Qed.

Lemma SwapRandom_spec s pos1 pos2 :
  Inv s →
  0 <= pos1 < Z.of_nat (length (vRandom s)) →
  0 <= pos2 < Z.of_nat (length (vRandom s)) →
  ∃ s1, SwapRandom pos1 pos2 s = Some s1 ∧ Inv s1 ∧ same_config s s1
    ∧ m_tried_collisions s1 = m_tried_collisions s
    ∧ nNew s1 = nNew s ∧ nTried s1 = nTried s
    ∧ same_entries (m_index s) (m_index s1)
    ∧ length (vRandom s1) = length (vRandom s)
    ∧ vRandom s1 !! Z.to_nat pos2 = vRandom s !! Z.to_nat pos1
    ∧ length (m_index s1) = length (m_index s)
    ∧ (∀ a, count_nodes (has_service a) (m_index s1)
            = count_nodes (has_service a) (m_index s)).
Proof.
  intros HI H1 H2. unfold SwapRandom.
  destruct (decide (pos1 = pos2)) as [->|Hne].
  { exists s. split_and!; try done. apply same_entries_refl. }
  rewrite decide_True by done.
  pose proof HI as [Hok Hfr HnN HnT [Hv1 Hv2] Hcol Hkey].
  pose proof Hok as [Hs Hnd Hb Hu Hc Ha Hr].
  set (n1 := Z.to_nat pos1). set (n2 := Z.to_nat pos2).
  assert (n1 ≠ n2) as Hn12 by lia.
  destruct (lookup_lt_is_Some_2 (vRandom s) n1) as [it1 Hit1]; [lia|].
  destruct (lookup_lt_is_Some_2 (vRandom s) n2) as [it2 Hit2]; [lia|].
  rewrite Hit1, Hit2. simpl.
  destruct (Hv2 _ _ Hit1) as (e1 & Hin1 & Hp1).
  destruct (Hv2 _ _ Hit2) as (e2 & Hin2 & Hp2).
  rewrite (index_lookup_elem _ _ _ Hnd Hin1),
          (index_lookup_elem _ _ _ Hnd Hin2). simpl.
  assert (is_alias e1 = false) as Hal1 by (unfold is_alias; lia).
  assert (is_alias e2 = false) as Hal2 by (unfold is_alias; lia).
  assert (it1 ≠ it2) as Hit12.
  { intros ->. assert (e1 = e2) by (eapply node_unique; eauto). subst. lia. }
  set (idx1 := index_modify it1 (set_nRandomPos pos2) (m_index s)).
  set (idx2 := index_modify it2 (set_nRandomPos pos1) idx1).
  assert (∀ e, (it1, e) ∈ m_index s → e = e1) as Hu1
    by (intros; eapply node_unique; eauto).
  assert (∀ e, (it2, e) ∈ m_index s → e = e2) as Hu2
    by (intros; eapply node_unique; eauto).
  assert (∀ n, n ∈ idx2 ↔
            (n ∈ m_index s ∧ n.1 ≠ it1 ∧ n.1 ≠ it2)
            ∨ n = (it1, set_nRandomPos pos2 e1)
            ∨ n = (it2, set_nRandomPos pos1 e2)) as Hchar.
  { intros n. unfold idx2. rewrite elem_of_index_modify. split.
    - intros [[Hn N2]|(e & Hn & ->)].
      + apply elem_of_index_modify in Hn as [[Hn N1]|(e & Hn & ->)].
        * left. done.
        * right. left. by rewrite (Hu1 _ Hn).
      + apply elem_of_index_modify in Hn as [[Hn N1]|(e' & Hn & E)].
        * right. right. by rewrite (Hu2 _ Hn).
        * exfalso. apply Hit12. by injection E.
    - intros [(Hn & N1 & N2)|[->| ->]].
      + left. split; [|done]. apply elem_of_index_modify. left. done.
      + left. split; [|done]. apply elem_of_index_modify. right. eauto.
      + right. exists e2. split; [|done].
        apply elem_of_index_modify. left. done. }
  assert (index_ok (nKey s) (m_asmap s) idx1) as Hok1.
  { apply index_ok_modify; [done|]. intros e He. rewrite (Hu1 _ He).
    split.
    - apply same_entry_place, same_entry_set_pos; [done|lia].
    - eapply same_entry_range; [|apply (Hr _ Hin1)].
      apply same_entry_set_pos; [done|lia]. }
  assert (index_ok (nKey s) (m_asmap s) idx2) as Hok2.
  { apply index_ok_modify; [done|]. intros e He.
    apply elem_of_index_modify in He as [[He _]|(e' & He & E)].
    2:{ exfalso. apply Hit12. by injection E. }
    rewrite (Hu2 _ He). split.
    - apply same_entry_place, same_entry_set_pos; [done|lia].
    - eapply same_entry_range; [|apply (Hr _ Hin2)].
      apply same_entry_set_pos; [done|lia]. }
  assert (idx2.*1 = (m_index s).*1) as Hfst
    by (unfold idx2, idx1; by rewrite !index_modify_fst).
  eexists. split; [reflexivity|].
  split_and!; try done.
  - split; simpl; try done.
    + intros n Hn. apply Hchar in Hn as [(Hn & _)|[->| ->]]; simpl.
      * by apply Hfr.
      * apply (Hfr _ Hin1).
      * apply (Hfr _ Hin2).
    + rewrite HnN. symmetry. unfold idx2, idx1.
      rewrite !count_nodes_modify; [done| |].
      * intros e He. rewrite (Hu1 _ He). unfold canonical_new. cbn [fst snd].
        rewrite Hal1. unfold is_alias. simpl.
        replace (pos2 =? -1) with false by lia. done.
      * intros e He.
        apply elem_of_index_modify in He as [[He _]|(e' & He & E)].
        2:{ exfalso. apply Hit12. by injection E. }
        rewrite (Hu2 _ He). unfold canonical_new. cbn [fst snd].
        rewrite Hal2. unfold is_alias. simpl.
        replace (pos1 =? -1) with false by lia. done.
    + rewrite HnT. symmetry. unfold idx2, idx1.
      rewrite !count_nodes_modify; [done| |].
      * intros e He. rewrite (Hu1 _ He). unfold canonical_tried. cbn [fst snd].
        rewrite Hal1. unfold is_alias. simpl.
        replace (pos2 =? -1) with false by lia. done.
      * intros e He.
        apply elem_of_index_modify in He as [[He _]|(e' & He & E)].
        2:{ exfalso. apply Hit12. by injection E. }
        rewrite (Hu2 _ He). unfold canonical_tried. cbn [fst snd].
        rewrite Hal2. unfold is_alias. simpl.
        replace (pos1 =? -1) with false by lia. done.
    + split.
      * intros n Hn Hal. apply Hchar in Hn as [(Hn & N1 & N2)|[->| ->]].
        -- destruct (Hv1 n Hn Hal) as [Hpos Hlk]. split; [done|].
           rewrite !list_lookup_insert_ne; [done| |].
           ++ intros E. fold n1 in E. rewrite <- E in Hlk. congruence.
           ++ intros E. fold n2 in E. rewrite <- E in Hlk. congruence.
        -- simpl. split; [lia|]. fold n2.
           apply list_lookup_insert_eq. rewrite length_insert. lia.
        -- simpl. split; [lia|]. fold n1 n2.
           rewrite list_lookup_insert_ne by done.
           apply list_lookup_insert_eq. lia.
      * intros i p Hi. fold n1 n2 in Hi.
        destruct (decide (i = n2)) as [->|Hi2].
        { rewrite list_lookup_insert_eq in Hi by (rewrite length_insert; lia).
          injection Hi as <-. exists (set_nRandomPos pos2 e1).
          split; [apply Hchar; auto | simpl; lia]. }
        rewrite list_lookup_insert_ne in Hi by done.
        destruct (decide (i = n1)) as [->|Hi1].
        { rewrite list_lookup_insert_eq in Hi by lia.
          injection Hi as <-. exists (set_nRandomPos pos1 e2).
          split; [apply Hchar; auto | simpl; lia]. }
        rewrite list_lookup_insert_ne in Hi by done.
        destruct (Hv2 _ _ Hi) as (e & He & Hpe). exists e. split; [|done].
        apply Hchar. left. split_and!; [done| |]; simpl.
        -- intros ->. rewrite (Hu1 _ He) in Hpe. lia.
        -- intros ->. rewrite (Hu2 _ He) in Hpe. lia.
    + intros p Hp. rewrite Hfst. auto.
  - split; [done|]. split.
    + intros [q e] Hin. simpl.
      destruct (decide (q = it1)) as [->|N1].
      { exists (set_nRandomPos pos2 e1). rewrite (Hu1 _ Hin).
        split; [apply Hchar; auto|]. apply same_entry_set_pos; [done|lia]. }
      destruct (decide (q = it2)) as [->|N2].
      { exists (set_nRandomPos pos1 e2). rewrite (Hu2 _ Hin).
        split; [apply Hchar; auto|]. apply same_entry_set_pos; [done|lia]. }
      exists e. split; [apply Hchar; left; done | done].
    + intros n' Hn'. apply Hchar in Hn' as [(Hn & N1 & N2)|[->| ->]].
      * exists n'.2. split; [by destruct n' | done].
      * exists e1. split; [done|]. apply same_entry_set_pos; [done|lia].
      * exists e2. split; [done|]. apply same_entry_set_pos; [done|lia].
  - simpl. by rewrite !length_insert.
  - cbn [vRandom set_vRandom]. fold n1 n2.
    apply list_lookup_insert_eq. rewrite length_insert. lia.
  - cbn [m_index set_vRandom set_index]. unfold idx2, idx1, index_modify.
    by rewrite !length_map.
  - intros a. cbn [m_index set_vRandom set_index]. unfold idx2, idx1.
    rewrite !count_nodes_modify; done.
Qed.

End Private.

(** * Insert and Erase *)

Section InsertErase.
Context `{NT : NetTypes} {NL : NetLaws}.
Implicit Types (idx : list node) (n x y c : node) (p it : ptr) (e : AddrInfo)
  (a : CService) (s : State).

Lemma of_nat_not_alias (k : nat) : (Z.of_nat k =? -1) = false.
Proof. apply Z.eqb_neq. lia. Qed.

(** ** Insert *)

Lemma Insert_index info alias s :
  m_index (Insert info alias s).2
  = index_insert (next_ptr s, Insert_info info alias s) (m_index s).
Proof.
  unfold Insert, Insert_info, UpdateStat. simpl.
  destruct alias; simpl; [done|].
  rewrite of_nat_not_alias.
  by destruct (fInTried info).
Qed.

Lemma Insert_config info alias s :
  let s' := (Insert info alias s).2 in
  nKey s' = nKey s ∧ m_asmap s' = m_asmap s ∧ nLastGood s' = nLastGood s
  ∧ m_consistency_check_ratio s' = m_consistency_check_ratio s
  ∧ insecure_rand s' = insecure_rand s
  ∧ m_tried_collisions s' = m_tried_collisions s
  ∧ next_ptr s' = S (next_ptr s).
Proof.
  unfold Insert, UpdateStat. simpl.
  destruct alias; simpl; [done|].
  rewrite of_nat_not_alias.
  by destruct (fInTried info).
Qed.

Lemma Insert_counters info alias s :
  let s' := (Insert info alias s).2 in
  nNew s' = nNew s + (if negb alias && negb (fInTried info) then 1 else 0)
  ∧ nTried s' = nTried s + (if negb alias && fInTried info then 1 else 0)
  ∧ vRandom s' = if alias then vRandom s else vRandom s ++ [next_ptr s].
Proof.
  unfold Insert, UpdateStat. simpl.
  destruct alias; simpl; [split_and!; try done; lia|].
  rewrite of_nat_not_alias.
  destruct (fInTried info); simpl; split_and!; try done; lia.
Qed.

Lemma Insert_spec s info (alias : bool) :
  Inv s →
  AddrInfo_in_range info →
  (∀ n, n ∈ m_index s →
     ByBucketExtractor n.2
     ≠ ByBucketExtractor (Rebucket (nKey s) (m_asmap s) info)) →
  (if alias
   then fInTried info = false
        ∧ ∃ c, c ∈ m_index s ∧ is_alias c.2 = false ∧ fInTried c.2 = false
               ∧ service c.2 = service info
   else ∀ n, n ∈ m_index s → service n.2 ≠ service info) →
  Inv (Insert info alias s).2.
Proof.
  intros [Hok Hfr HnN HnT [Hv1 Hv2] Hcol Hkey] Hrg Hfree Hkind.
  pose proof (Insert_index info alias s) as Hidx.
  pose proof (Insert_config info alias s) as (C1 & C2 & C3 & C4 & C5 & C6 & C7).
  set (s' := (Insert info alias s).2) in *.
  set (x := (next_ptr s, Insert_info info alias s)) in *.
  assert (x.1 ∉ (m_index s).*1) as Hfresh.
  { intros Hin. apply list_elem_of_fmap in Hin as (n & E & Hn).
    specialize (Hfr n Hn). simpl in E. lia. }
  pose proof (Insert_counters info alias s) as (K1 & K2 & K3).
  fold s' in K1, K2, K3.
  assert (fInTried x.2 = fInTried info) as Hxt by done.
  assert (is_alias x.2 = alias) as Halias.
  { unfold x, Insert_info, is_alias. simpl. destruct alias; [done|].
    apply of_nat_not_alias. }
  assert (index_ok (nKey s) (m_asmap s) (index_insert x (m_index s))) as Hok'.
  { apply index_ok_insert.
    - done.
    - done.
    - unfold x, Insert_info. cbn [snd].
      by rewrite Rebucket_set_nRandomPos, Rebucket_idem.
    - unfold x, Insert_info. by destruct info.
    - intros n Hn. unfold x, Insert_info. specialize (Hfree n Hn).
      by destruct info.
    - rewrite Halias. unfold x, Insert_info. by destruct alias. }
  split.
  - by rewrite C1, C2, Hidx.
  - intros n Hn. rewrite Hidx in Hn. rewrite C7.
    apply elem_of_index_insert in Hn as [Hnx|Hn]; [rewrite Hnx; simpl; lia|].
    specialize (Hfr n Hn). lia.
  - rewrite Hidx, count_nodes_insert, K1, HnN. f_equal.
    destruct (decide (canonical_new x)) as [[Ha Ht]|Hn].
    + rewrite Halias in Ha. rewrite Hxt in Ht. by rewrite Ha, Ht.
    + destruct alias; [done|]. destruct (fInTried info) eqn:E; [done|].
      exfalso. apply Hn. split; [by rewrite Halias | by rewrite Hxt].
  - rewrite Hidx, count_nodes_insert, K2, HnT. f_equal.
    destruct (decide (canonical_tried x)) as [[Ha Ht]|Hn].
    + rewrite Halias in Ha. rewrite Hxt in Ht. by rewrite Ha, Ht.
    + destruct alias; [done|]. destruct (fInTried info) eqn:E; [|done].
      exfalso. apply Hn. split; [by rewrite Halias | by rewrite Hxt].
  - rewrite Hidx, K3.
    split.
    + intros n Hn Hal. apply elem_of_index_insert in Hn as [Hnx|Hn].
      * rewrite Hnx in *. rewrite Halias in Hal. rewrite Hal.
        unfold x, Insert_info. rewrite Hal. simpl.
        split; [lia|]. rewrite Nat2Z.id.
        rewrite lookup_app_r by done. by rewrite Nat.sub_diag.
      * destruct (Hv1 n Hn Hal) as [Hp Hl]. split; [done|].
        destruct alias; [done|]. rewrite lookup_app_l; [done|].
        by apply lookup_lt_Some in Hl.
    + intros i p Hi. destruct alias.
      * destruct (Hv2 i p Hi) as (e & He & Hpe). exists e. split; [|done].
        apply elem_of_index_insert. by right.
      * destruct (decide (i < length (vRandom s))%nat) as [Hlt|Hge].
        -- rewrite lookup_app_l in Hi by done.
           destruct (Hv2 i p Hi) as (e & He & Hpe). exists e. split; [|done].
           apply elem_of_index_insert. by right.
        -- rewrite lookup_app_r in Hi by lia.
           destruct (i - length (vRandom s))%nat as [|k] eqn:Ek; [|done].
           injection Hi as <-. exists (Insert_info info false s).
           split; [apply elem_of_index_insert; by left|].
           unfold Insert_info. simpl. lia.
  - intros p Hp. rewrite C6 in Hp. rewrite Hidx, index_insert_perm.
    rewrite fmap_cons. right. auto.
  - by rewrite C1.
Qed.

(** ** Erase *)

Lemma has_service_decide a p e :
  (if decide (has_service a (p, e)) then 1 else 0)
  = (if decide (a = service e) then 1 else 0).
Proof. unfold has_service. simpl. repeat case_decide; congruence. Qed.

Lemma UpdateStat_config info inc s :
  same_config s (UpdateStat info inc s)
  ∧ m_index (UpdateStat info inc s) = m_index s
  ∧ vRandom (UpdateStat info inc s) = vRandom s
  ∧ m_tried_collisions (UpdateStat info inc s) = m_tried_collisions s.
Proof. unfold UpdateStat. by repeat case_match. Qed.

Lemma UpdateStat_counters info inc s :
  nNew (UpdateStat info inc s)
  = nNew s + (if decide (canonical_new (0%nat, info)) then inc else 0)
  ∧ nTried (UpdateStat info inc s)
    = nTried s + (if decide (canonical_tried (0%nat, info)) then inc else 0).
Proof.
  unfold UpdateStat. repeat case_decide;
    unfold canonical_new, canonical_tried, is_alias in *; simpl in *;
    destruct (nRandomPos info =? -1), (fInTried info); simpl;
    try lia; naive_solver.
Qed.

Lemma canonical_new_ptr {A} p q e (u v : A) :
  (if decide (canonical_new (p, e)) then u else v)
  = (if decide (canonical_new (q, e)) then u else v).
Proof. unfold canonical_new. simpl. repeat case_decide; tauto. Qed.

Lemma canonical_tried_ptr {A} p q e (u v : A) :
  (if decide (canonical_tried (p, e)) then u else v)
  = (if decide (canonical_tried (q, e)) then u else v).
Proof. unfold canonical_tried. simpl. repeat case_decide; tauto. Qed.

(** An alias is erased. *)
Lemma Erase_alias s it e :
  Inv s → (it, e) ∈ m_index s → is_alias e = true →
  ∃ s', Erase it s = Some s' ∧ erase_post s e s'
        ∧ m_index s' = index_erase it (m_index s)
        ∧ vRandom s' = vRandom s ∧ nNew s' = nNew s ∧ nTried s' = nTried s.
Proof.
  intros HI Hin Hal.
  pose proof HI as [Hok Hfr HnN HnT [Hv1 Hv2] Hcol Hkey].
  pose proof Hok as [Hs Hnd Hb Hu Hc Ha Hr].
  unfold Erase, EraseInner.
  rewrite (index_lookup_elem _ _ _ Hnd Hin). simpl.
  unfold is_alias in Hal. rewrite Hal. simpl.
  rewrite (index_lookup_elem _ _ _ Hnd Hin). simpl.
  unfold UpdateStat. rewrite Hal. simpl.
  eexists. split; [reflexivity|]. simpl.
  assert (∀ n, n ∈ index_erase it (m_index s) ↔ n ∈ m_index s ∧ n.1 ≠ it)
    as Hchar by (intros; apply elem_of_index_erase).
  assert (∀ n, n ∈ m_index s → n.1 = it → n = (it, e)) as Hit.
  { intros [q e0] Hn Hq. simpl in Hq. subst q. f_equal.
    eapply node_unique; eauto. }
  split_and!; try done.
  split; simpl; try done.
  - split; simpl; try done.
    + eapply index_ok_erase; eauto. intros Hal'. unfold is_alias in Hal'.
      congruence.
    + intros n Hn. apply Hchar in Hn as [Hn _]. auto.
    + rewrite HnN, (count_nodes_erase _ it e) by done.
      rewrite decide_False; [lia|]. intros [Hx _]. unfold is_alias in Hx.
      simpl in Hx. congruence.
    + rewrite HnT, (count_nodes_erase _ it e) by done.
      rewrite decide_False; [lia|]. intros [Hx _]. unfold is_alias in Hx.
      simpl in Hx. congruence.
    + split.
      * intros n Hn Haln. apply Hchar in Hn as [Hn _]. auto.
      * intros i p Hi. destruct (Hv2 i p Hi) as (e0 & He0 & Hp0).
        exists e0. split; [|done]. apply Hchar. split; [done|]. simpl.
        intros ->. assert (e0 = e) by (eapply node_unique; eauto). subst.
        apply Z.eqb_eq in Hal. lia.
    + intros p Hp. apply elem_of_difference in Hp as [Hp Hne].
      rewrite index_erase_fst. apply list_elem_of_filter. split; [|auto].
      intros ->. apply Hne. by apply elem_of_singleton.
  - by eapply index_erase_length.
  - intros n' Hn'. apply Hchar in Hn' as [Hn' _]. exists n'. done.
  - intros n' Hn'. apply Hchar in Hn' as [Hn' _]. exists n'. done.
  - intros n Hn Hsv. exists n.2. split; [|done]. destruct n as [q e0].
    apply Hchar. split; [done|]. simpl. intros ->. apply Hsv. simpl.
    by rewrite (node_unique _ _ _ _ Hnd Hn Hin).
  - intros n' Hn' Hk. apply Hchar in Hn' as [Hn' Hne]. apply Hne.
    by rewrite (Hu n' (it, e) Hn' Hin Hk).
  - intros a. rewrite (count_nodes_erase _ it e) by done.
    by rewrite has_service_decide.
Qed.

Lemma elem_of_take_over idx p e pa g n' :
  NoDup idx.*1 → (p, e) ∈ idx → p ≠ pa →
  n' ∈ index_erase pa (index_modify p g idx) ↔
  (n' ∈ idx ∧ n'.1 ≠ p ∧ n'.1 ≠ pa) ∨ n' = (p, g e).
Proof.
  intros Hnd Hin Hne. rewrite elem_of_index_erase, elem_of_index_modify. split.
  - intros [[[H1 H2]|(e0 & H1 & ->)] H3]; [left; done|right].
    by rewrite (node_unique _ _ _ _ Hnd H1 Hin).
  - intros [(H1 & H2 & H3)| ->]; [split; [left|]; done|].
    split; [right; eauto | done].
Qed.

(** A main entry with an alias: the alias goes and the main entry takes
    its source. *)
Lemma Erase_take_over s it e it_alias :
  Inv s → (it, e) ∈ m_index s → is_alias e = false →
  ByAddress_find (service e, true) (m_index s) = Some it_alias →
  let g := λ i, Rebucket (nKey s) (m_asmap s) (set_source (source it_alias.2) i) in
  ∃ s', Erase it s = Some s' ∧ erase_post s e s'
        ∧ m_index s' = index_erase it_alias.1 (index_modify it g (m_index s))
        ∧ vRandom s' = vRandom s ∧ nNew s' = nNew s ∧ nTried s' = nTried s.
Proof.
  intros HI Hin Hal Hfind g.
  pose proof HI as [Hok Hfr HnN HnT [Hv1 Hv2] Hcol Hkey].
  pose proof Hok as [Hs Hnd Hb Hu Hc Ha Hr].
  destruct it_alias as [pa ea].
  pose proof (ByAddress_find_Some _ _ _ Hfind) as (Hina & Hsva & Hala).
  simpl in Hsva, Hala, g.
  assert (it ≠ pa) as Hne.
  { intros ->. assert (e = ea) by (eapply node_unique; eauto). congruence. }
  assert (fInTried e = false ∧ fInTried ea = false) as [Hte Htea].
  { destruct (Ha _ Hina Hala) as (Ht & c & Hcin & Hcal & Hct & Hcs).
    split; [|done]. simpl in *.
    assert (c = (it, e)) as -> by (apply Hc; simpl; auto; congruence). done. }
  assert (ByBucketExtractor (g e) = ByBucketExtractor ea) as Hslot.
  { unfold g. rewrite <- (Hb _ Hina) at 2. simpl.
    apply Rebucket_congr; simpl; congruence. }
  assert (is_alias (g e) = false ∧ fInTried (g e) = fInTried e
          ∧ nRandomPos (g e) = nRandomPos e ∧ service (g e) = service e)
    as (Hg1 & Hg2 & Hg3 & Hg4) by (by destruct e).
  pose proof (λ n', elem_of_take_over (m_index s) it e pa g n' Hnd Hin Hne)
    as Hchar.
  set (coll := (if decide (pa ∈ m_tried_collisions s)
                then {[it]} ∪ m_tried_collisions s else m_tried_collisions s)).
  assert (Erase it s = Some
    (set_index (index_erase pa (index_modify it g (m_index s)))
       (set_tried_collisions (coll ∖ {[pa]}) s))) as Herase.
  { unfold Erase, EraseInner.
    rewrite (index_lookup_elem _ _ _ Hnd Hin). simpl.
    unfold is_alias in Hal. rewrite Hal. rewrite Hfind. cbn [fst snd].
    fold coll.
    assert ((if decide (pa ∈ m_tried_collisions s)
             then set_tried_collisions ({[it]} ∪ m_tried_collisions s) s
             else s) = set_tried_collisions coll s) as ->.
    { unfold coll. destruct (decide (pa ∈ m_tried_collisions s)); [done|].
      by destruct s. }
    rewrite (Modify_eq (set_tried_collisions coll s) it e); try done.
    cbn [mbind option_bind]. cbn [nKey m_asmap m_index set_tried_collisions set_index].
    fold g. rewrite index_lookup_modify, decide_False by done.
    rewrite (index_lookup_elem _ _ _ Hnd Hina). cbn [mbind option_bind].
    unfold UpdateStat. unfold is_alias in Hala. rewrite Hala.
    by destruct s. }
  eexists. split; [exact Herase|].
  split_and!; try done.
  split; simpl; try done.
  - split; simpl; try done.
    + by apply (index_ok_take_over _ _ _ it e pa ea).
    + intros n Hn. apply Hchar in Hn as [(Hn & _)| ->]; [auto|].
      apply (Hfr _ Hin).
    + rewrite HnN. rewrite (count_nodes_erase _ pa ea).
      * rewrite count_nodes_modify.
        -- rewrite decide_False; [lia|]. intros [Hx _]. simpl in Hx. congruence.
        -- intros e0 He0. rewrite (node_unique _ _ _ _ Hnd He0 Hin).
           unfold canonical_new. cbn [fst snd]. by rewrite Hg1, Hg2, Hal.
      * by rewrite index_modify_fst.
      * apply elem_of_index_modify. left. done.
    + rewrite HnT. rewrite (count_nodes_erase _ pa ea).
      * rewrite count_nodes_modify.
        -- rewrite decide_False; [lia|]. intros [Hx _]. simpl in Hx. congruence.
        -- intros e0 He0. rewrite (node_unique _ _ _ _ Hnd He0 Hin).
           unfold canonical_tried. cbn [fst snd]. by rewrite Hg1, Hg2, Hal.
      * by rewrite index_modify_fst.
      * apply elem_of_index_modify. left. done.
    + split.
      * intros n Hn Haln. apply Hchar in Hn as [(Hn & _)| ->]; [auto|].
        cbn [fst snd]. rewrite Hg3. by apply (Hv1 (it, e) Hin).
      * intros i p Hi. destruct (Hv2 i p Hi) as (e0 & He0 & Hp0).
        destruct (decide (p = it)) as [->|Hpit].
        -- exists (g e). split; [apply Hchar; by right|].
           rewrite Hg3. by rewrite (node_unique _ _ _ _ Hnd Hin He0).
        -- exists e0. split; [|done]. apply Hchar. left. split_and!; try done.
           simpl. intros ->.
           rewrite (node_unique _ _ _ _ Hnd He0 Hina) in Hp0.
           unfold is_alias in Hala. apply Z.eqb_eq in Hala. lia.
    + intros p Hp. apply elem_of_difference in Hp as [Hp Hpne].
      rewrite index_erase_fst, index_modify_fst.
      apply list_elem_of_filter. split.
      * intros ->. apply Hpne. by apply elem_of_singleton.
      * unfold coll in Hp. destruct (decide (pa ∈ m_tried_collisions s)); auto.
        apply elem_of_union in Hp as [Hp|Hp]; auto.
        apply elem_of_singleton in Hp as ->. by apply (elem_of_ptrs (it, e)).
  - transitivity (length (index_modify it g (m_index s))).
    + unfold index_modify. by rewrite length_map.
    + apply (index_erase_length pa ea); [by rewrite index_modify_fst|].
      apply elem_of_index_modify. left. done.
  - intros n' Hn'. apply Hchar in Hn' as [(Hn' & _)| ->].
    + exists n'. done.
    + exists (it, e). cbn [fst snd]. by rewrite Hg1, Hg2, Hg4, Hal.
  - intros n' Hn'. apply Hchar in Hn' as [(Hn' & _)| ->].
    + exists n'. done.
    + exists (pa, ea). done.
  - intros n Hn Hsv. exists n.2. split; [|done]. destruct n as [q e0].
    apply Hchar. left. simpl. split_and!; try done.
    + intros ->. apply Hsv. simpl.
      by rewrite (node_unique _ _ _ _ Hnd Hn Hin).
    + intros ->. apply Hsv. simpl.
      by rewrite (node_unique _ _ _ _ Hnd Hn Hina).
  - intros n' Hn' Hk. apply Hchar in Hn' as [(Hn' & N1 & N2)| ->].
    + apply N1. by rewrite (Hu n' (it, e) Hn' Hin Hk).
    + cbn [fst snd] in Hk. rewrite Hslot in Hk. apply Hne.
      by injection (Hu (pa, ea) (it, e) Hina Hin Hk).
  - intros a. rewrite (count_nodes_erase _ pa ea).
    + rewrite count_nodes_modify.
      * rewrite has_service_decide. by rewrite Hsva.
      * intros e0 He0. rewrite (node_unique _ _ _ _ Hnd He0 Hin).
        unfold has_service. cbn [fst snd]. by rewrite Hg4.
    + by rewrite index_modify_fst.
    + apply elem_of_index_modify. left. done.
Qed.

Lemma removelast_take {A} (l : list A) :
  removelast l = take (length l - 1) l.
Proof.
  rewrite removelast_firstn_len. f_equal. lia.
Qed.

(** A main entry without an alias is erased: it leaves the random vector
    too. *)
Lemma Erase_main_alone s it e :
  Inv s → (it, e) ∈ m_index s → is_alias e = false →
  ByAddress_find (service e, true) (m_index s) = None →
  ∃ s', Erase it s = Some s' ∧ erase_post s e s'.
Proof.
  intros HI Hin Hal Hfind.
  pose proof HI as [Hok Hfr HnN HnT [Hv1 Hv2] Hcol Hkey].
  pose proof Hok as [Hs Hnd Hb Hu Hc Ha Hr].
  destruct (Hv1 _ Hin Hal) as [Hpos Hlk]. simpl in Hpos, Hlk.
  pose proof (lookup_lt_Some _ _ _ Hlk) as Hlt.
  destruct (SwapRandom_spec s (nRandomPos e)
              (Z.of_nat (length (vRandom s)) - 1) HI)
    as (s1 & Hswap & HI1 & Hcfg1 & Hcol1 & HnN1 & HnT1 & (Hf1 & Hse1 & Hse2)
        & Hlen1 & Hlast & Hilen & Hcnt); [lia|lia|].
  pose proof HI1 as [Hok1 Hfr1 HnN1' HnT1' [Hv11 Hv12] Hcoll1 Hkey1].
  pose proof Hok1 as [Hs1 Hnd1 Hb1 Hu1 Hc1 Ha1 Hr1].
  rewrite Hlk in Hlast.
  replace (Z.to_nat (Z.of_nat (length (vRandom s)) - 1))
    with (length (vRandom s1) - 1)%nat in Hlast by lia.
  destruct (Hv12 _ _ Hlast) as (e1 & Hin1 & Hp1).
  destruct (Hse1 _ Hin) as (e1' & Hin1' & Hsame). simpl in Hin1', Hsame.
  assert (e1' = e1) as -> by (eapply node_unique; eauto).
  pose proof (same_entry_fields _ _ Hsame)
    as (Fs & Fsrc & Ft & Fal & Fb & Fp & _).
  assert (Erase it s = Some
    (set_index (index_erase it (m_index s1))
       (UpdateStat e1 (-1)
          (set_tried_collisions (m_tried_collisions s1 ∖ {[it]})
             (set_vRandom (removelast (vRandom s1)) s1))))) as Herase.
  { unfold Erase, EraseInner.
    rewrite (index_lookup_elem _ _ _ Hnd Hin). simpl.
    unfold is_alias in Hal. rewrite Hal. rewrite Hfind. rewrite Hswap.
    simpl. rewrite (index_lookup_elem _ _ _ Hnd1 Hin1). simpl.
    by rewrite UpdateStat_index. }
  eexists. split; [exact Herase|].
  assert (∀ n, n ∈ index_erase it (m_index s1) ↔ n ∈ m_index s1 ∧ n.1 ≠ it)
    as Hchar by (intros; apply elem_of_index_erase).
  pose proof (UpdateStat_config e1 (-1)
    (set_tried_collisions (m_tried_collisions s1 ∖ {[it]})
       (set_vRandom (removelast (vRandom s1)) s1)))
    as ((U1 & U2 & U3 & U4 & U5 & U6) & U7 & U8 & U9).
  pose proof (UpdateStat_counters e1 (-1)
    (set_tried_collisions (m_tried_collisions s1 ∖ {[it]})
       (set_vRandom (removelast (vRandom s1)) s1))) as [K1 K2].
  destruct Hcfg1 as (G1 & G2 & G3 & G4 & G5 & G6).
  assert (∀ n, n ∈ m_index s1 → service n.2 = service e1 → n = (it, e1))
    as Halone.
  { intros n Hn Hsv. destruct (is_alias n.2) eqn:En.
    - exfalso. destruct (Hse2 _ Hn) as (e0 & He0 & Hs0).
      pose proof (same_entry_fields _ _ Hs0) as (Fs0 & _ & _ & Fal0 & _).
      apply (ByAddress_find_None _ _ Hs Hfind _ He0). simpl.
      split; congruence.
    - apply Hc1; try done. simpl. congruence. }
  split; cbn [m_index set_index]; try done.
  - split; cbn [m_index set_index nKey m_asmap next_ptr nNew nTried vRandom
                m_tried_collisions]; try done.
    + rewrite U1, U2. cbn [nKey m_asmap set_tried_collisions set_vRandom].
      eapply index_ok_erase; eauto.
    + intros n Hn. apply Hchar in Hn as [Hn _]. rewrite U3.
      cbn [next_ptr set_tried_collisions set_vRandom]. auto.
    + rewrite K1. cbn [nNew set_tried_collisions set_vRandom].
      rewrite HnN1', (count_nodes_erase _ it e1) by done.
      rewrite (canonical_new_ptr 0%nat it).
      destruct (decide (canonical_new (it, e1))); unfold Z.sub; simpl;
        [done | by rewrite Z.add_0_r, Z.add_0_r].
    + rewrite K2. cbn [nTried set_tried_collisions set_vRandom].
      rewrite HnT1', (count_nodes_erase _ it e1) by done.
      rewrite (canonical_tried_ptr 0%nat it).
      destruct (decide (canonical_tried (it, e1))); unfold Z.sub; simpl;
        [done | by rewrite Z.add_0_r, Z.add_0_r].
    + rewrite U8. cbn [vRandom set_tried_collisions set_vRandom].
      rewrite removelast_take. split.
      * intros n Hn Haln. apply Hchar in Hn as [Hn Hnit].
        destruct (Hv11 n Hn Haln) as [Hp Hl]. split; [done|].
        rewrite lookup_take_lt; [done|].
        pose proof (lookup_lt_Some _ _ _ Hl).
        destruct (decide (Z.to_nat (nRandomPos n.2)
                          = length (vRandom s1) - 1)%nat) as [E|]; [|lia].
        rewrite E in Hl. congruence.
      * intros i p Hi. apply lookup_take_Some in Hi as [Hi Hilt].
        destruct (Hv12 _ _ Hi) as (e0 & He0 & Hp0). exists e0.
        split; [|done]. apply Hchar. split; [done|]. simpl. intros ->.
        rewrite (node_unique _ _ _ _ Hnd1 He0 Hin1) in Hp0. lia.
    + rewrite U9. cbn [m_tried_collisions set_tried_collisions].
      intros p Hp. apply elem_of_difference in Hp as [Hp Hpne].
      rewrite index_erase_fst. apply list_elem_of_filter. split.
      * intros ->. apply Hpne. by apply elem_of_singleton.
      * rewrite Hf1. apply Hcol. by rewrite <- Hcol1.
    + rewrite U1. cbn [nKey set_tried_collisions set_vRandom]. by rewrite G1.
  - unfold same_config.
    cbn [nKey m_asmap next_ptr nLastGood m_consistency_check_ratio
         insecure_rand set_index].
    rewrite U1, U2, U3, U4, U5, U6.
    cbn [nKey m_asmap next_ptr nLastGood m_consistency_check_ratio
         insecure_rand set_tried_collisions set_vRandom]. done.
  - rewrite <- Hilen. by apply (index_erase_length it e1).
  - intros n' Hn'. apply Hchar in Hn' as [Hn' _].
    destruct (Hse2 _ Hn') as (e0 & He0 & Hs0).
    pose proof (same_entry_fields _ _ Hs0) as (? & _ & ? & ? & _).
    exists (n'.1, e0). done.
  - intros n' Hn'. apply Hchar in Hn' as [Hn' _].
    destruct (Hse2 _ Hn') as (e0 & He0 & Hs0).
    pose proof (same_entry_fields _ _ Hs0) as (_ & _ & F1 & _ & F2 & F3 & _).
    exists (n'.1, e0). split; [done|]. unfold ByBucketExtractor. simpl.
    congruence.
  - intros n Hn Hsv. destruct (Hse1 _ Hn) as (e' & He' & Hs').
    exists e'. split; [|done]. apply Hchar. split; [done|]. simpl.
    intros E. apply Hsv. destruct n as [q e0]. simpl in *. subst q.
    by rewrite (node_unique _ _ _ _ Hnd Hn Hin).
  - intros n' Hn' Hk. apply Hchar in Hn' as [Hn' Hnit]. apply Hnit.
    assert (n' = (it, e1)) as ->; [|done]. apply Hu1; try done.
    rewrite Hk. unfold ByBucketExtractor. simpl. congruence.
  - intros a. rewrite (count_nodes_erase _ it e1) by done.
    rewrite Hcnt, has_service_decide. by rewrite Fs.
Qed.

(** [Erase] of any node of the index. *)
Lemma Erase_spec s it e :
  Inv s → (it, e) ∈ m_index s → ∃ s', Erase it s = Some s' ∧ erase_post s e s'.
Proof.
  intros HI Hin. destruct (is_alias e) eqn:Hal.
  - destruct (Erase_alias s it e HI Hin Hal) as (s' & H1 & H2 & _). eauto.
  - destruct (ByAddress_find (service e, true) (m_index s)) as [y|] eqn:Hf.
    + destruct (Erase_take_over s it e y HI Hin Hal Hf) as (s' & H1 & H2 & _).
      eauto.
    + by apply Erase_main_alone.
Qed.

End InsertErase.

(** * Runs of Erase *)

Section Shrinks.
Context `{NT : NetTypes} {NL : NetLaws}.
Implicit Types (idx : list node) (n x y c : node) (p it : ptr) (e : AddrInfo)
  (a : CService) (s : State).

Lemma same_config_refl s : same_config s s.
Proof. by repeat split. Qed.

Lemma same_config_trans s1 s2 s3 :
  same_config s1 s2 → same_config s2 s3 → same_config s1 s3.
Proof.
  intros (?&?&?&?&?&?) (?&?&?&?&?&?). repeat split; congruence.
Qed.

Lemma same_env_refl s : same_env s s.
Proof. by repeat split. Qed.

Lemma same_env_trans s1 s2 s3 :
  same_env s1 s2 → same_env s2 s3 → same_env s1 s3.
Proof.
  intros (?&?&?&?&?) (?&?&?&?&?). repeat split; congruence.
Qed.

Lemma same_config_env s s' : same_config s s' → same_env s s'.
Proof. intros (?&?&?&?&?&?). by repeat split. Qed.

Lemma Insert_env info alias s : same_env s (Insert info alias s).2.
Proof.
  destruct (Insert_config info alias s) as (?&?&?&?&?&?&?). by repeat split.
Qed.

Lemma shrinks_refl s : shrinks s s.
Proof.
  split; [apply same_config_refl | | | intros; lia].
  - intros n' Hn'. by exists n'.
  - intros n' Hn'. by exists n'.
Qed.

Lemma shrinks_trans s1 s2 s3 : shrinks s1 s2 → shrinks s2 s3 → shrinks s1 s3.
Proof.
  intros [C1 O1 S1 N1] [C2 O2 S2 N2]. split.
  - by eapply same_config_trans.
  - intros n3 Hn3. destruct (O2 n3 Hn3) as (n2 & Hn2 & ? & ? & ? & ?).
    destruct (O1 n2 Hn2) as (n1 & Hn1 & ? & ? & ? & ?).
    exists n1. repeat split; [done|congruence..].
  - intros n3 Hn3. destruct (S2 n3 Hn3) as (n2 & Hn2 & ?).
    destruct (S1 n2 Hn2) as (n1 & Hn1 & ?). exists n1. split; [done|congruence].
  - intros a. specialize (N1 a). specialize (N2 a). lia.
Qed.

Lemma erase_post_shrinks s e s' : erase_post s e s' → shrinks s s'.
Proof.
  intros [_ C _ O S _ _ N]. split; [done..|].
  intros a. rewrite N. destruct (decide (a = service e)); lia.
Qed.

Lemma keeps_refl P s : keeps P s s.
Proof.
  intros [p e] Hn _. exists e. split; [done | apply same_entry_refl].
Qed.

Lemma keeps_trans P s1 s2 s3 : keeps P s1 s2 → keeps P s2 s3 → keeps P s1 s3.
Proof.
  intros K1 K2 n Hn HP. destruct (K1 n Hn HP) as (e2 & H2 & E2).
  destruct (K2 (n.1, e2) H2) as (e3 & H3 & E3).
  { cbn [snd]. by rewrite (proj1 (same_entry_fields _ _ E2)). }
  exists e3. split; [done | by eapply same_entry_trans].
Qed.

Lemma keeps_weaken (P Q : CService → Prop) s s' :
  (∀ b, Q b → P b) → keeps P s s' → keeps Q s s'.
Proof. intros HPQ K n Hn HQ. apply K; auto. Qed.

Lemma erase_post_keeps s e s' :
  erase_post s e s' → keeps (λ b, b ≠ service e) s s'.
Proof. intros [_ _ _ _ _ K _ _] n Hn HP. by apply K. Qed.

(** ** The loop that erases an address *)

Lemma Erase_address_eq fuel a s :
  Erase_address fuel a s =
  match ByAddress_lower_bound (a, false) (m_index s) with
  | None => Some s
  | Some it_existing =>
      if decide (service it_existing.2 = a) then
        match fuel with
        | O => None
        | S fuel' => s ← Erase it_existing.1 s; Erase_address fuel' a s
        end
      else Some s
  end.
Proof. by destruct fuel. Qed.

Lemma Erase_address_spec fuel a s :
  Inv s → (length (m_index s) ≤ fuel)%nat →
  ∃ s', Erase_address fuel a s = Some s' ∧ Inv s' ∧ shrinks s s'
        ∧ keeps (λ b, b ≠ a) s s'
        ∧ (∀ n, n ∈ m_index s' → service n.2 ≠ a).
Proof.
  revert s. induction fuel as [|fuel IH]; intros s HI Hlen;
    rewrite Erase_address_eq.
  all: pose proof (lower_bound_address_absent a (m_index s)
                     (ok_sorted _ _ _ (inv_index _ HI))) as Habs.
  all: destruct (ByAddress_lower_bound (a, false) (m_index s)) as [y|] eqn:E.
  all: try (exists s; split; [done|]; split; [done|];
            split; [apply shrinks_refl|]; split; [apply keeps_refl|];
            by apply Habs).
  all: destruct (decide (service y.2 = a)) as [Hy|Hy].
  all: try (exists s; split; [done|]; split; [done|];
            split; [apply shrinks_refl|]; split; [apply keeps_refl|];
            by apply Habs).
  all: apply lower_bound_address_Some in E.
  - destruct (m_index s); [by apply elem_of_nil in E | simpl in Hlen; lia].
  - destruct y as [p e]. cbn [fst snd] in *.
    destruct (Erase_spec s p e HI E) as (s1 & HE & Hpost).
    rewrite HE. cbn [mbind option_bind].
    destruct (IH s1 (erased_inv _ _ _ Hpost)) as (s' & HEA & HI' & Hsh & Hk & Hno).
    { pose proof (erased_length _ _ _ Hpost). lia. }
    exists s'. split; [done|]. split; [done|]. split; [|split; [|done]].
    + eapply shrinks_trans; [by eapply erase_post_shrinks | done].
    + eapply keeps_trans; [|done].
      eapply keeps_weaken; [|by eapply erase_post_keeps].
      intros b Hb. cbn beta. congruence.
Qed.

End Shrinks.

(** * MakeTried *)

Section MakeTriedProofs.
Context `{NT : NetTypes} {NL : NetLaws}.
Implicit Types (idx : list node) (n x y c : node) (p it : ptr) (e : AddrInfo)
  (a : CService) (s : State).

Lemma count_nodes_zero (P : node → Prop) `{∀ n, Decision (P n)} idx :
  count_nodes P idx = 0 ↔ ∀ n, n ∈ idx → ¬ P n.
Proof.
  unfold count_nodes. split.
  - intros H0 n Hn HP.
    assert (Hf : n ∈ filter P idx) by (apply list_elem_of_filter; done).
    destruct (filter P idx); [by apply elem_of_nil in Hf | simpl in H0; lia].
  - intros Hno. destruct (filter P idx) as [|n l] eqn:E; [done|].
    assert (Hf : n ∈ filter P idx) by (rewrite E; left).
    apply list_elem_of_filter in Hf as [HP Hn]. by destruct (Hno n Hn).
Qed.

Lemma count_nodes_one (P : node → Prop) `{∀ n, Decision (P n)} idx v :
  NoDup idx → v ∈ idx → P v → (∀ n, n ∈ idx → P n → n = v) →
  count_nodes P idx = 1.
Proof.
  intros Hnd Hv HPv Hall. unfold count_nodes.
  assert (Hp : filter P idx ≡ₚ [v]).
  { apply NoDup_Permutation.
    - by apply NoDup_filter.
    - apply NoDup_singleton.
    - intros n. rewrite list_elem_of_filter, list_elem_of_singleton. split.
      + intros [HP Hn]. by apply Hall.
      + intros ->. done. }
  by rewrite Hp.
Qed.

Lemma count_nodes_absent a idx :
  count_nodes (has_service a) idx = 0 ↔ ∀ n, n ∈ idx → service n.2 ≠ a.
Proof. apply count_nodes_zero. Qed.

Lemma tried_alone key asmap idx v :
  index_ok key asmap idx → v ∈ idx → fInTried v.2 = true →
  is_alias v.2 = false
  ∧ ∀ n, n ∈ idx → service n.2 = service v.2 → n = v.
Proof.
  intros Hok Hv Ht.
  assert (Hal : is_alias v.2 = false).
  { destruct (is_alias v.2) eqn:E; [|done].
    destruct (ok_aliases _ _ _ Hok v Hv E) as [Hf _]. congruence. }
  split; [done|]. intros n Hn Hs.
  destruct (is_alias n.2) eqn:E.
  - destruct (ok_aliases _ _ _ Hok n Hn E) as [_ (c & Hc & Hca & Hcf & Hcs)].
    assert (c = v) by (apply (ok_canonical _ _ _ Hok); congruence).
    subst c. congruence.
  - by apply (ok_canonical _ _ _ Hok).
Qed.

Lemma Rebucket_range key asmap e :
  AddrInfo_in_range (Rebucket key asmap e) ↔ AddrInfo_in_range e.
Proof. done. Qed.

Lemma Rebucket_fields key asmap e :
  service (Rebucket key asmap e) = service e
  ∧ fInTried (Rebucket key asmap e) = fInTried e
  ∧ source (Rebucket key asmap e) = source e
  ∧ nRandomPos (Rebucket key asmap e) = nRandomPos e.
Proof. done. Qed.

Lemma Insert_info_fields info alias s :
  service (Insert_info info alias s) = service info
  ∧ fInTried (Insert_info info alias s) = fInTried info
  ∧ ByBucketExtractor (Insert_info info alias s)
    = ByBucketExtractor (Rebucket (nKey s) (m_asmap s) info).
Proof. done. Qed.

Lemma Insert_count info alias s a :
  count_nodes (has_service a) (m_index (Insert info alias s).2)
  = count_nodes (has_service a) (m_index s)
    + (if decide (a = service info) then 1 else 0).
Proof.
  rewrite Insert_index, count_nodes_insert, has_service_decide. done.
Qed.

Lemma NoDup_nodes idx : NoDup idx.*1 → NoDup idx.
Proof. apply NoDup_fmap_1. Qed.

Lemma MakeTried_evict_spec s v :
  Inv s → v ∈ m_index s → fInTried v.2 = true →
  ∃ s', MakeTried_evict v s = Some s' ∧ Inv s' ∧ same_env s s'
        ∧ (∀ n, n ∈ m_index s' →
             ByBucketExtractor n.2 ≠ ByBucketExtractor v.2)
        ∧ (∀ a, count_nodes (has_service a) (m_index s')
                <= count_nodes (has_service a) (m_index s)).
Proof.
  intros HI Hv Ht. unfold MakeTried_evict.
  destruct (tried_alone _ _ _ v (inv_index _ HI) Hv Ht) as [Hal Halone].
  destruct v as [pv ev]. cbn [fst snd] in *.
  destruct (Erase_spec s pv ev HI Hv) as (s3 & HE & Hp3).
  rewrite HE. cbn [mbind option_bind].
  pose proof (erased_inv _ _ _ Hp3) as HI3.
  pose proof (erased_config _ _ _ Hp3) as HC3.
  assert (Hc2 : count_nodes (has_service (service ev)) (m_index s) = 1).
  { apply (count_nodes_one _ _ (pv, ev)); [|done|done|].
    - apply NoDup_nodes, (ok_ptrs _ _ _ (inv_index _ HI)).
    - intros n Hn Hs. by apply Halone. }
  assert (Hc3 : count_nodes (has_service (service ev)) (m_index s3) = 0).
  { rewrite (erased_count _ _ _ Hp3), Hc2. by rewrite decide_True. }
  set (ie := Rebucket (nKey s3) (m_asmap s3) (set_fInTried false ev)).
  assert (∃ s4, match ByBucket_find (ByBucketExtractor ie) (m_index s3) with
                | Some w => Erase w.1 s3
                | None => Some s3
                end = Some s4 ∧ Inv s4 ∧ shrinks s3 s4
                ∧ ∀ n, n ∈ m_index s4 →
                    ByBucketExtractor n.2 ≠ ByBucketExtractor ie)
    as (s4 & H4 & HI4 & Hsh4 & Hfree4).
  { destruct (ByBucket_find (ByBucketExtractor ie) (m_index s3)) as [w|] eqn:Ef.
    - apply ByBucket_find_Some in Ef as [Hw Hwk]. destruct w as [pw ew].
      destruct (Erase_spec s3 pw ew HI3 Hw) as (s4 & HE4 & Hp4).
      exists s4. split; [done|]. split; [apply Hp4|].
      split; [by eapply erase_post_shrinks|].
      intros n Hn. rewrite <- Hwk. by apply (erased_free _ _ _ Hp4).
    - exists s3. split; [done|]. split; [done|]. split; [apply shrinks_refl|].
      by apply ByBucket_find_None. }
  rewrite H4. cbn [mbind option_bind].
  assert (Hc4 : count_nodes (has_service (service ev)) (m_index s4) = 0).
  { pose proof (shr_count _ _ Hsh4 (service ev)).
    pose proof (count_nodes_nonneg (has_service (service ev)) (m_index s4)).
    lia. }
  pose proof (proj1 (count_nodes_absent _ _) Hc4) as Hno4.
  assert (Hcm : ByAddress_count (service ie, false) (m_index s4) = 0).
  { rewrite ByAddress_count_main. apply count_nodes_zero.
    intros n Hn [Hs _]. by apply (Hno4 n Hn). }
  rewrite Hcm. cbn [Z.eqb negb].
  pose proof (shr_config _ _ Hsh4) as HC4.
  assert (Hk4 : nKey s4 = nKey s3 ∧ m_asmap s4 = m_asmap s3).
  { destruct HC4 as (?&?&_). done. }
  destruct Hk4 as [Hk4 Ha4].
  eexists. split; [done|]. split; [|split; [|split]].
  - apply Insert_spec; [done| | |].
    + apply Rebucket_range. apply (ok_ranges _ _ _ (inv_index _ HI) _ Hv).
    + intros n Hn. rewrite Hk4, Ha4. unfold ie. rewrite Rebucket_idem.
      by apply Hfree4.
    + intros n Hn. by apply Hno4.
  - eapply same_env_trans; [|apply Insert_env].
    eapply same_env_trans; apply same_config_env; eassumption.
  - intros n Hn. rewrite Insert_index in Hn.
    apply elem_of_index_insert in Hn as [->|Hn].
    + cbn [snd]. unfold ByBucketExtractor. cbn. rewrite Ht. congruence.
    + destruct (shr_slots _ _ Hsh4 n Hn) as (n3 & Hn3 & Hs3).
      rewrite <- Hs3. by apply (erased_free _ _ _ Hp3).
  - intros a. rewrite Insert_count.
    pose proof (shr_count _ _ Hsh4 a) as H43.
    rewrite (erased_count _ _ _ Hp3) in H43.
    change (service ie) with (service ev).
    destruct (decide (a = service ev)); lia.
Qed.

Lemma MakeTried_spec s it info :
  Inv s → (it, info) ∈ m_index s → fInTried info = false →
  ∃ s', MakeTried it s = Some s' ∧ Inv s' ∧ same_env s s'
        ∧ (∀ a, count_nodes (has_service a) (m_index s')
                <= Z.max 1 (count_nodes (has_service a) (m_index s))).
Proof.
  intros HI Hin Hf. unfold MakeTried.
  rewrite (index_lookup_elem _ _ _ (ok_ptrs _ _ _ (inv_index _ HI)) Hin).
  cbn [mbind option_bind]. rewrite Hf.
  destruct (Erase_spec s it info HI Hin) as (s1 & HE & Hp1).
  rewrite HE. cbn [mbind option_bind].
  destruct (Erase_address_spec (length (m_index s1)) (service info) s1
              (erased_inv _ _ _ Hp1)) as (s2 & HEA & HI2 & Hsh2 & _ & Hno2);
    [lia|].
  rewrite HEA. cbn [mbind option_bind].
  set (it' := Rebucket (nKey s2) (m_asmap s2) (set_fInTried true info)).
  assert (Hc2 : ∀ a, count_nodes (has_service a) (m_index s2)
                     <= count_nodes (has_service a) (m_index s)).
  { intros a. pose proof (shr_count _ _ Hsh2 a) as H21.
    rewrite (erased_count _ _ _ Hp1) in H21.
    destruct (decide (a = service info)); lia. }
  assert (He2 : same_env s s2).
  { eapply same_env_trans; apply same_config_env;
      [apply Hp1 | apply Hsh2]. }
  assert (∃ s3, match ByBucket_find (ByBucketExtractor it') (m_index s2) with
                | Some v => MakeTried_evict v s2
                | None => Some s2
                end = Some s3 ∧ Inv s3 ∧ same_env s2 s3
                ∧ (∀ n, n ∈ m_index s3 →
                     ByBucketExtractor n.2 ≠ ByBucketExtractor it')
                ∧ (∀ a, count_nodes (has_service a) (m_index s3)
                        <= count_nodes (has_service a) (m_index s2)))
    as (s3 & H3 & HI3 & He3 & Hfree3 & Hc3).
  { destruct (ByBucket_find (ByBucketExtractor it') (m_index s2)) as [v|] eqn:Ef.
    - apply ByBucket_find_Some in Ef as [Hv Hvk].
      assert (Hvt : fInTried v.2 = true).
      { unfold ByBucketExtractor in Hvk. by inversion Hvk. }
      destruct (MakeTried_evict_spec s2 v HI2 Hv Hvt)
        as (s3 & HM & HI3 & He3 & Hfree & Hc).
      exists s3. split; [done|]. split; [done|]. split; [done|].
      split; [|done]. intros n Hn. rewrite <- Hvk. by apply Hfree.
    - exists s2. split; [done|]. split; [done|]. split; [apply same_env_refl|].
      split; [by apply ByBucket_find_None | intros; lia]. }
  rewrite H3. cbn [mbind option_bind].
  assert (Hno3 : ∀ n, n ∈ m_index s3 → service n.2 ≠ service info).
  { apply count_nodes_absent.
    pose proof (Hc3 (service info)).
    pose proof (proj2 (count_nodes_absent _ _) Hno2).
    pose proof (count_nodes_nonneg (has_service (service info)) (m_index s3)).
    lia. }
  pose proof He3 as (Hk3 & Ha3 & _).
  eexists. split; [done|]. split; [|split].
  - apply Insert_spec; [done| | |].
    + apply Rebucket_range. apply (ok_ranges _ _ _ (inv_index _ HI) _ Hin).
    + intros n Hn. unfold it'. rewrite Hk3, Ha3, Rebucket_idem.
      by apply Hfree3.
    + intros n Hn. by apply Hno3.
  - eapply same_env_trans; [|apply Insert_env].
    by eapply same_env_trans; [apply He2|].
  - intros a. rewrite Insert_count. change (service it') with (service info).
    pose proof (Hc3 a). pose proof (Hc2 a).
    destruct (decide (a = service info)) as [->|]; [|lia].
    pose proof (proj2 (count_nodes_absent _ _) Hno3). lia.
Qed.

End MakeTriedProofs.

(** * Good, Attempt, Connected, SetServices *)

Section Operations.
Context `{NT : NetTypes} {NL : NetLaws}.
Implicit Types (idx : list node) (n x y c : node) (p it : ptr) (e : AddrInfo)
  (a : CService) (s : State).

(** ** Frames *)

Lemma Inv_frame s s' :
  nKey s' = nKey s → m_asmap s' = m_asmap s → m_index s' = m_index s →
  next_ptr s' = next_ptr s → vRandom s' = vRandom s →
  nNew s' = nNew s → nTried s' = nTried s →
  (∀ p, p ∈ m_tried_collisions s' → p ∈ (m_index s).*1) →
  Inv s → Inv s'.
Proof.
  intros Hk Ha Hi Hp Hv Hn Ht Hc [I1 I2 I3 I4 I5 I6 I7].
  split; rewrite ?Hk, ?Ha, ?Hi, ?Hp, ?Hv, ?Hn, ?Ht; done.
Qed.

Lemma good_step_refl s : Inv s → good_step s s.
Proof. by split. Qed.

Lemma good_step_trans s1 s2 s3 :
  good_step s1 s2 → good_step s2 s3 → good_step s1 s3.
Proof. intros [I2 B2] [I3 B3]. split; auto. Qed.

Lemma good_step_frame s s' :
  nKey s' = nKey s → m_asmap s' = m_asmap s → m_index s' = m_index s →
  next_ptr s' = next_ptr s → vRandom s' = vRandom s →
  nNew s' = nNew s → nTried s' = nTried s →
  (∀ p, p ∈ m_tried_collisions s' → p ∈ (m_index s).*1) →
  Inv s → good_step s s'.
Proof.
  intros Hk Ha Hi Hp Hv Hn Ht Hc HI. split.
  - by apply (Inv_frame s).
  - unfold entries_bounded. by rewrite Hi.
Qed.

Lemma randrange_frame k s :
  let s' := (randrange k s).2 in
  nKey s' = nKey s ∧ m_asmap s' = m_asmap s ∧ m_index s' = m_index s
  ∧ next_ptr s' = next_ptr s ∧ vRandom s' = vRandom s
  ∧ nNew s' = nNew s ∧ nTried s' = nTried s
  ∧ m_tried_collisions s' = m_tried_collisions s
  ∧ nLastGood s' = nLastGood s
  ∧ m_consistency_check_ratio s' = m_consistency_check_ratio s.
Proof. unfold randrange. by destruct (insecure_rand s). Qed.

Lemma randrange_range k s : 0 < k → 0 <= (randrange k s).1 < k.
Proof.
  intros Hk. unfold randrange. destruct (insecure_rand s); cbn [fst]; [lia|].
  by apply Z.mod_pos_bound.
Qed.

Lemma randrange_step k s : Inv s → good_step s (randrange k s).2.
Proof.
  intros HI. destruct (randrange_frame k s) as (?&?&?&?&?&?&?&Hc&?&?).
  apply good_step_frame; try done.
  intros p. rewrite Hc. apply (inv_collisions _ HI).
Qed.

(** ** Updates of the statistics *)

Lemma Modify_step s it e f :
  Inv s → (it, e) ∈ m_index s →
  same_place e (f e) → nRandomPos (f e) = nRandomPos e →
  AddrInfo_in_range (f e) →
  ∃ s', Modify it f s = Some s'
        ∧ s' = set_index (index_modify it f (m_index s)) s
        ∧ good_step s s' ∧ (it, f e) ∈ m_index s'.
Proof.
  intros HI Hin Hsp Hpos Hr.
  destruct (Modify_stat s it e f HI Hin Hsp Hpos Hr) as [HM HI'].
  eexists. split; [done|]. split; [done|]. split; [split; [done|]|].
  - unfold entries_bounded. cbn [m_index set_index]. intros Hb a.
    rewrite count_nodes_modify; [apply Hb|].
    intros e' He'. unfold has_service. cbn [snd].
    rewrite (node_unique _ _ _ _ (ok_ptrs _ _ _ (inv_index _ HI)) He' Hin).
    destruct Hsp as [-> _]. done.
  - cbn [m_index set_index]. apply elem_of_index_modify. right. eauto.
Qed.

Lemma in_s_wrapS w z : 0 < w → in_s w (wrapS w z).
Proof. intros. by apply wrapS_range. Qed.

Lemma in_u_wrapU w z : 0 <= w → in_u w (wrapU w z).
Proof. intros. by apply wrapU_range. Qed.

Lemma find_main_elem addr idx (it : node) :
  ByAddress_find (addr, false) idx = Some it →
  (it.1, it.2) ∈ idx ∧ service it.2 = addr ∧ is_alias it.2 = false.
Proof.
  intros H. apply ByAddress_find_Some in H as (Hin & Hs & Ha).
  by destruct it.
Qed.

Lemma Attempt_spec addr fc t s :
  Inv s → in_s 64 t →
  ∃ s', Attempt_ addr fc t s = Some s' ∧ good_step s s'.
Proof.
  intros HI Ht. unfold Attempt_.
  destruct (ByAddress_find (addr, false) (m_index s)) as [it|] eqn:E.
  - apply find_main_elem in E as (Hin & _ & _).
    pose proof (ok_ranges _ _ _ (inv_index _ HI) _ Hin) as (?&?&?&?&?&?).
    edestruct (Modify_step s it.1 it.2) as (s' & HM & _ & Hg & _);
      [done|done| | | |by eauto].
    + cbn beta zeta. by destruct (_ && _).
    + cbn beta zeta. by destruct (_ && _).
    + cbn beta zeta. cbn [snd] in *.
      destruct (_ && _); unfold AddrInfo_in_range; split_and!; cbn; try done.
      by apply in_s_wrapS.
  - exists s. split; [done|]. by apply good_step_refl.
Qed.

Lemma Connected_spec addr t s :
  Inv s → ∃ s', Connected_ addr t s = Some s' ∧ good_step s s'.
Proof.
  intros HI. unfold Connected_.
  destruct (ByAddress_find (addr, false) (m_index s)) as [it|] eqn:E.
  - apply find_main_elem in E as (Hin & _ & _).
    pose proof (ok_ranges _ _ _ (inv_index _ HI) _ Hin) as (?&?&?&?&?&?).
    cbn zeta. destruct (_ <? _).
    + edestruct (Modify_step s it.1 it.2) as (s' & HM & _ & Hg & _);
        [done|done| | | |by eauto]; [done|done|].
      unfold AddrInfo_in_range; split_and!; cbn; try done.
      by apply in_u_wrapU.
    + exists s. split; [done|]. by apply good_step_refl.
  - exists s. split; [done|]. by apply good_step_refl.
Qed.

Lemma SetServices_spec addr v s :
  Inv s → in_u 64 v →
  ∃ s', SetServices_ addr v s = Some s' ∧ good_step s s'.
Proof.
  intros HI Hv. unfold SetServices_.
  destruct (ByAddress_find (addr, false) (m_index s)) as [it|] eqn:E.
  - apply find_main_elem in E as (Hin & _ & _).
    pose proof (ok_ranges _ _ _ (inv_index _ HI) _ Hin) as (?&?&?&?&?&?).
    edestruct (Modify_step s it.1 it.2) as (s' & HM & _ & Hg & _);
      [done|done| | | |by eauto]; [done|done|].
    unfold AddrInfo_in_range; split_and!; cbn; done.
  - exists s. split; [done|]. by apply good_step_refl.
Qed.

(** ** Good *)

Lemma Good_spec addr tbe t s :
  Inv s → in_s 64 t →
  ∃ r s', Good_ addr tbe t s = Some (r, s') ∧ good_step s s'.
Proof.
  intros HI Ht. unfold Good_. cbn zeta.
  assert (Hg0 : good_step s (set_nLastGood t s)).
  { apply good_step_frame; try done. apply (inv_collisions _ HI). }
  set (s0 := set_nLastGood t s) in *.
  destruct (ByAddress_find (addr, false) (m_index s0)) as [it|] eqn:E.
  2: { by exists false, s0. }
  apply find_main_elem in E as (Hin & _ & Hal).
  pose proof (ok_ranges _ _ _ (inv_index _ (proj1 Hg0)) _ Hin) as (?&?&?&?&?&?).
  match goal with |- context [Modify _ ?f _] =>
    destruct (Modify_step s0 it.1 it.2 f) as (s1 & HM & Hs1 & Hg1 & Hin1)
  end; [apply Hg0|done|done|done| |].
  { unfold AddrInfo_in_range; split_and!; cbn; done. }
  rewrite HM. cbn [mbind option_bind].
  pose proof (proj1 Hg1) as HI1.
  rewrite (index_lookup_elem _ _ _ (ok_ptrs _ _ _ (inv_index _ HI1)) Hin1).
  cbn [mbind option_bind].
  match goal with |- context [fInTried ?e] => set (e1 := e) in * end.
  destruct (fInTried e1) eqn:Hf.
  { exists false, s1. split; [done|]. by eapply good_step_trans. }
  destruct (tbe && _).
  - eexists false, _. split; [done|].
    eapply good_step_trans; [exact Hg0|]. eapply good_step_trans; [exact Hg1|].
    destruct (_ <? _); [|by apply good_step_refl].
    apply good_step_frame; try done.
    intros p Hp. cbn [m_tried_collisions set_tried_collisions] in Hp.
    apply elem_of_union in Hp as [Hp|Hp].
    + apply elem_of_singleton in Hp as ->. by apply (elem_of_ptrs (it.1, e1)).
    + by apply (inv_collisions _ HI1).
  - destruct (MakeTried_spec s1 it.1 e1 HI1 Hin1 Hf) as (s2 & HMT & HI2 & _ & Hc).
    rewrite HMT. cbn [mbind option_bind]. exists true, s2. split; [done|].
    eapply good_step_trans; [exact Hg0|]. eapply good_step_trans; [exact Hg1|].
    split; [done|]. intros Hb a. specialize (Hb a). specialize (Hc a).
    unfold ADDRMAN_NEW_BUCKETS_PER_ADDRESS in *. lia.
Qed.

End Operations.

(** * AddSingle *)

Section AddOps.
Context `{NT : NetTypes} {NL : NetLaws}.
Implicit Types (idx : list node) (n x y c : node) (p it : ptr) (e : AddrInfo)
  (a : CService) (s : State).

Lemma in_u_lor (w a b : Z) : 0 <= w → in_u w a → in_u w b → in_u w (Z.lor a b).
Proof.
  unfold in_u. intros Hw [Ha1 Ha2] [Hb1 Hb2].
  split; [by apply Z.lor_nonneg|].
  destruct (decide (Z.lor a b = 0)) as [->|Hne]; [by apply Z.pow_pos_nonneg|].
  assert (0 < Z.lor a b) by (pose proof (proj2 (Z.lor_nonneg a b) (conj Ha1 Hb1)); lia).
  apply Z.log2_lt_pow2; [done|]. rewrite Z.log2_lor by done.
  destruct (decide (a = 0)) as [->|Ha0]; destruct (decide (b = 0)) as [->|Hb0].
  - simpl in Hne. done.
  - rewrite Z.max_r by apply Z.log2_nonneg. apply Z.log2_lt_pow2; lia.
  - rewrite Z.max_l by apply Z.log2_nonneg. apply Z.log2_lt_pow2; lia.
  - apply Z.max_lub_lt; apply Z.log2_lt_pow2; lia.
Qed.

Lemma AddSingle_place_spec info (alias : bool) now s :
  Inv s → AddrInfo_in_range info → fInTried info = false →
  (if alias
   then ∃ c, c ∈ m_index s ∧ is_alias c.2 = false ∧ fInTried c.2 = false
             ∧ service c.2 = service info
   else ∀ n, n ∈ m_index s → service n.2 ≠ service info) →
  ∃ r s', AddSingle_place info alias now s = Some (r, s') ∧ Inv s'
    ∧ (entries_bounded s →
       (alias = true →
        count_nodes (has_service (service info)) (m_index s)
        < ADDRMAN_NEW_BUCKETS_PER_ADDRESS) →
       entries_bounded s')
    ∧ keeps (λ b, b = service info) s s'.
Proof.
  intros HI Hr Hf Hkind. unfold AddSingle_place. cbn zeta.
  set (info' := Rebucket (nKey s) (m_asmap s) info).
  assert (Hbound : ∀ s1, (∀ a, count_nodes (has_service a) (m_index s1)
                               <= count_nodes (has_service a) (m_index s)) →
            entries_bounded s →
            (alias = true →
             count_nodes (has_service (service info)) (m_index s)
             < ADDRMAN_NEW_BUCKETS_PER_ADDRESS) →
            entries_bounded (Insert info' alias s1).2).
  { intros s1 Hle Hb Hlt a. rewrite Insert_count.
    change (service info') with (service info).
    specialize (Hle a). specialize (Hb a).
    destruct (decide (a = service info)) as [->|]; [|lia].
    destruct alias.
    - specialize (Hlt eq_refl). lia.
    - pose proof (proj2 (count_nodes_absent _ _) Hkind).
      unfold ADDRMAN_NEW_BUCKETS_PER_ADDRESS. lia. }
  destruct (ByBucket_find (ByBucketExtractor info') (m_index s)) as [v|] eqn:Ef.
  - apply ByBucket_find_Some in Ef as [Hv Hvk].
    destruct (decide (service v.2 ≠ service info')) as [Hne|_].
    2: { exists false, s. split_and!; [done|done|done|apply keeps_refl]. }
    destruct (_ || _).
    2: { exists false, s. split_and!; [done|done|done|apply keeps_refl]. }
    destruct v as [pv ev]. cbn [fst snd] in *.
    destruct (Erase_spec s pv ev HI Hv) as (s1 & HE & Hp1).
    rewrite HE. cbn [mbind option_bind].
    pose proof (erased_config _ _ _ Hp1) as (Hk1 & Ha1 & _).
    eexists true, _. split; [done|]. split; [|split].
    + apply Insert_spec; [apply Hp1|done| |].
      * intros n Hn. rewrite Hk1, Ha1. unfold info'. rewrite Rebucket_idem.
        fold info'. rewrite <- Hvk. by apply (erased_free _ _ _ Hp1).
      * destruct alias.
        -- split; [done|]. destruct Hkind as (c & Hc & Hca & Hcf & Hcs).
           destruct (erased_others _ _ _ Hp1 c Hc) as (e' & He' & Hse).
           { rewrite Hcs. intros Heq. apply Hne. done. }
           apply same_entry_fields in Hse as (?&?&?&?&_).
           exists (c.1, e'). cbn [snd]. split; [done|].
           split; [congruence|]. split; [congruence|].
           change (service info') with (service info). congruence.
        -- intros n Hn. destruct (erased_old _ _ _ Hp1 n Hn) as (n0 & Hn0 & _ & Hs0 & _).
           rewrite Hs0. by apply Hkind.
    + apply Hbound. intros a. rewrite (erased_count _ _ _ Hp1).
      destruct (decide (a = service ev)); lia.
    + intros n Hn Hs. destruct (erased_others _ _ _ Hp1 n Hn) as (e' & He' & Hse).
      { rewrite Hs. intros Heq. by apply Hne. }
      exists e'. split; [|done]. rewrite Insert_index.
      apply elem_of_index_insert. by right.
  - eexists true, _. split; [done|]. split; [|split].
    + apply Insert_spec; [done|done| |].
      * intros n Hn. unfold info'. rewrite Rebucket_idem.
        by apply (ByBucket_find_None _ _ Ef).
      * destruct alias; [|exact Hkind]. split; [exact Hf | exact (proj2 (conj I Hkind))].
    + apply Hbound. intros; lia.
    + intros [pn en] Hn Hs. exists en. split; [|apply same_entry_refl].
      rewrite Insert_index. apply elem_of_index_insert. by right.
Qed.

Lemma in_s_0 (w : Z) : 0 < w → in_s w 0.
Proof.
  intros Hw. unfold in_s.
  pose proof (Z.pow_pos_nonneg 2 (w - 1)). lia.
Qed.

Lemma find_main_absent a s :
  Inv s → ByAddress_find (a, false) (m_index s) = None →
  ∀ n, n ∈ m_index s → service n.2 ≠ a.
Proof.
  intros HI E n Hn Hs.
  pose proof (inv_index _ HI) as Hok.
  pose proof (ByAddress_find_None _ _ (ok_sorted _ _ _ Hok) E) as Hnone.
  destruct (is_alias n.2) eqn:Ea.
  - destruct (ok_aliases _ _ _ Hok n Hn Ea) as [_ (c & Hc & Hca & _ & Hcs)].
    apply (Hnone c Hc). split; cbn [fst snd]; congruence.
  - apply (Hnone n Hn). by split.
Qed.

Lemma AddSingle_spec addr src pen now s :
  Inv s → CAddress_in_range addr →
  ∃ r s', AddSingle addr src pen now s = Some (r, s') ∧ good_step s s'
    ∧ ∀ it : node,
        IsRoutable addr.1.1 = true →
        ByAddress_find (addr.1.1, false) (m_index s) = Some it →
        let pen' := if decide (ToNetAddr addr.1.1 = src) then 0 else pen in
        let interval :=
          if sub64 now addr.1.2 <? 24 * 60 * 60
          then 60 * 60 else 24 * 60 * 60 in
        let e1 :=
          if negb (addr.1.2 =? 0)
             && ((nTime it.2 =? 0)
                 || (nTime it.2 <? sub64 (sub64 addr.1.2 interval) pen'))
          then set_nTime (wrapU 32 (Z.max 0 (sub64 addr.1.2 pen'))) it.2
          else it.2 in
        ∃ e', (it.1, e') ∈ m_index s'
              ∧ same_entry (set_nServices (Z.lor (nServices e1) addr.2) e1) e'.
Proof.
  intros HI [Hrt Hrs]. destruct addr as [[svc t] sv]. cbn [fst snd] in *.
  unfold AddSingle. destruct (IsRoutable svc); cbn [negb].
  2: { exists false, s. split; [done|]. split; [by apply good_step_refl|done]. }
  set (pen' := if decide (ToNetAddr svc = src) then 0 else pen).
  destruct (ByAddress_find (svc, false) (m_index s)) as [it|] eqn:E.
  2: { edestruct (AddSingle_place_spec
          (set_nTime (wrapU 32 (Z.max 0 (sub64 t pen')))
             (set_fInTried false (AddrInfo_new (svc, t, sv) src))) false now s)
        as (r & s' & HA & HI' & Hb & _); [done| |done| |].
       - unfold AddrInfo_in_range; split_and!; cbn; try done.
         all: try (by apply in_s_0). by apply in_u_wrapU.
       - cbn. by apply find_main_absent.
       - exists r, s'. split; [exact HA|]. split; [|done].
         split; [done|]. intros Hbd. by apply Hb. }
  cbn zeta. pose proof E as E'.
  apply find_main_elem in E as (Hin & Hsv & Hal).
  set (interval := if sub64 now t <? 24 * 60 * 60 then 60 * 60 else 24 * 60 * 60).
  set (cond := negb (t =? 0) && _).
  set (e1 := if cond then set_nTime (wrapU 32 (Z.max 0 (sub64 t pen'))) it.2
             else it.2).
  pose proof (ok_ranges _ _ _ (inv_index _ HI) _ Hin) as (?&?&?&?&?&?).
  cbn [snd] in *.
  assert (∃ s1, (if cond
                 then Modify it.1
                        (set_nTime (wrapU 32 (Z.max 0 (sub64 t pen')))) s
                 else Some s) = Some s1
                ∧ good_step s s1 ∧ (it.1, e1) ∈ m_index s1)
    as (s1 & H1' & Hg1 & Hin1).
  { unfold e1. destruct cond.
    - edestruct (Modify_step s it.1 it.2) as (s1 & HM & _ & Hg & Hi);
        [done|done| | | |by eauto]; [done|done|].
      unfold AddrInfo_in_range; split_and!; cbn; try done.
      by apply in_u_wrapU.
    - exists s. split; [done|]. split; [by apply good_step_refl|done]. }
  rewrite H1'. cbn [mbind option_bind].
  assert (He1 : same_place it.2 e1 ∧ nRandomPos e1 = nRandomPos it.2
                ∧ AddrInfo_in_range e1).
  { unfold e1. destruct cond; [|by split_and!].
    split_and!; try done.
    unfold AddrInfo_in_range; split_and!; cbn; try done. by apply in_u_wrapU. }
  destruct He1 as (Hsp1 & Hpos1 & Hr1).
  match goal with |- context [Modify _ ?f s1] =>
    destruct (Modify_step s1 it.1 e1 f) as (s2 & HM2 & _ & Hg2 & Hin2)
  end; [apply Hg1|done|done|done| |].
  { destruct Hr1 as (?&?&?&?&?&?).
    unfold AddrInfo_in_range; split_and!; cbn; try done. by apply in_u_lor. }
  rewrite HM2. cbn [mbind option_bind].
  pose proof (proj1 Hg2) as HI2.
  rewrite (index_lookup_elem _ _ _ (ok_ptrs _ _ _ (inv_index _ HI2)) Hin2).
  cbn [mbind option_bind].
  set (cur := set_nServices (Z.lor (nServices e1) sv) e1) in *.
  assert (Hg02 : good_step s s2) by (by eapply good_step_trans).
  assert (Hdone : ∃ e', (it.1, e') ∈ m_index s2 ∧ same_entry cur e').
  { exists cur. split; [done | apply same_entry_refl]. }
  destruct ((t =? 0) || _).
  { exists false, s2. split_and!; [done|done|].
    intros it0 _ [= <-]. exact Hdone. }
  destruct (fInTried cur) eqn:Hft.
  { exists false, s2. split_and!; [done|done|].
    intros it0 _ [= <-]. exact Hdone. }
  destruct (CountAddr svc s2 =? ADDRMAN_NEW_BUCKETS_PER_ADDRESS) eqn:Hcnt.
  { exists false, s2. split_and!; [done|done|].
    intros it0 _ [= <-]. exact Hdone. }
  apply Z.eqb_neq in Hcnt.
  rewrite CountAddr_count in Hcnt by apply (ok_sorted _ _ _ (inv_index _ HI2)).
  set (nFactor := wrapS 32 _).
  assert (∃ r s3, (if 1 <? nFactor then randrange nFactor s2 else (0, s2))
                  = (r, s3) ∧ good_step s2 s3 ∧ m_index s3 = m_index s2)
    as (r & s3 & Hr3 & Hg3 & Hi3).
  { destruct (1 <? nFactor).
    - exists (randrange nFactor s2).1, (randrange nFactor s2).2.
      split; [by destruct (randrange nFactor s2)|].
      split; [by apply randrange_step|].
      by destruct (randrange_frame nFactor s2) as (?&?&?&_).
    - exists 0, s2. split; [done|]. split; [by apply good_step_refl|done]. }
  rewrite Hr3.
  destruct ((1 <? nFactor) && _).
  { exists false, s3. split; [done|]. split; [by eapply good_step_trans|].
    intros it0 _ [= <-]. rewrite Hi3. exact Hdone. }
  edestruct (AddSingle_place_spec
               (set_fInTried false (AddrInfo_new (svc, t, sv) src)) true now s3)
    as (r' & s' & HA & HI' & Hb & Hk); [apply Hg3| |done| |].
  - unfold AddrInfo_in_range; split_and!; cbn; try done.
    all: by apply in_s_0.
  - exists (it.1, cur). rewrite Hi3. split; [done|]. cbn.
    split; [|split; [done|]].
    + destruct Hsp1 as (_&_&_&Ha1&_). unfold cur. 
      change (is_alias (set_nServices (Z.lor (nServices e1) sv) e1))
        with (is_alias e1). congruence.
    + destruct Hsp1 as (Hs1&_). unfold e1 in *. by destruct cond.
  - exists r', s'. split; [exact HA|]. split.
    + split; [done|]. intros Hbd. apply Hb.
      * by apply Hg3, Hg02.
      * intros _. cbn. rewrite Hi3.
        pose proof (proj2 Hg02 Hbd svc). lia.
    + intros it0 _ [= <-]. cbn zeta. apply (Hk (it.1, cur)); [by rewrite Hi3|].
      cbn. destruct Hsp1 as (Hs1&_). unfold cur, e1 in *. by destruct cond.
Qed.

End AddOps.

(** * Add, ResolveCollisions and Select *)

Section Loops.
Context `{NT : NetTypes} {NL : NetLaws}.
Implicit Types (idx : list node) (n x y c : node) (p it : ptr) (e : AddrInfo)
  (a : CService) (s : State).

Lemma Add_loop_spec vAddr src pen now added s :
  Inv s → Forall CAddress_in_range vAddr →
  ∃ r s', Add_loop vAddr src pen now added s = Some (r, s') ∧ good_step s s'.
Proof.
  revert added s. induction vAddr as [|ad rest IH]; intros added s HI Hall.
  - exists added, s. split; [done|]. by apply good_step_refl.
  - apply Forall_cons in Hall as [Had Hall]. cbn [Add_loop].
    destruct (AddSingle_spec ad src pen now s HI Had) as (r & s1 & HA & Hg & _).
    rewrite HA. cbn [mbind option_bind].
    destruct (IH (added + (if r then 1 else 0)) s1 (proj1 Hg) Hall)
      as (r' & s' & HL & Hg').
    exists r', s'. split; [done|]. by eapply good_step_trans.
Qed.

Lemma Add_spec vAddr src pen now s :
  Inv s → Forall CAddress_in_range vAddr →
  ∃ r s', Add_ vAddr src pen now s = Some (r, s') ∧ good_step s s'.
Proof.
  intros HI Hall. unfold Add_.
  destruct (Add_loop_spec vAddr src pen now 0 s HI Hall) as (r & s' & HL & Hg).
  rewrite HL. cbn [mbind option_bind]. by eexists _, _.
Qed.

Lemma Good_step addr tbe t s r s' :
  Inv s → in_s 64 t → Good_ addr tbe t s = Some (r, s') → good_step s s'.
Proof.
  intros HI Ht HG. destruct (Good_spec addr tbe t s HI Ht) as (r0 & s0 & HG0 & Hg).
  congruence.
Qed.

Lemma erase_collision_step s it :
  Inv s → good_step s (set_tried_collisions (m_tried_collisions s ∖ {[it]}) s).
Proof.
  intros HI. apply good_step_frame; try done.
  intros p Hp. cbn [m_tried_collisions set_tried_collisions] in Hp.
  apply elem_of_difference in Hp as [Hp _]. by apply (inv_collisions _ HI).
Qed.

Lemma ResolveCollisions_round_step it now s s' :
  Inv s → in_s 64 now →
  ResolveCollisions_round it now s = Some s' → good_step s s'.
Proof.
  intros HI Hnow HR. unfold ResolveCollisions_round in HR.
  destruct (index_lookup it (m_index s)) as [info_new|]; [|done].
  cbn [mbind option_bind] in HR. cbn zeta in HR.
  match type of HR with
  | (?B ≫= _) = _ => destruct B as [[ec s1]|] eqn:HB; [|done]
  end.
  cbn [mbind option_bind] in HR. injection HR as <-.
  assert (Hg1 : good_step s s1).
  { destruct (ByBucket_find _ (m_index s)) as [it_old|].
    - destruct (_ <? _).
      { injection HB as <- <-. by apply good_step_refl. }
      destruct (_ <? _).
      + destruct (_ <? _).
        * destruct (Good_ _ false now s) as [[r0 s0]|] eqn:HG; [|done].
          cbn [mbind option_bind] in HB. injection HB as <- <-.
          by eapply Good_step.
        * injection HB as <- <-. by apply good_step_refl.
      + destruct (_ <? _).
        * destruct (Good_ _ false now s) as [[r0 s0]|] eqn:HG; [|done].
          cbn [mbind option_bind] in HB. injection HB as <- <-.
          by eapply Good_step.
        * injection HB as <- <-. by apply good_step_refl.
    - destruct (Good_ _ false now s) as [[r0 s0]|] eqn:HG; [|done].
      cbn [mbind option_bind] in HB. injection HB as <- <-.
      by eapply Good_step. }
  destruct ec; [|done].
  eapply good_step_trans; [exact Hg1|]. apply erase_collision_step, Hg1.
Qed.

Lemma ResolveCollisions_loop_step order (it : option ptr) now s s' :
  Inv s → in_s 64 now →
  ResolveCollisions_loop order it now s = Some s' → good_step s s'.
Proof.
  revert it s. induction order as [|p rest IH]; intros it s HI Hnow HR.
  - injection HR as <-. by apply good_step_refl.
  - cbn [ResolveCollisions_loop] in HR.
    destruct (decide (it = Some p)); [|by eapply IH].
    cbn zeta in HR.
    destruct (ResolveCollisions_round p now s) as [s1|] eqn:HRd; [|done].
    cbn [mbind option_bind] in HR.
    pose proof (ResolveCollisions_round_step _ _ _ _ HI Hnow HRd) as Hg1.
    destruct (head (in_order rest (m_tried_collisions s))) as [nx|].
    + destruct (decide (nx ∈ m_tried_collisions s1)); [|done].
      eapply good_step_trans; [exact Hg1|]. eapply IH; [apply Hg1|done|done].
    + by injection HR as <-.
Qed.

Lemma ResolveCollisions_step order now s s' :
  Inv s → in_s 64 now →
  ResolveCollisions_ order now s = Some s' → good_step s s'.
Proof. apply ResolveCollisions_loop_step. Qed.

Lemma SelectTriedCollision_step order s r s' :
  Inv s → SelectTriedCollision_ order s = Some (r, s') → good_step s s'.
Proof.
  intros HI. unfold SelectTriedCollision_.
  destruct (_ =? 0).
  { intros [= <- <-]. by apply good_step_refl. }
  set (k := Z.of_nat (size (m_tried_collisions s))).
  pose proof (randrange_step k s HI) as Hg.
  destruct (randrange k s) as [r0 s0]. cbn [snd] in Hg.
  destruct (_ !! _); [|done]. cbn [mbind option_bind].
  destruct (index_lookup _ _); [|done]. cbn [mbind option_bind]. cbn zeta.
  destruct (ByBucket_find _ _); by intros [= <- <-].
Qed.

Lemma Select_loop_step fuel tried rej now s r s' :
  Inv s → Select_loop fuel tried rej now s = Some (r, s') → good_step s s'.
Proof.
  revert rej s. induction fuel as [|fuel IH]; intros rej s HI; [done|].
  cbn [Select_loop].
  set (k := if tried then ADDRMAN_TRIED_BUCKET_COUNT else ADDRMAN_NEW_BUCKET_COUNT).
  pose proof (randrange_step k s HI) as Hg1.
  destruct (randrange k s) as [bucket s1]. cbn [snd] in Hg1.
  pose proof (randrange_step ADDRMAN_BUCKET_SIZE s1 (proj1 Hg1)) as Hg2.
  destruct (randrange ADDRMAN_BUCKET_SIZE s1) as [pos s2]. cbn [snd] in Hg2.
  assert (Hg02 : good_step s s2) by (by eapply good_step_trans).
  destruct (Select_scan _ _ _ _ _ _) as [it|].
  - unfold randbits.
    pose proof (randrange_step (2 ^ 30) s2 (proj1 Hg2)) as Hg3.
    destruct (randrange (2 ^ 30) s2) as [draw s3]. cbn [snd] in Hg3.
    destruct (GetChance_accepts _ _ _ _).
    + intros [= <- <-]. by eapply good_step_trans.
    + intros HS. eapply good_step_trans; [exact Hg02|].
      eapply good_step_trans; [exact Hg3|]. eapply IH; [apply Hg3|done].
  - intros HS. eapply good_step_trans; [exact Hg02|].
    eapply IH; [apply Hg2|done].
Qed.

Lemma Select_step fuel newOnly now s r s' :
  Inv s → Select_ fuel newOnly now s = Some (r, s') → good_step s s'.
Proof.
  intros HI. unfold Select_. destruct (m_index s) eqn:Ei.
  { intros [= <- <-]. by apply good_step_refl. }
  destruct (newOnly && _).
  { intros [= <- <-]. by apply good_step_refl. }
  destruct (negb newOnly && _).
  - destruct (nNew s =? 0).
    + by apply Select_loop_step.
    + unfold randbool. pose proof (randrange_step 2 s HI) as Hg.
      destruct (randrange 2 s) as [b s1]. cbn [snd] in Hg.
      intros HS. eapply good_step_trans; [exact Hg|].
      eapply Select_loop_step; [apply Hg|done].
  - by apply Select_loop_step.
Qed.

End Loops.

(** * The size of the container, and GetAddr *)

Section Bounds.
Context `{NT : NetTypes} {NL : NetLaws}.
Implicit Types (idx : list node) (n x y c : node) (p it : ptr) (e : AddrInfo)
  (a : CService) (s : State).

(** ** The container has at most as many nodes as there are slots *)

Lemma slot_code_inj k1 k2 :
  slot_in_range k1 → slot_in_range k2 → slot_code k1 = slot_code k2 → k1 = k2.
Proof.
  destruct k1 as [[t1 b1] p1], k2 as [[t2 b2] p2].
  unfold slot_in_range, slot_code.
  change ADDRMAN_NEW_BUCKET_COUNT with 1024.
  change ADDRMAN_BUCKET_SIZE with 64.
  cbn [fst snd]. intros [? ?] [? ?] Hc.
  destruct t1, t2; apply Z2Nat.inj in Hc; try lia;
    assert (b1 = b2) by lia; assert (p1 = p2) by lia; congruence.
Qed.

Lemma slot_code_bound k :
  slot_in_range k → (slot_code k < Z.to_nat 131072)%nat.
Proof.
  destruct k as [[t b] p].
  unfold slot_in_range, slot_code.
  change ADDRMAN_NEW_BUCKET_COUNT with 1024.
  change ADDRMAN_BUCKET_SIZE with 64.
  cbn [fst snd]. intros [? ?]. destruct t; lia.
Qed.

Lemma Rebucket_slot_range key asmap e :
  slot_in_range (ByBucketExtractor (Rebucket key asmap e)).
Proof.
  unfold slot_in_range, ByBucketExtractor, Rebucket. cbn.
  split.
  - destruct (fInTried e).
    + unfold GetTriedBucket.
      pose proof (Z.mod_pos_bound
        (GetCheapHash
           [HUint256 key; HBytes (GetGroup (ToNetAddr (service e)) asmap);
            HUint64 (GetCheapHash [HUint256 key; HBytes (GetKey (service e))]
                     mod ADDRMAN_TRIED_BUCKETS_PER_GROUP)])
        ADDRMAN_TRIED_BUCKET_COUNT eq_refl) as Hb.
      cbn zeta. change ADDRMAN_TRIED_BUCKET_COUNT with 256 in *.
      change ADDRMAN_NEW_BUCKET_COUNT with 1024. lia.
    + unfold GetNewBucket. cbn zeta. by apply Z.mod_pos_bound.
  - unfold GetBucketPosition. cbn zeta. by apply Z.mod_pos_bound.
Qed.

Lemma index_length_bound s : Inv s → Z.of_nat (length (m_index s)) <= 131072.
Proof.
  intros HI. pose proof (inv_index _ HI) as Hok.
  set (codes := (λ n : node, slot_code (ByBucketExtractor n.2)) <$> m_index s).
  assert (Hrange : ∀ n, n ∈ m_index s → slot_in_range (ByBucketExtractor n.2)).
  { intros n Hn. rewrite <- (ok_buckets _ _ _ Hok n Hn).
    apply Rebucket_slot_range. }
  assert (Hnd : NoDup codes).
  { apply NoDup_fmap_2_strong.
    - intros n1 n2 H1 H2 Hc. apply (ok_slots _ _ _ Hok); [done|done|].
      apply slot_code_inj; auto.
    - apply NoDup_nodes, (ok_ptrs _ _ _ Hok). }
  assert (Hsub : codes ⊆+ seq 0 (Z.to_nat 131072)).
  { apply NoDup_submseteq; [done|]. intros c Hc.
    apply list_elem_of_fmap in Hc as (n & -> & Hn).
    apply elem_of_seq. pose proof (slot_code_bound _ (Hrange n Hn)). lia. }
  apply submseteq_length in Hsub.
  unfold codes in Hsub. rewrite length_fmap, length_seq in Hsub. lia.
Qed.

Lemma vRandom_NoDup s : Inv s → NoDup (vRandom s).
Proof.
  intros HI. apply NoDup_alt. intros i j p Hi Hj.
  destruct (inv_vRandom _ HI) as [_ Hv].
  destruct (Hv i p Hi) as (e & He & Hpi).
  destruct (Hv j p Hj) as (e' & He' & Hpj).
  pose proof (node_unique _ _ _ _ (ok_ptrs _ _ _ (inv_index _ HI)) He He').
  subst e'. lia.
Qed.

Lemma vRandom_length_bound s :
  Inv s → (length (vRandom s) ≤ length (m_index s))%nat.
Proof.
  intros HI. rewrite <- (length_fmap fst (m_index s)).
  apply submseteq_length, NoDup_submseteq; [by apply vRandom_NoDup|].
  intros p Hp. apply list_elem_of_lookup in Hp as [i Hi].
  destruct (inv_vRandom _ HI) as [_ Hv].
  destruct (Hv i p Hi) as (e & He & _). by apply (elem_of_ptrs (p, e)).
Qed.

(** ** GetAddr *)

Lemma SwapRandom_step s pos1 pos2 :
  Inv s →
  0 <= pos1 < Z.of_nat (length (vRandom s)) →
  0 <= pos2 < Z.of_nat (length (vRandom s)) →
  ∃ s1, SwapRandom pos1 pos2 s = Some s1 ∧ good_step s s1
        ∧ length (vRandom s1) = length (vRandom s).
Proof.
  intros HI H1 H2.
  destruct (SwapRandom_spec s pos1 pos2 HI H1 H2)
    as (s1 & HS & HI1 & _ & _ & _ & _ & _ & Hl & _ & _ & Hc).
  exists s1. split; [done|]. split; [|done]. split; [done|].
  intros Hb a. rewrite Hc. apply Hb.
Qed.

Lemma GetAddr_loop_spec fuel (n : Z) nNodes network now addrs s :
  Inv s → 0 <= n →
  n + Z.of_nat fuel = Z.of_nat (length (vRandom s)) →
  ∃ r s', GetAddr_loop fuel n nNodes network now addrs s = Some (r, s')
          ∧ good_step s s'
          ∧ Z.of_nat (length r) <= Z.max (Z.of_nat (length addrs)) nNodes
          ∧ (length r ≤ length addrs + fuel)%nat.
Proof.
  revert n addrs s. induction fuel as [|fuel IH]; intros n addrs s HI Hn Hlen.
  { exists addrs, s. split; [done|]. split; [by apply good_step_refl|split; lia]. }
  cbn [GetAddr_loop]. destruct (nNodes <=? _) eqn:Hle.
  { exists addrs, s. split; [done|]. split; [by apply good_step_refl|split; lia]. }
  apply Z.leb_gt in Hle.
  pose proof (index_length_bound s HI) as Hb1.
  pose proof (vRandom_length_bound s HI) as Hb2.
  set (k := subsz (Z.of_nat (length (vRandom s))) n).
  assert (Hk : k = Z.of_nat (length (vRandom s)) - n).
  { unfold k, subsz, wrapU. apply Z.mod_small. lia. }
  pose proof (randrange_step k s HI) as Hg1.
  pose proof (randrange_range k s) as Hr.
  destruct (randrange_frame k s) as (_&_&_&_&Hv1&_).
  destruct (randrange k s) as [r s1]. cbn [fst snd] in *.
  destruct (SwapRandom_step s1 n (r + n) (proj1 Hg1)) as (s2 & HS & Hg2 & Hl2);
    [rewrite Hv1; lia | rewrite Hv1; lia |].
  rewrite HS. cbn [mbind option_bind].
  pose proof (proj1 Hg2) as HI2.
  destruct (lookup_lt_is_Some_2 (vRandom s2) (Z.to_nat n)) as [it Hit].
  { rewrite Hl2, Hv1. lia. }
  rewrite Hit. cbn [mbind option_bind].
  destruct (inv_vRandom _ HI2) as [_ Hv].
  destruct (Hv _ _ Hit) as (ai & Hai & _).
  rewrite (index_lookup_elem _ _ _ (ok_ptrs _ _ _ (inv_index _ HI2)) Hai).
  cbn [mbind option_bind].
  assert (Hg02 : good_step s s2) by (by eapply good_step_trans).
  assert (Hnext : ∀ addrs',
            Z.of_nat (length addrs') <= Z.max (Z.of_nat (length addrs)) nNodes →
            (length addrs' ≤ S (length addrs))%nat →
            ∃ r0 s', GetAddr_loop fuel (n + 1) nNodes network now addrs' s2
                     = Some (r0, s') ∧ good_step s s'
              ∧ Z.of_nat (length r0) <= Z.max (Z.of_nat (length addrs)) nNodes
              ∧ (length r0 ≤ length addrs + S fuel)%nat).
  { intros addrs' Hl' Hl''.
    destruct (IH (n + 1) addrs' s2 HI2) as (r0 & s' & HG & Hg & Hl0 & Hl1);
      [lia | rewrite Hl2, Hv1; lia |].
    exists r0, s'. split; [done|].
    split; [by eapply good_step_trans | split; lia]. }
  destruct (match network with Some _ => _ | None => _ end).
  { apply Hnext; lia. }
  destruct (IsTerrible ai now).
  { apply Hnext; lia. }
  apply Hnext; rewrite length_app; simpl; lia.
Qed.

Lemma GetAddr_spec max_addresses max_pct network now s :
  Inv s →
  ∃ r s', GetAddr_ max_addresses max_pct network now s = Some (r, s')
          ∧ good_step s s'
          ∧ Z.of_nat (length r)
            <= Z.max 0 (GetAddr_nNodes max_addresses max_pct s)
          ∧ (length r ≤ length (vRandom s))%nat.
Proof.
  intros HI. unfold GetAddr_.
  destruct (GetAddr_loop_spec (length (vRandom s)) 0
              (GetAddr_nNodes max_addresses max_pct s) network now [] s HI)
    as (r & s' & HG & Hg & Hl & Hl'); [lia|lia|].
  exists r, s'. split; [done|]. split; [done|]. simpl in Hl, Hl'. lia.
Qed.

End Bounds.

(** * The public operations keep the invariants *)

Section Public.
Context `{NT : NetTypes} {NL : NetLaws}.
Implicit Types (idx : list node) (n x y c : node) (p it : ptr) (e : AddrInfo)
  (a : CService) (s : State).

Lemma Check_step s s' : Inv s → Check s = Some s' → good_step s s'.
Proof.
  intros HI. unfold Check. destruct (_ =? 0).
  { intros [= <-]. by apply good_step_refl. }
  set (k := wrapU 64 _). pose proof (randrange_step k s HI) as Hg.
  destruct (randrange k s) as [r s1]. cbn [snd] in Hg.
  destruct (1 <=? r); [by intros [= <-]|].
  destruct (_ =? 0); [by intros [= <-]|done].
Qed.

(** An operation between two consistency checks. *)
Lemma checked_step {R} (op : State → option (R * State)) s r s' :
  (∀ s1 r1 s2, Inv s1 → op s1 = Some (r1, s2) → good_step s1 s2) →
  Inv s →
  (s1 ← Check s; '(ret, s2) ← op s1; s3 ← Check s2; Some (ret, s3))
  = Some (r, s') →
  good_step s s'.
Proof.
  intros Hop HI H.
  destruct (Check s) as [s1|] eqn:C1; [|done]. cbn [mbind option_bind] in H.
  destruct (op s1) as [[r1 s2]|] eqn:O; [|done]. cbn [mbind option_bind] in H.
  destruct (Check s2) as [s3|] eqn:C2; [|done]. cbn [mbind option_bind] in H.
  injection H as <- <-.
  pose proof (Check_step _ _ HI C1) as G1.
  pose proof (Hop _ _ _ (proj1 G1) O) as G2.
  pose proof (Check_step _ _ (proj1 G2) C2) as G3.
  eapply good_step_trans; [exact G1|]. by eapply good_step_trans.
Qed.

Lemma checked_step_unit (op : State → option State) s s' :
  (∀ s1 s2, Inv s1 → op s1 = Some s2 → good_step s1 s2) →
  Inv s →
  (s1 ← Check s; s2 ← op s1; Check s2) = Some s' →
  good_step s s'.
Proof.
  intros Hop HI H.
  destruct (Check s) as [s1|] eqn:C1; [|done]. cbn [mbind option_bind] in H.
  destruct (op s1) as [s2|] eqn:O; [|done]. cbn [mbind option_bind] in H.
  pose proof (Check_step _ _ HI C1) as G1.
  pose proof (Hop _ _ (proj1 G1) O) as G2.
  pose proof (Check_step _ _ (proj1 G2) H) as G3.
  eapply good_step_trans; [exact G1|]. by eapply good_step_trans.
Qed.

Lemma step_good s s' : Inv s → step s s' → good_step s s'.
Proof.
  intros HI Hstep. destruct Hstep.
  - eapply (checked_step (Add_ vAddr src nTimePenalty now)); [|done|done].
    intros s1 r1 s2 HI1 HA.
    destruct (Add_spec vAddr src nTimePenalty now s1 HI1) as (?&?&HA'&?);
      [done|congruence].
  - eapply (checked_step (Good_ addr true nTime')); [|done|done].
    intros s1 r1 s2 HI1 HA. by eapply Good_step.
  - eapply (checked_step_unit (Attempt_ addr fCountFailure nTime')); [|done|done].
    intros s1 s2 HI1 HA.
    destruct (Attempt_spec addr fCountFailure nTime' s1 HI1) as (?&HA'&?);
      [done|congruence].
  - eapply (checked_step_unit (Connected_ addr nTime')); [|done|done].
    intros s1 s2 HI1 HA.
    destruct (Connected_spec addr nTime' s1 HI1) as (?&HA'&?). congruence.
  - eapply (checked_step_unit (SetServices_ addr nServices')); [|done|done].
    intros s1 s2 HI1 HA.
    destruct (SetServices_spec addr nServices' s1 HI1) as (?&HA'&?);
      [done|congruence].
  - eapply (checked_step_unit (ResolveCollisions_ order now)); [|done|done].
    intros s1 s2 HI1 HA. by eapply ResolveCollisions_step.
  - eapply (checked_step (SelectTriedCollision_ order)); [|done|done].
    intros s1 r1 s2 HI1 HA. by eapply SelectTriedCollision_step.
  - eapply (checked_step (Select_ fuel newOnly now)); [|done|done].
    intros s1 r1 s2 HI1 HA. by eapply Select_step.
  - eapply (checked_step (GetAddr_ max_addresses max_pct network now));
      [|done|done].
    intros s1 r1 s2 HI1 HA.
    destruct (GetAddr_spec max_addresses max_pct network now s1 HI1)
      as (?&?&HA'&?&_&_). congruence.
  - unfold FindAddressEntry in H.
    destruct (Check s) as [s1|] eqn:C1; [|done]. cbn [mbind option_bind] in H.
    cbn zeta in H.
    destruct (Check s1) as [s2|] eqn:C2; [|done]. cbn [mbind option_bind] in H.
    injection H as _ <-.
    pose proof (Check_step _ _ HI C1) as G1.
    pose proof (Check_step _ _ (proj1 G1) C2) as G2.
    by eapply good_step_trans.
Qed.

Lemma AddrMan_new_Inv key asmap ratio rand :
  in_u 256 key → Inv (AddrMan_new key asmap ratio rand).
Proof.
  intros Hk. split; cbn; try done.
  - split; try done.
    + constructor.
    + constructor.
    + intros n Hn. by apply elem_of_nil in Hn.
    + intros n1 n2 Hn. by apply elem_of_nil in Hn.
    + intros n1 n2 Hn. by apply elem_of_nil in Hn.
    + intros n Hn. by apply elem_of_nil in Hn.
    + intros n Hn. by apply elem_of_nil in Hn.
  - intros n Hn. by apply elem_of_nil in Hn.
  - split.
    + intros n Hn. by apply elem_of_nil in Hn.
    + intros i p Hi. by rewrite lookup_nil in Hi.
Qed.

Lemma api_reachable_good s :
  api_reachable s → Inv s ∧ entries_bounded s.
Proof.
  induction 1 as [key asmap ratio rand Hk | s s' Hr [HI Hb] Hstep].
  - split; [by apply AddrMan_new_Inv|]. intros a. cbn. done.
  - destruct (step_good s s' HI Hstep) as [HI' Hb']. auto.
Qed.

End Public.

(** * Unserialize keeps the invariants *)

Section Loading.
Context `{NT : NetTypes} {NL : NetLaws}.
Implicit Types (idx : list node) (n x y c : node) (p it : ptr) (e : AddrInfo)
  (a : CService) (s : State).

Lemma shrinks_no_tried s s' : shrinks s s' → no_tried s → no_tried s'.
Proof.
  intros Hsh Hnt n' Hn'.
  destruct (shr_old _ _ Hsh n' Hn') as (n & Hn & _ & _ & _ & Hf).
  rewrite Hf. by apply Hnt.
Qed.

(** The occupant of the slot of [info] goes. *)
Lemma Unserialize_free info s :
  Inv s →
  ∃ s1, match ByBucket_find (ByBucketExtractor info) (m_index s) with
        | Some it_bucket => Erase it_bucket.1 s
        | None => Some s
        end = Some s1
        ∧ Inv s1 ∧ shrinks s s1
        ∧ ∀ n, n ∈ m_index s1 → ByBucketExtractor n.2 ≠ ByBucketExtractor info.
Proof.
  intros HI.
  destruct (ByBucket_find (ByBucketExtractor info) (m_index s)) as [w|] eqn:Ef.
  - apply ByBucket_find_Some in Ef as [Hw Hwk]. destruct w as [pw ew].
    destruct (Erase_spec s pw ew HI Hw) as (s1 & HE & Hp).
    exists s1. split; [done|]. split; [apply Hp|].
    split; [by eapply erase_post_shrinks|].
    intros n Hn. rewrite <- Hwk. by apply (erased_free _ _ _ Hp).
  - exists s. split; [done|]. split; [done|]. split; [apply shrinks_refl|].
    by apply ByBucket_find_None.
Qed.

Lemma Unserialize_sources_inv k first v2 info bs s bs' s' :
  Inv s → AddrInfo_in_range info →
  (fInTried info = false → no_tried s) →
  Unserialize_sources k first v2 info bs s = Some (bs', s') →
  Inv s' ∧ (fInTried info = false → no_tried s').
Proof.
  revert first info bs s.
  induction k as [|k IH]; intros first info bs s HI Hr Hnt HU.
  { injection HU as <- <-. done. }
  cbn [Unserialize_sources] in HU.
  assert (∃ info1 bs1,
            (if first then Some (info, bs)
             else unser_CNetAddr v2 bs ≫= λ '(src, bs0),
                    Some (set_source src info, bs0)) = Some (info1, bs1)
            ∧ AddrInfo_in_range info1 ∧ fInTried info1 = fInTried info)
    as (info1 & bs1 & H1 & Hr1 & Hf1).
  { destruct first; [by eexists _, _|].
    destruct (unser_CNetAddr v2 bs) as [[src bs0]|]; [|done].
    by eexists _, _. }
  rewrite H1 in HU. cbn [mbind option_bind] in HU. cbn zeta in HU.
  set (info2 := Rebucket (nKey s) (m_asmap s) info1) in *.
  destruct (Unserialize_free info2 s HI) as (s1 & HF & HI1 & Hsh1 & Hfree1).
  rewrite HF in HU. cbn [mbind option_bind] in HU.
  pose proof (shr_config _ _ Hsh1) as (Hk1 & Ha1 & _).
  match type of HU with
  | (?B ≫= _) = _ =>
    assert (∃ (alias : bool) s2,
            B = Some (alias, s2)
            ∧ Inv s2 ∧ shrinks s1 s2
            ∧ (if alias
               then fInTried info2 = false
                    ∧ ∃ c, c ∈ m_index s2 ∧ is_alias c.2 = false
                           ∧ fInTried c.2 = false ∧ service c.2 = service info2
               else ∀ n, n ∈ m_index s2 → service n.2 ≠ service info2))
    as (alias & s2 & H2 & HI2 & Hsh2 & Hkind)
  end.
  { pose proof (lower_bound_address_absent (service info2) (m_index s1)
                  (ok_sorted _ _ _ (inv_index _ HI1))) as Habs.
    destruct (ByAddress_lower_bound (service info2, false) (m_index s1))
      as [y|] eqn:El.
    2: { exists false, s1. split; [done|]. split; [done|].
         split; [apply shrinks_refl | by apply Habs]. }
    destruct (decide (service y.2 = service info2)) as [Hy|Hy].
    2: { exists false, s1. split; [done|]. split; [done|].
         split; [apply shrinks_refl | by apply Habs]. }
    apply lower_bound_address_Some in El.
    destruct (fInTried info2) eqn:Hf2.
    - destruct (Erase_address_spec (length (m_index s1)) (service info2) s1 HI1)
        as (s2 & HEA & HI2 & Hsh2 & _ & Hno); [lia|].
      rewrite HEA. cbn [mbind option_bind].
      exists false, s2. by split_and!.
    - exists true, s1. split; [done|]. split; [done|].
      split; [apply shrinks_refl|]. split; [done|].
      assert (Hnt1 : no_tried s1).
      { eapply shrinks_no_tried; [done|]. apply Hnt.
        change (fInTried info2) with (fInTried info1) in Hf2. congruence. }
      destruct (is_alias y.2) eqn:Ea.
      + destruct (ok_aliases _ _ _ (inv_index _ HI1) y El Ea)
          as [_ (c & Hc & Hca & Hcf & Hcs)].
        exists c. split_and!; try done. congruence.
      + exists y. split_and!; try done. by apply Hnt1. }
  rewrite H2 in HU. cbn [mbind option_bind] in HU.
  pose proof (shr_config _ _ Hsh2) as (Hk2 & Ha2 & _).
  assert (HI3 : Inv (Insert info2 alias s2).2).
  { apply Insert_spec; [done|done| |done].
    intros n Hn. rewrite Hk2, Ha2, Hk1, Ha1. unfold info2.
    rewrite Rebucket_idem. fold info2.
    destruct (shr_slots _ _ Hsh2 n Hn) as (n1 & Hn1 & <-). by apply Hfree1. }
  apply IH in HU; [|exact HI3|exact Hr1|].
  - destruct HU as [HI' Hnt']. split; [done|]. intros Hf. apply Hnt'.
    change (fInTried info2) with (fInTried info1). congruence.
  - change (fInTried info2) with (fInTried info1). rewrite Hf1. intros Hf.
    intros n Hn. rewrite Insert_index in Hn.
    apply elem_of_index_insert in Hn as [->|Hn].
    + cbn. congruence.
    + eapply shrinks_no_tried; [| |exact Hn].
      * eapply shrinks_trans; [exact Hsh1 | exact Hsh2].
      * by apply Hnt.
Qed.

Lemma read_le_range k bs v rest :
  read_le k bs = Some (v, rest) → 0 <= v < 2 ^ (8 * Z.of_nat k).
Proof.
  revert bs v rest. induction k as [|k IH]; intros bs v rest H.
  - injection H as <- <-. simpl. lia.
  - cbn [read_le] in H. destruct bs as [|b bs']; [done|].
    destruct (read_le k bs') as [[v' rest']|] eqn:E; [|done].
    cbn [mbind option_bind] in H. injection H as <- <-.
    specialize (IH _ _ _ E).
    replace (8 * Z.of_nat (S k)) with (8 + 8 * Z.of_nat k) by lia.
    rewrite Z.pow_add_r by lia. change (2 ^ 8) with 256.
    pose proof (Z.mod_pos_bound b 256). nia.
Qed.

Lemma unser_int64_range bs v rest :
  unser_int64 bs = Some (v, rest) → in_s 64 v.
Proof.
  unfold unser_int64. destruct (read_le 8 bs) as [[v' rest']|]; [|done].
  cbn [mbind option_bind]. intros [= <- <-]. by apply in_s_wrapS.
Qed.

Lemma unser_int32_range bs v rest :
  unser_int32 bs = Some (v, rest) → in_s 32 v.
Proof.
  unfold unser_int32. destruct (read_le 4 bs) as [[v' rest']|]; [|done].
  cbn [mbind option_bind]. intros [= <- <-]. by apply in_s_wrapS.
Qed.

Lemma Unserialize_entry_inv format v2 i read_new bs s bs' s' :
  Inv s → (i < read_new → no_tried s) →
  Unserialize_entry format v2 i read_new bs s = Some (bs', s') →
  Inv s' ∧ (i + 1 < read_new → no_tried s').
Proof.
  intros HI Hnt. unfold Unserialize_entry.
  assert (Hfin : ∀ k first info bs0,
            AddrInfo_in_range info → fInTried info = negb (i <? read_new) →
            Unserialize_sources k first v2 info bs0 s = Some (bs', s') →
            Inv s' ∧ (i + 1 < read_new → no_tried s')).
  { intros k first info bs0 Hr Hf HU.
    apply Unserialize_sources_inv in HU as [HI' Hnt']; [|done|done|].
    - split; [done|]. intros Hlt. apply Hnt'. rewrite Hf.
      apply negb_false_iff, Z.ltb_lt. lia.
    - rewrite Hf. intros Hlt. apply negb_false_iff, Z.ltb_lt in Hlt. auto. }
  destruct (V5_MULTIINDEX <=? format).
  - destruct (unser_CAddress v2 bs) as [[addr bs1]|] eqn:E1; [|done].
    cbn [mbind option_bind].
    destruct (unser_int64 bs1) as [[lt bs2]|] eqn:E2; [|done].
    cbn [mbind option_bind].
    destruct (unser_int64 bs2) as [[lc bs3]|] eqn:E3; [|done].
    cbn [mbind option_bind].
    destruct (unser_int64 bs3) as [[ls bs4]|] eqn:E4; [|done].
    cbn [mbind option_bind].
    destruct (unser_int32 bs4) as [[at' bs5]|] eqn:E5; [|done].
    cbn [mbind option_bind].
    destruct (if i <? read_new then unser_uint32 bs5 else Some (1, bs5))
      as [[sources bs6]|]; [|done].
    cbn [mbind option_bind].
    destruct (sources =? 0).
    { intros [= <- <-]. split; [done|]. intros. apply Hnt. lia. }
    destruct (unser_CNetAddr v2 bs6) as [[src bs7]|]; [|done].
    cbn [mbind option_bind]. cbn zeta. apply Hfin; [|done].
    destruct (CAddress_unser_range _ _ _ _ E1) as [Ht Hs].
    unfold AddrInfo_in_range. split_and!; cbn; try done.
    all: first [by eapply unser_int64_range | by eapply unser_int32_range].
  - destruct (unser_CAddress v2 bs) as [[addr bs1]|] eqn:E1; [|done].
    cbn [mbind option_bind].
    destruct (unser_CNetAddr v2 bs1) as [[src bs2]|]; [|done].
    cbn [mbind option_bind].
    destruct (unser_int64 bs2) as [[ls bs3]|] eqn:E4; [|done].
    cbn [mbind option_bind].
    destruct (unser_int32 bs3) as [[at' bs4]|] eqn:E5; [|done].
    cbn [mbind option_bind]. cbn zeta. apply Hfin; [|done].
    destruct (CAddress_unser_range _ _ _ _ E1) as [Ht Hs].
    unfold AddrInfo_in_range. split_and!; cbn; try done.
    all: first [by apply in_s_0 | by eapply unser_int64_range
               | by eapply unser_int32_range].
Qed.

Lemma Unserialize_entries_inv k format v2 i read_new bs s bs' s' :
  Inv s → (i < read_new → no_tried s) →
  Unserialize_entries k format v2 i read_new bs s = Some (bs', s') →
  Inv s'.
Proof.
  revert i bs s. induction k as [|k IH]; intros i bs s HI Hnt HU.
  { by injection HU as <- <-. }
  cbn [Unserialize_entries] in HU.
  destruct (Unserialize_entry format v2 i read_new bs s) as [[bs1 s1]|] eqn:E;
    [|done].
  cbn [mbind option_bind] in HU.
  apply Unserialize_entry_inv in E as [HI1 Hnt1]; [|done|done].
  by eapply IH.
Qed.

Lemma Unserialize_inv bs s rest s' :
  Inv s → Unserialize bs s = Some (rest, s') → Inv s'.
Proof.
  intros HI. unfold Unserialize.
  destruct (m_index s) eqn:Ei; [|done].
  destruct (unser_uint8 bs) as [[format bs1]|]; [|done].
  cbn [mbind option_bind]. cbn zeta.
  destruct (unser_uint8 bs1) as [[compat bs2]|]; [|done].
  cbn [mbind option_bind].
  destruct (FILE_FORMAT <? _); [done|].
  destruct (unser_uint256 bs2) as [[key bs3]|] eqn:Ek; [|done].
  cbn [mbind option_bind].
  destruct (unser_int32 bs3) as [[read_new bs4]|]; [|done].
  cbn [mbind option_bind].
  destruct (unser_int32 bs4) as [[read_tried bs5]|]; [|done].
  cbn [mbind option_bind].
  match goal with |- context [(?B ≫= _) = _] =>
    destruct B as [[nUBuckets bs6]|]; [|done] end.
  cbn [mbind option_bind].
  destruct (Unserialize_entries _ _ _ _ _ _ _) as [[bs7 s1]|] eqn:EU; [|done].
  cbn [mbind option_bind].
  match goal with |- context [(?B ≫= _) = _] =>
    destruct B as [bs8|]; [|done] end.
  cbn [mbind option_bind].
  destruct (CheckAddrman s1 =? 0); [|done]. intros [= <- <-].
  eapply Unserialize_entries_inv; [| |exact EU].
  - destruct HI as [I1 I2 I3 I4 I5 I6 I7].
    split; cbn; rewrite ?Ei in *; try done.
    + destruct I1. split; try done.
      intros n Hn. by apply elem_of_nil in Hn.
    + apply read_le_range in Ek. unfold in_u. simpl in Ek. done.
  - intros _ n Hn. cbn in Hn. rewrite Ei in Hn. by apply elem_of_nil in Hn.
Qed.

Lemma reachable_Inv s : reachable s → Inv s.
Proof.
  induction 1 as [key asmap ratio rand Hk
                 | key asmap ratio rand bs rest s HU | s s' Hr HI Hstep].
  - by apply AddrMan_new_Inv.
  - unfold Unserialize in HU. 
    assert (HU' : Unserialize bs (AddrMan_new 0 asmap ratio rand) = Some (rest, s)).
    { exact HU. }
    eapply Unserialize_inv; [|exact HU']. apply AddrMan_new_Inv.
    unfold in_u. simpl. lia.
  - by destruct (step_good s s' HI Hstep).
Qed.

End Loading.

(** * The consistency checker accepts the invariants *)

Section Checker.
Context `{NT : NetTypes} {NL : NetLaws}.
Implicit Types (idx : list node) (n x y c : node) (p it : ptr) (e : AddrInfo)
  (a : CService) (s : State).

(** ** Neighbours in the by-address order *)

Lemma between_keys (x c it : node) :
  is_alias c.2 = false → service c.2 = service it.2 →
  ByAddress_le c x → ByAddress_le x it →
  service x.2 = service it.2.
Proof.
  unfold ByAddress_le. intros Hca Hcs H1 H2.
  assert (Hkc : ByAddressExtractor c.2 = (service it.2, false)).
  { unfold ByAddressExtractor. by rewrite Hca, Hcs. }
  rewrite Hkc, ltb_key_main in H1.
  unfold ByAddress_ltb, ByAddressExtractor in H2. cbn [fst snd] in H2.
  apply orb_false_iff in H2 as [H2 _].
  by apply (ltb_total _ CService_order).
Qed.

Lemma prev_of_alias idx pre (it : node) rest :
  ByAddress_sorted idx → aliases_ok idx →
  idx = pre ++ it :: rest → is_alias it.2 = true →
  ∃ x, last pre = Some x ∧ service x.2 = service it.2.
Proof.
  intros Hs Hal -> Ha.
  destruct (Hal it) as [_ (c & Hc & Hca & _ & Hcs)];
    [apply elem_of_app; right; left | done |].
  assert (Hcpre : c ∈ pre).
  { apply elem_of_app in Hc as [Hc|Hc]; [done|].
    apply elem_of_cons in Hc as [->|Hc]; [congruence|].
    apply StronglySorted_app_1_r, StronglySorted_cons in Hs as [Hfa _].
    rewrite Forall_forall in Hfa. specialize (Hfa c Hc).
    unfold ByAddress_le, ByAddress_ltb, ByAddressExtractor in Hfa.
    cbn [fst snd] in Hfa. rewrite Hca, Ha, Hcs, CService_ltb_irrefl in Hfa.
    done. }
  destruct (last pre) as [x|] eqn:El.
  2: { apply last_None in El. subst pre. by apply elem_of_nil in Hcpre. }
  exists x. split; [done|].
  apply last_Some in El as [pre' ->].
  assert (Hxit : ByAddress_le x it).
  { eapply (StronglySorted_app_1_elem_of _ (pre' ++ [x]) (it :: rest));
      [exact Hs | apply elem_of_app; right; left | left]. }
  apply elem_of_app in Hcpre as [Hc'|Hc'].
  - apply (between_keys x c it); [done|done| |done].
    apply StronglySorted_app_1_l in Hs.
    eapply (StronglySorted_app_1_elem_of _ pre' [x]); [exact Hs|done|left].
  - apply list_elem_of_singleton in Hc'. by subst c.
Qed.

Lemma prev_of_main idx pre (it : node) rest x :
  ByAddress_sorted idx → canonical_unique idx → NoDup idx →
  idx = pre ++ it :: rest → is_alias it.2 = false →
  last pre = Some x → service x.2 ≠ service it.2.
Proof.
  intros Hs Hcu Hnd -> Ha El Hsx.
  apply last_Some in El as [pre' ->].
  assert (Hxit : ByAddress_le x it).
  { eapply (StronglySorted_app_1_elem_of _ (pre' ++ [x]) (it :: rest));
      [exact Hs | apply elem_of_app; right; left | left]. }
  unfold ByAddress_le, ByAddress_ltb, ByAddressExtractor in Hxit.
  cbn [fst snd] in Hxit. rewrite Hsx, Ha, CService_ltb_irrefl in Hxit.
  cbn in Hxit.
  assert (x = it).
  { apply Hcu; [| |by destruct (is_alias x.2)|done|done].
    - apply elem_of_app. left. apply elem_of_app. right. left.
    - apply elem_of_app. right. left. }
  subst x. apply NoDup_app in Hnd as (_ & Hdis & _).
  apply (Hdis it); [apply elem_of_app; right; left | left].
Qed.

Lemma count_nodes_cons (P : node → Prop) `{∀ n, Decision (P n)} x idx :
  count_nodes P (x :: idx)
  = (if decide (P x) then 1 else 0) + count_nodes P idx.
Proof.
  unfold count_nodes. rewrite filter_cons.
  destruct (decide (P x)); simpl; lia.
Qed.

Lemma CheckAddrman_ByAddress_ok s pre l cn ct :
  Inv s → m_index s = pre ++ l →
  CheckAddrman_ByAddress (last pre) l s cn ct
  = inr (cn + count_nodes canonical_new l, ct + count_nodes canonical_tried l).
Proof.
  intros HI. pose proof (inv_index _ HI) as Hok.
  revert pre cn ct. induction l as [|it rest IH]; intros pre cn ct Hidx.
  { cbn. unfold count_nodes. simpl. by rewrite !Z.add_0_r. }
  cbn [CheckAddrman_ByAddress]. cbn zeta.
  assert (Hit : it ∈ m_index s).
  { rewrite Hidx. apply elem_of_app. right. left. }
  assert (Hb : Rebucket (nKey s) (m_asmap s) it.2 = it.2)
    by apply (ok_buckets _ _ _ Hok it Hit).
  rewrite Hb, !Z.eqb_refl. cbn [negb orb].
  rewrite !count_nodes_cons.
  specialize (IH (pre ++ [it])). rewrite last_snoc in IH.
  assert (Hidx' : m_index s = (pre ++ [it]) ++ rest).
  { by rewrite <- app_assoc. }
  destruct (nRandomPos it.2 =? -1) eqn:Ea.
  - destruct (ok_aliases _ _ _ Hok it Hit Ea) as [Hf _]. rewrite Hf.
    destruct (prev_of_alias (m_index s) pre it rest
                (ok_sorted _ _ _ Hok) (ok_aliases _ _ _ Hok) Hidx Ea)
      as (x & -> & Hx).
    rewrite bool_decide_eq_true_2 by done. cbn [negb].
    rewrite IH by done.
    rewrite (decide_False (P := canonical_new it)),
            (decide_False (P := canonical_tried it)).
    + f_equal.
    + unfold canonical_tried, is_alias. rewrite Ea. by intros [? _].
    + unfold canonical_new, is_alias. rewrite Ea. by intros [? _].
  - destruct (inv_vRandom _ HI) as [Hv _].
    destruct (Hv it Hit Ea) as [Hpos Hlook].
    pose proof (lookup_lt_Some _ _ _ Hlook) as Hlt.
    rewrite (proj2 (Z.ltb_ge _ _)) by lia.
    rewrite (proj2 (Z.leb_gt _ _)) by lia.
    cbn [orb]. rewrite bool_decide_eq_true_2 by done. cbn [negb].
    match goal with |- context [if ?b then inl (-3) else _] =>
      assert (Hsp : b = false) end.
    { destruct (last pre) as [x|] eqn:El; [|done].
      apply bool_decide_eq_false_2. intros Heq.
      eapply (prev_of_main (m_index s) pre it rest x); eauto.
      - apply (ok_sorted _ _ _ Hok).
      - apply (ok_canonical _ _ _ Hok).
      - apply NoDup_nodes, (ok_ptrs _ _ _ Hok). }
    rewrite Hsp.
    destruct (fInTried it.2) eqn:Hf.
    + rewrite IH by done.
      rewrite (decide_False (P := canonical_new it)),
              (decide_True (P := canonical_tried it)).
      * f_equal. f_equal; lia.
      * done.
      * unfold canonical_new. rewrite Hf. by intros [_ ?].
    + rewrite IH by done.
      rewrite (decide_True (P := canonical_new it)),
              (decide_False (P := canonical_tried it)).
      * f_equal. f_equal; lia.
      * unfold canonical_tried. rewrite Hf. by intros [_ ?].
      * done.
Qed.

Lemma CheckAddrman_ByBucket_ok (l : list node) prev :
  NoDup ((λ n : node, ByBucketExtractor n.2) <$> l) →
  match prev with
  | Some x => ByBucketExtractor x.2 ∉ (λ n : node, ByBucketExtractor n.2) <$> l
  | None => True
  end →
  CheckAddrman_ByBucket prev l = false.
Proof.
  revert prev. induction l as [|it rest IH]; intros prev Hnd Hprev; [done|].
  rewrite fmap_cons in Hnd. apply NoDup_cons in Hnd as [Hit Hnd].
  cbn [CheckAddrman_ByBucket]. destruct prev as [x|].
  - rewrite fmap_cons in Hprev. rewrite bool_decide_eq_false_2.
    + by apply IH.
    + intros Heq. apply Hprev. rewrite Heq. left.
  - by apply IH.
Qed.

Lemma slots_NoDup s :
  Inv s → NoDup ((λ n : node, ByBucketExtractor n.2) <$> m_index s).
Proof.
  intros HI. pose proof (inv_index _ HI) as Hok.
  apply NoDup_fmap_2_strong.
  - intros n1 n2 H1 H2 Hk. by apply (ok_slots _ _ _ Hok).
  - apply NoDup_nodes, (ok_ptrs _ _ _ Hok).
Qed.

(** The random vector lists the main entries. *)
Lemma vRandom_perm s :
  Inv s →
  vRandom s ≡ₚ (filter (λ n : node, is_alias n.2 = false) (m_index s)).*1.
Proof.
  intros HI. pose proof (inv_index _ HI) as Hok.
  destruct (inv_vRandom _ HI) as [Hv1 Hv2].
  apply NoDup_Permutation.
  - by apply vRandom_NoDup.
  - apply NoDup_fmap_2_strong.
    + intros [p1 e1] [p2 e2] H1 H2 Hp. cbn in Hp. subst p2.
      apply list_elem_of_filter in H1 as [_ H1].
      apply list_elem_of_filter in H2 as [_ H2].
      f_equal. by eapply node_unique; [apply (ok_ptrs _ _ _ Hok)|..].
    + apply NoDup_filter, NoDup_nodes, (ok_ptrs _ _ _ Hok).
  - intros p. rewrite list_elem_of_fmap. split.
    + intros Hp. apply list_elem_of_lookup in Hp as [i Hi].
      destruct (Hv2 i p Hi) as (e & He & Hpe).
      exists (p, e). split; [done|]. apply list_elem_of_filter. split; [|done].
      cbn. unfold is_alias. rewrite Hpe. apply of_nat_not_alias.
    + intros ([p' e] & -> & Hn). apply list_elem_of_filter in Hn as [Ha Hn].
      destruct (Hv1 _ Hn Ha) as [_ Hl]. cbn [fst snd] in *.
      by eapply list_elem_of_lookup_2.
Qed.

Lemma count_main_split idx :
  Z.of_nat (length (filter (λ n : node, is_alias n.2 = false) idx))
  = count_nodes canonical_new idx + count_nodes canonical_tried idx.
Proof.
  induction idx as [|x idx IH]; [done|].
  rewrite !count_nodes_cons, filter_cons.
  destruct (decide (canonical_new x)) as [[Hn1 Hn2]|Hn];
    destruct (decide (canonical_tried x)) as [[Ht1 Ht2]|Ht];
    destruct (decide (is_alias x.2 = false)) as [Ha|Ha];
    cbn [length]; try congruence; try lia.
  exfalso. destruct (fInTried x.2) eqn:Hf; [by apply Ht | by apply Hn].
Qed.

Lemma vRandom_length s :
  Inv s →
  Z.of_nat (length (vRandom s))
  = count_nodes canonical_new (m_index s)
    + count_nodes canonical_tried (m_index s).
Proof.
  intros HI. rewrite (vRandom_perm s HI), length_fmap. apply count_main_split.
Qed.

Lemma CheckAddrman_ok s : Inv s → CheckAddrman s = 0.
Proof.
  intros HI. unfold CheckAddrman.
  pose proof (CheckAddrman_ByAddress_ok s [] (m_index s) 0 0 HI eq_refl) as HB.
  change (last []) with (@None node) in HB. rewrite HB.
  rewrite !Z.add_0_l, <- (inv_nNew _ HI), <- (inv_nTried _ HI), !Z.eqb_refl.
  cbn [negb].
  rewrite (vRandom_length s HI), <- (inv_nNew _ HI), <- (inv_nTried _ HI),
    Z.eqb_refl.
  cbn [negb]. rewrite CheckAddrman_ByBucket_ok; [done| |done].
  rewrite ByBucket_perm. by apply slots_NoDup.
Qed.

Lemma Check_ok s : Inv s → ∃ s', Check s = Some s' ∧ good_step s s'.
Proof.
  intros HI. unfold Check. destruct (_ =? 0).
  { exists s. split; [done|]. by apply good_step_refl. }
  set (k := wrapU 64 _). pose proof (randrange_step k s HI) as Hg.
  destruct (randrange k s) as [r s1]. cbn [snd] in Hg.
  destruct (1 <=? r); [by exists s1|].
  rewrite (CheckAddrman_ok s1 (proj1 Hg)). by exists s1.
Qed.

End Checker.

(** * Integer codecs, and the laws of the small instance *)

(** ** Little-endian integers *)

Lemma read_le_ser_le k z rest :
  0 <= z < 2 ^ (8 * Z.of_nat k) →
  read_le k (ser_le k z ++ rest) = Some (z, rest).
Proof.
  revert z. induction k as [|k IH]; intros z Hz.
  - simpl in *. f_equal. f_equal. lia.
  - cbn [ser_le read_le app].
    replace (8 * Z.of_nat (S k)) with (8 + 8 * Z.of_nat k) in Hz by lia.
    rewrite Z.pow_add_r in Hz by lia. change (2 ^ 8) with 256 in Hz.
    rewrite IH.
    + cbn [mbind option_bind]. f_equal. f_equal.
      rewrite Z.mod_mod by lia. pose proof (Z.div_mod z 256). lia.
    + split; [apply Z.div_pos; lia|]. apply Z.div_lt_upper_bound; lia.
Qed.

Lemma ser_le_wrap k z :
  ser_le k (z mod 2 ^ (8 * Z.of_nat k)) = ser_le k z.
Proof.
  revert z. induction k as [|k IH]; intros z; [done|].
  cbn [ser_le].
  replace (8 * Z.of_nat (S k)) with (8 + 8 * Z.of_nat k) by lia.
  rewrite Z.pow_add_r by lia. change (2 ^ 8) with 256.
  assert (H2 : 0 < 2 ^ (8 * Z.of_nat k)) by (apply Z.pow_pos_nonneg; lia).
  f_equal.
  - rewrite Z.rem_mul_r by lia.
    rewrite (Z.mul_comm 256), Z.mod_add by lia. apply Z.mod_mod. lia.
  - rewrite <- (IH (z / 256)). f_equal. rewrite Z.rem_mul_r by lia.
    rewrite (Z.mul_comm 256), Z.div_add by lia.
    rewrite (Z.div_small (z mod 256)) by (apply Z.mod_pos_bound; lia).
    done.
Qed.

Lemma unser_uint8_ser z rest :
  in_u 8 z → unser_uint8 (ser_uint8 z ++ rest) = Some (z, rest).
Proof. intros. by apply (read_le_ser_le 1). Qed.

Lemma unser_uint32_ser z rest :
  in_u 32 z → unser_uint32 (ser_uint32 z ++ rest) = Some (z, rest).
Proof. intros. by apply (read_le_ser_le 4). Qed.

Lemma unser_uint256_ser z rest :
  in_u 256 z → unser_uint256 (ser_uint256 z ++ rest) = Some (z, rest).
Proof. intros. by apply (read_le_ser_le 32). Qed.

Lemma wrapS_wrapU w z : 0 < w → in_s w z → wrapS w (z mod 2 ^ w) = z.
Proof.
  intros Hw Hz. unfold wrapS.
  assert (Hp : 2 ^ w = 2 * 2 ^ (w - 1)).
  { rewrite <- Z.pow_succ_r by lia. f_equal. lia. }
  unfold in_s in Hz.
  rewrite Zplus_mod_idemp_l. rewrite Z.mod_small; lia.
Qed.

Lemma unser_int32_ser z rest :
  in_s 32 z → unser_int32 (ser_int32 z ++ rest) = Some (z, rest).
Proof.
  intros Hz. unfold unser_int32, ser_int32.
  rewrite <- (ser_le_wrap 4 z), read_le_ser_le by (by apply Z.mod_pos_bound).
  cbn [mbind option_bind]. f_equal. f_equal. by apply (wrapS_wrapU 32).
Qed.

Lemma unser_int64_ser z rest :
  in_s 64 z → unser_int64 (ser_int64 z ++ rest) = Some (z, rest).
Proof.
  intros Hz. unfold unser_int64, ser_int64.
  rewrite <- (ser_le_wrap 8 z), read_le_ser_le by (by apply Z.mod_pos_bound).
  cbn [mbind option_bind]. f_equal. f_equal. by apply (wrapS_wrapU 64).
Qed.

(** ** The small instance satisfies the laws *)

Module ToyLaws.
Import Toy.

Lemma unser_nat_ser a rest : unser_nat (ser_nat a ++ rest) = Some (a, rest).
Proof.
  induction a as [|a IH]; [done|].
  cbn [ser_nat app unser_nat]. by rewrite IH.
Qed.

#[export] Instance NL : NetLaws.
Proof.
  split.
  - split.
    + intros a. apply Nat.ltb_irrefl.
    + intros a b c H1%Nat.ltb_lt H2%Nat.ltb_lt. apply Nat.ltb_lt. lia.
    + intros a b H1%Nat.ltb_ge H2%Nat.ltb_ge. cbn in *. lia.
  - intros v2 [[a t] sv] rest [Ht Hs]. cbn [fst snd] in Ht, Hs.
    cbn [unser_CAddress ser_CAddress NT fst snd].
    rewrite <- !app_assoc.
    rewrite (read_le_ser_le 4) by done. cbn [mbind option_bind].
    rewrite (read_le_ser_le 8) by done. cbn [mbind option_bind].
    by rewrite unser_nat_ser.
  - intros v2 a rest. apply unser_nat_ser.
  - intros v2 bs [[a t] sv] rest. cbn [unser_CAddress NT].
    destruct (read_le 4 bs) as [[t' bs1]|] eqn:E1; [|done].
    cbn [mbind option_bind].
    destruct (read_le 8 bs1) as [[sv' bs2]|] eqn:E2; [|done].
    cbn [mbind option_bind].
    destruct (unser_nat bs2) as [[a' bs3]|]; [|done].
    cbn [mbind option_bind]. intros [= <- <- <- <-].
    split; cbn.
    + by apply read_le_range in E1.
    + by apply read_le_range in E2.
Qed.

End ToyLaws.

(** * What Serialize writes *)

Section Writing.
Context `{NT : NetTypes} {NL : NetLaws}.
Implicit Types (idx : list node) (n x y c : node) (p it : ptr) (e : AddrInfo)
  (a : CService) (s : State).

(** ** The entries of an address are a block of the index *)

Lemma filter_none (P : node → Prop) `{∀ n, Decision (P n)} (l : list node) :
  (∀ n, n ∈ l → ¬ P n) → filter P l = [].
Proof.
  intros Hno. destruct (filter P l) as [|y k] eqn:E; [done|].
  assert (Hy : y ∈ filter P l) by (rewrite E; left).
  apply list_elem_of_filter in Hy as [HP Hy]. by destruct (Hno y Hy).
Qed.

Lemma sorted_prefix (P : node → Prop) `{∀ n, Decision (P n)}
    (R : relation node) (l : list node) :
  StronglySorted R l →
  (∀ x y, x ∈ l → y ∈ l → R x y → P y → P x) →
  ∃ r, l = filter P l ++ r.
Proof.
  induction 1 as [|x l Hs IH Hx]; intros Hdown.
  { by exists []. }
  rewrite filter_cons. destruct (decide (P x)) as [HP|HP].
  - destruct IH as [r Hr].
    { intros y z Hy Hz. apply Hdown; by right. }
    exists r. cbn [app]. by rewrite <- Hr.
  - exists (x :: l). 
    assert (filter P l = []) as ->; [|done].
    apply filter_none. intros y Hy HPy. apply HP.
    rewrite Forall_forall in Hx.
    apply (Hdown x y); [left | by right | by apply Hx | done].
Qed.

Lemma from_iterator_block idx c :
  ByAddress_sorted idx → canonical_unique idx → NoDup idx.*1 →
  c ∈ idx → is_alias c.2 = false →
  ∃ r, from_iterator c.1 idx = entries_of (service c.2) idx ++ r.
Proof.
  unfold entries_of.
  induction idx as [|y l IH]; intros Hs Hcu Hnd Hc Hal.
  { by apply elem_of_nil in Hc. }
  cbn [from_iterator]. destruct (decide (y.1 = c.1)) as [Hy|Hy].
  - assert (y = c).
    { destruct y as [py ey], c as [pc ec]. cbn in Hy. subst py.
      f_equal. eapply node_unique; [exact Hnd | left | exact Hc]. }
    subst y.
    apply (sorted_prefix _ ByAddress_le); [exact Hs|].
    intros x z Hx Hz Hxz HPz. unfold has_service in *.
    assert (Hcx : ByAddress_le c x).
    { apply elem_of_cons in Hx as [->|Hx].
      - unfold ByAddress_le. apply (ltb_irrefl _ ByAddress_order).
      - apply StronglySorted_cons in Hs as [Hfa _].
        rewrite Forall_forall in Hfa. by apply Hfa. }
    assert (Hcz : service c.2 = service z.2) by done.
    rewrite Hcz. by apply (between_keys x c z).
  - apply elem_of_cons in Hc as [->|Hc]; [done|].
    rewrite filter_cons. rewrite decide_False.
    + apply IH; [| | |done|done].
      * by apply StronglySorted_cons in Hs as [_ ?].
      * intros n1 n2 H1 H2. apply Hcu; by right.
      * rewrite fmap_cons in Hnd. by apply NoDup_cons in Hnd as [_ ?].
    + unfold has_service. intros Hsy.
      apply StronglySorted_cons in Hs as [Hfa _].
      rewrite Forall_forall in Hfa. specialize (Hfa c Hc).
      unfold ByAddress_le, ByAddress_ltb, ByAddressExtractor in Hfa.
      cbn [fst snd] in Hfa. rewrite Hsy, Hal, CService_ltb_irrefl in Hfa.
      cbn in Hfa.
      assert (y = c).
      { apply Hcu; [left | by right | by destruct (is_alias y.2) | done | done]. }
      by subst y.
Qed.

Lemma Serialize_sources_spec (G r : list node) (in_tried : bool) :
  (∀ n, n ∈ G → fInTried n.2 = in_tried) →
  Serialize_sources (length G) (G ++ r) in_tried
  = Some (concat (map (λ n : node, ser_CNetAddr true (source n.2)) G)).
Proof.
  induction G as [|g G IH]; intros Hf; [done|].
  cbn [length Serialize_sources app].
  rewrite bool_decide_eq_true_2 by (apply Hf; left).
  rewrite IH by (intros n Hn; apply Hf; by right).
  done.
Qed.

Lemma ByBucket_le_tried (u v : node) :
  ByBucket_le u v → fInTried u.2 = true → fInTried v.2 = true.
Proof.
  unfold ByBucket_le, ByBucket_ltb, ByBucketExtractor. intros H Hu.
  rewrite Hu in H. destruct (fInTried v.2); [done|]. cbn in H. done.
Qed.

Lemma entries_same_table s c n :
  Inv s → c ∈ m_index s → is_alias c.2 = false →
  n ∈ entries_of (service c.2) (m_index s) → fInTried n.2 = fInTried c.2.
Proof.
  intros HI Hc Hal Hn. pose proof (inv_index _ HI) as Hok.
  apply list_elem_of_filter in Hn as [Hs Hn]. unfold has_service in Hs.
  destruct (fInTried c.2) eqn:Hf.
  - destruct (tried_alone _ _ _ c Hok Hc Hf) as [_ Halone].
    by rewrite (Halone n Hn Hs).
  - destruct (is_alias n.2) eqn:Ea.
    + by destruct (ok_aliases _ _ _ Hok n Hn Ea).
    + assert (n = c) by (by apply (ok_canonical _ _ _ Hok)). by subst n.
Qed.

Lemma Serialize_record_parts s c :
  Inv s → c ∈ m_index s → is_alias c.2 = false →
  CountAddr (service c.2) s
  = Z.of_nat (length (entries_of (service c.2) (m_index s)))
  ∧ (if negb (fInTried c.2)
     then Some (ser_uint32 (CountAddr (service c.2) s))
     else if CountAddr (service c.2) s =? 1 then Some [] else None)
    = Some (if fInTried c.2 then []
            else ser_uint32
                   (Z.of_nat (length (entries_of (service c.2) (m_index s)))))
  ∧ Serialize_sources (Z.to_nat (CountAddr (service c.2) s))
      (from_iterator c.1 (m_index s)) (fInTried c.2)
    = Some (concat (map (λ n : node, ser_CNetAddr true (source n.2))
                      (entries_of (service c.2) (m_index s)))).
Proof.
  intros HI Hc Hal. pose proof (inv_index _ HI) as Hok.
  assert (Hcnt : CountAddr (service c.2) s
                 = Z.of_nat (length (entries_of (service c.2) (m_index s)))).
  { by rewrite CountAddr_count by apply (ok_sorted _ _ _ Hok). }
  split; [exact Hcnt|]. split.
  - destruct (fInTried c.2) eqn:Hf; cbn [negb]; [|by rewrite Hcnt].
    destruct (tried_alone _ _ _ c Hok Hc Hf) as [_ Halone].
    rewrite CountAddr_count by apply (ok_sorted _ _ _ Hok).
    rewrite (count_nodes_one _ _ c); [done| |done|done|].
    + apply NoDup_nodes, (ok_ptrs _ _ _ Hok).
    + intros n Hn Hs. by apply Halone.
  - destruct (from_iterator_block (m_index s) c (ok_sorted _ _ _ Hok)
                (ok_canonical _ _ _ Hok) (ok_ptrs _ _ _ Hok) Hc Hal) as [r ->].
    rewrite Hcnt, Nat2Z.id. apply Serialize_sources_spec.
    intros n Hn. by apply (entries_same_table s c n).
Qed.

Lemma Serialize_loop_spec s (l : list node) (n_left : Z) (in_tried : bool) :
  Inv s → (∀ n, n ∈ l → n ∈ m_index s) → StronglySorted ByBucket_le l →
  ((in_tried = false ∧ n_left = count_nodes canonical_new l
    ∧ nTried s = count_nodes canonical_tried l)
   ∨ (in_tried = true ∧ count_nodes canonical_new l = 0
      ∧ n_left = count_nodes canonical_tried l)) →
  Serialize_loop l n_left in_tried s
  = Some (concat (map (Serialize_record s) (main_nodes l))).
Proof.
  intros HI. revert n_left in_tried.
  induction l as [|it rest IH]; intros n_left in_tried Hsub Hs Hmode; [done|].
  apply StronglySorted_cons in Hs as [Hfa Hs].
  rewrite Forall_forall in Hfa.
  assert (Hsub' : ∀ n, n ∈ rest → n ∈ m_index s)
    by (intros n Hn; apply Hsub; by right).
  cbn [Serialize_loop]. unfold main_nodes. rewrite filter_cons.
  rewrite !count_nodes_cons in Hmode.
  change (nRandomPos it.2 =? -1) with (is_alias it.2).
  destruct (is_alias it.2) eqn:Ea.
  { rewrite decide_False by done.
    rewrite (decide_False (P := canonical_new it)) in Hmode
      by (unfold canonical_new; rewrite Ea; by intros [? _]).
    rewrite (decide_False (P := canonical_tried it)) in Hmode
      by (unfold canonical_tried; rewrite Ea; by intros [? _]).
    rewrite !Z.add_0_l in Hmode. by apply IH. }
  rewrite decide_True by done. cbn [map concat].
  pose proof (count_nodes_nonneg canonical_new rest) as Hn0.
  pose proof (count_nodes_nonneg canonical_tried rest) as Ht0.
  assert (Hit : it ∈ m_index s) by (apply Hsub; left).
  (* the table of [it] and the counters that go on *)
  assert (∃ n_left',
            (if n_left =? 0
             then if in_tried then None else Some (nTried s, true)
             else Some (n_left, in_tried)) = Some (n_left', fInTried it.2)
            ∧ ((fInTried it.2 = false
                ∧ n_left' - 1 = count_nodes canonical_new rest
                ∧ nTried s = count_nodes canonical_tried rest)
               ∨ (fInTried it.2 = true
                  ∧ count_nodes canonical_new rest = 0
                  ∧ n_left' - 1 = count_nodes canonical_tried rest)))
    as (n_left' & Hsw & Hmode').
  { destruct (fInTried it.2) eqn:Hf.
    - rewrite (decide_False (P := canonical_new it)) in Hmode
        by (unfold canonical_new; rewrite Hf; by intros [_ ?]).
      rewrite (decide_True (P := canonical_tried it)) in Hmode by done.
      assert (Hrest : count_nodes canonical_new rest = 0).
      { apply count_nodes_zero. intros n Hn [_ Hnf].
        pose proof (ByBucket_le_tried it n (Hfa n Hn) Hf). congruence. }
      destruct Hmode as [(-> & Hl & Htr)|(-> & Hnew & Hl)].
      + rewrite Hl, Hrest. cbn [Z.add Z.eqb].
        exists (nTried s). split; [done|]. right. split; [done|].
        split; [done|]. lia.
      + rewrite (proj2 (Z.eqb_neq n_left 0)) by lia.
        exists n_left. split; [done|]. right. split; [done|].
        split; [done|]. lia.
    - rewrite (decide_True (P := canonical_new it)) in Hmode by done.
      rewrite (decide_False (P := canonical_tried it)) in Hmode
        by (unfold canonical_tried; rewrite Hf; by intros [_ ?]).
      destruct Hmode as [(-> & Hl & Htr)|(-> & Hnew & Hl)]; [|lia].
      rewrite (proj2 (Z.eqb_neq n_left 0)) by lia.
      exists n_left. split; [done|]. left. split; [done|]. split; lia. }
  rewrite Hsw. cbn [mbind option_bind]. cbn zeta.
  destruct (Serialize_record_parts s it HI Hit Ea) as (Hcnt & Hout2 & Hout3).
  rewrite Hout2. cbn [mbind option_bind].
  rewrite Hout3. cbn [mbind option_bind].
  rewrite (IH (n_left' - 1) (fInTried it.2) Hsub' Hs).
  2: { destruct Hmode' as [(Hf & ? & ?)|(Hf & ? & ?)]; rewrite Hf; [left|right];
         by split_and!. }
  cbn [mbind option_bind]. f_equal. unfold Serialize_record.
  rewrite <- !app_assoc. done.
Qed.

Lemma count_nodes_perm (P : node → Prop) `{∀ n, Decision (P n)}
    (l k : list node) :
  l ≡ₚ k → count_nodes P l = count_nodes P k.
Proof. intros Hp. unfold count_nodes. by rewrite Hp. Qed.

(** [Serialize] never runs into one of its assertions, and writes the
    header and one record per main entry, in the order of the by-bucket
    index. *)
Lemma Serialize_spec s :
  Inv s →
  Serialize s
  = Some (ser_uint8 FILE_FORMAT
          ++ ser_uint8 (INCOMPATIBILITY_BASE + V5_MULTIINDEX)
          ++ ser_uint256 (nKey s)
          ++ ser_int32 (nNew s)
          ++ ser_int32 (nTried s)
          ++ concat (map (Serialize_record s)
                       (main_nodes (ByBucket (m_index s))))).
Proof.
  intros HI. unfold Serialize.
  rewrite (Serialize_loop_spec s (ByBucket (m_index s)) (nNew s) false HI).
  - done.
  - intros n Hn. by rewrite ByBucket_perm in Hn.
  - apply ByBucket_sorted.
  - left. split; [done|].
    rewrite (inv_nNew _ HI), (inv_nTried _ HI).
    split; apply count_nodes_perm; symmetry; apply ByBucket_perm.
Qed.

End Writing.

(** * What Unserialize reads back *)

Section Reading.
Context `{NT : NetTypes} {NL : NetLaws}.
Implicit Types (idx : list node) (n x y c : node) (p it : ptr) (e : AddrInfo)
  (a : CService) (s u : State).

Lemma AddrInfo_ext e e' :
  service e = service e' → nTime e = nTime e' → nServices e = nServices e' →
  source e = source e' → nLastTry e = nLastTry e' →
  nLastCountAttempt e = nLastCountAttempt e' →
  nLastSuccess e = nLastSuccess e' → nAttempts e = nAttempts e' →
  fInTried e = fInTried e' → nRandomPos e = nRandomPos e' →
  m_bucket e = m_bucket e' → m_bucketpos e = m_bucketpos e' →
  e = e'.
Proof. destruct e, e'. cbn. intros. by subst. Qed.

Lemma ByBucket_find_free k idx :
  (∀ n, n ∈ idx → ByBucketExtractor n.2 ≠ k) → ByBucket_find k idx = None.
Proof.
  intros Hno. destruct (ByBucket_find k idx) as [w|] eqn:E; [|done].
  apply ByBucket_find_Some in E as [Hw Hk]. by destruct (Hno w Hw).
Qed.

Lemma main_entries_insert u info (alias : bool) :
  main_entries (Insert info alias u).2
  ≡ₚ (if alias then [] else [set_nRandomPos 0 (Insert_info info alias u)])
     ++ main_entries u.
Proof.
  unfold main_entries. rewrite Insert_index, index_insert_perm, filter_cons.
  cbn [snd]. destruct alias.
  - rewrite decide_False; [done|]. by cbn.
  - rewrite decide_True; [done|]. unfold Insert_info, is_alias. cbn.
    apply of_nat_not_alias.
Qed.

Lemma alias_entries_insert u info (alias : bool) :
  alias_entries (Insert info alias u).2
  ≡ₚ (if alias then [(service info, source info)] else [])
     ++ alias_entries u.
Proof.
  unfold alias_entries. rewrite Insert_index, index_insert_perm, filter_cons.
  cbn [snd]. destruct alias.
  - rewrite decide_True; [done|]. by cbn.
  - rewrite decide_False; [done|]. unfold Insert_info, is_alias. cbn.
    rewrite of_nat_not_alias. done.
Qed.

(** A main entry of [Q] has its image among the nodes of [u]. *)
Lemma loaded_main s Q u c :
  loaded s Q u → c ∈ Q → is_alias c.2 = false →
  ∃ w, w ∈ m_index u ∧ is_alias w.2 = false
       ∧ set_nRandomPos 0 w.2 = set_nRandomPos 0 c.2.
Proof.
  intros HL Hc Hal.
  assert (Hin : set_nRandomPos 0 c.2
                ∈ map (λ n : node, set_nRandomPos 0 n.2) (main_nodes Q)).
  { apply list_elem_of_fmap. exists c. split; [done|].
    apply list_elem_of_filter. by split. }
  rewrite <- (ld_main _ _ _ HL) in Hin. unfold main_entries in Hin.
  apply list_elem_of_fmap in Hin as (w & Hw & Hin).
  apply list_elem_of_filter in Hin as [Ha Hin]. by exists w.
Qed.

(** One round of the loop over the sources of a record: the slot is free,
    the entry is an alias exactly if the node it comes from is one, and
    the node is loaded. *)
Lemma loaded_insert s Q u n info :
  Inv s → loaded s Q u → n ∈ m_index s → n ∉ Q →
  service info = service n.2 → source info = source n.2 →
  fInTried info = fInTried n.2 → AddrInfo_in_range info →
  (if is_alias n.2
   then ∃ c, c ∈ Q ∧ is_alias c.2 = false ∧ service c.2 = service n.2
   else (∀ q, q ∈ Q → service q.2 ≠ service n.2)
        ∧ nTime info = nTime n.2 ∧ nServices info = nServices n.2
        ∧ nLastTry info = nLastTry n.2
        ∧ nLastCountAttempt info = nLastCountAttempt n.2
        ∧ nLastSuccess info = nLastSuccess n.2
        ∧ nAttempts info = nAttempts n.2) →
  let info' := Rebucket (nKey u) (m_asmap u) info in
  ByBucket_find (ByBucketExtractor info') (m_index u) = None
  ∧ match ByAddress_lower_bound (service info', false) (m_index u) with
    | Some it_addr =>
        if decide (service it_addr.2 = service info') then
          if fInTried info' then
            Erase_address (length (m_index u)) (service info') u
            ≫= λ s0, Some (false, s0)
          else Some (true, u)
        else Some (false, u)
    | None => Some (false, u)
    end = Some (is_alias n.2, u)
  ∧ loaded s (Q ++ [n]) (Insert info' (is_alias n.2) u).2.
Proof.
  intros HI HL Hn HnQ Hsv Hsrc Hft Hr Hkind info'.
  pose proof (inv_index _ HI) as Hok.
  pose proof (ld_inv _ _ _ HL) as HIu.
  pose proof (inv_index _ HIu) as Hoku.
  assert (Hslot : ByBucketExtractor info' = ByBucketExtractor n.2).
  { unfold info'. rewrite (ld_key _ _ _ HL), (ld_asmap _ _ _ HL).
    rewrite (Rebucket_congr _ _ n.2 info) by done.
    by rewrite (ok_buckets _ _ _ Hok n Hn). }
  assert (Hfree : ∀ w, w ∈ m_index u →
                    ByBucketExtractor w.2 ≠ ByBucketExtractor info').
  { intros w Hw Heq. destruct (ld_nodes _ _ _ HL w Hw) as (q & Hq & _ & Hqs).
    assert (q = n).
    { apply (ok_slots _ _ _ Hok); [by apply (ld_sub _ _ _ HL) | done |].
      congruence. }
    by subst q. }
  split; [by apply ByBucket_find_free|].
  change (service info') with (service info).
  change (fInTried info') with (fInTried info).
  destruct (is_alias n.2) eqn:Ea.
  - destruct Hkind as (c & Hc & Hca & Hcs).
    destruct (loaded_main s Q u c HL Hc Hca) as (w & Hw & Hwa & Hwe).
    assert (Hws : service w.2 = service info).
    { transitivity (service (set_nRandomPos 0 w.2)); [done|].
      rewrite Hwe. cbn. congruence. }
    destruct (ok_aliases _ _ _ Hok n Hn Ea) as [Hnf (c0 & Hc0 & Hc0a & Hc0f & Hc0s)].
    assert (c0 = c).
    { apply (ok_canonical _ _ _ Hok); [done|by apply (ld_sub _ _ _ HL)|done|done|].
      congruence. }
    subst c0.
    assert (Hwf : fInTried w.2 = false).
    { transitivity (fInTried (set_nRandomPos 0 w.2)); [done|].
      rewrite Hwe. done. }
    split.
    + destruct (lower_bound_address_found (service info) (m_index u) w
                  (ok_sorted _ _ _ Hoku) Hw Hws) as (y & -> & Hy).
      rewrite decide_True by done. rewrite Hft, Hnf. done.
    + split.
      * apply Insert_spec; [done|done| |].
        -- intros w' Hw'. unfold info'. rewrite Rebucket_idem. by apply Hfree.
        -- split; [cbn; congruence|]. exists w. by split_and!.
      * destruct (Insert_config info' true u) as (Hk&Ha&_). by rewrite Hk, (ld_key _ _ _ HL).
      * destruct (Insert_config info' true u) as (Hk&Ha&_). by rewrite Ha, (ld_asmap _ _ _ HL).
      * intros q Hq. apply elem_of_app in Hq as [Hq|Hq];
          [by apply (ld_sub _ _ _ HL)|].
        apply list_elem_of_singleton in Hq. by subst q.
      * apply NoDup_app. split; [apply (ld_nodup _ _ _ HL)|].
        split; [|apply NoDup_singleton].
        intros q Hq Hq'. apply list_elem_of_singleton in Hq'. by subst q.
      * rewrite main_entries_insert. cbn [app]. unfold main_nodes.
        rewrite filter_app, filter_cons, decide_False by congruence.
        rewrite filter_nil, app_nil_r. apply (ld_main _ _ _ HL).
      * rewrite alias_entries_insert. cbn [app].
        rewrite filter_app, filter_cons, decide_True by done.
        rewrite filter_nil, map_app. cbn [map].
        rewrite <- (ld_alias _ _ _ HL).
        change (service info') with (service info).
        change (source info') with (source info).
        rewrite Hsv, Hsrc. apply Permutation_cons_append.
      * intros n' Hn'. rewrite Insert_index in Hn'.
        apply elem_of_index_insert in Hn' as [->|Hn'].
        -- exists n. split; [apply elem_of_app; right; left|].
           split; [cbn; congruence|]. cbn [snd]. exact Hslot.
        -- destruct (ld_nodes _ _ _ HL n' Hn') as (q & Hq & ?).
           exists q. split; [apply elem_of_app; by left | done].
  - destruct Hkind as (HnoQ & Ht & Hsvc & Hlt & Hlc & Hls & Hat).
    assert (Hno : ∀ w, w ∈ m_index u → service w.2 ≠ service info).
    { intros w Hw. destruct (ld_nodes _ _ _ HL w Hw) as (q & Hq & Hqs & _).
      rewrite Hqs, Hsv. by apply HnoQ. }
    split.
    + destruct (ByAddress_lower_bound (service info, false) (m_index u))
        as [y|] eqn:El; [|done].
      apply lower_bound_address_Some in El.
      rewrite decide_False by (by apply Hno). done.
    + split.
      * apply Insert_spec; [done|done| |].
        -- intros w' Hw'. unfold info'. rewrite Rebucket_idem. by apply Hfree.
        -- exact Hno.
      * destruct (Insert_config info' false u) as (Hk&Ha&_). by rewrite Hk, (ld_key _ _ _ HL).
      * destruct (Insert_config info' false u) as (Hk&Ha&_). by rewrite Ha, (ld_asmap _ _ _ HL).
      * intros q Hq. apply elem_of_app in Hq as [Hq|Hq];
          [by apply (ld_sub _ _ _ HL)|].
        apply list_elem_of_singleton in Hq. by subst q.
      * apply NoDup_app. split; [apply (ld_nodup _ _ _ HL)|].
        split; [|apply NoDup_singleton].
        intros q Hq Hq'. apply list_elem_of_singleton in Hq'. by subst q.
      * rewrite main_entries_insert. cbn [app]. unfold main_nodes.
        rewrite filter_app, filter_cons, decide_True by done.
        rewrite filter_nil, map_app. cbn [map].
        rewrite <- (ld_main _ _ _ HL).
        assert (Heq : set_nRandomPos 0 (Insert_info info' false u)
                      = set_nRandomPos 0 n.2).
        { unfold ByBucketExtractor in Hslot. injection Hslot as _ Hb Hp.
          apply AddrInfo_ext; cbn; try done. }
        rewrite Heq. apply Permutation_cons_append.
      * rewrite alias_entries_insert. cbn [app].
        rewrite filter_app, filter_cons, decide_False by congruence.
        rewrite filter_nil, app_nil_r. apply (ld_alias _ _ _ HL).
      * intros n' Hn'. rewrite Insert_index in Hn'.
        apply elem_of_index_insert in Hn' as [->|Hn'].
        -- exists n. split; [apply elem_of_app; right; left|].
           split; [cbn; congruence|]. cbn [snd]. exact Hslot.
        -- destruct (ld_nodes _ _ _ HL n' Hn') as (q & Hq & ?).
           exists q. split; [apply elem_of_app; by left | done].
Qed.

(** The loop over the sources of a record, for the nodes [G] of one
    address: the first source is in [info] already when [first] holds. *)
Lemma Unserialize_sources_group s (G : list node) :
  ∀ (first : bool) info Q u rest,
  Inv s → loaded s Q u → NoDup G → AddrInfo_in_range info →
  (∀ g, g ∈ G → g ∈ m_index s ∧ (g ∉ Q) ∧ service g.2 = service info
                ∧ fInTried g.2 = fInTried info) →
  match G with
  | [] => True
  | g :: G' =>
      (∀ g', g' ∈ G' → is_alias g'.2 = true)
      ∧ if first
        then is_alias g.2 = false ∧ source info = source g.2
             ∧ (∀ q, q ∈ Q → service q.2 ≠ service g.2)
             ∧ nTime info = nTime g.2 ∧ nServices info = nServices g.2
             ∧ nLastTry info = nLastTry g.2
             ∧ nLastCountAttempt info = nLastCountAttempt g.2
             ∧ nLastSuccess info = nLastSuccess g.2
             ∧ nAttempts info = nAttempts g.2
        else is_alias g.2 = true
             ∧ ∃ c, c ∈ Q ∧ is_alias c.2 = false ∧ service c.2 = service g.2
  end →
  ∃ u', Unserialize_sources (length G) first true info
          (concat (map (λ n : node, ser_CNetAddr true (source n.2))
                     (if first then tail G else G)) ++ rest) u
        = Some (rest, u')
        ∧ loaded s (Q ++ G) u'.
Proof.
  induction G as [|g G IH]; intros first info Q u rest HI HL Hnd Hr HG Hshape.
  { exists u. split; [by destruct first|]. by rewrite app_nil_r. }
  destruct Hshape as [Htail Hhead].
  apply NoDup_cons in Hnd as [HgG Hnd].
  destruct (HG g) as (Hg & HgQ & Hgs & Hgf); [left|].
  set (bs' := concat (map (λ n : node, ser_CNetAddr true (source n.2)) G)
              ++ rest).
  assert (∃ info1,
            (if first then Some (info, bs')
             else unser_CNetAddr true
                    (concat (map (λ n : node, ser_CNetAddr true (source n.2))
                               (g :: G)) ++ rest)
                  ≫= λ '(src, bs0), Some (set_source src info, bs0))
            = Some (info1, bs')
            ∧ service info1 = service info ∧ fInTried info1 = fInTried info
            ∧ source info1 = source g.2 ∧ AddrInfo_in_range info1
            ∧ nTime info1 = nTime info ∧ nServices info1 = nServices info
            ∧ nLastTry info1 = nLastTry info
            ∧ nLastCountAttempt info1 = nLastCountAttempt info
            ∧ nLastSuccess info1 = nLastSuccess info
            ∧ nAttempts info1 = nAttempts info)
    as (info1 & H1 & Hs1 & Hf1 & Hsrc1 & Hr1 & Hst1).
  { destruct first.
    - exists info. destruct Hhead as (_ & Hsrc & _). by split_and!.
    - exists (set_source (source g.2) info). cbn [map concat].
      rewrite <- app_assoc, CNetAddr_roundtrip. cbn [mbind option_bind].
      by split_and!. }
  assert (HU : Unserialize_sources (S (length G)) first true info
                 (concat (map (λ n : node, ser_CNetAddr true (source n.2))
                            (if first then tail (g :: G) else g :: G)) ++ rest) u
               = ('(info, bs) ← Some (info1, bs');
                  let info := Rebucket (nKey u) (m_asmap u) info in
                  s ← match ByBucket_find (ByBucketExtractor info) (m_index u) with
                      | Some it_bucket => Erase it_bucket.1 u
                      | None => Some u
                      end;
                  '(alias, s) ←
                    match ByAddress_lower_bound (service info, false) (m_index s) with
                    | Some it_addr =>
                        if decide (service it_addr.2 = service info) then
                          if fInTried info then
                            s ← Erase_address (length (m_index s)) (service info) s;
                            Some (false, s)
                          else Some (true, s)
                        else Some (false, s)
                    | None => Some (false, s)
                    end;
                  Unserialize_sources (length G) false true info bs
                    (Insert info alias s).2)).
  { cbn [Unserialize_sources]. destruct first; [|by rewrite H1].
    injection H1 as <-. done. }
  destruct (loaded_insert s Q u g info1 HI HL Hg HgQ) as (Hfind & Halias & HL1);
    [congruence|done|congruence|done| |].
  { destruct first.
    - destruct Hhead as (Ha & _ & HnoQ & Hstats). rewrite Ha.
      split; [done|]. destruct Hst1 as (?&?&?&?&?&?).
      destruct Hstats as (?&?&?&?&?&?). split_and!; congruence.
    - destruct Hhead as (Ha & Hc). by rewrite Ha. }
  set (info2 := Rebucket (nKey u) (m_asmap u) info1) in *.
  destruct (IH false info2 (Q ++ [g])
              (Insert info2 (is_alias g.2) u).2 rest HI HL1 Hnd)
    as (u' & HU' & HL').
  - exact Hr1.
  - intros g' Hg'. destruct (HG g') as (? & ? & ? & ?); [by right|].
    split; [done|]. split.
    + intros Hin. apply elem_of_app in Hin as [Hin|Hin]; [done|].
      apply list_elem_of_singleton in Hin. by subst g'.
    + split; [cbn; congruence | cbn; congruence].
  - destruct G as [|g2 G2]; [done|].
    split; [intros g' Hg'; apply Htail; by right|].
    split; [apply Htail; left|].
    destruct (HG g2) as (_ & _ & Hg2s & _); [right; left|].
    destruct first.
    + exists g. split; [apply elem_of_app; right; left|].
      destruct Hhead as (Ha & _). split; [done|]. congruence.
    + destruct Hhead as (_ & c & Hc & Hca & Hcs).
      exists c. split; [apply elem_of_app; by left|]. split; [done|].
      congruence.
  - exists u'. split; [|by rewrite <- app_assoc in HL'].
    cbn [length]. rewrite HU. cbn [mbind option_bind]. cbn zeta.
    fold info2. rewrite Hfind. cbn [mbind option_bind].
    rewrite Halias. cbn [mbind option_bind]. exact HU'.
Qed.

Lemma from_iterator_head idx c :
  NoDup idx.*1 → c ∈ idx → ∃ tl, from_iterator c.1 idx = c :: tl.
Proof.
  induction idx as [|y l IH]; intros Hnd Hc.
  { by apply elem_of_nil in Hc. }
  cbn [from_iterator]. destruct (decide (y.1 = c.1)) as [Hy|Hy].
  - exists l. f_equal. destruct y as [py ey], c as [pc ec]. cbn in Hy.
    subst py. f_equal. eapply node_unique; [exact Hnd | left | exact Hc].
  - apply elem_of_cons in Hc as [->|Hc]; [done|].
    apply IH; [|done]. rewrite fmap_cons in Hnd.
    by apply NoDup_cons in Hnd as [_ ?].
Qed.

(** The entries of an address: the main entry, then its aliases. *)
Lemma entries_of_shape s c :
  Inv s → c ∈ m_index s → is_alias c.2 = false →
  ∃ G', entries_of (service c.2) (m_index s) = c :: G'
        ∧ (∀ g', g' ∈ G' → is_alias g'.2 = true)
        ∧ NoDup (c :: G').
Proof.
  intros HI Hc Hal. pose proof (inv_index _ HI) as Hok.
  destruct (from_iterator_block (m_index s) c (ok_sorted _ _ _ Hok)
              (ok_canonical _ _ _ Hok) (ok_ptrs _ _ _ Hok) Hc Hal) as [r Hr].
  destruct (from_iterator_head (m_index s) c (ok_ptrs _ _ _ Hok) Hc)
    as [tl Htl].
  assert (Hnd : NoDup (entries_of (service c.2) (m_index s))).
  { apply NoDup_filter, NoDup_nodes, (ok_ptrs _ _ _ Hok). }
  assert (Hin : c ∈ entries_of (service c.2) (m_index s)).
  { apply list_elem_of_filter. by split. }
  destruct (entries_of (service c.2) (m_index s)) as [|e0 G'] eqn:E.
  { by apply elem_of_nil in Hin. }
  rewrite Htl in Hr. cbn [app] in Hr. injection Hr as <- _.
  exists G'. split; [done|]. split; [|done].
  intros g' Hg'. destruct (is_alias g'.2) eqn:Ea; [done|]. exfalso.
  assert (Hg'' : g' ∈ entries_of (service c.2) (m_index s))
    by (rewrite E; by right).
  apply list_elem_of_filter in Hg'' as [Hs Hgi].
  assert (g' = c) by (by apply (ok_canonical _ _ _ Hok)).
  subst g'. by apply NoDup_cons in Hnd as [? _].
Qed.

Lemma entries_of_length_bound s a :
  Inv s → Z.of_nat (length (entries_of a (m_index s))) <= 131072.
Proof.
  intros HI. pose proof (index_length_bound s HI).
  pose proof (length_filter (has_service a) (m_index s)).
  unfold entries_of. lia.
Qed.

(** Reading back the record of a main entry loads the entries of its
    address. *)
Lemma Unserialize_entry_record s Q u c (i read_new : Z) rest :
  Inv s → loaded s Q u → c ∈ m_index s → is_alias c.2 = false →
  (∀ q, q ∈ Q → service q.2 ≠ service c.2) →
  (i <? read_new) = negb (fInTried c.2) →
  ∃ u', Unserialize_entry FILE_FORMAT true i read_new
          (Serialize_record s c ++ rest) u = Some (rest, u')
        ∧ loaded s (Q ++ entries_of (service c.2) (m_index s)) u'.
Proof.
  intros HI HL Hc Hal HnoQ Hflag. pose proof (inv_index _ HI) as Hok.
  destruct (entries_of_shape s c HI Hc Hal) as (G' & HG & Htail & Hnd).
  pose proof (ok_ranges _ _ _ Hok c Hc) as (Hr1 & Hr2 & Hr3 & Hr4 & Hr5 & Hr6).
  set (info := mkAddrInfo (service c.2) (nTime c.2) (nServices c.2)
                 (source c.2) (nLastTry c.2) (nLastCountAttempt c.2)
                 (nLastSuccess c.2) (nAttempts c.2) (fInTried c.2) (-1) 0 0).
  destruct (Unserialize_sources_group s (c :: G') true info Q u rest HI HL Hnd)
    as (u' & HU & HL').
  { unfold AddrInfo_in_range. by split_and!. }
  { intros g Hg.
    assert (Hg' : g ∈ entries_of (service c.2) (m_index s)) by (by rewrite HG).
    pose proof (entries_same_table s c g HI Hc Hal Hg') as Hgf.
    apply list_elem_of_filter in Hg' as [Hgs Hgi]. unfold has_service in Hgs.
    split; [done|]. split; [|by split].
    intros HgQ. by apply (HnoQ g HgQ). }
  { split; [exact Htail|]. by split_and!. }
  exists u'. split; [|by rewrite HG].
  unfold Unserialize_entry, Serialize_record.
  change (V5_MULTIINDEX <=? FILE_FORMAT) with true. cbn match.
  rewrite <- !app_assoc.
  rewrite CAddress_roundtrip by (by split). cbn [mbind option_bind].
  rewrite unser_int64_ser by done. cbn [mbind option_bind].
  rewrite unser_int64_ser by done. cbn [mbind option_bind].
  rewrite unser_int64_ser by done. cbn [mbind option_bind].
  rewrite unser_int32_ser by done. cbn [mbind option_bind].
  rewrite Hflag, HG.
  assert (Hsrc : (if negb (fInTried c.2)
                  then unser_uint32
                         ((if fInTried c.2 then []
                           else ser_uint32 (Z.of_nat (length (c :: G'))))
                          ++ concat (map (λ n : node,
                                            ser_CNetAddr true (source n.2))
                                       (c :: G')) ++ rest)
                  else Some (1, (if fInTried c.2 then []
                                 else ser_uint32 (Z.of_nat (length (c :: G'))))
                                ++ concat (map (λ n : node,
                                            ser_CNetAddr true (source n.2))
                                       (c :: G')) ++ rest))
                 = Some (Z.of_nat (length (c :: G')),
                         concat (map (λ n : node,
                                        ser_CNetAddr true (source n.2))
                                   (c :: G')) ++ rest)).
  { destruct (fInTried c.2) eqn:Hf; cbn [negb].
    - cbn [app]. f_equal. f_equal.
      destruct (tried_alone _ _ _ c Hok Hc Hf) as [_ Halone].
      destruct G' as [|g2 G2]; [done|]. exfalso.
      assert (Hg2 : g2 ∈ entries_of (service c.2) (m_index s))
        by (rewrite HG; right; left).
      apply list_elem_of_filter in Hg2 as [Hs2 Hi2].
      rewrite (Halone g2 Hi2 Hs2) in Hnd.
      apply NoDup_cons in Hnd as [Hnd _]. apply Hnd. left.
    - apply unser_uint32_ser. split; [lia|].
      pose proof (entries_of_length_bound s (service c.2) HI) as Hb.
      rewrite HG in Hb. lia. }
  rewrite Hsrc. cbn [mbind option_bind].
  rewrite (proj2 (Z.eqb_neq _ 0)) by (cbn [length]; lia).
  cbn [map concat]. rewrite <- app_assoc, CNetAddr_roundtrip.
  cbn [mbind option_bind]. cbn zeta. rewrite Nat2Z.id.
  cbn [to_CAddress fst snd]. rewrite negb_involutive.
  exact HU.
Qed.

End Reading.

(** * The round trip *)

Section RoundTrip.
Context `{NT : NetTypes} {NL : NetLaws}.
Implicit Types (idx : list node) (n x y c : node) (p it : ptr) (e : AddrInfo)
  (a : CService) (s u : State).

Lemma Unserialize_entries_records s (L : list node) :
  ∀ Q u (i read_new : Z) rest,
  Inv s → loaded s Q u → NoDup L →
  (∀ c, c ∈ L → c ∈ m_index s ∧ is_alias c.2 = false
                ∧ ∀ q, q ∈ Q → service q.2 ≠ service c.2) →
  (∀ (j : nat) c, L !! j = Some c →
     (i + Z.of_nat j <? read_new) = negb (fInTried c.2)) →
  ∃ u', Unserialize_entries (length L) FILE_FORMAT true i read_new
          (concat (map (Serialize_record s) L) ++ rest) u = Some (rest, u')
        ∧ loaded s
            (Q ++ concat (map (λ c : node,
                                 entries_of (service c.2) (m_index s)) L))
            u'.
Proof.
  induction L as [|c L IH]; intros Q u i read_new rest HI HL Hnd HLs Hflag.
  { exists u. split; [done|]. cbn. by rewrite app_nil_r. }
  apply NoDup_cons in Hnd as [HcL Hnd].
  destruct (HLs c) as (Hc & Hal & HnoQ); [left|].
  cbn [length Unserialize_entries map concat]. rewrite <- app_assoc.
  destruct (Unserialize_entry_record s Q u c i read_new
              (concat (map (Serialize_record s) L) ++ rest) HI HL Hc Hal HnoQ)
    as (u1 & HU1 & HL1).
  { specialize (Hflag 0%nat c eq_refl). by rewrite Z.add_0_r in Hflag. }
  destruct (IH (Q ++ entries_of (service c.2) (m_index s)) u1 (i + 1)
              read_new rest HI HL1 Hnd) as (u' & HU' & HL').
  - intros c' Hc'. destruct (HLs c') as (Hc'i & Hc'a & Hc'Q); [by right|].
    split; [done|]. split; [done|]. intros q Hq.
    apply elem_of_app in Hq as [Hq|Hq]; [by apply Hc'Q|].
    apply list_elem_of_filter in Hq as [Hqs _]. unfold has_service in Hqs.
    rewrite Hqs. intros Heq.
    assert (c = c').
    { apply (ok_canonical _ _ _ (inv_index _ HI)); done. }
    by subst c'.
  - intros j c' Hj. specialize (Hflag (S j) c' Hj).
    by replace (i + 1 + Z.of_nat j) with (i + Z.of_nat (S j)) by lia.
  - exists u'. split.
    + rewrite HU1. cbn [mbind option_bind]. exact HU'.
    + by rewrite <- app_assoc in HL'.
Qed.

(** In the by-bucket order the new main entries come first. *)
Lemma sorted_flag (L : list node) :
  StronglySorted ByBucket_le L → (∀ c, c ∈ L → is_alias c.2 = false) →
  ∀ (j : nat) c, L !! j = Some c →
    (Z.of_nat j <? count_nodes canonical_new L) = negb (fInTried c.2).
Proof.
  induction 1 as [|x L Hs IH Hx]; intros Hmain j c Hj; [done|].
  rewrite Forall_forall in Hx. rewrite count_nodes_cons.
  pose proof (count_nodes_nonneg canonical_new L) as Hn0.
  assert (Hxm : is_alias x.2 = false) by (apply Hmain; left).
  destruct (fInTried x.2) eqn:Hf.
  - rewrite decide_False by (unfold canonical_new; rewrite Hf; by intros [_ ?]).
    assert (Hz : count_nodes canonical_new L = 0).
    { apply count_nodes_zero. intros n Hn [_ Hnf].
      pose proof (ByBucket_le_tried x n (Hx n Hn) Hf). congruence. }
    rewrite Hz.
    assert (Hc : fInTried c.2 = true).
    { destruct j as [|j]; [by injection Hj as <-|].
      cbn in Hj. apply list_elem_of_lookup_2 in Hj.
      by apply (ByBucket_le_tried x c (Hx c Hj)). }
    rewrite Hc. cbn. apply Z.ltb_ge. lia.
  - rewrite decide_True by done.
    destruct j as [|j].
    + injection Hj as <-. rewrite Hf. cbn. apply Z.ltb_lt. lia.
    + cbn in Hj. rewrite <- (IH (λ c' Hc', Hmain c' (list_elem_of_further _ _ _ Hc')) j c Hj).
      destruct (Z.ltb_spec (Z.of_nat j) (count_nodes canonical_new L));
        [apply Z.ltb_lt | apply Z.ltb_ge]; lia.
Qed.

Lemma count_new_main_entries s :
  count_nodes canonical_new (m_index s)
  = Z.of_nat (length (filter (λ e : AddrInfo, fInTried e = false)
                        (main_entries s))).
Proof.
  unfold main_entries. induction (m_index s) as [|x l IH]; [done|].
  rewrite count_nodes_cons, filter_cons.
  destruct (decide (canonical_new x)) as [[Ha Hf]|Hn].
  - rewrite decide_True by done. cbn [map]. rewrite filter_cons.
    rewrite decide_True by done. cbn [length]. lia.
  - destruct (decide (is_alias x.2 = false)) as [Ha|Ha]; [|lia].
    cbn [map]. rewrite filter_cons.
    rewrite decide_False; [lia|]. cbn. intros Hf. by apply Hn.
Qed.

Lemma count_tried_main_entries s :
  count_nodes canonical_tried (m_index s)
  = Z.of_nat (length (filter (λ e : AddrInfo, fInTried e = true)
                        (main_entries s))).
Proof.
  unfold main_entries. induction (m_index s) as [|x l IH]; [done|].
  rewrite count_nodes_cons, filter_cons.
  destruct (decide (canonical_tried x)) as [[Ha Hf]|Hn].
  - rewrite decide_True by done. cbn [map]. rewrite filter_cons.
    rewrite decide_True by done. cbn [length]. lia.
  - destruct (decide (is_alias x.2 = false)) as [Ha|Ha]; [|lia].
    cbn [map]. rewrite filter_cons.
    rewrite decide_False; [lia|]. cbn. intros Hf. by apply Hn.
Qed.

Lemma main_nodes_cover s n :
  Inv s → n ∈ m_index s →
  ∃ c, c ∈ m_index s ∧ is_alias c.2 = false
       ∧ n ∈ entries_of (service c.2) (m_index s).
Proof.
  intros HI Hn. pose proof (inv_index _ HI) as Hok.
  destruct (is_alias n.2) eqn:Ea.
  - destruct (ok_aliases _ _ _ Hok n Hn Ea) as [_ (c & Hc & Hca & _ & Hcs)].
    exists c. split; [done|]. split; [done|].
    apply list_elem_of_filter. split; [|done]. unfold has_service. congruence.
  - exists n. split; [done|]. split; [done|].
    apply list_elem_of_filter. by split.
Qed.

Lemma loaded_new s key0 ratio rand :
  Inv s →
  loaded s [] (set_nKey (nKey s) (AddrMan_new key0 (m_asmap s) ratio rand)).
Proof.
  intros HI. split; try done.
  - apply (AddrMan_new_Inv (nKey s) (m_asmap s) ratio rand), (inv_key _ HI).
  - intros n Hn. by apply elem_of_nil in Hn.
  - constructor.
  - intros n Hn. by apply elem_of_nil in Hn.
Qed.

(** Writing a manager and reading the stream into a new manager with the
    same map succeeds, consumes the stream, and gives a manager with the
    same key, counters, main entries and aliases. *)
Lemma Serialize_Unserialize s key0 ratio rand :
  Inv s →
  ∃ bs u, Serialize s = Some bs
    ∧ Unserialize bs (AddrMan_new key0 (m_asmap s) ratio rand) = Some ([], u)
    ∧ Inv u ∧ m_asmap u = m_asmap s ∧ state_equiv s u.
Proof.
  intros HI. pose proof (inv_index _ HI) as Hok.
  set (L := main_nodes (ByBucket (m_index s))).
  assert (HLp : L ≡ₚ main_nodes (m_index s)).
  { unfold L, main_nodes. by rewrite ByBucket_perm. }
  assert (HLin : ∀ c, c ∈ L → c ∈ m_index s ∧ is_alias c.2 = false).
  { intros c Hc. rewrite HLp in Hc.
    apply list_elem_of_filter in Hc as [? ?]. done. }
  assert (HLnd : NoDup L).
  { rewrite HLp. apply NoDup_filter, NoDup_nodes, (ok_ptrs _ _ _ Hok). }
  assert (Hlen : Z.of_nat (length L) = nNew s + nTried s).
  { rewrite HLp, (inv_nNew _ HI), (inv_nTried _ HI). apply count_main_split. }
  assert (Hnew : count_nodes canonical_new L = nNew s).
  { rewrite (inv_nNew _ HI). unfold L, main_nodes.
    rewrite <- (count_nodes_perm canonical_new _ _ (ByBucket_perm (m_index s))).
    unfold count_nodes. f_equal. f_equal. rewrite list_filter_filter.
    apply list_filter_iff. intros n. unfold canonical_new. tauto. }
  pose proof (index_length_bound s HI) as Hb.
  pose proof (count_nodes_nonneg canonical_new (m_index s)) as Hn0.
  pose proof (count_nodes_nonneg canonical_tried (m_index s)) as Ht0.
  assert (Hsum : nNew s + nTried s <= 131072).
  { rewrite <- Hlen, HLp. pose proof (length_filter (λ n : node, is_alias n.2 = false) (m_index s)).
    unfold main_nodes. lia. }
  rewrite (inv_nNew _ HI) in Hsum at 1. rewrite (inv_nTried _ HI) in Hsum at 1.
  destruct (Unserialize_entries_records s L []
              (set_nKey (nKey s) (AddrMan_new key0 (m_asmap s) ratio rand))
              0 (nNew s) [] HI (loaded_new s key0 ratio rand HI) HLnd)
    as (u & HU & HLu).
  { intros c Hc. destruct (HLin c Hc). split; [done|]. split; [done|].
    intros q Hq. by apply elem_of_nil in Hq. }
  { intros j c Hj. rewrite Z.add_0_l, <- Hnew. apply sorted_flag; [| |done].
    - apply StronglySorted_filter, ByBucket_sorted.
    - intros c' Hc'. by destruct (HLin c' Hc'). }
  cbn [app] in HLu. rewrite app_nil_r in HU.
  exists (ser_uint8 FILE_FORMAT
          ++ ser_uint8 (INCOMPATIBILITY_BASE + V5_MULTIINDEX)
          ++ ser_uint256 (nKey s) ++ ser_int32 (nNew s) ++ ser_int32 (nTried s)
          ++ concat (map (Serialize_record s) L)), u.
  split; [by apply Serialize_spec|].
  pose proof (ld_inv _ _ _ HLu) as HIu.
  split.
  { unfold Unserialize. cbn [m_index AddrMan_new].
    rewrite unser_uint8_ser by (unfold in_u, FILE_FORMAT, V5_MULTIINDEX; lia).
    cbn [mbind option_bind]. cbn zeta.
    rewrite unser_uint8_ser
      by (unfold in_u, INCOMPATIBILITY_BASE, V5_MULTIINDEX; lia).
    cbn [mbind option_bind].
    change (FILE_FORMAT <? wrapU 8 (INCOMPATIBILITY_BASE + V5_MULTIINDEX
                                    - INCOMPATIBILITY_BASE)) with false.
    cbn match.
    rewrite unser_uint256_ser by apply (inv_key _ HI).
    cbn [mbind option_bind].
    rewrite unser_int32_ser by (rewrite (inv_nNew _ HI); unfold in_s; lia).
    cbn [mbind option_bind].
    rewrite unser_int32_ser by (rewrite (inv_nTried _ HI); unfold in_s; lia).
    cbn [mbind option_bind].
    change (FILE_FORMAT <? V5_MULTIINDEX) with false. cbn match.
    cbn [mbind option_bind].
    change (V3_BIP155 <=? FILE_FORMAT) with true.
    rewrite wrapS_small;
      [|lia|rewrite (inv_nNew _ HI), (inv_nTried _ HI); unfold in_s; lia].
    rewrite <- Hlen, Nat2Z.id, HU. cbn [mbind option_bind].
    by rewrite (CheckAddrman_ok u HIu). }
  split; [exact HIu|]. split; [apply (ld_asmap _ _ _ HLu)|].
  assert (HQ : concat (map (λ c : node, entries_of (service c.2) (m_index s)) L)
               ≡ₚ m_index s).
  { apply NoDup_Permutation.
    - apply (ld_nodup _ _ _ HLu).
    - apply NoDup_nodes, (ok_ptrs _ _ _ Hok).
    - intros n. split; [apply (ld_sub _ _ _ HLu)|]. intros Hn.
      destruct (main_nodes_cover s n HI Hn) as (c & Hc & Hca & Hnc).
      apply list_elem_of_In, in_concat.
      exists (entries_of (service c.2) (m_index s)).
      split; [|by apply list_elem_of_In]. apply in_map_iff. exists c.
      split; [done|]. apply list_elem_of_In. rewrite HLp.
      apply list_elem_of_filter. by split. }
  assert (Hmain : main_entries s ≡ₚ main_entries u).
  { rewrite (ld_main _ _ _ HLu). unfold main_entries, main_nodes.
    by rewrite HQ. }
  unfold state_equiv. split; [by rewrite (ld_key _ _ _ HLu)|].
  split; [|split; [|split; [exact Hmain|]]].
  - rewrite (inv_nNew _ HI), (inv_nNew _ HIu), !count_new_main_entries.
    by rewrite Hmain.
  - rewrite (inv_nTried _ HI), (inv_nTried _ HIu), !count_tried_main_entries.
    by rewrite Hmain.
  - rewrite (ld_alias _ _ _ HLu). unfold alias_entries. by rewrite HQ.
Qed.

End RoundTrip.

(** * Claims: placement, quality, lookup misses *)

Section Claims.
Context `{NT : NetTypes} {NL : NetLaws}.
Implicit Types (idx : list node) (n x y c : node) (p it : ptr) (e : AddrInfo)
  (a : CService) (s : State).

(** C4: the bucket hasher computes the placement functions of the
    specification: the tried bucket, the new bucket and the position in a
    bucket are the two-stage hashes with the moduli 8 and 256, 64 and 1024,
    and 64, with the tag ['N'] for the new table and ['K'] for the tried
    table; [Rebucket] stores the slot that they give. *)
Theorem C4_bucket_hashing (K : Z) (asmap : list bool) (i : AddrInfo)
    (src : CNetAddr) (fNew : bool) (bucket : Z) :
  GetTriedBucket i K asmap = spec_tried_bucket K (service i) asmap
  ∧ GetNewBucket i K src asmap = spec_new_bucket K (service i) src asmap
  ∧ GetBucketPosition i K fNew bucket
    = spec_bucket_pos K fNew bucket (service i)
  ∧ ByBucketExtractor (Rebucket K asmap i)
    = (let b := if fInTried i then spec_tried_bucket K (service i) asmap
                else spec_new_bucket K (service i) (source i) asmap in
       (fInTried i, b, spec_bucket_pos K (negb (fInTried i)) b (service i))).
Proof.
  split; [reflexivity|]. split; [reflexivity|].
  split; [by destruct fNew|].
  unfold Rebucket, ByBucketExtractor. cbn. by destruct (fInTried i).
Qed.

(** C8, amended: an entry whose last try is not [0] and is at most 60
    seconds before [now] is not terrible. *)
Theorem C8_recent_try (i : AddrInfo) (now : Z) :
  nLastTry i ≠ 0 → in_s 64 (now - 60) → now - 60 <= nLastTry i →
  IsTerrible i now = false.
Proof.
  intros Hne Hr Hle. unfold IsTerrible.
  rewrite bool_decide_eq_true_2 by done.
  unfold sub64. rewrite wrapS_small by done.
  by rewrite (proj2 (Z.leb_le _ _) Hle).
Qed.

Lemma Check_off s : m_consistency_check_ratio s = 0 → Check s = Some s.
Proof. intros H. unfold Check. by rewrite H. Qed.

Lemma find_absent a b idx :
  (∀ n, n ∈ idx → service n.2 ≠ a) → ByAddress_find (a, b) idx = None.
Proof.
  intros Hno. destruct (ByAddress_find (a, b) idx) as [n|] eqn:E; [|done].
  apply ByAddress_find_Some in E as (Hn & Hs & _). by destruct (Hno n Hn).
Qed.

(** C7, amended: on an address that has no entry, [Good] returns [false]
    and changes nothing but the time of the last [Good] call, which it
    sets; [Attempt], [Connected] and [SetServices] change nothing at
    all. *)
Theorem C7_lookup_miss (addr : CService) (tbe fc : bool) (t v : Z) s :
  (∀ n, n ∈ m_index s → service n.2 ≠ addr) →
  Good_ addr tbe t s = Some (false, set_nLastGood t s)
  ∧ Attempt_ addr fc t s = Some s
  ∧ Connected_ addr t s = Some s
  ∧ SetServices_ addr v s = Some s
  ∧ (m_consistency_check_ratio s = 0 →
     Good addr t s = Some (false, set_nLastGood t s)
     ∧ Attempt addr fc t s = Some s
     ∧ Connected addr t s = Some s
     ∧ SetServices addr v s = Some s).
Proof.
  intros Hno. pose proof (find_absent addr false _ Hno) as Hf.
  assert (HG : Good_ addr tbe t s = Some (false, set_nLastGood t s)).
  { unfold Good_. cbn [m_index set_nLastGood]. by rewrite Hf. }
  assert (HG' : Good_ addr true t s = Some (false, set_nLastGood t s)).
  { unfold Good_. cbn [m_index set_nLastGood]. by rewrite Hf. }
  assert (HA : Attempt_ addr fc t s = Some s).
  { unfold Attempt_. by rewrite Hf. }
  assert (HC : Connected_ addr t s = Some s).
  { unfold Connected_. by rewrite Hf. }
  assert (HS : SetServices_ addr v s = Some s).
  { unfold SetServices_. by rewrite Hf. }
  split_and!; try done. intros Hr. split_and!.
  - unfold Good. rewrite (Check_off s) by done. cbn [mbind option_bind].
    rewrite HG'. cbn [mbind option_bind]. by rewrite Check_off.
  - unfold Attempt. rewrite (Check_off s) by done. cbn [mbind option_bind].
    rewrite HA. cbn [mbind option_bind]. by rewrite Check_off.
  - unfold Connected. rewrite (Check_off s) by done. cbn [mbind option_bind].
    rewrite HC. cbn [mbind option_bind]. by rewrite Check_off.
  - unfold SetServices. rewrite (Check_off s) by done. cbn [mbind option_bind].
    rewrite HS. cbn [mbind option_bind]. by rewrite Check_off.
Qed.

End Claims.

(** Checking a property of all nodes by running its decision. *)
Lemma all_nodes_by_compute `{NT : NetTypes} (P : node → Prop)
    `{∀ n, Decision (P n)} (l : list node) :
  forallb (λ n, bool_decide (P n)) l = true → ∀ n, n ∈ l → P n.
Proof.
  intros Hall n Hn. rewrite forallb_forall in Hall.
  apply list_elem_of_In in Hn. specialize (Hall n Hn).
  by apply bool_decide_eq_true in Hall.
Qed.

(** C8: an entry that was never tried and has no time is terrible although
    its last try, [0], is not before [now - 60]. *)
Lemma C8_counterexample :
  let e := mkAddrInfo (NT := Toy.NT) 1%nat 0 0 1%nat 0 0 0 0 false 0 0 0 in
  30 - 60 <= nLastTry e ∧ IsTerrible e 30 = true.
Proof. split; [cbn; lia | reflexivity]. Qed.

Lemma C8_recent_try_witness :
  let e := mkAddrInfo (NT := Toy.NT) 1%nat 0 0 1%nat 100 0 0 0 false 0 0 0 in
  IsTerrible e 120 = false.
Proof.
  apply (C8_recent_try (NT := Toy.NT)); cbn; [lia | unfold in_s; lia | lia].
Defined.

(** C7: [Good] on an address of an empty manager changes the time of the
    last [Good] call. *)
Lemma C7_counterexample :
  (λ rs : bool * State, (rs.1, nLastGood rs.2))
    <$> Good (NT := Toy.NT) 5%nat 100 Toy.s_new
  = Some (false, 100)
  ∧ nLastGood Toy.s_new = 1.
Proof. by vm_compute. Qed.

Lemma C7_lookup_miss_witness :
  Good_ (NT := Toy.NT) 5%nat true 100 Toy.s_one
  = Some (false, set_nLastGood 100 Toy.s_one)
  ∧ Attempt_ (NT := Toy.NT) 5%nat true 100 Toy.s_one = Some Toy.s_one
  ∧ Connected_ (NT := Toy.NT) 5%nat 100 Toy.s_one = Some Toy.s_one
  ∧ SetServices_ (NT := Toy.NT) 5%nat 1 Toy.s_one = Some Toy.s_one
  ∧ (m_consistency_check_ratio Toy.s_one = 0 →
     Good (NT := Toy.NT) 5%nat 100 Toy.s_one
     = Some (false, set_nLastGood 100 Toy.s_one)
     ∧ Attempt (NT := Toy.NT) 5%nat true 100 Toy.s_one = Some Toy.s_one
     ∧ Connected (NT := Toy.NT) 5%nat 100 Toy.s_one = Some Toy.s_one
     ∧ SetServices (NT := Toy.NT) 5%nat 1 Toy.s_one = Some Toy.s_one).
Proof.
  apply (C7_lookup_miss (NT := Toy.NT) (NL := ToyLaws.NL)).
  apply (all_nodes_by_compute (NT := Toy.NT)
           (λ n : node, service n.2 ≠ 5%nat)).
  vm_compute. reflexivity.
Defined.

(** * Claims: GetAddr and EraseInner *)

Section Claims2.
Context `{NT : NetTypes} {NL : NetLaws}.
Implicit Types (idx : list node) (n x y c : node) (p it : ptr) (e : AddrInfo)
  (a : CService) (s : State).

Lemma Check_frame s s' :
  Check s = Some s' →
  vRandom s' = vRandom s ∧ m_index s' = m_index s
  ∧ m_tried_collisions s' = m_tried_collisions s ∧ nKey s' = nKey s
  ∧ m_asmap s' = m_asmap s.
Proof.
  unfold Check. destruct (_ =? 0); [by intros [= <-]|].
  set (k := wrapU 64 _).
  destruct (randrange_frame k s) as (?&?&?&?&?&?&?&?&?&?).
  destruct (randrange k s) as [r s1]. cbn [snd] in *.
  destruct (1 <=? r); [by intros [= <-]|].
  destruct (_ =? 0); [by intros [= <-]|done].
Qed.

(** C9, amended: [GetAddr] returns, and its list has at most as many
    addresses as the manager has main entries, at most [max_addresses] of
    them unless [max_addresses] is [0], and at most [max_pct] percent of the
    main entries unless [max_pct] is [0]; a [0] stands for no limit. *)
Theorem C9_GetAddr_bound (max_addresses max_pct : Z) (network : option Z)
    (now : Z) s :
  Inv s → in_u 64 max_addresses → in_u 64 max_pct →
  ∃ r s', GetAddr max_addresses max_pct network now s = Some (r, s')
    ∧ Z.of_nat (length r) <= AddrMan_size s
    ∧ (max_addresses ≠ 0 → Z.of_nat (length r) <= max_addresses)
    ∧ (max_pct ≠ 0 →
       Z.of_nat (length r) <= mulsz max_pct (AddrMan_size s) / 100).
Proof.
  intros HI [Ha _] [Hp _]. unfold GetAddr.
  destruct (Check_ok s HI) as (s1 & HC1 & Hg1). rewrite HC1.
  cbn [mbind option_bind].
  destruct (Check_frame _ _ HC1) as (Hv1 & _).
  destruct (GetAddr_spec max_addresses max_pct network now s1 (proj1 Hg1))
    as (r & s2 & HG & Hg2 & Hl & Hl').
  rewrite HG. cbn [mbind option_bind].
  destruct (Check_ok s2 (proj1 Hg2)) as (s3 & HC3 & _). rewrite HC3.
  cbn [mbind option_bind]. exists r, s3. split; [done|].
  unfold AddrMan_size. rewrite Hv1 in Hl'.
  unfold GetAddr_nNodes in Hl. rewrite Hv1 in Hl. cbn zeta in Hl.
  assert (Hm : 0 <= mulsz max_pct (Z.of_nat (length (vRandom s))) / 100).
  { apply Z.div_pos; [|lia]. unfold mulsz, wrapU.
    apply Z.mod_pos_bound. by apply Z.pow_pos_nonneg. }
  split; [lia|]. split.
  - intros Hne. apply Z.eqb_neq in Hne. rewrite Hne in Hl. lia.
  - intros Hne. apply Z.eqb_neq in Hne. rewrite Hne in Hl.
    destruct (max_addresses =? 0); lia.
Qed.

(** C10: erasing the main entry of an address that has an alias erases
    the first alias instead; the main entry stays with its statistics,
    takes the source of that alias, and the address has one entry less. *)
Theorem C10_erase_keeps_main s it e (it_alias : node) :
  Inv s → (it, e) ∈ m_index s → is_alias e = false →
  ByAddress_find (service e, true) (m_index s) = Some it_alias →
  ∃ s' e', EraseInner it s = Some s'
    ∧ (it, e') ∈ m_index s' ∧ is_alias e' = false
    ∧ service e' = service e ∧ fInTried e' = fInTried e
    ∧ nTime e' = nTime e ∧ nServices e' = nServices e
    ∧ nLastTry e' = nLastTry e
    ∧ nLastCountAttempt e' = nLastCountAttempt e
    ∧ nLastSuccess e' = nLastSuccess e ∧ nAttempts e' = nAttempts e
    ∧ source e' = source it_alias.2
    ∧ (it_alias.1 ∉ fst <$> m_index s')
    ∧ length (m_index s) = S (length (m_index s'))
    ∧ CountAddr (service e) s' = CountAddr (service e) s - 1.
Proof.
  intros HI Hin Hal Hfind.
  destruct (Erase_take_over s it e it_alias HI Hin Hal Hfind)
    as (s' & HE & Hpost & Hidx & _).
  pose proof (inv_index _ HI) as Hok.
  apply ByAddress_find_Some in Hfind as (Hina & Hsa & Haa).
  cbn [fst snd] in Hsa, Haa.
  assert (Hne : it ≠ it_alias.1).
  { intros ->. destruct it_alias as [pa ea]. cbn [fst snd] in *.
    pose proof (node_unique _ _ _ _ (ok_ptrs _ _ _ Hok) Hin Hina).
    congruence. }
  exists s', (Rebucket (nKey s) (m_asmap s) (set_source (source it_alias.2) e)).
  split; [exact HE|]. split.
  { rewrite Hidx.
    apply (elem_of_take_over _ it e _ _ _ (ok_ptrs _ _ _ Hok) Hin Hne).
    by right. }
  split; [exact Hal|].
  do 9 (split; [reflexivity|]).
  split; [rewrite Hidx; apply index_erase_not_in|].
  split; [apply (erased_length _ _ _ Hpost)|].
  rewrite !CountAddr_count.
  - rewrite (erased_count _ _ _ Hpost). by rewrite decide_True.
  - apply (ok_sorted _ _ _ Hok).
  - apply (ok_sorted _ _ _ (inv_index _ (erased_inv _ _ _ Hpost))).
Qed.

End Claims2.

(** * Claims: collisions, time updates, slots, references *)

Section Claims3.
Context `{NT : NetTypes} {NL : NetLaws}.
Implicit Types (idx : list node) (n x y c : node) (p it : ptr) (e : AddrInfo)
  (a : CService) (s : State).

(** C6, amended: [Good] with the test before eviction, on a main entry of
    the new table whose tried slot is occupied, returns [false] and
    promotes nothing, whether the collision set has room or not: it
    updates the statistics of the entry and the time of the last [Good]
    call, and adds the entry to the collision set if that holds fewer than
    ten entries. *)
Theorem C6_collision (addr : CService) (t : Z) s (it c : node) :
  Inv s → in_s 64 t →
  ByAddress_find (addr, false) (m_index s) = Some it →
  fInTried it.2 = false →
  c ∈ m_index s →
  ByBucketExtractor c.2
  = (let b := GetTriedBucket it.2 (nKey s) (m_asmap s) in
     (true, b, GetBucketPosition it.2 (nKey s) false b)) →
  ∃ s', Good_ addr true t s = Some (false, s')
    ∧ m_index s'
      = index_modify it.1
          (λ i, set_nAttempts 0 (set_nLastTry t (set_nLastSuccess t i)))
          (m_index s)
    ∧ fInTried <$> index_lookup it.1 (m_index s') = Some false
    ∧ nNew s' = nNew s ∧ nTried s' = nTried s
    ∧ nLastGood s' = t
    ∧ m_tried_collisions s'
      = (if Z.of_nat (size (m_tried_collisions s))
            <? ADDRMAN_SET_TRIED_COLLISION_SIZE
         then {[it.1]} ∪ m_tried_collisions s
         else m_tried_collisions s).
Proof.
  intros HI Ht Hfind Hnew Hc Hslot. unfold Good_. cbn zeta.
  assert (HI0 : Inv (set_nLastGood t s)).
  { apply (Inv_frame s); try done. apply (inv_collisions _ HI). }
  change (m_index (set_nLastGood t s)) with (m_index s).
  rewrite Hfind.
  apply find_main_elem in Hfind as (Hin & Hsv & Hal).
  pose proof (ok_ranges _ _ _ (inv_index _ HI) _ Hin) as (?&?&?&?&?&?).
  set (f := λ i, set_nAttempts 0 (set_nLastTry t (set_nLastSuccess t i))).
  destruct (Modify_step (set_nLastGood t s) it.1 it.2 f)
    as (s1 & HM & Hs1 & Hg1 & Hin1); [done|done|done|done| |].
  { unfold AddrInfo_in_range; split_and!; cbn; done. }
  rewrite HM. cbn [mbind option_bind].
  pose proof (proj1 Hg1) as HI1.
  rewrite (index_lookup_elem _ _ _ (ok_ptrs _ _ _ (inv_index _ HI1)) Hin1).
  cbn [mbind option_bind].
  change (fInTried (f it.2)) with (fInTried it.2). rewrite Hnew.
  assert (Hk1 : nKey s1 = nKey s ∧ m_asmap s1 = m_asmap s
                ∧ m_index s1 = index_modify it.1 f (m_index s)
                ∧ nNew s1 = nNew s ∧ nTried s1 = nTried s ∧ nLastGood s1 = t
                ∧ m_tried_collisions s1 = m_tried_collisions s).
  { by rewrite Hs1. }
  destruct Hk1 as (Hk & Ha & Hi & Hn & Htr & Hlg & Hcol).
  rewrite Hk, Ha.
  change (GetTriedBucket (f it.2) (nKey s) (m_asmap s))
    with (GetTriedBucket it.2 (nKey s) (m_asmap s)).
  change (GetBucketPosition (f it.2) (nKey s) false)
    with (GetBucketPosition it.2 (nKey s) false).
  set (k := (true, GetTriedBucket it.2 (nKey s) (m_asmap s),
             GetBucketPosition it.2 (nKey s) false
               (GetTriedBucket it.2 (nKey s) (m_asmap s)))) in *.
  assert (Hocc : is_Some (ByBucket_find k (m_index s1))).
  { destruct (ByBucket_find k (m_index s1)) as [w|] eqn:Ef; [eauto|].
    exfalso. pose proof (ByBucket_find_None _ _ Ef) as Hnone.
    assert (Hc1 : c ∈ m_index s1).
    { rewrite Hi. apply elem_of_index_modify. left. split; [done|].
      intros Hp. destruct c as [pc ec]. cbn [fst snd] in *. subst pc.
      pose proof (node_unique _ _ _ _
                    (ok_ptrs _ _ _ (inv_index _ HI)) Hin Hc).
      subst ec. unfold ByBucketExtractor, k in Hslot.
      injection Hslot as Hf _ _. congruence. }
    by apply (Hnone c Hc1). }
  rewrite bool_decide_eq_true_2 by done. cbn [andb].
  eexists. split; [reflexivity|].
  assert (Hlk : fInTried <$> index_lookup it.1 (m_index s1) = Some false).
  { rewrite (index_lookup_elem _ _ _ (ok_ptrs _ _ _ (inv_index _ HI1)) Hin1).
    cbn. by rewrite Hnew. }
  rewrite Hcol.
  destruct (_ <? ADDRMAN_SET_TRIED_COLLISION_SIZE);
    cbn [m_index nNew nTried nLastGood m_tried_collisions set_tried_collisions];
    by split_and!.
Qed.

(** C5, amended: when [AddSingle] finds a main entry of the address, the
    time of that entry afterwards is the announced time less the penalty if
    the announced time is not [0] and the stored time is [0] or is less than
    the announced time less an interval less the penalty, and is the stored
    time otherwise; the interval is 60 minutes if the announced time is less
    than 24 hours old and 24 hours if it is older; the penalty is dropped
    when the source announces itself. *)
Theorem C5_time_update (addr : CService * Z * Z) (src : CNetAddr)
    (pen now : Z) s (it : node) :
  Inv s → CAddress_in_range addr → IsRoutable addr.1.1 = true →
  ByAddress_find (addr.1.1, false) (m_index s) = Some it →
  ∃ r s' e',
    AddSingle addr src pen now s = Some (r, s')
    ∧ (it.1, e') ∈ m_index s' ∧ is_alias e' = false
    ∧ service e' = addr.1.1
    ∧ nTime e'
      = (let pen' := if decide (ToNetAddr addr.1.1 = src) then 0 else pen in
         let interval :=
           if sub64 now addr.1.2 <? 24 * 60 * 60
           then 60 * 60 else 24 * 60 * 60 in
         if negb (addr.1.2 =? 0)
            && ((nTime it.2 =? 0)
                || (nTime it.2 <? sub64 (sub64 addr.1.2 interval) pen'))
         then wrapU 32 (Z.max 0 (sub64 addr.1.2 pen'))
         else nTime it.2).
Proof.
  intros HI Hr Hrt Hfind.
  destruct (AddSingle_spec addr src pen now s HI Hr) as (r & s' & HA & _ & He).
  destruct (He it Hrt Hfind) as (e' & Hin' & Hse).
  apply find_main_elem in Hfind as (_ & Hsv & Hal).
  apply same_entry_fields in Hse as (Hs & _ & _ & Ha & _ & _ & Ht & _).
  exists r, s', e'. split; [exact HA|]. split; [exact Hin'|].
  cbn zeta in *.
  split; [|split].
  - rewrite Ha. by destruct (_ && _).
  - rewrite Hs. by destruct (_ && _).
  - rewrite Ht. by destruct (_ && _).
Qed.


(** C3, the part that holds: in every state that the public operations
    reach from a new manager, an address has at most eight entries, and an
    entry of the tried table is the only entry of its address. *)
Theorem C3_api_bounded s :
  api_reachable s →
  refs_bounded s
  ∧ ∀ n, n ∈ m_index s → fInTried n.2 = true →
      ∀ n', n' ∈ m_index s → service n'.2 = service n.2 → n' = n.
Proof.
  intros Hr. destruct (api_reachable_good s Hr) as [HI Hb]. split.
  - intros a. rewrite CountAddr_count by apply (ok_sorted _ _ _ (inv_index _ HI)).
    apply Hb.
  - intros n Hn Ht. by apply (tried_alone _ _ _ n (inv_index _ HI)).
Qed.

End Claims3.

(** * The example managers *)

Section Totality.
Context `{NT : NetTypes} {NL : NetLaws}.

Lemma Add_total vAddr src pen now s :
  Inv s → Forall CAddress_in_range vAddr →
  ∃ r s', Add vAddr src pen now s = Some (r, s').
Proof.
  intros HI Hall. unfold Add.
  destruct (Check_ok s HI) as (s1 & -> & Hg1). cbn [mbind option_bind].
  destruct (Add_spec vAddr src pen now s1 (proj1 Hg1) Hall)
    as (r & s2 & -> & Hg2).
  cbn [mbind option_bind].
  destruct (Check_ok s2 (proj1 Hg2)) as (s3 & -> & _). by eexists _, _.
Qed.

Lemma Good_total addr t s :
  Inv s → in_s 64 t → ∃ r s', Good addr t s = Some (r, s').
Proof.
  intros HI Ht. unfold Good.
  destruct (Check_ok s HI) as (s1 & -> & Hg1). cbn [mbind option_bind].
  destruct (Good_spec addr true t s1 (proj1 Hg1) Ht) as (r & s2 & -> & Hg2).
  cbn [mbind option_bind].
  destruct (Check_ok s2 (proj1 Hg2)) as (s3 & -> & _). by eexists _, _.
Qed.

End Totality.

(** ** The example managers are reachable *)

Module ToyStates.
Import Toy ToyLaws.

Lemma in_s_by_compute (w z : Z) :
  (- 2 ^ (w - 1) <=? z) && (z <? 2 ^ (w - 1)) = true → in_s w z.
Proof. intros [?%Z.leb_le ?%Z.ltb_lt]%andb_true_iff. by split. Qed.

Lemma in_u_by_compute (w z : Z) :
  (0 <=? z) && (z <? 2 ^ w) = true → in_u w z.
Proof. intros [?%Z.leb_le ?%Z.ltb_lt]%andb_true_iff. by split. Qed.

Lemma api_run_Add vAddr src pen now s :
  api_reachable s →
  forallb (λ a : nat * Z * Z,
             (0 <=? a.1.2) && (a.1.2 <? 2 ^ 32)
             && ((0 <=? a.2) && (a.2 <? 2 ^ 64))) vAddr = true →
  in_s 64 pen → in_s 64 now →
  api_reachable (run s (Add vAddr src pen now s)).
Proof.
  intros Hr Hall Hp Hn.
  assert (Hall' : Forall CAddress_in_range vAddr).
  { apply Forall_forall. intros a Ha. rewrite forallb_forall in Hall.
    apply list_elem_of_In in Ha. specialize (Hall a Ha).
    apply andb_true_iff in Hall as [H1 H2].
    split; by apply in_u_by_compute. }
  destruct (Add_total (NT := NT) (NL := NL) vAddr src pen now s
              (proj1 (api_reachable_good s Hr)) Hall')
    as (r & s' & HA).
  rewrite HA. cbn [run]. eapply api_step; [exact Hr|].
  exact (step_Add vAddr src pen now s r s' Hall' Hp Hn HA).
Qed.

Lemma api_run_Good addr t s :
  api_reachable s → in_s 64 t → api_reachable (run s (Good addr t s)).
Proof.
  intros Hr Ht.
  destruct (Good_total (NT := NT) (NL := NL) addr t s
              (proj1 (api_reachable_good s Hr)) Ht)
    as (r & s' & HG).
  rewrite HG. cbn [run]. eapply api_step; [exact Hr|].
  exact (step_Good addr t s r s' Ht HG).
Qed.

Lemma s_new_api : api_reachable s_new.
Proof. apply api_new. apply in_u_by_compute. by vm_compute. Qed.

Lemma s_one_api : api_reachable s_one.
Proof.
  apply api_run_Add; [apply s_new_api | by vm_compute | ..];
    apply in_s_by_compute; by vm_compute.
Qed.

Lemma s_alias_api : api_reachable s_alias.
Proof.
  apply api_run_Add; [apply s_one_api | by vm_compute | ..];
    apply in_s_by_compute; by vm_compute.
Qed.

Lemma s_t0_api : api_reachable s_t0.
Proof.
  apply api_run_Add; [apply s_new_api | by vm_compute | ..];
    apply in_s_by_compute; by vm_compute.
Qed.

Lemma s_twelve_api : api_reachable s_twelve.
Proof.
  apply api_run_Add; [apply s_new_api | by vm_compute | ..];
    apply in_s_by_compute; by vm_compute.
Qed.

Lemma s_full_api : api_reachable s_full.
Proof.
  unfold s_full. cbn [seq foldl].
  do 11 (apply api_run_Good; [|apply in_s_by_compute; by vm_compute]).
  apply s_twelve_api.
Qed.

Lemma api_reachable_Inv s : api_reachable s → Inv s.
Proof. intros Hr. apply (api_reachable_good s Hr). Qed.

End ToyStates.

(** * Witnesses and counterexamples *)

Module ToyFacts.
Import Toy ToyLaws ToyStates.

Lemma found_Some (o : option node) :
  bool_decide (is_Some o) = true → o = Some (found o).
Proof. intros [n ->]%bool_decide_eq_true. done. Qed.

Lemma entry_at_elem (p : ptr) (s : State) :
  bool_decide (is_Some (index_lookup p (m_index s))) = true →
  (p, entry_at p s) ∈ m_index s.
Proof.
  intros [e H]%bool_decide_eq_true. apply index_lookup_Some.
  unfold entry_at. by rewrite H.
Qed.

Lemma found_elem (o : option node) (idx : list node) :
  (∀ n, o = Some n → n ∈ idx) →
  bool_decide (is_Some o) = true → found o ∈ idx.
Proof. intros Hin [n ->]%bool_decide_eq_true. by apply Hin. Qed.

Lemma run_Unserialize bs (s0 : State) :
  bool_decide (is_Some (Unserialize bs s0)) = true →
  ∃ rest, Unserialize bs s0 = Some (rest, run s0 (Unserialize bs s0)).
Proof. intros [[rest s] H]%bool_decide_eq_true. rewrite H. by exists rest. Qed.

Lemma s_nine_reachable : reachable s_nine.
Proof.
  destruct (run_Unserialize nine s_new) as [rest H]; [by vm_compute|].
  exact (reach_Unserialize 0 [] 0 [] nine rest s_nine H).
Qed.

End ToyFacts.

Import Toy ToyLaws ToyStates ToyFacts.

(** C9: with both limits [0] the one address of the manager is returned,
    one more than the minimum of the two limits allows. *)
Lemma C9_counterexample :
  fst <$> GetAddr (NT := NT) 0 0 None 1000 s_one = Some [(1%nat, 1000, 0)]
  ∧ AddrMan_size s_one = 1
  ∧ Z.min 0 (0 * AddrMan_size s_one / 100) = 0.
Proof. by vm_compute. Qed.

Lemma C9_GetAddr_bound_witness :
  ∃ r s', GetAddr (NT := NT) 5 50 None 1000 s_twelve = Some (r, s')
    ∧ Z.of_nat (length r) <= AddrMan_size s_twelve
    ∧ (5 ≠ 0 → Z.of_nat (length r) <= 5)
    ∧ (50 ≠ 0 → Z.of_nat (length r) <= mulsz 50 (AddrMan_size s_twelve) / 100).
Proof.
  refine (C9_GetAddr_bound (NT := NT) (NL := NL) 5 50 None 1000 s_twelve _ _ _).
  - apply api_reachable_Inv, s_twelve_api.
  - apply in_u_by_compute. by vm_compute.
  - apply in_u_by_compute. by vm_compute.
Defined.

Lemma C10_erase_keeps_main_witness :
  let e := entry_at 0 s_alias in
  let it_alias := found (ByAddress_find (1%nat, true) (m_index s_alias)) in
  ∃ s' e', EraseInner (NT := NT) 0 s_alias = Some s'
    ∧ (0%nat, e') ∈ m_index s' ∧ is_alias e' = false
    ∧ service e' = service e ∧ fInTried e' = fInTried e
    ∧ nTime e' = nTime e ∧ nServices e' = nServices e
    ∧ nLastTry e' = nLastTry e
    ∧ nLastCountAttempt e' = nLastCountAttempt e
    ∧ nLastSuccess e' = nLastSuccess e ∧ nAttempts e' = nAttempts e
    ∧ source e' = source it_alias.2
    ∧ (it_alias.1 ∉ fst <$> m_index s')
    ∧ length (m_index s_alias) = S (length (m_index s'))
    ∧ CountAddr (service e) s' = CountAddr (service e) s_alias - 1.
Proof.
  intros e it_alias.
  refine (C10_erase_keeps_main (NT := NT) (NL := NL) s_alias 0%nat e it_alias
            _ _ _ _).
  - apply api_reachable_Inv, s_alias_api.
  - apply entry_at_elem. by vm_compute.
  - by vm_compute.
  - replace (service e) with 1%nat by (by vm_compute).
    apply found_Some. by vm_compute.
Defined.

(** C6: the twelfth address collides in the tried table while the
    collision set holds ten entries; [Good] returns [false], the entry
    stays in the new table and nothing is promoted. *)
Lemma C6_counterexample :
  let it := found (ByAddress_find (12%nat, false) (m_index s_full)) in
  fInTried it.2 = false
  ∧ bool_decide (is_Some (ByBucket_find
               (true, GetTriedBucket it.2 (nKey s_full) (m_asmap s_full),
                GetBucketPosition it.2 (nKey s_full) false
                  (GetTriedBucket it.2 (nKey s_full) (m_asmap s_full)))
               (m_index s_full))) = true
  ∧ Z.of_nat (size (m_tried_collisions s_full))
    = ADDRMAN_SET_TRIED_COLLISION_SIZE
  ∧ nTried s_full = 1
  ∧ (λ rs : bool * State,
       (rs.1, fInTried (entry_at it.1 rs.2), nTried rs.2))
      <$> Good (NT := NT) 12%nat 1000 s_full
    = Some (false, false, 1).
Proof. by vm_compute. Qed.

Lemma C6_collision_witness :
  let it := found (ByAddress_find (12%nat, false) (m_index s_full)) in
  ∃ s', Good_ (NT := NT) 12%nat true 1000 s_full = Some (false, s')
    ∧ m_index s'
      = index_modify it.1
          (λ i, set_nAttempts 0 (set_nLastTry 1000 (set_nLastSuccess 1000 i)))
          (m_index s_full)
    ∧ fInTried <$> index_lookup it.1 (m_index s') = Some false
    ∧ nNew s' = nNew s_full ∧ nTried s' = nTried s_full
    ∧ nLastGood s' = 1000
    ∧ m_tried_collisions s'
      = (if Z.of_nat (size (m_tried_collisions s_full))
            <? ADDRMAN_SET_TRIED_COLLISION_SIZE
         then {[it.1]} ∪ m_tried_collisions s_full
         else m_tried_collisions s_full).
Proof.
  intros it.
  refine (C6_collision (NT := NT) (NL := NL) 12%nat 1000 s_full it
            (found (ByBucket_find (true, 0, 0) (m_index s_full))) _ _ _ _ _ _).
  - apply api_reachable_Inv, s_full_api.
  - apply in_s_by_compute. by vm_compute.
  - apply found_Some. by vm_compute.
  - by vm_compute.
  - apply found_elem; [|by vm_compute].
    intros n Hn. by apply ByBucket_find_Some in Hn as [Hn _].
  - by vm_compute.
Defined.

(** C5: a stored time of [0] is replaced by the announced time 30 although
    [0] is not less than 30 less 60 seconds; and a stored time of 1000 is
    kept against the announced time 1100 of a peer that is online although
    1000 is less than 1100 less 60 seconds. *)
Lemma C5_counterexample :
  (nTime (entry_at 0 s_t0) = 0
   ∧ (λ rs : bool * State, nTime (entry_at 0 rs.2))
       <$> Add (NT := NT) [(1%nat, 30, 0)] 1%nat 0 30 s_t0 = Some 30
   ∧ ¬ 0 < 30 - 60 - 0)
  ∧ (nTime (entry_at 0 s_one) = 1000
     ∧ (λ rs : bool * State, nTime (entry_at 0 rs.2))
         <$> Add (NT := NT) [(1%nat, 1100, 0)] 1%nat 0 1100 s_one = Some 1000
     ∧ 1000 < 1100 - 60 - 0).
Proof.
  split; (split; [by vm_compute|]); (split; [by vm_compute|lia]).
Qed.

Lemma C5_time_update_witness :
  let it := found (ByAddress_find (1%nat, false) (m_index s_one)) in
  ∃ r s' e',
    AddSingle (NT := NT) (1%nat, 5000, 0) 1%nat 0 5000 s_one = Some (r, s')
    ∧ (it.1, e') ∈ m_index s' ∧ is_alias e' = false
    ∧ service e' = (1%nat, 5000, 0).1.1
    ∧ nTime e'
      = (let pen' :=
           if decide (ToNetAddr (1%nat, 5000, 0).1.1 = 1%nat) then 0 else 0 in
         let interval :=
           if sub64 5000 (1%nat, 5000, 0).1.2 <? 24 * 60 * 60
           then 60 * 60 else 24 * 60 * 60 in
         if negb ((1%nat, 5000, 0).1.2 =? 0)
            && ((nTime it.2 =? 0)
                || (nTime it.2
                    <? sub64 (sub64 (1%nat, 5000, 0).1.2 interval) pen'))
         then wrapU 32 (Z.max 0 (sub64 (1%nat, 5000, 0).1.2 pen'))
         else nTime it.2).
Proof.
  intros it.
  refine (C5_time_update (NT := NT) (NL := NL) (1%nat, 5000, 0) 1%nat 0 5000
            s_one it _ _ _ _).
  - apply api_reachable_Inv, s_one_api.
  - split; apply in_u_by_compute; by vm_compute.
  - reflexivity.
  - apply found_Some. by vm_compute.
Defined.


(** C3: loading the stream [nine] into a new manager succeeds, and in the
    manager that it gives address 1 has nine entries, one more than the
    bound. *)
Theorem C3_unserialize_nine :
  fst <$> Unserialize (NT := NT) nine s_new = Some []
  ∧ reachable s_nine
  ∧ CheckAddrman s_nine = 0
  ∧ CountAddr (NT := NT) 1%nat s_nine = 9
  ∧ ¬ refs_bounded s_nine.
Proof.
  split; [by vm_compute|]. split; [apply s_nine_reachable|].
  split; [by vm_compute|].
  assert (H9 : CountAddr (NT := NT) 1%nat s_nine = 9) by (by vm_compute).
  split; [exact H9|]. intros Hb. specialize (Hb 1%nat). rewrite H9 in Hb.
  unfold ADDRMAN_NEW_BUCKETS_PER_ADDRESS in Hb. lia.
Qed.

(** * Claim: the round trip *)

Section Claims4.
Context `{NT : NetTypes} {NL : NetLaws}.

(** C1: for a manager reached through the interface, [Serialize] writes a
    stream, and [Unserialize] of that stream into a new manager with the
    same map reads all of it and gives a manager that is equivalent: the
    same key and counters, the same main entries with their address,
    source, table, slot and statistics, and the same aliases with their
    sources; the random vector and the positions in it are left out. *)
Theorem C1_round_trip s (key0 ratio : Z) (rand : list Z) :
  reachable s →
  ∃ bs u, Serialize s = Some bs
    ∧ Unserialize bs (AddrMan_new key0 (m_asmap s) ratio rand) = Some ([], u)
    ∧ state_equiv s u.
Proof.
  intros Hr.
  destruct (Serialize_Unserialize s key0 ratio rand (reachable_Inv s Hr))
    as (bs & u & HS & HU & _ & _ & Heq).
  by exists bs, u.
Qed.

End Claims4.

Import Toy ToyLaws ToyStates ToyFacts.

Lemma api_reachable_reachable `{NT : NetTypes} (s : State) :
  api_reachable s → reachable s.
Proof.
  induction 1 as [key asmap ratio rand Hk|s s' _ IH Hs].
  - by apply reach_new.
  - by eapply reach_step.
Qed.

Lemma C1_round_trip_witness :
  ∃ bs u, Serialize (NT := NT) s_alias = Some bs
    ∧ Unserialize bs (AddrMan_new 7 (m_asmap s_alias) 0 []) = Some ([], u)
    ∧ state_equiv s_alias u.
Proof.
  refine (C1_round_trip (NT := NT) (NL := NL) s_alias 7 0 [] _).
  apply api_reachable_reachable, s_alias_api.
Defined.

(** ** The order of the collision set matters

    With the nodes in the order of their names [ResolveCollisions] promotes
    address 2 in [s_full], with the ten colliding nodes in another order it
    promotes address 11. *)
Lemma ResolveCollisions_s_full :
  tried_address s_full = Some 1%nat
  ∧ elements (m_tried_collisions s_full)
    = [10; 6; 8; 4; 2; 9; 5; 7; 3; 1]%nat
  ∧ tried_address <$> ResolveCollisions (NT := NT) (seq 0 13) 20000 s_full
    = Some (Some 2%nat)
  ∧ tried_address
      <$> ResolveCollisions (NT := NT) [10; 6; 8; 4; 2; 9; 5; 7; 3; 1]%nat
            20000 s_full
    = Some (Some 11%nat).
Proof. by vm_compute. Qed.

(** In [s_three] the round for node 2 erases node 3: when node 3 is the
    next element the iterator is lost, in another order the loop goes on
    and ends. *)
Lemma ResolveCollisions_s_three :
  elements (m_tried_collisions s_three) = [4; 2; 3]%nat
  ∧ tried_address <$> ResolveCollisions (NT := NT) [4; 2; 3]%nat 20000 s_three
    = Some (Some 3%nat)
  ∧ tried_address <$> ResolveCollisions (NT := NT) [2; 4; 3]%nat 20000 s_three
    = Some (Some 2%nat)
  ∧ tried_address <$> ResolveCollisions (NT := NT) [2; 3; 4]%nat 20000 s_three
    = None.
Proof. by vm_compute. Qed.

(** * Counting, capacity and what the operations do *)

Section Capacity.
Context `{NT : NetTypes} {NL : NetLaws}.
Implicit Types (idx : list node) (n x y c : node) (p it : ptr) (e : AddrInfo)
  (a : CService) (s : State).

(** ** The consistency check changes the random tape only *)

Lemma Inv_tape s tape : Inv s → Inv (set_insecure_rand tape s).
Proof. intros HI. by apply (Inv_frame s); [..|apply (inv_collisions _ HI)|]. Qed.

Lemma randrange_tape k s :
  ∃ tape, (randrange k s).2 = set_insecure_rand tape s.
Proof.
  unfold randrange. destruct (insecure_rand s) as [|r t] eqn:E.
  - exists []. destruct s. cbn in *. by subst.
  - by exists t.
Qed.

Lemma Check_tape s :
  Inv s → ∃ tape, Check s = Some (set_insecure_rand tape s).
Proof.
  intros HI. unfold Check. destruct (_ =? 0).
  { exists (insecure_rand s). by destruct s. }
  set (k := wrapU 64 _). destruct (randrange_tape k s) as [t Ht].
  destruct (randrange k s) as [r s1]. cbn [snd] in Ht. subst s1.
  exists t. destruct (1 <=? r); [done|].
  by rewrite (CheckAddrman_ok _ (Inv_tape s t HI)).
Qed.

(** ** Each table has room for its slots only *)

Lemma count_nodes_le_ptr (P Q : node → Prop) `{∀ n, Decision (P n)}
    `{∀ n, Decision (Q n)} idx idx' :
  NoDup idx.*1 →
  (∀ n, n ∈ idx → P n → ∃ e', (n.1, e') ∈ idx' ∧ Q (n.1, e')) →
  count_nodes P idx <= count_nodes Q idx'.
Proof.
  intros Hnd Hin. unfold count_nodes.
  rewrite <- (length_fmap fst (filter P idx)).
  rewrite <- (length_fmap fst (filter Q idx')).
  apply inj_le, submseteq_length, NoDup_submseteq.
  - eapply sublist_NoDup; [exact Hnd|]. apply fmap_sublist, sublist_filter.
  - intros p Hp. apply list_elem_of_fmap in Hp as (n & -> & Hn).
    apply list_elem_of_filter in Hn as [HP Hn].
    destruct (Hin n Hn HP) as (e' & He' & HQ).
    apply (elem_of_ptrs (n.1, e')), list_elem_of_filter. by split.
Qed.

Lemma count_nodes_slots (P : node → Prop) `{∀ n, Decision (P n)}
    (code : ByBucketView → Z) (cap : Z) key asmap idx :
  index_ok key asmap idx → 0 <= cap →
  (∀ n1 n2, n1 ∈ idx → n2 ∈ idx → P n1 → P n2 →
     code (ByBucketExtractor n1.2) = code (ByBucketExtractor n2.2) →
     ByBucketExtractor n1.2 = ByBucketExtractor n2.2) →
  (∀ n, n ∈ idx → P n → 0 <= code (ByBucketExtractor n.2) < cap) →
  count_nodes P idx <= cap.
Proof.
  intros Hok Hcap0 Hinj Hcap. unfold count_nodes.
  set (codes := (λ n : node, Z.to_nat (code (ByBucketExtractor n.2)))
                  <$> filter P idx).
  assert (Hnd : NoDup codes).
  { apply NoDup_fmap_2_strong.
    - intros n1 n2 [HP1 H1]%list_elem_of_filter [HP2 H2]%list_elem_of_filter Hc.
      apply (ok_slots _ _ _ Hok); [done|done|]. apply Hinj; try done.
      pose proof (Hcap n1 H1 HP1). pose proof (Hcap n2 H2 HP2). lia.
    - apply NoDup_filter, NoDup_nodes, (ok_ptrs _ _ _ Hok). }
  assert (Hsub : codes ⊆+ seq 0 (Z.to_nat cap)).
  { apply NoDup_submseteq; [done|]. intros c Hc.
    apply list_elem_of_fmap in Hc as (n & -> & [HP Hn]%list_elem_of_filter).
    apply elem_of_seq. pose proof (Hcap n Hn HP). lia. }
  apply submseteq_length in Hsub.
  unfold codes in Hsub. rewrite length_fmap, length_seq in Hsub.
  lia.
Qed.

Lemma tried_bucket_range e key asmap :
  0 <= GetTriedBucket e key asmap < ADDRMAN_TRIED_BUCKET_COUNT.
Proof. unfold GetTriedBucket. cbn zeta. by apply Z.mod_pos_bound. Qed.

Lemma tried_capacity s :
  Inv s →
  count_nodes (λ n : node, fInTried n.2 = true) (m_index s)
  <= ADDRMAN_TRIED_BUCKET_COUNT * ADDRMAN_BUCKET_SIZE.
Proof.
  intros HI. pose proof (inv_index _ HI) as Hok.
  apply (count_nodes_slots _ (λ k, k.1.2 * ADDRMAN_BUCKET_SIZE + k.2)
           _ (nKey s) (m_asmap s)); [done|done| |].
  - intros n1 n2 H1 H2 Ht1 Ht2.
    rewrite <- (ok_buckets _ _ _ Hok n1 H1), <- (ok_buckets _ _ _ Hok n2 H2).
    pose proof (Rebucket_slot_range (nKey s) (m_asmap s) n1.2) as [_ Hp1].
    pose proof (Rebucket_slot_range (nKey s) (m_asmap s) n2.2) as [_ Hp2].
    destruct (ByBucketExtractor (Rebucket (nKey s) (m_asmap s) n1.2))
      as [[t1 b1] p1] eqn:E1.
    destruct (ByBucketExtractor (Rebucket (nKey s) (m_asmap s) n2.2))
      as [[t2 b2] p2] eqn:E2.
    assert (t1 = t2) as ->.
    { apply (f_equal (λ k : ByBucketView, k.1.1)) in E1, E2. cbn in E1, E2.
      congruence. }
    cbn [fst snd] in *. change ADDRMAN_BUCKET_SIZE with 64 in *. intros Hc.
    assert (b1 = b2) by lia. assert (p1 = p2) by lia. congruence.
  - intros n Hn Ht. rewrite <- (ok_buckets _ _ _ Hok n Hn).
    pose proof (Rebucket_slot_range (nKey s) (m_asmap s) n.2) as [_ Hp].
    pose proof (tried_bucket_range n.2 (nKey s) (m_asmap s)) as Hb.
    assert (Eb : (ByBucketExtractor (Rebucket (nKey s) (m_asmap s) n.2)).1.2
                 = GetTriedBucket n.2 (nKey s) (m_asmap s)).
    { unfold ByBucketExtractor, Rebucket. cbn. by rewrite Ht. }
    rewrite <- Eb in Hb.
    destruct (ByBucketExtractor (Rebucket (nKey s) (m_asmap s) n.2))
      as [[t1 b1] p1].
    cbn [fst snd] in *.
    change ADDRMAN_TRIED_BUCKET_COUNT with 256 in *.
    change ADDRMAN_BUCKET_SIZE with 64 in *. lia.
Qed.

Lemma new_capacity s :
  Inv s →
  count_nodes (λ n : node, fInTried n.2 = false) (m_index s)
  <= ADDRMAN_NEW_BUCKET_COUNT * ADDRMAN_BUCKET_SIZE.
Proof.
  intros HI. pose proof (inv_index _ HI) as Hok.
  apply (count_nodes_slots _ (λ k, k.1.2 * ADDRMAN_BUCKET_SIZE + k.2)
           _ (nKey s) (m_asmap s)); [done|done| |].
  - intros n1 n2 H1 H2 Ht1 Ht2.
    rewrite <- (ok_buckets _ _ _ Hok n1 H1), <- (ok_buckets _ _ _ Hok n2 H2).
    pose proof (Rebucket_slot_range (nKey s) (m_asmap s) n1.2) as [_ Hp1].
    pose proof (Rebucket_slot_range (nKey s) (m_asmap s) n2.2) as [_ Hp2].
    destruct (ByBucketExtractor (Rebucket (nKey s) (m_asmap s) n1.2))
      as [[t1 b1] p1] eqn:E1.
    destruct (ByBucketExtractor (Rebucket (nKey s) (m_asmap s) n2.2))
      as [[t2 b2] p2] eqn:E2.
    assert (t1 = t2) as ->.
    { apply (f_equal (λ k : ByBucketView, k.1.1)) in E1, E2. cbn in E1, E2.
      congruence. }
    cbn [fst snd] in *. change ADDRMAN_BUCKET_SIZE with 64 in *. intros Hc.
    assert (b1 = b2) by lia. assert (p1 = p2) by lia. congruence.
  - intros n Hn Ht. rewrite <- (ok_buckets _ _ _ Hok n Hn).
    pose proof (Rebucket_slot_range (nKey s) (m_asmap s) n.2) as [Hb Hp].
    destruct (ByBucketExtractor (Rebucket (nKey s) (m_asmap s) n.2))
      as [[t1 b1] p1].
    cbn [fst snd] in *.
    change ADDRMAN_NEW_BUCKET_COUNT with 1024 in *.
    change ADDRMAN_BUCKET_SIZE with 64 in *. lia.
Qed.

Lemma count_nodes_mono (P Q : node → Prop) `{∀ n, Decision (P n)}
    `{∀ n, Decision (Q n)} idx :
  (∀ n, n ∈ idx → P n → Q n) → count_nodes P idx <= count_nodes Q idx.
Proof.
  intros HPQ. unfold count_nodes. apply inj_le.
  induction idx as [|x l IH]; [done|].
  rewrite !filter_cons.
  assert (IH' : (length (filter P l) ≤ length (filter Q l))%nat).
  { apply IH. intros n Hn. apply HPQ. by right. }
  destruct (decide (P x)) as [HP|HP].
  - rewrite decide_True by (apply HPQ; [left|done]). cbn. lia.
  - destruct (decide (Q x)); cbn; lia.
Qed.

Lemma count_nodes_split (P Q : node → Prop) `{∀ n, Decision (P n)}
    `{∀ n, Decision (Q n)} idx :
  count_nodes P idx
  = count_nodes (λ n, P n ∧ Q n) idx + count_nodes (λ n, P n ∧ ¬ Q n) idx.
Proof.
  unfold count_nodes. induction idx as [|x l IH]; [done|].
  rewrite !filter_cons.
  destruct (decide (P x)) as [HP|HP], (decide (Q x)) as [HQ|HQ].
  - rewrite decide_True by done. rewrite decide_False by tauto. cbn. lia.
  - rewrite decide_False by tauto. rewrite decide_True by done. cbn. lia.
  - rewrite !decide_False by tauto. lia.
  - rewrite !decide_False by tauto. lia.
Qed.

Lemma table_sizes s :
  Inv s →
  0 <= nNew s <= ADDRMAN_NEW_BUCKET_COUNT * ADDRMAN_BUCKET_SIZE
  ∧ 0 <= nTried s <= ADDRMAN_TRIED_BUCKET_COUNT * ADDRMAN_BUCKET_SIZE
  ∧ AddrMan_size s = nNew s + nTried s.
Proof.
  intros HI. rewrite (inv_nNew _ HI), (inv_nTried _ HI).
  split; [split; [apply count_nodes_nonneg|]|split; [split; [apply count_nodes_nonneg|]|]].
  - etransitivity; [|apply (new_capacity s HI)].
    apply count_nodes_mono. by intros n _ [_ ?].
  - etransitivity; [|apply (tried_capacity s HI)].
    apply count_nodes_mono. by intros n _ [_ ?].
  - unfold AddrMan_size. by rewrite (vRandom_length s HI).
Qed.

End Capacity.

Section Promotion.
Context `{NT : NetTypes} {NL : NetLaws}.
Implicit Types (idx : list node) (n x y c : node) (p it : ptr) (e : AddrInfo)
  (a : CService) (s : State).

(** ** Counting across a run of erasures *)

Lemma count_nodes_ext (P Q : node → Prop) `{∀ n, Decision (P n)}
    `{∀ n, Decision (Q n)} idx :
  (∀ n, n ∈ idx → P n ↔ Q n) → count_nodes P idx = count_nodes Q idx.
Proof.
  intros HPQ. apply Z.le_antisymm; apply count_nodes_mono;
    intros n Hn; by apply HPQ.
Qed.

Lemma count_flags_transfer (al tr : bool) a s s2
    `{D1 : ∀ n : node, Decision (is_alias n.2 = al ∧ fInTried n.2 = tr)}
    `{D2 : ∀ n : node, Decision ((is_alias n.2 = al ∧ fInTried n.2 = tr)
                                 ∧ ¬ has_service a n)} :
  NoDup (m_index s).*1 → NoDup (m_index s2).*1 →
  shrinks s s2 → keeps (λ b, b ≠ a) s s2 →
  (∀ n, n ∈ m_index s2 → service n.2 ≠ a) →
  count_nodes (λ n : node, is_alias n.2 = al ∧ fInTried n.2 = tr) (m_index s2)
  = count_nodes (λ n : node, (is_alias n.2 = al ∧ fInTried n.2 = tr)
                             ∧ ¬ has_service a n) (m_index s).
Proof.
  intros Hnd Hnd2 Hsh Hk Hno. apply Z.le_antisymm.
  - apply count_nodes_le_ptr; [done|]. intros n' Hn' [Ha Ht].
    destruct (shr_old _ _ Hsh n' Hn') as ([q e] & Hn & Hp & Hs & Hal & Htr).
    cbn [fst snd] in *. exists e. rewrite Hp. split; [done|].
    cbn [snd]. split; [split; congruence|].
    unfold has_service. cbn [snd]. rewrite <- Hs. by apply Hno.
  - apply count_nodes_le_ptr; [done|]. intros n Hn [[Ha Ht] Hs].
    destruct (Hk n Hn Hs) as (e' & He' & Hse).
    exists e'. split; [done|]. cbn [snd].
    destruct (same_entry_fields _ _ Hse) as (_ & _ & Hf & Hal & _).
    split; congruence.
Qed.

(** The counters that the invariant ties to the container, split by one
    address. *)
Lemma count_canonical_split (tr : bool) a idx
    `{D1 : ∀ n : node, Decision (is_alias n.2 = false ∧ fInTried n.2 = tr)}
    `{D2 : ∀ n : node, Decision ((is_alias n.2 = false ∧ fInTried n.2 = tr)
                                 ∧ has_service a n)}
    `{D3 : ∀ n : node, Decision ((is_alias n.2 = false ∧ fInTried n.2 = tr)
                                 ∧ ¬ has_service a n)} :
  count_nodes (λ n : node, is_alias n.2 = false ∧ fInTried n.2 = tr) idx
  = count_nodes (λ n : node, (is_alias n.2 = false ∧ fInTried n.2 = tr)
                             ∧ has_service a n) idx
    + count_nodes (λ n : node, (is_alias n.2 = false ∧ fInTried n.2 = tr)
                               ∧ ¬ has_service a n) idx.
Proof.
  unfold count_nodes. induction idx as [|x l IH]; [done|].
  rewrite !filter_cons.
  destruct (decide (is_alias x.2 = false ∧ fInTried x.2 = tr)) as [HP|HP],
    (decide (has_service a x)) as [HQ|HQ].
  - rewrite decide_True by done. rewrite decide_False by tauto. cbn. lia.
  - rewrite decide_False by tauto. rewrite decide_True by done. cbn. lia.
  - rewrite !decide_False by tauto. lia.
  - rewrite !decide_False by tauto. lia.
Qed.

Lemma count_main_of key asmap idx (v : node) (tr : bool)
    `{D2 : ∀ n : node, Decision ((is_alias n.2 = false ∧ fInTried n.2 = tr)
                                 ∧ has_service (service v.2) n)} :
  index_ok key asmap idx → v ∈ idx → is_alias v.2 = false →
  count_nodes (λ n : node, (is_alias n.2 = false ∧ fInTried n.2 = tr)
                           ∧ has_service (service v.2) n) idx
  = if decide (fInTried v.2 = tr) then 1 else 0.
Proof.
  intros Hok Hv Ha. destruct (decide (fInTried v.2 = tr)) as [Ht|Ht].
  - apply (count_nodes_one _ _ v); [|done|done|].
    + apply NoDup_nodes, (ok_ptrs _ _ _ Hok).
    + intros n Hn [[Hna _] Hs]. by apply (ok_canonical _ _ _ Hok).
  - apply count_nodes_zero. intros n Hn [[Hna Hnt] Hs].
    assert (n = v) by (by apply (ok_canonical _ _ _ Hok)). by subst.
Qed.

Lemma nNew_flags s :
  Inv s →
  nNew s = count_nodes (λ n : node, is_alias n.2 = false
                                    ∧ fInTried n.2 = false) (m_index s).
Proof. intros HI. rewrite (inv_nNew _ HI). by apply count_nodes_ext. Qed.

Lemma nTried_flags s :
  Inv s →
  nTried s = count_nodes (λ n : node, is_alias n.2 = false
                                      ∧ fInTried n.2 = true) (m_index s).
Proof. intros HI. rewrite (inv_nTried _ HI). by apply count_nodes_ext. Qed.

(** The counters after the entries of one address are gone. *)
Lemma counters_without a s s2 (v : node) :
  Inv s → Inv s2 → shrinks s s2 → keeps (λ b, b ≠ a) s s2 →
  (∀ n, n ∈ m_index s2 → service n.2 ≠ a) →
  v ∈ m_index s → is_alias v.2 = false → service v.2 = a →
  nNew s2 = nNew s - (if fInTried v.2 then 0 else 1)
  ∧ nTried s2 = nTried s - (if fInTried v.2 then 1 else 0).
Proof.
  intros HI HI2 Hsh Hk Hno Hv Hva Hvs.
  pose proof (ok_ptrs _ _ _ (inv_index _ HI)) as Hnd.
  pose proof (ok_ptrs _ _ _ (inv_index _ HI2)) as Hnd2.
  rewrite (nNew_flags s HI), (nNew_flags s2 HI2).
  rewrite (nTried_flags s HI), (nTried_flags s2 HI2).
  rewrite (count_flags_transfer false false a s s2) by done.
  rewrite (count_flags_transfer false true a s s2) by done.
  rewrite (count_canonical_split false a (m_index s)).
  rewrite (count_canonical_split true a (m_index s)).
  rewrite <- Hvs.
  rewrite (count_main_of _ _ _ v false (inv_index _ HI) Hv Hva).
  rewrite (count_main_of _ _ _ v true (inv_index _ HI) Hv Hva).
  destruct (fInTried v.2); repeat case_decide; try done; lia.
Qed.

(** ** [MakeTried] into a free slot *)

Lemma MakeTried_free s it info :
  Inv s → (it, info) ∈ m_index s → is_alias info = false →
  fInTried info = false →
  let info' := Rebucket (nKey s) (m_asmap s) (set_fInTried true info) in
  (∀ n, n ∈ m_index s → ByBucketExtractor n.2 ≠ ByBucketExtractor info') →
  ∃ s' p e', MakeTried it s = Some s' ∧ Inv s' ∧ same_env s s'
    ∧ (p, e') ∈ m_index s' ∧ same_entry info' e'
    ∧ count_nodes (has_service (service info)) (m_index s') = 1
    ∧ nTried s' = nTried s + 1 ∧ nNew s' = nNew s - 1
    ∧ keeps (λ b, b ≠ service info) s s'.
Proof.
  intros HI Hin Hal Hf info' Hfree. unfold MakeTried.
  rewrite (index_lookup_elem _ _ _ (ok_ptrs _ _ _ (inv_index _ HI)) Hin).
  cbn [mbind option_bind]. rewrite Hf.
  destruct (Erase_spec s it info HI Hin) as (s1 & HE & Hp1).
  rewrite HE. cbn [mbind option_bind].
  destruct (Erase_address_spec (length (m_index s1)) (service info) s1
              (erased_inv _ _ _ Hp1)) as (s2 & HEA & HI2 & Hsh2 & Hk2 & Hno2);
    [lia|].
  rewrite HEA. cbn [mbind option_bind].
  assert (Hsh : shrinks s s2).
  { eapply shrinks_trans; [by eapply erase_post_shrinks|done]. }
  assert (Hk : keeps (λ b, b ≠ service info) s s2).
  { eapply keeps_trans; [by eapply erase_post_keeps|done]. }
  assert (He2 : same_env s s2) by apply same_config_env, Hsh.
  pose proof He2 as (Hk2' & Ha2 & _). rewrite Hk2', Ha2. fold info'.
  assert (Hfree2 : ∀ n, n ∈ m_index s2 →
            ByBucketExtractor n.2 ≠ ByBucketExtractor info').
  { intros n Hn. destruct (shr_slots _ _ Hsh n Hn) as (n0 & Hn0 & <-).
    by apply Hfree. }
  assert (Hnone : ByBucket_find (ByBucketExtractor info') (m_index s2) = None).
  { destruct (ByBucket_find _ _) as [w|] eqn:Ef; [|done].
    apply ByBucket_find_Some in Ef as [Hw Hwk]. by destruct (Hfree2 w Hw). }
  rewrite Hnone. cbn [mbind option_bind].
  destruct (counters_without (service info) s s2 (it, info) HI HI2 Hsh Hk Hno2
              Hin Hal eq_refl) as [HnN HnT].
  cbn [snd] in HnN, HnT. rewrite Hf in HnN, HnT.
  assert (Hr : AddrInfo_in_range info').
  { apply Rebucket_range. apply (ok_ranges _ _ _ (inv_index _ HI) _ Hin). }
  assert (Hid : Rebucket (nKey s2) (m_asmap s2) info' = info').
  { rewrite Hk2', Ha2. apply Rebucket_idem. }
  exists (Insert info' false s2).2, (next_ptr s2), (Insert_info info' false s2).
  split; [done|]. split; [|split; [|split; [|split; [|split; [|split; [|split]]]]]].
  - apply Insert_spec; [done|done| |].
    + intros n Hn. rewrite Hid. by apply Hfree2.
    + intros n Hn. by apply Hno2.
  - eapply same_env_trans; [exact He2|apply Insert_env].
  - rewrite Insert_index. apply elem_of_index_insert. by left.
  - unfold Insert_info. rewrite Hid. apply same_entry_set_pos; [|lia].
    unfold info'. destruct (Rebucket_fields (nKey s) (m_asmap s)
                              (set_fInTried true info)) as (_ & _ & _ & Hp).
    unfold is_alias in *. by rewrite Hp.
  - rewrite Insert_count. change (service info') with (service info).
    rewrite decide_True by done.
    rewrite (proj2 (count_nodes_absent _ _) Hno2). lia.
  - destruct (Insert_counters info' false s2) as (_ & -> & _).
    change (fInTried info') with true. cbn. lia.
  - destruct (Insert_counters info' false s2) as (-> & _ & _).
    change (fInTried info') with true. cbn. lia.
  - intros n Hn Hs. destruct (Hk n Hn Hs) as (e' & He' & Hse).
    exists e'. split; [|done]. rewrite Insert_index.
    apply elem_of_index_insert. by right.
Qed.

Lemma tried_slot_service key asmap e e' :
  service e' = service e →
  (GetTriedBucket e' key asmap = GetTriedBucket e key asmap)
  ∧ ∀ fNew b, GetBucketPosition e' key fNew b = GetBucketPosition e key fNew b.
Proof.
  intros Hs. unfold GetTriedBucket, GetBucketPosition. by rewrite Hs.
Qed.

(** ** [Good_] on an entry of the new table whose tried slot is free *)

Lemma Good_promotes (addr : CService) (tbe : bool) (t : Z) s (it : node) :
  Inv s → in_s 64 t →
  ByAddress_find (addr, false) (m_index s) = Some it →
  fInTried it.2 = false →
  ByBucket_find
    (let b := GetTriedBucket it.2 (nKey s) (m_asmap s) in
     (true, b, GetBucketPosition it.2 (nKey s) false b)) (m_index s) = None →
  let f := λ i, set_nAttempts 0 (set_nLastTry t (set_nLastSuccess t i)) in
  ∃ s' p e', Good_ addr tbe t s = Some (true, s') ∧ Inv s'
    ∧ (p, e') ∈ m_index s'
    ∧ same_entry (Rebucket (nKey s) (m_asmap s) (set_fInTried true (f it.2))) e'
    ∧ count_nodes (has_service addr) (m_index s') = 1
    ∧ nTried s' = nTried s + 1 ∧ nNew s' = nNew s - 1
    ∧ nLastGood s' = t
    ∧ nKey s' = nKey s ∧ m_asmap s' = m_asmap s
    ∧ (∀ n, n ∈ m_index s → service n.2 ≠ addr →
         ∃ e1, (n.1, e1) ∈ m_index s' ∧ same_entry n.2 e1).
Proof.
  intros HI Ht Hfind Hnew Hslot f. unfold Good_. cbn zeta.
  assert (HI0 : Inv (set_nLastGood t s)).
  { apply (Inv_frame s); try done. apply (inv_collisions _ HI). }
  change (m_index (set_nLastGood t s)) with (m_index s).
  rewrite Hfind.
  apply find_main_elem in Hfind as (Hin & Hsv & Hal).
  pose proof (ok_ranges _ _ _ (inv_index _ HI) _ Hin) as (?&?&?&?&?&?).
  fold f.
  destruct (Modify_step (set_nLastGood t s) it.1 it.2 f)
    as (s1 & HM & Hs1 & Hg1 & Hin1); [done|done|done|done| |].
  { unfold AddrInfo_in_range; split_and!; cbn; done. }
  rewrite HM. cbn [mbind option_bind].
  pose proof (proj1 Hg1) as HI1.
  rewrite (index_lookup_elem _ _ _ (ok_ptrs _ _ _ (inv_index _ HI1)) Hin1).
  cbn [mbind option_bind].
  change (fInTried (f it.2)) with (fInTried it.2). rewrite Hnew.
  assert (Hk1 : nKey s1 = nKey s ∧ m_asmap s1 = m_asmap s
                ∧ m_index s1 = index_modify it.1 f (m_index s)
                ∧ nNew s1 = nNew s ∧ nTried s1 = nTried s ∧ nLastGood s1 = t).
  { by rewrite Hs1. }
  destruct Hk1 as (Hk & Ha & Hi & HnN1 & Htr & Hlg).
  rewrite Hk, Ha.
  change (GetTriedBucket (f it.2) (nKey s) (m_asmap s))
    with (GetTriedBucket it.2 (nKey s) (m_asmap s)).
  change (GetBucketPosition (f it.2) (nKey s) false)
    with (GetBucketPosition it.2 (nKey s) false).
  set (k := (true, GetTriedBucket it.2 (nKey s) (m_asmap s),
             GetBucketPosition it.2 (nKey s) false
               (GetTriedBucket it.2 (nKey s) (m_asmap s)))) in *.
  assert (Hfree : ∀ n, n ∈ m_index s → ByBucketExtractor n.2 ≠ k).
  { by apply ByBucket_find_None. }
  assert (Hfree1 : ∀ n, n ∈ m_index s1 → ByBucketExtractor n.2 ≠ k).
  { intros n Hn. rewrite Hi in Hn.
    apply elem_of_index_modify in Hn as [[Hn _]|(e0 & He0 & ->)].
    - by apply Hfree.
    - change (ByBucketExtractor (it.1, f e0).2) with (ByBucketExtractor e0).
      by apply (Hfree (it.1, e0)). }
  assert (Hnone : ByBucket_find k (m_index s1) = None).
  { destruct (ByBucket_find k (m_index s1)) as [w|] eqn:Ef; [|done].
    apply ByBucket_find_Some in Ef as [Hw Hwk]. by destruct (Hfree1 w Hw). }
  rewrite Hnone. rewrite andb_false_r.
  destruct (MakeTried_free s1 it.1 (f it.2) HI1 Hin1 Hal Hnew)
    as (s2 & p & e' & HMT & HI2 & He2 & Hp & Hse & Hc & HnT & HnN & Hkp).
  { intros n Hn. rewrite Hk, Ha.
    replace (ByBucketExtractor
               (Rebucket (nKey s) (m_asmap s) (set_fInTried true (f it.2))))
      with k; [by apply Hfree1|].
    unfold ByBucketExtractor, Rebucket, k. by cbn. }
  rewrite HMT. cbn [mbind option_bind].
  exists s2, p, e'. split; [done|]. split; [done|]. split; [done|].
  rewrite Hk, Ha in Hse. split; [done|].
  change (service (f it.2)) with (service it.2) in Hc, Hkp.
  rewrite Hsv in Hc, Hkp. split; [done|].
  destruct He2 as (Hk2 & Ha2 & Hlg2 & _).
  split; [lia|]. split; [lia|]. split; [congruence|].
  split; [congruence|]. split; [congruence|].
  intros n Hn Hs.
  assert (Hn1 : n ∈ m_index s1).
  { rewrite Hi. apply elem_of_index_modify. left. split; [done|].
    intros Hp'. destruct n as [pn en]. cbn [fst snd] in *. subst pn.
    pose proof (node_unique _ _ _ _
                  (ok_ptrs _ _ _ (inv_index _ HI)) Hin Hn). by subst en. }
  by apply Hkp.
Qed.

End Promotion.

Section Returns.
Context `{NT : NetTypes} {NL : NetLaws}.
Implicit Types (idx : list node) (n x y c : node) (p it : ptr) (e : AddrInfo)
  (a : CService) (s : State).

(** ** The operations return *)

Lemma checked_total {R} (op : State → option (R * State)) s :
  (∀ s1, Inv s1 → ∃ r s2, op s1 = Some (r, s2) ∧ Inv s2) →
  Inv s →
  ∃ r s', (s1 ← Check s; '(ret, s2) ← op s1; s3 ← Check s2; Some (ret, s3))
          = Some (r, s') ∧ Inv s'.
Proof.
  intros Hop HI. destruct (Check_ok s HI) as (s1 & -> & Hg1).
  cbn [mbind option_bind].
  destruct (Hop s1 (proj1 Hg1)) as (r & s2 & -> & HI2).
  cbn [mbind option_bind].
  destruct (Check_ok s2 HI2) as (s3 & -> & Hg3). cbn [mbind option_bind].
  exists r, s3. split; [done|]. apply Hg3.
Qed.

Lemma checked_total_unit (op : State → option State) s :
  (∀ s1, Inv s1 → ∃ s2, op s1 = Some s2 ∧ Inv s2) →
  Inv s →
  ∃ s', (s1 ← Check s; s2 ← op s1; Check s2) = Some s' ∧ Inv s'.
Proof.
  intros Hop HI. destruct (Check_ok s HI) as (s1 & -> & Hg1).
  cbn [mbind option_bind].
  destruct (Hop s1 (proj1 Hg1)) as (s2 & -> & HI2).
  cbn [mbind option_bind].
  destruct (Check_ok s2 HI2) as (s3 & -> & Hg3).
  exists s3. split; [done|]. apply Hg3.
Qed.

Lemma checked_tape {R} (op : State → option (R * State)) s tape r s2 :
  Check s = Some (set_insecure_rand tape s) →
  op (set_insecure_rand tape s) = Some (r, s2) → Inv s2 →
  ∃ tape', (s1 ← Check s; '(ret, s2) ← op s1; s3 ← Check s2; Some (ret, s3))
           = Some (r, set_insecure_rand tape' s2).
Proof.
  intros -> HO HI2. cbn [mbind option_bind]. rewrite HO.
  cbn [mbind option_bind]. destruct (Check_tape s2 HI2) as [t2 ->].
  by exists t2.
Qed.

Lemma checked_tape_unit (op : State → option State) s tape s2 :
  Check s = Some (set_insecure_rand tape s) →
  op (set_insecure_rand tape s) = Some s2 → Inv s2 →
  ∃ tape', (s1 ← Check s; s2 ← op s1; Check s2)
           = Some (set_insecure_rand tape' s2).
Proof.
  intros -> HO HI2. cbn [mbind option_bind]. rewrite HO.
  cbn [mbind option_bind]. apply (Check_tape s2 HI2).
Qed.

Lemma elem_of_in_order (order : list ptr) (X : gset ptr) q :
  q ∈ in_order order X ↔ q ∈ order ∧ q ∈ X.
Proof. unfold in_order. rewrite list_elem_of_filter. tauto. Qed.

Lemma in_order_length (order : list ptr) s :
  ptr_order order s →
  length (in_order order (m_tried_collisions s))
  = size (m_tried_collisions s).
Proof.
  intros [Hnd Hall]. unfold size, set_size. cbn.
  apply Permutation_length, NoDup_Permutation.
  - by apply NoDup_filter.
  - apply NoDup_elements.
  - intros q. rewrite elem_of_in_order, elem_of_elements.
    split; [by intros [_ ?]|]. intros Hq. split; [by apply Hall|done].
Qed.

Lemma ptr_order_tape (order : list ptr) tape s :
  ptr_order order s → ptr_order order (set_insecure_rand tape s).
Proof. by destruct s. Qed.

Lemma SelectTriedCollision_spec order s :
  Inv s → ptr_order order s →
  ∃ r s', SelectTriedCollision_ order s = Some (r, s') ∧ Inv s'
    ∧ m_index s' = m_index s
    ∧ m_tried_collisions s' = m_tried_collisions s
    ∧ (size (m_tried_collisions s) = 0%nat → r = None)
    ∧ (∀ v, r = Some v →
         ∃ it_new info_new it_old,
           it_new ∈ m_tried_collisions s
           ∧ (it_new, info_new) ∈ m_index s
           ∧ it_old ∈ m_index s
           ∧ ByBucketExtractor it_old.2
             = (let b := GetTriedBucket info_new (nKey s) (m_asmap s) in
                (true, b, GetBucketPosition info_new (nKey s) false b))
           ∧ v = (to_CAddress it_old.2, nLastTry it_old.2)).
Proof.
  intros HI Hord. unfold SelectTriedCollision_.
  destruct (Z.of_nat (size (m_tried_collisions s)) =? 0) eqn:E0.
  { exists None, s. split; [done|]. split; [done|]. split; [done|].
    split; [done|]. split; [done|]. by intros v [=]. }
  apply Z.eqb_neq in E0.
  set (k := Z.of_nat (size (m_tried_collisions s))).
  pose proof (randrange_step k s HI) as Hg.
  pose proof (randrange_range k s ltac:(unfold k; lia)) as Hrr.
  destruct (randrange_frame k s) as (Hk & Ha & Hi & _ & _ & _ & _ & Hc & _).
  destruct (randrange k s) as [r0 s0]. cbn [fst snd] in *.
  rewrite Hc.
  destruct (lookup_lt_is_Some_2 (in_order order (m_tried_collisions s))
              (Z.to_nat r0)) as [it_new Hnew].
  { rewrite (in_order_length order s Hord). unfold k in Hrr. lia. }
  rewrite Hnew. cbn [mbind option_bind].
  assert (Hmem : it_new ∈ m_tried_collisions s).
  { eapply elem_of_in_order. by eapply list_elem_of_lookup_2. }
  pose proof (inv_collisions _ HI it_new Hmem) as Hptr.
  apply index_lookup_is_Some in Hptr as [info_new Hlk].
  rewrite Hi, Hlk. cbn [mbind option_bind]. cbn zeta. rewrite Hk, Ha.
  apply index_lookup_Some in Hlk.
  destruct (ByBucket_find _ (m_index s)) as [it_old|] eqn:Ef.
  - apply ByBucket_find_Some in Ef as [Hold Hkey].
    eexists _, s0. split; [done|]. split; [apply Hg|]. split; [done|].
    split; [done|]. split; [intros Hz; lia|].
    intros v [= <-]. by exists it_new, info_new, it_old.
  - exists None, s0. split; [done|]. split; [apply Hg|]. split; [done|].
    split; [done|]. split; [done|]. by intros v [=].
Qed.

Lemma Add_returns vAddr src pen now s :
  Inv s → Forall CAddress_in_range vAddr →
  ∃ r s', Add vAddr src pen now s = Some (r, s') ∧ Inv s'.
Proof.
  intros HI Hall. apply checked_total; [|done]. intros s1 HI1.
  destruct (Add_spec vAddr src pen now s1 HI1 Hall) as (r & s2 & H2 & Hg).
  exists r, s2. split; [done|apply Hg].
Qed.

Lemma Good_returns addr t s :
  Inv s → in_s 64 t → ∃ r s', Good addr t s = Some (r, s') ∧ Inv s'.
Proof.
  intros HI Ht. apply checked_total; [|done]. intros s1 HI1.
  destruct (Good_spec addr true t s1 HI1 Ht) as (r & s2 & H2 & Hg).
  exists r, s2. split; [done|apply Hg].
Qed.

Lemma Attempt_total addr fc t s :
  Inv s → in_s 64 t → ∃ s', Attempt addr fc t s = Some s' ∧ Inv s'.
Proof.
  intros HI Ht. apply checked_total_unit; [|done]. intros s1 HI1.
  destruct (Attempt_spec addr fc t s1 HI1 Ht) as (s2 & H2 & Hg).
  exists s2. split; [done|apply Hg].
Qed.

Lemma Connected_total addr t s :
  Inv s → ∃ s', Connected addr t s = Some s' ∧ Inv s'.
Proof.
  intros HI. apply checked_total_unit; [|done]. intros s1 HI1.
  destruct (Connected_spec addr t s1 HI1) as (s2 & H2 & Hg).
  exists s2. split; [done|apply Hg].
Qed.

Lemma SetServices_total addr v s :
  Inv s → in_u 64 v → ∃ s', SetServices addr v s = Some s' ∧ Inv s'.
Proof.
  intros HI Hv. apply checked_total_unit; [|done]. intros s1 HI1.
  destruct (SetServices_spec addr v s1 HI1 Hv) as (s2 & H2 & Hg).
  exists s2. split; [done|apply Hg].
Qed.

Lemma GetAddr_total max_addresses max_pct network now s :
  Inv s →
  ∃ r s', GetAddr max_addresses max_pct network now s = Some (r, s') ∧ Inv s'.
Proof.
  intros HI. apply checked_total; [|done]. intros s1 HI1.
  destruct (GetAddr_spec max_addresses max_pct network now s1 HI1)
    as (r & s2 & H2 & Hg & _).
  exists r, s2. split; [done|apply Hg].
Qed.

Lemma SelectTriedCollision_total order s :
  Inv s → ptr_order order s →
  ∃ r s', SelectTriedCollision order s = Some (r, s') ∧ Inv s'.
Proof.
  intros HI Hord. destruct (Check_tape s HI) as [t Ht].
  destruct (SelectTriedCollision_spec order (set_insecure_rand t s)
              (Inv_tape s t HI) (ptr_order_tape order t s Hord))
    as (r & s2 & H2 & HI2 & _).
  destruct (Check_ok s2 HI2) as (s3 & E3 & Hg3).
  exists r, s3. unfold SelectTriedCollision. rewrite Ht.
  cbn [mbind option_bind]. rewrite H2. cbn [mbind option_bind]. rewrite E3.
  split; [done|apply Hg3].
Qed.

Lemma FindAddressEntry_total addr s :
  Inv s → ∃ s', FindAddressEntry addr s = Some (FindAddressEntry_ addr s, s')
                ∧ Inv s' ∧ m_index s' = m_index s.
Proof.
  intros HI. unfold FindAddressEntry.
  destruct (Check_tape s HI) as [t1 ->]. cbn [mbind option_bind].
  destruct (Check_tape _ (Inv_tape s t1 HI)) as [t2 ->].
  cbn [mbind option_bind]. eexists. split; [done|].
  split; [|done]. by apply Inv_tape, Inv_tape.
Qed.

End Returns.

Section GetAddrContents.
Context `{NT : NetTypes} {NL : NetLaws}.
Implicit Types (idx : list node) (n x y c : node) (p it : ptr) (e : AddrInfo)
  (a : CService) (s : State).

(** ** What [GetAddr_] puts into its list *)

Lemma same_entry_quality e e' now :
  same_entry e e' →
  to_CAddress e' = to_CAddress e ∧ IsTerrible e' now = IsTerrible e now
  ∧ service e' = service e.
Proof.
  intros [_ H].
  assert (Hq : ∀ i, to_CAddress (set_nRandomPos 0 i) = to_CAddress i
                    ∧ IsTerrible (set_nRandomPos 0 i) now = IsTerrible i now
                    ∧ service (set_nRandomPos 0 i) = service i)
    by (by intros []).
  destruct (Hq e) as (<- & <- & <-). destruct (Hq e') as (<- & <- & <-).
  by rewrite H.
Qed.

Lemma SwapRandom_prefix s (pos1 pos2 : Z) s1 (i : nat) :
  SwapRandom pos1 pos2 s = Some s1 →
  (i < Z.to_nat pos1)%nat → (i < Z.to_nat pos2)%nat →
  vRandom s1 !! i = vRandom s !! i.
Proof.
  unfold SwapRandom. intros H H1 H2.
  destruct (decide (pos1 = pos2)); [by injection H as <-|].
  destruct (decide _); [|done].
  destruct (vRandom s !! Z.to_nat pos1) as [it1|]; [|done].
  cbn [mbind option_bind] in H.
  destruct (vRandom s !! Z.to_nat pos2) as [it2|]; [|done].
  cbn [mbind option_bind] in H.
  destruct (index_lookup it1 (m_index s)); [|done].
  cbn [mbind option_bind] in H.
  destruct (index_lookup it2 (m_index s)); [|done].
  cbn [mbind option_bind] in H.
  injection H as <-. cbn [vRandom set_vRandom set_index].
  rewrite !list_lookup_insert_ne by lia. done.
Qed.

Lemma vRandom_main s (i : nat) p e :
  Inv s → vRandom s !! i = Some p → (p, e) ∈ m_index s →
  is_alias e = false ∧ nRandomPos e = Z.of_nat i.
Proof.
  intros HI Hi He. destruct (inv_vRandom _ HI) as [_ Hv].
  destruct (Hv i p Hi) as (e0 & He0 & Hp).
  pose proof (node_unique _ _ _ _ (ok_ptrs _ _ _ (inv_index _ HI)) He He0).
  subst e0. split; [|done]. unfold is_alias. lia.
Qed.

Lemma GetAddr_loop_content fuel (n : Z) nNodes (network : option Z) now
    addrs s r s' :
  Inv s → 0 <= n →
  n + Z.of_nat fuel = Z.of_nat (length (vRandom s)) →
  GetAddr_loop fuel n nNodes network now addrs s = Some (r, s') →
  (∀ ca, ca ∈ addrs →
     ∃ (i : nat) p e, (i < Z.to_nat n)%nat ∧ vRandom s !! i = Some p
       ∧ (p, e) ∈ m_index s ∧ ca = to_CAddress e
       ∧ IsTerrible e now = false
       ∧ (∀ net, network = Some net → GetNetClass (service e) = net)) →
  NoDup addrs.*1.*1 →
  (∀ ca, ca ∈ r →
     ∃ p e, (p, e) ∈ m_index s ∧ is_alias e = false ∧ ca = to_CAddress e
       ∧ IsTerrible e now = false
       ∧ (∀ net, network = Some net → GetNetClass (service e) = net))
  ∧ NoDup r.*1.*1.
Proof.
  revert n addrs s.
  induction fuel as [|fuel IH]; intros n addrs s HI Hn Hlen HG Hinv Hnd.
  { injection HG as <- <-. split; [|done]. intros ca Hca.
    destruct (Hinv ca Hca) as (i & p & e & _ & Hi & He & Hc & Ht & Hnet).
    exists p, e. split; [done|]. split; [|done].
    by destruct (vRandom_main s i p e HI Hi He). }
  cbn [GetAddr_loop] in HG. destruct (nNodes <=? _) eqn:Hle.
  { injection HG as <- <-. split; [|done]. intros ca Hca.
    destruct (Hinv ca Hca) as (i & p & e & _ & Hi & He & Hc & Ht & Hnet).
    exists p, e. split; [done|]. split; [|done].
    by destruct (vRandom_main s i p e HI Hi He). }
  pose proof (index_length_bound s HI) as Hb1.
  pose proof (vRandom_length_bound s HI) as Hb2.
  set (k := subsz (Z.of_nat (length (vRandom s))) n) in HG.
  assert (Hk : k = Z.of_nat (length (vRandom s)) - n).
  { unfold k, subsz, wrapU. apply Z.mod_small. lia. }
  pose proof (randrange_step k s HI) as Hg1.
  pose proof (randrange_range k s) as Hr.
  destruct (randrange_frame k s) as (_&_&Hi1&_&Hv1&_).
  destruct (randrange k s) as [r0 s1]. cbn [fst snd] in *.
  destruct (SwapRandom_spec s1 n (r0 + n) (proj1 Hg1))
    as (s2 & HS & HI2 & _ & _ & _ & _ & Hse & Hl2 & _);
    [rewrite Hv1; lia | rewrite Hv1; lia |].
  rewrite HS in HG. cbn [mbind option_bind] in HG.
  rewrite Hi1 in Hse. destruct Hse as (_ & Hfw & Hbw).
  assert (Hpre : ∀ i : nat, (i < Z.to_nat n)%nat →
            vRandom s2 !! i = vRandom s !! i).
  { intros i Hi. rewrite <- Hv1. apply (SwapRandom_prefix _ _ _ _ _ HS); lia. }
  (* the invariant in the state after the swap *)
  assert (Hinv2 : ∀ ca, ca ∈ addrs →
     ∃ (i : nat) p e, (i < Z.to_nat n)%nat ∧ vRandom s2 !! i = Some p
       ∧ (p, e) ∈ m_index s2 ∧ ca = to_CAddress e
       ∧ IsTerrible e now = false
       ∧ (∀ net, network = Some net → GetNetClass (service e) = net)).
  { intros ca Hca.
    destruct (Hinv ca Hca) as (i & p & e & Hi & Hvi & He & Hc & Ht & Hnet).
    destruct (Hfw (p, e) He) as (e' & He' & Hsame). cbn [fst snd] in *.
    destruct (same_entry_quality e e' now Hsame) as (Hq1 & Hq2 & Hq3).
    exists i, p, e'. split; [done|]. split; [by rewrite Hpre|].
    split; [done|]. split; [congruence|]. split; [congruence|].
    intros net Hn'. rewrite Hq3. by apply Hnet. }
  (* back from the state after the swap *)
  assert (Hback : ∀ r1 : list (CService * Z * Z),
     (∀ ca, ca ∈ r1 →
        ∃ p e, (p, e) ∈ m_index s2 ∧ is_alias e = false ∧ ca = to_CAddress e
          ∧ IsTerrible e now = false
          ∧ (∀ net, network = Some net → GetNetClass (service e) = net)) →
     ∀ ca, ca ∈ r1 →
        ∃ p e, (p, e) ∈ m_index s ∧ is_alias e = false ∧ ca = to_CAddress e
          ∧ IsTerrible e now = false
          ∧ (∀ net, network = Some net → GetNetClass (service e) = net)).
  { intros r1 H2 ca Hca.
    destruct (H2 ca Hca) as (p & e' & He' & Hal & Hc & Ht & Hnet).
    destruct (Hbw (p, e') He') as (e & He & Hsame). cbn [fst snd] in *.
    destruct (same_entry_quality e e' now Hsame) as (Hq1 & Hq2 & Hq3).
    destruct Hsame as [Hsa _].
    exists p, e. split; [done|]. split; [congruence|].
    split; [congruence|]. split; [congruence|].
    intros net Hn'. rewrite <- Hq3. by apply Hnet. }
  assert (Hskip : ∀ ca, ca ∈ addrs →
     ∃ (i : nat) p e, (i < Z.to_nat (n + 1))%nat ∧ vRandom s2 !! i = Some p
       ∧ (p, e) ∈ m_index s2 ∧ ca = to_CAddress e
       ∧ IsTerrible e now = false
       ∧ (∀ net, network = Some net → GetNetClass (service e) = net)).
  { intros ca Hca.
    destruct (Hinv2 ca Hca) as (i & p & e & Hi & Hrest).
    exists i, p, e. split; [lia|done]. }
  destruct (vRandom s2 !! Z.to_nat n) as [it|] eqn:Hit; [|done].
  cbn [mbind option_bind] in HG.
  destruct (index_lookup it (m_index s2)) as [ai|] eqn:Hai; [|done].
  cbn [mbind option_bind] in HG. apply index_lookup_Some in Hai.
  destruct (match network with
            | Some net => negb (GetNetClass (service ai) =? net)
            | None => false
            end) eqn:Hnw.
  { destruct (IH (n + 1) addrs s2 HI2 ltac:(lia)
                ltac:(rewrite Hl2, Hv1; lia) HG Hskip Hnd) as [H1 H2].
    split; [by apply (Hback r)|done]. }
  destruct (IsTerrible ai now) eqn:Hterr.
  { destruct (IH (n + 1) addrs s2 HI2 ltac:(lia)
                ltac:(rewrite Hl2, Hv1; lia) HG Hskip Hnd) as [H1 H2].
    split; [by apply (Hback r)|done]. }
  destruct (IH (n + 1) (addrs ++ [to_CAddress ai]) s2 HI2 ltac:(lia)
              ltac:(rewrite Hl2, Hv1; lia) HG) as [H1 H2].
  - intros ca [Hca|Hca%list_elem_of_singleton]%elem_of_app.
    + by apply Hskip.
    + subst ca. exists (Z.to_nat n), it, ai. split; [lia|].
      split; [done|]. split; [done|]. split; [done|]. split; [done|].
      intros net ->. apply negb_false_iff, Z.eqb_eq in Hnw. done.
  - rewrite !fmap_app. cbn [fmap list_fmap to_CAddress fst].
    apply NoDup_app. split; [done|]. split; [|apply NoDup_singleton].
    intros a Ha ->%list_elem_of_singleton.
    apply list_elem_of_fmap in Ha as (ca1 & Hca1 & Ha).
    apply list_elem_of_fmap in Ha as (ca & -> & Hca).
    destruct (Hinv2 ca Hca) as (i & p & e & Hi & Hvi & He & -> & _).
    cbn [to_CAddress fst] in Hca1.
    destruct (vRandom_main s2 i p e HI2 Hvi He) as [Hal _].
    destruct (vRandom_main s2 (Z.to_nat n) it ai HI2 Hit Hai) as [Hal' _].
    pose proof (ok_canonical _ _ _ (inv_index _ HI2) (it, ai) (p, e)
                  Hai He Hal' Hal Hca1) as Heq.
    injection Heq as -> ->.
    pose proof (NoDup_lookup _ _ _ _ (vRandom_NoDup s2 HI2) Hvi Hit). lia.
  - split; [by apply (Hback r)|done].
Qed.

Lemma GetAddr_content max_addresses max_pct (network : option Z) now s r s' :
  Inv s →
  GetAddr_ max_addresses max_pct network now s = Some (r, s') →
  (∀ ca, ca ∈ r →
     ∃ p e, (p, e) ∈ m_index s ∧ is_alias e = false ∧ ca = to_CAddress e
       ∧ IsTerrible e now = false
       ∧ (∀ net, network = Some net → GetNetClass (service e) = net))
  ∧ NoDup r.*1.*1.
Proof.
  intros HI HG. unfold GetAddr_ in HG.
  apply (GetAddr_loop_content _ _ _ _ _ _ _ _ _ HI) in HG; try done; try lia.
  - intros ca Hca. by apply elem_of_nil in Hca.
  - constructor.
Qed.

End GetAddrContents.

Section Statistics.
Context `{NT : NetTypes} {NL : NetLaws}.
Implicit Types (idx : list node) (n x y c : node) (p it : ptr) (e : AddrInfo)
  (a : CService) (s : State).

(** ** The operations that only update the statistics of the main entry *)

Lemma Good_tried (addr : CService) (tbe : bool) (t : Z) s (it : node) :
  Inv s → in_s 64 t →
  ByAddress_find (addr, false) (m_index s) = Some it →
  fInTried it.2 = true →
  let f := λ i, set_nAttempts 0 (set_nLastTry t (set_nLastSuccess t i)) in
  let s' := set_index (index_modify it.1 f (m_index s)) (set_nLastGood t s) in
  Good_ addr tbe t s = Some (false, s') ∧ Inv s'.
Proof.
  intros HI Ht Hfind Htr f s'. unfold Good_. cbn zeta.
  assert (HI0 : Inv (set_nLastGood t s)).
  { apply (Inv_frame s); try done. apply (inv_collisions _ HI). }
  change (m_index (set_nLastGood t s)) with (m_index s).
  rewrite Hfind.
  apply find_main_elem in Hfind as (Hin & Hsv & Hal).
  pose proof (ok_ranges _ _ _ (inv_index _ HI) _ Hin) as (?&?&?&?&?&?).
  fold f.
  destruct (Modify_step (set_nLastGood t s) it.1 it.2 f)
    as (s1 & HM & Hs1 & Hg1 & Hin1); [done|done|done|done| |].
  { unfold AddrInfo_in_range; split_and!; cbn; done. }
  rewrite HM. cbn [mbind option_bind].
  pose proof (proj1 Hg1) as HI1.
  rewrite (index_lookup_elem _ _ _ (ok_ptrs _ _ _ (inv_index _ HI1)) Hin1).
  cbn [mbind option_bind].
  change (fInTried (f it.2)) with (fInTried it.2). rewrite Htr.
  subst s1. done.
Qed.


Lemma Connected_effect (addr : CService) (t : Z) s (it : node) :
  Inv s →
  ByAddress_find (addr, false) (m_index s) = Some it →
  let g := λ i, if 20 * 60 <? sub64 t (nTime it.2)
                then set_nTime (wrapU 32 t) i else i in
  let s' := set_index (index_modify it.1 g (m_index s)) s in
  Connected_ addr t s = Some s' ∧ Inv s' ∧ (it.1, g it.2) ∈ m_index s'.
Proof.
  intros HI Hfind g s'. unfold Connected_. rewrite Hfind. cbn zeta.
  apply find_main_elem in Hfind as (Hin & Hsv & Hal).
  pose proof (ok_ranges _ _ _ (inv_index _ HI) _ Hin) as (?&?&?&?&?&?).
  pose proof (ok_ptrs _ _ _ (inv_index _ HI)) as Hnd.
  unfold s', g. destruct (20 * 60 <? sub64 t (nTime it.2)).
  - destruct (Modify_step s it.1 it.2 (set_nTime (wrapU 32 t)))
      as (s1 & HM & Hs1 & Hg1 & Hin1); [done|done|done|done| |].
    { unfold AddrInfo_in_range; split_and!; cbn; try done.
      by apply in_u_wrapU. }
    subst s1. split; [done|]. split; [apply Hg1|done].
  - assert (Hid : index_modify it.1 (λ i, i) (m_index s) = m_index s).
    { unfold index_modify. rewrite <- (map_id (m_index s)) at 2.
      apply map_ext. intros [q e]. cbn. by destruct (decide _). }
    rewrite Hid. destruct s. cbn in *. done.
Qed.

Lemma SetServices_effect (addr : CService) (v : Z) s (it : node) :
  Inv s → in_u 64 v →
  ByAddress_find (addr, false) (m_index s) = Some it →
  let s' := set_index (index_modify it.1 (set_nServices v) (m_index s)) s in
  SetServices_ addr v s = Some s' ∧ Inv s'
  ∧ (it.1, set_nServices v it.2) ∈ m_index s'.
Proof.
  intros HI Hv Hfind s'. unfold SetServices_. rewrite Hfind.
  apply find_main_elem in Hfind as (Hin & Hsv & Hal).
  pose proof (ok_ranges _ _ _ (inv_index _ HI) _ Hin) as (?&?&?&?&?&?).
  destruct (Modify_step s it.1 it.2 (set_nServices v))
    as (s1 & HM & Hs1 & Hg1 & Hin1); [done|done|done|done| |].
  { unfold AddrInfo_in_range; split_and!; cbn; done. }
  subst s1. split; [done|]. split; [apply Hg1|done].
Qed.


End Statistics.

Section Selection.
Context `{NT : NetTypes} {NL : NetLaws}.
Implicit Types (idx : list node) (n x y c : node) (p it : ptr) (e : AddrInfo)
  (a : CService) (s : State).

(** ** What [Select_] returns *)

Lemma Select_scan_found k (i : Z) (tried : bool) bucket pos idx (it : node) :
  Select_scan k i tried bucket pos idx = Some it →
  it ∈ idx ∧ fInTried it.2 = tried ∧ m_bucket it.2 = bucket.
Proof.
  revert i. induction k as [|k IH]; intros i; [done|]. cbn [Select_scan].
  destruct (ByBucket_find _ idx) as [w|] eqn:Ef.
  - intros [= ->]. apply ByBucket_find_Some in Ef as [Hw Hk].
    unfold ByBucketExtractor in Hk. injection Hk as H1 H2 H3. done.
  - apply IH.
Qed.

Lemma randrange_index k s : m_index (randrange k s).2 = m_index s.
Proof. by destruct (randrange_frame k s) as (_ & _ & ? & _). Qed.

Lemma Select_loop_found fuel (tried : bool) rej now s r s' :
  Select_loop fuel tried rej now s = Some (r, s') →
  m_index s' = m_index s
  ∧ ∃ it : node, it ∈ m_index s ∧ fInTried it.2 = tried
      ∧ r = Some (to_CAddress it.2, nLastTry it.2).
Proof.
  revert rej s. induction fuel as [|fuel IH]; intros rej s; [done|].
  cbn [Select_loop].
  set (k := if tried then ADDRMAN_TRIED_BUCKET_COUNT else ADDRMAN_NEW_BUCKET_COUNT).
  pose proof (randrange_index k s) as Hi1.
  destruct (randrange k s) as [bucket s1]. cbn [snd] in Hi1.
  pose proof (randrange_index ADDRMAN_BUCKET_SIZE s1) as Hi2.
  destruct (randrange ADDRMAN_BUCKET_SIZE s1) as [pos s2]. cbn [snd] in Hi2.
  destruct (Select_scan _ _ _ _ _ _) as [it|] eqn:Es.
  - apply Select_scan_found in Es as (Hit & Ht & _).
    unfold randbits.
    pose proof (randrange_index (2 ^ 30) s2) as Hi3.
    destruct (randrange (2 ^ 30) s2) as [draw s3]. cbn [snd] in Hi3.
    destruct (GetChance_accepts _ _ _ _).
    + intros [= <- <-]. split; [congruence|].
      exists it. split; [congruence|done].
    + intros HS. destruct (IH _ _ HS) as (Hi & it' & Hit' & Ht' & Hr).
      split; [congruence|]. exists it'. split; [congruence|done].
  - intros HS. destruct (IH _ _ HS) as (Hi & it' & Hit' & Ht' & Hr).
    split; [congruence|]. exists it'. split; [congruence|done].
Qed.

Lemma new_entry_counted s (it : node) :
  Inv s → it ∈ m_index s → fInTried it.2 = false → nNew s ≠ 0.
Proof.
  intros HI Hit Hf H0. rewrite (inv_nNew _ HI) in H0.
  pose proof (proj1 (count_nodes_zero _ _) H0) as Hno.
  destruct (is_alias it.2) eqn:Ea.
  - destruct (ok_aliases _ _ _ (inv_index _ HI) it Hit Ea)
      as [_ (c & Hc & Hca & Hcf & _)].
    by apply (Hno c Hc).
  - by apply (Hno it Hit).
Qed.

Lemma Select_found fuel (newOnly : bool) now s r s' :
  Inv s →
  Select_ fuel newOnly now s = Some (r, s') →
  m_index s' = m_index s
  ∧ match r with
    | Some v =>
        ∃ it : node, it ∈ m_index s
          ∧ v = (to_CAddress it.2, nLastTry it.2)
          ∧ (newOnly = true → fInTried it.2 = false)
          ∧ (nTried s <= 0 → fInTried it.2 = false)
          ∧ (nNew s = 0 → fInTried it.2 = true)
    | None => m_index s = [] ∨ (newOnly = true ∧ nNew s = 0)
    end.
Proof.
  intros HI. unfold Select_. destruct (m_index s) as [|x l] eqn:Ei.
  { intros [= <- <-]. rewrite Ei. split; [done|by left]. }
  destruct newOnly; cbn [negb andb].
  - destruct (nNew s =? 0) eqn:E0.
    { intros [= <- <-]. rewrite Ei. split; [done|].
      right. split; [done|]. by apply Z.eqb_eq. }
    intros HS. apply Select_loop_found in HS as (Hi & it & Hit & Ht & ->).
    rewrite Ei in Hi. split; [done|]. exists it. split; [by rewrite <- Ei|].
    split; [done|]. split; [done|]. split; [done|].
    intros H0. apply Z.eqb_neq in E0. done.
  - destruct (0 <? nTried s) eqn:Et.
    + destruct (nNew s =? 0) eqn:E0.
      * intros HS. apply Select_loop_found in HS as (Hi & it & Hit & Ht & ->).
        rewrite Ei in Hi. split; [done|]. exists it.
        split; [by rewrite <- Ei|]. split; [done|]. split; [done|].
        split; [|done]. apply Z.ltb_lt in Et. intros; lia.
      * unfold randbool. pose proof (randrange_index 2 s) as Hi1.
        pose proof (randrange_frame 2 s) as (_&_&_&_&_&HnN&HnT&_).
        destruct (randrange 2 s) as [b s1]. cbn [snd] in *.
        intros HS. apply Select_loop_found in HS as (Hi & it & Hit & Ht & ->).
        rewrite Hi1 in Hi, Hit. rewrite Ei in Hi. split; [done|]. exists it.
        split; [by rewrite <- Ei|]. split; [done|]. split; [done|].
        apply Z.ltb_lt in Et. apply Z.eqb_neq in E0. split; intros; lia.
    + intros HS. apply Select_loop_found in HS as (Hi & it & Hit & Ht & ->).
      rewrite Ei in Hi. split; [done|]. exists it.
      split; [by rewrite <- Ei|]. split; [done|]. split; [done|].
      split; [done|].
      intros H0. by destruct (new_entry_counted s it HI Hit Ht).
Qed.

End Selection.

Section Erasing.
Context `{NT : NetTypes} {NL : NetLaws}.
Implicit Types (idx : list node) (n x y c : node) (p it : ptr) (e : AddrInfo)
  (a : CService) (s : State).

(** ** [EraseInner] on a main entry without alias *)

Lemma size_counters s : Inv s → AddrMan_size s = nNew s + nTried s.
Proof. intros HI. by destruct (table_sizes s HI) as (_ & _ & ?). Qed.

Lemma Erase_lone s it e :
  Inv s → (it, e) ∈ m_index s → is_alias e = false →
  ByAddress_find (service e, true) (m_index s) = None →
  ∃ s', EraseInner it s = Some s' ∧ Inv s'
    ∧ (∀ n, n ∈ m_index s' → service n.2 ≠ service e)
    ∧ keeps (λ b, b ≠ service e) s s'
    ∧ length (m_index s) = S (length (m_index s'))
    ∧ nNew s' = nNew s - (if fInTried e then 0 else 1)
    ∧ nTried s' = nTried s - (if fInTried e then 1 else 0)
    ∧ AddrMan_size s' = AddrMan_size s - 1.
Proof.
  intros HI Hin Hal Hnone.
  destruct (Erase_spec s it e HI Hin) as (s' & HE & Hp).
  exists s'. split; [exact HE|].
  pose proof (erased_inv _ _ _ Hp) as HI'.
  pose proof (inv_index _ HI) as Hok.
  assert (Hc : count_nodes (has_service (service e)) (m_index s) = 1).
  { apply (count_nodes_one _ _ (it, e)); [|done|done|].
    - apply NoDup_nodes, (ok_ptrs _ _ _ Hok).
    - intros n Hn Hs. unfold has_service in Hs. cbn [snd] in Hs.
      destruct (is_alias n.2) eqn:Ea.
      + exfalso.
        apply (ByAddress_find_None _ _ (ok_sorted _ _ _ Hok) Hnone n Hn).
        cbn [fst snd]. by split.
      + by apply (ok_canonical _ _ _ Hok). }
  assert (Hno : ∀ n, n ∈ m_index s' → service n.2 ≠ service e).
  { apply count_nodes_absent. rewrite (erased_count _ _ _ Hp), Hc.
    by rewrite decide_True. }
  destruct (counters_without (service e) s s' (it, e) HI HI'
              (erase_post_shrinks _ _ _ Hp) (erase_post_keeps _ _ _ Hp)
              Hno Hin Hal eq_refl) as [HnN HnT].
  cbn [snd] in HnN, HnT.
  split; [done|]. split; [done|]. split; [by apply erase_post_keeps|].
  split; [apply Hp|]. split; [done|]. split; [done|].
  rewrite (size_counters s HI), (size_counters s' HI').
  destruct (fInTried e); lia.
Qed.

(** ** Erasing from the new table leaves the tried table alone *)

Lemma tried_other_service s (n w : node) :
  Inv s → n ∈ m_index s → w ∈ m_index s →
  fInTried n.2 = true → fInTried w.2 = false → service n.2 ≠ service w.2.
Proof.
  intros HI Hn Hw Ht Hf Hs.
  destruct (tried_alone _ _ _ n (inv_index _ HI) Hn Ht) as [_ Halone].
  assert (w = n) by (by apply Halone). subst. congruence.
Qed.

Lemma tried_kept_by_erase s it e s' :
  Inv s → (it, e) ∈ m_index s → fInTried e = false →
  erase_post s e s' →
  nTried s' = nTried s
  ∧ (∀ n, n ∈ m_index s → fInTried n.2 = true →
       ∃ e', (n.1, e') ∈ m_index s' ∧ same_entry n.2 e')
  ∧ (∀ n', n' ∈ m_index s' → fInTried n'.2 = true →
       ∃ e0, (n'.1, e0) ∈ m_index s ∧ fInTried e0 = true).
Proof.
  intros HI Hin Hf Hp. pose proof (erased_inv _ _ _ Hp) as HI'.
  assert (Hkeep : ∀ n, n ∈ m_index s → fInTried n.2 = true →
            ∃ e', (n.1, e') ∈ m_index s' ∧ same_entry n.2 e').
  { intros n Hn Ht. apply (erased_others _ _ _ Hp n Hn).
    by apply (tried_other_service s n (it, e) HI). }
  assert (Hfrom : ∀ n', n' ∈ m_index s' → fInTried n'.2 = true →
            ∃ e0, (n'.1, e0) ∈ m_index s ∧ fInTried e0 = true).
  { intros n' Hn' Ht.
    destruct (erased_old _ _ _ Hp n' Hn') as ([q e0] & H0 & Hq & _ & _ & Hft).
    cbn [fst snd] in *. exists e0. split; [by rewrite Hq|congruence]. }
  split; [|done].
  rewrite (nTried_flags s HI), (nTried_flags s' HI').
  apply Z.le_antisymm.
  - apply count_nodes_le_ptr; [apply (ok_ptrs _ _ _ (inv_index _ HI'))|].
    intros n' Hn' [Ha Ht].
    destruct (erased_old _ _ _ Hp n' Hn') as ([q e0] & H0 & Hq & _ & Hfa & Hft).
    cbn [fst snd] in *. exists e0. split; [by rewrite Hq|].
    cbn [snd]. split; congruence.
  - apply count_nodes_le_ptr; [apply (ok_ptrs _ _ _ (inv_index _ HI))|].
    intros n Hn [Ha Ht]. destruct (Hkeep n Hn Ht) as (e' & He' & Hse).
    exists e'. split; [done|]. cbn [snd].
    destruct (same_entry_fields _ _ Hse) as (_ & _ & ? & ? & _).
    split; congruence.
Qed.

End Erasing.

Section TriedKept.
Context `{NT : NetTypes} {NL : NetLaws}.
Implicit Types (idx : list node) (n x y c : node) (p it : ptr) (e : AddrInfo)
  (a : CService) (s : State).

(** ** [Add] leaves the tried table alone *)

Lemma same_but_seen_refl e : same_but_seen e e.
Proof. done. Qed.

Lemma same_but_seen_trans e1 e2 e3 :
  same_but_seen e1 e2 → same_but_seen e2 e3 → same_but_seen e1 e3.
Proof. unfold same_but_seen. congruence. Qed.

Lemma same_entry_seen e e' : same_entry e e' → same_but_seen e e'.
Proof. intros [_ H]. unfold same_but_seen. by rewrite H. Qed.

Lemma same_but_seen_tried e e' :
  same_but_seen e e' → fInTried e' = fInTried e.
Proof.
  intros H. apply (f_equal fInTried) in H. by destruct e, e'.
Qed.

Lemma tried_kept_refl s : tried_kept s s.
Proof.
  split; [done|]. intros [q e] Hn _. exists e. by split.
Qed.

Lemma tried_kept_trans s1 s2 s3 :
  tried_kept s1 s2 → tried_kept s2 s3 → tried_kept s1 s3.
Proof.
  intros [H1 K1] [H2 K2]. split; [congruence|]. intros n Hn Ht.
  destruct (K1 n Hn Ht) as (e2 & He2 & Hs2).
  destruct (K2 (n.1, e2) He2) as (e3 & He3 & Hs3).
  { cbn [snd]. rewrite (same_but_seen_tried _ _ Hs2). done. }
  exists e3. split; [done|]. by eapply same_but_seen_trans.
Qed.

Lemma tried_kept_frame s s' :
  m_index s' = m_index s → nTried s' = nTried s → tried_kept s s'.
Proof.
  intros Hi Ht. split; [done|]. intros [q e] Hn _. exists e.
  rewrite Hi. by split.
Qed.

Lemma tried_kept_modify s it e f :
  NoDup (m_index s).*1 → (it, e) ∈ m_index s → same_but_seen e (f e) →
  tried_kept s (set_index (index_modify it f (m_index s)) s).
Proof.
  intros Hnd Hin Hf. split; [done|]. intros [q e0] Hn _. cbn [fst snd m_index set_index].
  destruct (decide (q = it)) as [->|Hne].
  - pose proof (node_unique _ _ _ _ Hnd Hin Hn). subst e0.
    exists (f e). split; [|done]. apply elem_of_index_modify. right. eauto.
  - exists e0. split; [|done]. apply elem_of_index_modify. left. by split.
Qed.

Lemma tried_kept_insert info (alias : bool) s :
  fInTried info = false → tried_kept s (Insert info alias s).2.
Proof.
  intros Hf. split.
  - destruct (Insert_counters info alias s) as (_ & -> & _).
    rewrite Hf. destruct alias; cbn; lia.
  - intros [q e] Hn _. exists e. split; [|done].
    rewrite Insert_index. apply elem_of_index_insert. by right.
Qed.

Lemma tried_kept_erase s it e s' :
  Inv s → (it, e) ∈ m_index s → fInTried e = false →
  erase_post s e s' → tried_kept s s'.
Proof.
  intros HI Hin Hf Hp.
  destruct (tried_kept_by_erase s it e s' HI Hin Hf Hp) as (Ht & Hk & _).
  split; [done|]. intros n Hn Htr. destruct (Hk n Hn Htr) as (e' & He' & Hse).
  exists e'. split; [done|]. by apply same_entry_seen.
Qed.

Lemma AddSingle_place_tried info (alias : bool) now s r s' :
  Inv s → fInTried info = false →
  AddSingle_place info alias now s = Some (r, s') → tried_kept s s'.
Proof.
  intros HI Hf. unfold AddSingle_place. cbn zeta.
  set (info' := Rebucket (nKey s) (m_asmap s) info).
  assert (Hf' : fInTried info' = false).
  { unfold info'. by destruct (Rebucket_fields (nKey s) (m_asmap s) info)
      as (_ & -> & _). }
  destruct (ByBucket_find (ByBucketExtractor info') (m_index s)) as [v|] eqn:Ef.
  - apply ByBucket_find_Some in Ef as [Hv Hvk].
    destruct (decide (service v.2 ≠ service info')) as [Hne|_].
    2: { intros [= <- <-]. apply tried_kept_refl. }
    destruct (_ || _).
    2: { intros [= <- <-]. apply tried_kept_refl. }
    destruct v as [pv ev]. cbn [fst snd] in *.
    destruct (Erase_spec s pv ev HI Hv) as (s1 & HE & Hp1).
    rewrite HE. cbn [mbind option_bind]. intros [= <- <-].
    assert (Hfv : fInTried ev = false).
    { unfold ByBucketExtractor in Hvk. injection Hvk as -> _ _. done. }
    eapply tried_kept_trans; [by eapply tried_kept_erase|].
    by apply tried_kept_insert.
  - intros [= <- <-]. by apply tried_kept_insert.
Qed.

Lemma tried_kept_Modify s it e f s1 :
  Inv s → (it, e) ∈ m_index s →
  same_place e (f e) → nRandomPos (f e) = nRandomPos e →
  AddrInfo_in_range (f e) → same_but_seen e (f e) →
  Modify it f s = Some s1 →
  tried_kept s s1 ∧ Inv s1 ∧ (it, f e) ∈ m_index s1.
Proof.
  intros HI Hin Hsp Hpos Hr Hseen HM.
  destruct (Modify_step s it e f HI Hin Hsp Hpos Hr)
    as (s1' & HM' & Hs1 & Hg1 & Hin1).
  rewrite HM in HM'. injection HM' as <-. split; [|split; [apply Hg1|done]].
  rewrite Hs1. apply (tried_kept_modify s it e f); [|done|done].
  apply (ok_ptrs _ _ _ (inv_index _ HI)).
Qed.

Lemma AddSingle_tried addr src pen now s r s' :
  Inv s → CAddress_in_range addr →
  AddSingle addr src pen now s = Some (r, s') → tried_kept s s'.
Proof.
  intros HI [Hrt Hrs]. destruct addr as [[svc t] sv]. cbn [fst snd] in *.
  unfold AddSingle. destruct (IsRoutable svc); cbn [negb].
  2: { intros [= <- <-]. apply tried_kept_refl. }
  set (pen' := if decide (ToNetAddr svc = src) then 0 else pen).
  destruct (ByAddress_find (svc, false) (m_index s)) as [it|] eqn:E.
  2: { by apply AddSingle_place_tried. }
  cbn zeta.
  apply find_main_elem in E as (Hin & Hsv & Hal).
  set (cond := negb (t =? 0) && _).
  set (e1 := if cond then set_nTime (wrapU 32 (Z.max 0 (sub64 t pen'))) it.2
             else it.2).
  pose proof (ok_ranges _ _ _ (inv_index _ HI) _ Hin) as (?&?&?&?&?&?).
  cbn [snd] in *.
  assert (∀ s1, (if cond
                 then Modify it.1
                        (set_nTime (wrapU 32 (Z.max 0 (sub64 t pen')))) s
                 else Some s) = Some s1 →
                tried_kept s s1 ∧ Inv s1 ∧ (it.1, e1) ∈ m_index s1) as Hstep1.
  { intros s1. unfold e1. destruct cond.
    - apply (tried_kept_Modify s it.1 it.2); try done.
      unfold AddrInfo_in_range; split_and!; cbn; try done.
      by apply in_u_wrapU.
    - intros [= <-]. split; [apply tried_kept_refl|done]. }
  match goal with |- context [(if cond then ?X else Some s)] =>
    destruct (if cond then X else Some s) as [s1|] eqn:H1'
  end; [|done].
  destruct (Hstep1 s1 eq_refl) as (Hk1 & HI1 & Hin1).
  cbn [mbind option_bind].
  assert (He1 : same_place it.2 e1 ∧ nRandomPos e1 = nRandomPos it.2
                ∧ AddrInfo_in_range e1).
  { unfold e1. destruct cond; [|by split_and!].
    split_and!; try done.
    unfold AddrInfo_in_range; split_and!; cbn; try done. by apply in_u_wrapU. }
  destruct He1 as (Hsp1 & Hpos1 & Hr1).
  destruct (Modify it.1 _ s1) as [s2|] eqn:HM2; [|done].
  cbn [mbind option_bind].
  apply (tried_kept_Modify s1 it.1 e1) in HM2 as (Hk2 & HI2 & Hin2);
    try done.
  2: { destruct Hr1 as (?&?&?&?&?&?).
       unfold AddrInfo_in_range; split_and!; cbn; try done.
       by apply in_u_lor. }
  rewrite (index_lookup_elem _ _ _ (ok_ptrs _ _ _ (inv_index _ HI2)) Hin2).
  cbn [mbind option_bind].
  assert (Hk02 : tried_kept s s2) by (by eapply tried_kept_trans).
  destruct ((t =? 0) || _); [by intros [= <- <-]|].
  destruct (fInTried _); [by intros [= <- <-]|].
  destruct (CountAddr svc s2 =? ADDRMAN_NEW_BUCKETS_PER_ADDRESS);
    [by intros [= <- <-]|].
  set (nFactor := wrapS 32 _).
  assert (∃ r0 s3, (if 1 <? nFactor then randrange nFactor s2 else (0, s2))
                   = (r0, s3) ∧ Inv s3 ∧ tried_kept s2 s3)
    as (r0 & s3 & Hr3 & HI3 & Hk3).
  { destruct (1 <? nFactor).
    - exists (randrange nFactor s2).1, (randrange nFactor s2).2.
      split; [by destruct (randrange nFactor s2)|].
      split; [by apply randrange_step|].
      destruct (randrange_frame nFactor s2) as (_&_&?&_&_&_&?&_).
      by apply tried_kept_frame.
    - exists 0, s2. split; [done|]. split; [done|apply tried_kept_refl]. }
  rewrite Hr3.
  destruct ((1 <? nFactor) && _).
  { intros [= <- <-]. by eapply tried_kept_trans. }
  intros HA. apply AddSingle_place_tried in HA; [|done|done].
  eapply tried_kept_trans; [exact Hk02|]. by eapply tried_kept_trans.
Qed.

Lemma Add_loop_tried vAddr src pen now added s r s' :
  Inv s → Forall CAddress_in_range vAddr →
  Add_loop vAddr src pen now added s = Some (r, s') → tried_kept s s'.
Proof.
  revert added s. induction vAddr as [|a rest IH]; intros added s HI Hall.
  { intros [= <- <-]. apply tried_kept_refl. }
  apply Forall_cons in Hall as [Ha Hrest]. cbn [Add_loop].
  destruct (AddSingle a src pen now s) as [[r1 s1]|] eqn:HA; [|done].
  cbn [mbind option_bind]. intros HL.
  destruct (AddSingle_spec a src pen now s HI Ha) as (r1' & s1' & HA' & Hg & _).
  rewrite HA in HA'. injection HA' as <- <-.
  eapply tried_kept_trans; [by eapply AddSingle_tried|].
  eapply IH; [apply Hg|done|exact HL].
Qed.

End TriedKept.

Section AddResult.
Context `{NT : NetTypes} {NL : NetLaws}.
Implicit Types (idx : list node) (n x y c : node) (p it : ptr) (e : AddrInfo)
  (a : CService) (s : State).

(** ** What the result of [AddSingle] tells *)

Lemma nothing_stored_refl s : nothing_stored s s.
Proof.
  split_and!; try done. intros [q e] Hn. exists e. by split.
Qed.

Lemma nothing_stored_trans s1 s2 s3 :
  nothing_stored s1 s2 → nothing_stored s2 s3 → nothing_stored s1 s3.
Proof.
  intros (A1 & A2 & A3 & A4 & A5 & A6 & A7) (B1 & B2 & B3 & B4 & B5 & B6 & B7).
  split_and!; try congruence. intros n Hn.
  destruct (A7 n Hn) as (e2 & He2 & Hs2).
  destruct (B7 (n.1, e2) He2) as (e3 & He3 & Hs3).
  exists e3. split; [done|]. by eapply same_but_seen_trans.
Qed.

Lemma nothing_stored_frame s s' :
  m_index s' = m_index s → next_ptr s' = next_ptr s →
  nNew s' = nNew s → nTried s' = nTried s → vRandom s' = vRandom s →
  m_tried_collisions s' = m_tried_collisions s → nothing_stored s s'.
Proof.
  intros Hi ? ? ? ? ?. split_and!; try done; try congruence.
  intros [q e] Hn. exists e. rewrite Hi. by split.
Qed.

Lemma nothing_stored_Modify s it e f s1 :
  Inv s → (it, e) ∈ m_index s →
  same_place e (f e) → nRandomPos (f e) = nRandomPos e →
  AddrInfo_in_range (f e) → same_but_seen e (f e) →
  Modify it f s = Some s1 →
  nothing_stored s s1 ∧ Inv s1 ∧ (it, f e) ∈ m_index s1.
Proof.
  intros HI Hin Hsp Hpos Hr Hseen HM.
  destruct (Modify_step s it e f HI Hin Hsp Hpos Hr)
    as (s1' & HM' & Hs1 & Hg1 & Hin1).
  rewrite HM in HM'. injection HM' as <-. split; [|split; [apply Hg1|done]].
  rewrite Hs1. split_and!; try done.
  - cbn [m_index set_index]. apply index_modify_fst.
  - intros [q e0] Hn. cbn [fst snd m_index set_index].
    destruct (decide (q = it)) as [->|Hne].
    + pose proof (node_unique _ _ _ _ (ok_ptrs _ _ _ (inv_index _ HI)) Hin Hn).
      subst e0. exists (f e). split; [|done].
      apply elem_of_index_modify. right. eauto.
    + exists e0. split; [|done]. apply elem_of_index_modify. left. by split.
Qed.

Lemma nothing_stored_count s s' a :
  nothing_stored s s' → NoDup (m_index s).*1 → NoDup (m_index s').*1 →
  count_nodes (has_service a) (m_index s')
  = count_nodes (has_service a) (m_index s).
Proof.
  intros (Hp & _ & _ & _ & _ & _ & Hk) Hnd Hnd'. apply Z.le_antisymm.
  - apply count_nodes_le_ptr; [done|]. intros [q e'] Hn' Hs.
    assert (Hq : q ∈ (m_index s).*1).
    { rewrite <- Hp. by apply (elem_of_ptrs (q, e')). }
    apply list_elem_of_fmap in Hq as ([q0 e] & Hq0 & Hn). cbn in Hq0. subst q0.
    destruct (Hk (q, e) Hn) as (e2 & He2 & Hse). cbn [fst snd] in *.
    pose proof (node_unique _ _ _ _ Hnd' Hn' He2). subst e2.
    exists e. split; [done|]. unfold has_service in *. cbn [snd] in *.
    apply (f_equal service) in Hse. destruct e, e'. cbn in *. congruence.
  - apply count_nodes_le_ptr; [done|]. intros n Hn Hs.
    destruct (Hk n Hn) as (e' & He' & Hse). exists e'. split; [done|].
    unfold has_service in *. cbn [snd] in *.
    apply (f_equal service) in Hse. destruct n as [q e], e, e'. cbn in *.
    congruence.
Qed.

(** A stored entry: a new node in the new table, with the source given, and
    the address has one entry more. *)
Lemma AddSingle_place_result info (alias : bool) now s r s' :
  Inv s → fInTried info = false →
  AddSingle_place info alias now s = Some (r, s') →
  if r
  then (∃ e', (next_ptr s, e') ∈ m_index s' ∧ service e' = service info
              ∧ source e' = source info ∧ fInTried e' = false
              ∧ is_alias e' = alias ∧ nTime e' = nTime info
              ∧ nServices e' = nServices info)
       ∧ next_ptr s' = S (next_ptr s)
       ∧ count_nodes (has_service (service info)) (m_index s')
         = count_nodes (has_service (service info)) (m_index s) + 1
  else s' = s.
Proof.
  intros HI Hf. unfold AddSingle_place. cbn zeta.
  set (info' := Rebucket (nKey s) (m_asmap s) info).
  assert (Hnew : ∀ s1, next_ptr s1 = next_ptr s →
            count_nodes (has_service (service info)) (m_index s1)
            = count_nodes (has_service (service info)) (m_index s) →
            (∃ e', (next_ptr s, e') ∈ m_index (Insert info' alias s1).2
                   ∧ service e' = service info
                   ∧ source e' = source info ∧ fInTried e' = false
                   ∧ is_alias e' = alias ∧ nTime e' = nTime info
                   ∧ nServices e' = nServices info)
            ∧ next_ptr (Insert info' alias s1).2 = S (next_ptr s)
            ∧ count_nodes (has_service (service info))
                (m_index (Insert info' alias s1).2)
              = count_nodes (has_service (service info)) (m_index s) + 1).
  { intros s1 Hnp Hc. split; [|split].
    - exists (Insert_info info' alias s1). rewrite Insert_index, Hnp.
      split; [apply elem_of_index_insert; by left|].
      unfold Insert_info, info'.
      destruct alias; cbn; split_and!; try done.
      unfold is_alias. cbn. apply of_nat_not_alias.
    - destruct (Insert_config info' alias s1) as (_&_&_&_&_&_&->). by rewrite Hnp.
    - rewrite Insert_count. change (service info') with (service info).
      rewrite decide_True by done. lia. }
  destruct (ByBucket_find (ByBucketExtractor info') (m_index s)) as [v|] eqn:Ef.
  - apply ByBucket_find_Some in Ef as [Hv Hvk].
    destruct (decide (service v.2 ≠ service info')) as [Hne|_].
    2: { by intros [= <- <-]. }
    destruct (_ || _).
    2: { by intros [= <- <-]. }
    destruct v as [pv ev]. cbn [fst snd] in *.
    destruct (Erase_spec s pv ev HI Hv) as (s1 & HE & Hp1).
    rewrite HE. cbn [mbind option_bind]. intros [= <- <-].
    apply Hnew.
    + by destruct (erased_config _ _ _ Hp1) as (_ & _ & ? & _).
    + rewrite (erased_count _ _ _ Hp1). rewrite decide_False; [lia|].
      intros Heq. apply Hne. done.
  - intros [= <- <-]. by apply Hnew.
Qed.

Lemma AddSingle_result addr src pen now s r s' :
  Inv s → CAddress_in_range addr →
  AddSingle addr src pen now s = Some (r, s') →
  if r
  then (∃ e', (next_ptr s, e') ∈ m_index s' ∧ service e' = addr.1.1
              ∧ source e' = src ∧ fInTried e' = false)
       ∧ next_ptr s' = S (next_ptr s)
       ∧ count_nodes (has_service addr.1.1) (m_index s')
         = count_nodes (has_service addr.1.1) (m_index s) + 1
  else nothing_stored s s'.
Proof.
  intros HI [Hrt Hrs]. destruct addr as [[svc t] sv]. cbn [fst snd] in *.
  unfold AddSingle. destruct (IsRoutable svc); cbn [negb].
  2: { intros [= <- <-]. apply nothing_stored_refl. }
  set (pen' := if decide (ToNetAddr svc = src) then 0 else pen).
  destruct (ByAddress_find (svc, false) (m_index s)) as [it|] eqn:E.
  2: { intros HA. apply AddSingle_place_result in HA; [|done|done].
       destruct r; [|subst; apply nothing_stored_refl].
       destruct HA as ((e' & ? & ? & ? & ? & _) & ? & ?). split; [|done].
       by exists e'. }
  cbn zeta.
  apply find_main_elem in E as (Hin & Hsv & Hal).
  set (cond := negb (t =? 0) && _).
  set (e1 := if cond then set_nTime (wrapU 32 (Z.max 0 (sub64 t pen'))) it.2
             else it.2).
  pose proof (ok_ranges _ _ _ (inv_index _ HI) _ Hin) as (?&?&?&?&?&?).
  cbn [snd] in *.
  assert (∀ s1, (if cond
                 then Modify it.1
                        (set_nTime (wrapU 32 (Z.max 0 (sub64 t pen')))) s
                 else Some s) = Some s1 →
                nothing_stored s s1 ∧ Inv s1 ∧ (it.1, e1) ∈ m_index s1)
    as Hstep1.
  { intros s1. unfold e1. destruct cond.
    - apply (nothing_stored_Modify s it.1 it.2); try done.
      unfold AddrInfo_in_range; split_and!; cbn; try done.
      by apply in_u_wrapU.
    - intros [= <-]. split; [apply nothing_stored_refl|done]. }
  match goal with |- context [(if cond then ?X else Some s)] =>
    destruct (if cond then X else Some s) as [s1|] eqn:H1'
  end; [|done].
  destruct (Hstep1 s1 eq_refl) as (Hk1 & HI1 & Hin1).
  cbn [mbind option_bind].
  assert (He1 : same_place it.2 e1 ∧ nRandomPos e1 = nRandomPos it.2
                ∧ AddrInfo_in_range e1).
  { unfold e1. destruct cond; [|by split_and!].
    split_and!; try done.
    unfold AddrInfo_in_range; split_and!; cbn; try done. by apply in_u_wrapU. }
  destruct He1 as (Hsp1 & Hpos1 & Hr1).
  destruct (Modify it.1 _ s1) as [s2|] eqn:HM2; [|done].
  cbn [mbind option_bind].
  apply (nothing_stored_Modify s1 it.1 e1) in HM2 as (Hk2 & HI2 & Hin2);
    try done.
  2: { destruct Hr1 as (?&?&?&?&?&?).
       unfold AddrInfo_in_range; split_and!; cbn; try done.
       by apply in_u_lor. }
  rewrite (index_lookup_elem _ _ _ (ok_ptrs _ _ _ (inv_index _ HI2)) Hin2).
  cbn [mbind option_bind].
  assert (Hk02 : nothing_stored s s2) by (by eapply nothing_stored_trans).
  destruct ((t =? 0) || _); [by intros [= <- <-]|].
  destruct (fInTried _); [by intros [= <- <-]|].
  destruct (CountAddr svc s2 =? ADDRMAN_NEW_BUCKETS_PER_ADDRESS);
    [by intros [= <- <-]|].
  set (nFactor := wrapS 32 _).
  assert (∃ r0 s3, (if 1 <? nFactor then randrange nFactor s2 else (0, s2))
                   = (r0, s3) ∧ Inv s3 ∧ nothing_stored s2 s3)
    as (r0 & s3 & Hr3 & HI3 & Hk3).
  { destruct (1 <? nFactor).
    - exists (randrange nFactor s2).1, (randrange nFactor s2).2.
      split; [by destruct (randrange nFactor s2)|].
      split; [by apply randrange_step|].
      destruct (randrange_frame nFactor s2) as (_&_&?&?&?&?&?&?&_).
      by apply nothing_stored_frame.
    - exists 0, s2. split; [done|]. split; [done|apply nothing_stored_refl]. }
  rewrite Hr3.
  assert (Hk03 : nothing_stored s s3) by (by eapply nothing_stored_trans).
  destruct ((1 <? nFactor) && _).
  { by intros [= <- <-]. }
  intros HA. apply AddSingle_place_result in HA; [|done|done].
  destruct r; [|by subst].
  destruct HA as ((e' & He' & ? & ? & ? & _) & Hnp & Hc).
  cbn in Hc. destruct Hk03 as (_ & Hnp3 & _).
  rewrite (nothing_stored_count s s3 svc) in Hc;
    [|by eapply nothing_stored_trans
     |apply (ok_ptrs _ _ _ (inv_index _ HI))
     |apply (ok_ptrs _ _ _ (inv_index _ HI3))].
  rewrite Hnp3 in He', Hnp. split; [|done]. by exists e'.
Qed.

Lemma Add_loop_nothing vAddr src pen now added s r s' :
  Inv s → Forall CAddress_in_range vAddr → 0 <= added →
  Add_loop vAddr src pen now added s = Some (r, s') →
  added <= r ∧ (r = added → nothing_stored s s').
Proof.
  revert added s. induction vAddr as [|a rest IH]; intros added s HI Hall Ha0.
  { intros [= <- <-]. split; [lia|]. intros _. apply nothing_stored_refl. }
  apply Forall_cons in Hall as [Ha Hrest]. cbn [Add_loop].
  destruct (AddSingle a src pen now s) as [[r1 s1]|] eqn:HA; [|done].
  cbn [mbind option_bind]. intros HL.
  destruct (AddSingle_spec a src pen now s HI Ha) as (r1' & s1' & HA' & Hg & _).
  rewrite HA in HA'. injection HA' as <- <-.
  apply IH in HL as [Hle Hsame]; [|apply Hg|done|destruct r1; lia].
  split; [destruct r1; lia|]. intros ->.
  destruct r1; [lia|].
  apply (AddSingle_result _ _ _ _ _ _ _ HI Ha) in HA.
  eapply nothing_stored_trans; [exact HA|]. apply Hsame. lia.
Qed.

End AddResult.

Section AddPublic.
Context `{NT : NetTypes} {NL : NetLaws}.
Implicit Types (idx : list node) (n x y c : node) (p it : ptr) (e : AddrInfo)
  (a : CService) (s : State).

Lemma Add__loop vAddr src pen now s r s' :
  Add_ vAddr src pen now s = Some (r, s') →
  ∃ added, Add_loop vAddr src pen now 0 s = Some (added, s')
           ∧ r = (0 <? added).
Proof.
  unfold Add_. destruct (Add_loop vAddr src pen now 0 s) as [[added s1]|];
    [|done].
  cbn [mbind option_bind]. intros [= <- <-]. by exists added.
Qed.

Lemma same_but_seen_fields e e' :
  same_but_seen e e' →
  service e' = service e ∧ source e' = source e ∧ fInTried e' = fInTried e
  ∧ m_bucket e' = m_bucket e ∧ m_bucketpos e' = m_bucketpos e
  ∧ nLastTry e' = nLastTry e ∧ nLastCountAttempt e' = nLastCountAttempt e
  ∧ nLastSuccess e' = nLastSuccess e ∧ nAttempts e' = nAttempts e.
Proof.
  unfold same_but_seen. destruct e, e'. cbn. intros [= -> -> -> -> -> -> -> -> ->].
  done.
Qed.

(** The public [Add] in terms of [Add_loop]; the checks change the random
    tape only. *)
Lemma Add_public vAddr src pen now s :
  Inv s → Forall CAddress_in_range vAddr →
  ∃ tape tape' added s2,
    Add vAddr src pen now s
    = Some (0 <? added, set_insecure_rand tape' s2)
    ∧ Add_loop vAddr src pen now 0 (set_insecure_rand tape s)
      = Some (added, s2)
    ∧ Inv s2.
Proof.
  intros HI Hall. destruct (Check_tape s HI) as [t1 HC1].
  destruct (Add_spec vAddr src pen now (set_insecure_rand t1 s)
              (Inv_tape s t1 HI) Hall) as (r & s2 & HA & Hg).
  destruct (checked_tape _ s t1 _ s2 HC1 HA (proj1 Hg)) as [t2 HP].
  destruct (Add__loop _ _ _ _ _ _ _ HA) as (added & HL & ->).
  exists t1, t2, added, s2. split; [exact HP|]. split; [exact HL|apply Hg].
Qed.

End AddPublic.

Section Eviction.
Context `{NT : NetTypes} {NL : NetLaws}.
Implicit Types (idx : list node) (n x y c : node) (p it : ptr) (e : AddrInfo)
  (a : CService) (s : State).

(** ** [MakeTried] into an occupied slot *)

Lemma count_nodes_le_one (P : node → Prop) `{∀ n, Decision (P n)} idx :
  NoDup idx → (∀ n1 n2, n1 ∈ idx → n2 ∈ idx → P n1 → P n2 → n1 = n2) →
  count_nodes P idx <= 1.
Proof.
  intros Hnd Hu. unfold count_nodes.
  pose proof (NoDup_filter P _ Hnd) as Hndf.
  destruct (filter P idx) as [|x1 [|x2 l]] eqn:E; cbn; try lia.
  exfalso.
  assert (H1 : x1 ∈ filter P idx) by (rewrite E; left).
  assert (H2 : x2 ∈ filter P idx) by (rewrite E; right; left).
  apply list_elem_of_filter in H1 as [HP1 H1].
  apply list_elem_of_filter in H2 as [HP2 H2].
  pose proof (Hu x1 x2 H1 H2 HP1 HP2). subst x2.
  apply NoDup_cons in Hndf as [Hx _]. apply Hx. left.
Qed.

Lemma nNew_erase_bounds s it e s' :
  Inv s → (it, e) ∈ m_index s → erase_post s e s' →
  nNew s - 1 <= nNew s' <= nNew s.
Proof.
  intros HI Hin Hp. pose proof (erased_inv _ _ _ Hp) as HI'.
  pose proof (inv_index _ HI) as Hok.
  rewrite (nNew_flags s HI), (nNew_flags s' HI'). split.
  - rewrite (count_canonical_split false (service e) (m_index s)).
    assert (H1 : count_nodes
              (λ n : node, (is_alias n.2 = false ∧ fInTried n.2 = false)
                           ∧ has_service (service e) n) (m_index s) <= 1).
    { apply count_nodes_le_one.
      - apply NoDup_nodes, (ok_ptrs _ _ _ Hok).
      - intros n1 n2 Hn1 Hn2 [[Ha1 _] Hs1] [[Ha2 _] Hs2].
        apply (ok_canonical _ _ _ Hok); try done.
        unfold has_service in *. congruence. }
    assert (H2 : count_nodes
              (λ n : node, (is_alias n.2 = false ∧ fInTried n.2 = false)
                           ∧ ¬ has_service (service e) n) (m_index s)
            <= count_nodes
                 (λ n : node, is_alias n.2 = false ∧ fInTried n.2 = false)
                 (m_index s')).
    { apply count_nodes_le_ptr; [apply (ok_ptrs _ _ _ Hok)|].
      intros n Hn [[Ha Hf] Hs].
      destruct (erased_others _ _ _ Hp n Hn Hs) as (e' & He' & Hse).
      exists e'. split; [done|]. cbn [snd].
      destruct (same_entry_fields _ _ Hse) as (_ & _ & ? & ? & _).
      split; congruence. }
    lia.
  - apply count_nodes_le_ptr; [apply (ok_ptrs _ _ _ (inv_index _ HI'))|].
    intros n' Hn' [Ha Hf].
    destruct (erased_old _ _ _ Hp n' Hn') as ([q e0] & H0 & Hq & _ & Hfa & Hft).
    cbn [fst snd] in *. exists e0. split; [by rewrite Hq|].
    cbn [snd]. split; congruence.
Qed.

Lemma MakeTried_evict_moves s (v : node) :
  Inv s → v ∈ m_index s → fInTried v.2 = true →
  ∃ s' e', MakeTried_evict v s = Some s' ∧ Inv s' ∧ same_env s s'
    ∧ (∀ n, n ∈ m_index s' → ByBucketExtractor n.2 ≠ ByBucketExtractor v.2)
    ∧ (next_ptr s, e') ∈ m_index s'
    ∧ same_entry (Rebucket (nKey s) (m_asmap s) (set_fInTried false v.2)) e'
    ∧ count_nodes (has_service (service v.2)) (m_index s') = 1
    ∧ (∀ a, count_nodes (has_service a) (m_index s')
            <= count_nodes (has_service a) (m_index s))
    ∧ nTried s' = nTried s - 1
    ∧ nNew s <= nNew s' <= nNew s + 1.
Proof.
  intros HI Hv Ht. unfold MakeTried_evict.
  destruct (tried_alone _ _ _ v (inv_index _ HI) Hv Ht) as [Hal Halone].
  destruct v as [pv ev]. cbn [fst snd] in *.
  destruct (Erase_spec s pv ev HI Hv) as (s3 & HE & Hp3).
  rewrite HE. cbn [mbind option_bind].
  pose proof (erased_inv _ _ _ Hp3) as HI3.
  pose proof (erased_config _ _ _ Hp3) as HC3.
  assert (Hc2 : count_nodes (has_service (service ev)) (m_index s) = 1).
  { apply (count_nodes_one _ _ (pv, ev)); [|done|done|].
    - apply NoDup_nodes, (ok_ptrs _ _ _ (inv_index _ HI)).
    - intros n Hn Hs. by apply Halone. }
  assert (Hc3 : count_nodes (has_service (service ev)) (m_index s3) = 0).
  { rewrite (erased_count _ _ _ Hp3), Hc2. by rewrite decide_True. }
  pose proof (proj1 (count_nodes_absent _ _) Hc3) as Hno3.
  destruct (counters_without (service ev) s s3 (pv, ev) HI HI3
              (erase_post_shrinks _ _ _ Hp3) (erase_post_keeps _ _ _ Hp3)
              Hno3 Hv Hal eq_refl) as [HnN3 HnT3].
  cbn [snd] in HnN3, HnT3. rewrite Ht in HnN3, HnT3.
  set (ie := Rebucket (nKey s3) (m_asmap s3) (set_fInTried false ev)).
  assert (∃ s4, match ByBucket_find (ByBucketExtractor ie) (m_index s3) with
                | Some w => Erase w.1 s3
                | None => Some s3
                end = Some s4 ∧ Inv s4 ∧ shrinks s3 s4
                ∧ (∀ n, n ∈ m_index s4 →
                    ByBucketExtractor n.2 ≠ ByBucketExtractor ie)
                ∧ nTried s4 = nTried s3
                ∧ nNew s3 - 1 <= nNew s4 <= nNew s3)
    as (s4 & H4 & HI4 & Hsh4 & Hfree4 & HnT4 & HnN4).
  { destruct (ByBucket_find (ByBucketExtractor ie) (m_index s3)) as [w|] eqn:Ef.
    - apply ByBucket_find_Some in Ef as [Hw Hwk]. destruct w as [pw ew].
      destruct (Erase_spec s3 pw ew HI3 Hw) as (s4 & HE4 & Hp4).
      exists s4. split; [done|]. split; [apply Hp4|].
      split; [by eapply erase_post_shrinks|].
      split.
      { intros n Hn. rewrite <- Hwk. by apply (erased_free _ _ _ Hp4). }
      assert (Hfw : fInTried ew = false).
      { unfold ByBucketExtractor in Hwk. cbn [snd] in Hwk.
        injection Hwk as Hwf _ _. rewrite Hwf. reflexivity. }
      split.
      + by destruct (tried_kept_by_erase s3 pw ew s4 HI3 Hw Hfw Hp4).
      + by apply (nNew_erase_bounds s3 pw ew).
    - exists s3. split; [done|]. split; [done|]. split; [apply shrinks_refl|].
      split; [by apply ByBucket_find_None|]. split; lia. }
  rewrite H4. cbn [mbind option_bind].
  assert (Hc4 : count_nodes (has_service (service ev)) (m_index s4) = 0).
  { pose proof (shr_count _ _ Hsh4 (service ev)).
    pose proof (count_nodes_nonneg (has_service (service ev)) (m_index s4)).
    lia. }
  pose proof (proj1 (count_nodes_absent _ _) Hc4) as Hno4.
  assert (Hcm : ByAddress_count (service ie, false) (m_index s4) = 0).
  { rewrite ByAddress_count_main. apply count_nodes_zero.
    intros n Hn [Hs _]. by apply (Hno4 n Hn). }
  rewrite Hcm. cbn [Z.eqb negb].
  pose proof (shr_config _ _ Hsh4) as HC4.
  destruct HC3 as (Hk3 & Ha3 & Hp3' & _).
  destruct HC4 as (Hk4 & Ha4 & Hp4' & _).
  assert (Hie : Rebucket (nKey s4) (m_asmap s4) ie = ie).
  { rewrite Hk4, Ha4. apply Rebucket_idem. }
  exists (Insert ie false s4).2, (Insert_info ie false s4).
  split; [done|]. split; [|split; [|split; [|split; [|split; [|split; [|split; [|split]]]]]]].
  - apply Insert_spec; [done| | |].
    + apply Rebucket_range. apply (ok_ranges _ _ _ (inv_index _ HI) _ Hv).
    + intros n Hn. rewrite Hie. by apply Hfree4.
    + intros n Hn. by apply Hno4.
  - eapply same_env_trans; [|apply Insert_env].
    eapply same_env_trans; apply same_config_env;
      [apply Hp3|apply Hsh4].
  - intros n Hn. rewrite Insert_index in Hn.
    apply elem_of_index_insert in Hn as [->|Hn].
    + cbn [snd]. unfold ByBucketExtractor. cbn. rewrite Ht. congruence.
    + destruct (shr_slots _ _ Hsh4 n Hn) as (n3 & Hn3 & Hs3).
      rewrite <- Hs3. by apply (erased_free _ _ _ Hp3).
  - rewrite Insert_index. replace (next_ptr s) with (next_ptr s4) by congruence.
    apply elem_of_index_insert. by left.
  - unfold Insert_info. rewrite Hie. unfold ie. rewrite Hk3, Ha3.
    apply same_entry_set_pos; [|lia].
    destruct (Rebucket_fields (nKey s) (m_asmap s) (set_fInTried false ev))
      as (_ & _ & _ & Hpos).
    unfold is_alias in *. by rewrite Hpos.
  - rewrite Insert_count. change (service ie) with (service ev).
    rewrite decide_True by done. lia.
  - intros a. rewrite Insert_count.
    pose proof (shr_count _ _ Hsh4 a) as H43.
    rewrite (erased_count _ _ _ Hp3) in H43.
    change (service ie) with (service ev).
    destruct (decide (a = service ev)); lia.
  - destruct (Insert_counters ie false s4) as (_ & -> & _).
    change (fInTried ie) with false. cbn. lia.
  - destruct (Insert_counters ie false s4) as (-> & _ & _).
    change (fInTried ie) with false. cbn. lia.
Qed.

Lemma MakeTried_occupied s it info (c : node) :
  Inv s → (it, info) ∈ m_index s → is_alias info = false →
  fInTried info = false →
  let info' := Rebucket (nKey s) (m_asmap s) (set_fInTried true info) in
  c ∈ m_index s → ByBucketExtractor c.2 = ByBucketExtractor info' →
  ∃ s' p e' pc ec, MakeTried it s = Some s' ∧ Inv s'
    ∧ (p, e') ∈ m_index s' ∧ same_entry info' e'
    ∧ (pc, ec) ∈ m_index s'
    ∧ same_entry (Rebucket (nKey s) (m_asmap s) (set_fInTried false c.2)) ec
    ∧ count_nodes (has_service (service info)) (m_index s') = 1
    ∧ count_nodes (has_service (service c.2)) (m_index s') = 1
    ∧ nTried s' = nTried s
    ∧ nNew s - 1 <= nNew s' <= nNew s.
Proof.
  intros HI Hin Hal Hf info' Hc Hslot. unfold MakeTried.
  rewrite (index_lookup_elem _ _ _ (ok_ptrs _ _ _ (inv_index _ HI)) Hin).
  cbn [mbind option_bind]. rewrite Hf.
  destruct (Erase_spec s it info HI Hin) as (s1 & HE & Hp1).
  rewrite HE. cbn [mbind option_bind].
  destruct (Erase_address_spec (length (m_index s1)) (service info) s1
              (erased_inv _ _ _ Hp1)) as (s2 & HEA & HI2 & Hsh2 & Hk2 & Hno2);
    [lia|].
  rewrite HEA. cbn [mbind option_bind].
  assert (Hsh : shrinks s s2).
  { eapply shrinks_trans; [by eapply erase_post_shrinks|done]. }
  assert (Hk : keeps (λ b, b ≠ service info) s s2).
  { eapply keeps_trans; [by eapply erase_post_keeps|done]. }
  assert (He2 : same_env s s2) by apply same_config_env, Hsh.
  pose proof He2 as (Hk2' & Ha2 & _). rewrite Hk2', Ha2. fold info'.
  destruct (counters_without (service info) s s2 (it, info) HI HI2 Hsh Hk Hno2
              Hin Hal eq_refl) as [HnN HnT].
  cbn [snd] in HnN, HnT. rewrite Hf in HnN, HnT.
  (* the occupant is still there *)
  assert (Hct : fInTried c.2 = true).
  { unfold ByBucketExtractor in Hslot. injection Hslot as Hcf _ _.
    rewrite Hcf. reflexivity. }
  assert (Hcs : service c.2 ≠ service info).
  { by apply (tried_other_service s c (it, info) HI). }
  destruct (Hk c Hc Hcs) as (e2 & He2' & Hse2).
  assert (Hslot2 : ByBucketExtractor e2 = ByBucketExtractor info').
  { rewrite <- Hslot. apply same_place_slot, same_entry_place. done. }
  assert (Hfind : ByBucket_find (ByBucketExtractor info') (m_index s2)
                  = Some (c.1, e2)).
  { destruct (ByBucket_find (ByBucketExtractor info') (m_index s2))
      as [w|] eqn:Ef.
    - apply ByBucket_find_Some in Ef as [Hw Hwk]. f_equal.
      apply (ok_slots _ _ _ (inv_index _ HI2)); [done|done|].
      cbn [snd]. congruence.
    - exfalso. apply (ByBucket_find_None _ _ Ef (c.1, e2) He2'). done. }
  rewrite Hfind.
  assert (Ht2 : fInTried e2 = true).
  { destruct (same_entry_fields _ _ Hse2) as (_ & _ & -> & _). done. }
  destruct (MakeTried_evict_moves s2 (c.1, e2) HI2 He2' Ht2)
    as (s3 & ec & HM & HI3 & He3 & Hfree3 & Hec & Hsec & Hcc & Hcle & HnT3 & HnN3).
  rewrite HM. cbn [mbind option_bind]. cbn [snd] in *.
  assert (Hno3 : ∀ n, n ∈ m_index s3 → service n.2 ≠ service info).
  { apply count_nodes_absent.
    pose proof (Hcle (service info)).
    pose proof (proj2 (count_nodes_absent _ _) Hno2).
    pose proof (count_nodes_nonneg (has_service (service info)) (m_index s3)).
    lia. }
  pose proof He3 as (Hk3 & Ha3 & _).
  assert (Hr : AddrInfo_in_range info').
  { apply Rebucket_range. apply (ok_ranges _ _ _ (inv_index _ HI) _ Hin). }
  assert (Hid : Rebucket (nKey s3) (m_asmap s3) info' = info').
  { rewrite Hk3, Hk2', Ha3, Ha2. apply Rebucket_idem. }
  exists (Insert info' false s3).2, (next_ptr s3), (Insert_info info' false s3),
    (next_ptr s2), ec.
  split; [done|]. split; [|split; [|split; [|split; [|split; [|split; [|split; [|split]]]]]]].
  - apply Insert_spec; [done|done| |].
    + intros n Hn. rewrite Hid. rewrite <- Hslot2. by apply Hfree3.
    + intros n Hn. by apply Hno3.
  - rewrite Insert_index. apply elem_of_index_insert. by left.
  - unfold Insert_info. rewrite Hid. apply same_entry_set_pos; [|lia].
    unfold info'. destruct (Rebucket_fields (nKey s) (m_asmap s)
                              (set_fInTried true info)) as (_ & _ & _ & Hp).
    unfold is_alias in *. by rewrite Hp.
  - rewrite Insert_index. apply elem_of_index_insert. by right.
  - rewrite Hk2', Ha2 in Hsec.
    eapply same_entry_trans; [|exact Hsec].
    (* the occupant as it was, and as the erasures left it *)
    destruct Hse2 as [Hsa Hsb]. split.
    + unfold is_alias. 
      destruct (Rebucket_fields (nKey s) (m_asmap s) (set_fInTried false e2))
        as (_ & _ & _ & ->).
      destruct (Rebucket_fields (nKey s) (m_asmap s) (set_fInTried false c.2))
        as (_ & _ & _ & ->).
      exact Hsa.
    + rewrite <- !Rebucket_set_nRandomPos.
      change (set_nRandomPos 0 (set_fInTried false e2))
        with (set_fInTried false (set_nRandomPos 0 e2)).
      change (set_nRandomPos 0 (set_fInTried false c.2))
        with (set_fInTried false (set_nRandomPos 0 c.2)).
      by rewrite Hsb.
  - rewrite Insert_count. change (service info') with (service info).
    rewrite decide_True by done.
    rewrite (proj2 (count_nodes_absent _ _) Hno3). lia.
  - rewrite Insert_count. change (service info') with (service info).
    destruct (same_entry_fields _ _ Hse2) as (Hs2 & _).
    rewrite decide_False by done. rewrite <- Hs2. lia.
  - destruct (Insert_counters info' false s3) as (_ & -> & _).
    change (fInTried info') with true. cbn. lia.
  - destruct (Insert_counters info' false s3) as (-> & _ & _).
    change (fInTried info') with true. cbn. lia.
Qed.

End Eviction.

Section Spread.
Context `{NT : NetTypes} {NL : NetLaws}.
Implicit Types (idx : list node) (n x y c : node) (p it : ptr) (e : AddrInfo)
  (a : CService) (s : State).

(** ** The random vector after a swap *)

Lemma SwapRandom_vRandom s (pos1 pos2 : Z) s1 :
  SwapRandom pos1 pos2 s = Some s1 → pos1 ≠ pos2 →
  ∃ it1 it2, vRandom s !! Z.to_nat pos1 = Some it1
    ∧ vRandom s !! Z.to_nat pos2 = Some it2
    ∧ vRandom s1 = <[Z.to_nat pos2 := it1]>
                     (<[Z.to_nat pos1 := it2]> (vRandom s))
    ∧ 0 <= pos1 < Z.of_nat (length (vRandom s))
    ∧ 0 <= pos2 < Z.of_nat (length (vRandom s)).
Proof.
  unfold SwapRandom. intros H Hne.
  destruct (decide (pos1 = pos2)); [done|].
  destruct (decide _) as [Hrange|]; [|done].
  destruct (vRandom s !! Z.to_nat pos1) as [it1|]; [|done].
  cbn [mbind option_bind] in H.
  destruct (vRandom s !! Z.to_nat pos2) as [it2|]; [|done].
  cbn [mbind option_bind] in H.
  destruct (index_lookup it1 (m_index s)); [|done].
  cbn [mbind option_bind] in H.
  destruct (index_lookup it2 (m_index s)); [|done].
  cbn [mbind option_bind] in H.
  injection H as <-. exists it1, it2. destruct Hrange as [[? ?] [? ?]].
  by split_and!.
Qed.

(** ** The buckets that one group can reach *)

Lemma new_bucket_of_group key asmap (i : AddrInfo) (src : CNetAddr) :
  ∃ h, 0 <= h < ADDRMAN_NEW_BUCKETS_PER_SOURCE_GROUP
    ∧ GetNewBucket i key src asmap
      = GetCheapHash [HUint256 key; HBytes (GetGroup src asmap); HUint64 h]
        mod ADDRMAN_NEW_BUCKET_COUNT.
Proof.
  unfold GetNewBucket. cbn zeta. eexists. split; [|reflexivity].
  by apply Z.mod_pos_bound.
Qed.

Lemma tried_bucket_of_group key asmap (i : AddrInfo) :
  ∃ h, 0 <= h < ADDRMAN_TRIED_BUCKETS_PER_GROUP
    ∧ GetTriedBucket i key asmap
      = GetCheapHash [HUint256 key;
                      HBytes (GetGroup (ToNetAddr (service i)) asmap);
                      HUint64 h]
        mod ADDRMAN_TRIED_BUCKET_COUNT.
Proof.
  unfold GetTriedBucket. cbn zeta. eexists. split; [|reflexivity].
  by apply Z.mod_pos_bound.
Qed.

End Spread.

(** * Further properties of the operations *)

Section Behaviour.
Context `{NT : NetTypes} {NL : NetLaws}.
Implicit Types (idx : list node) (n x y c : node) (p it : ptr) (e : AddrInfo)
  (a : CService) (s : State).

(** X2: on every manager reached from a new one by loading a stream and by
    the public operations, the consistency checker returns [0], whether the
    periodic checks are switched on or not. *)
Theorem X2_checker_passes s : reachable s → CheckAddrman s = 0.
Proof. intros Hr. by apply CheckAddrman_ok, reachable_Inv. Qed.

(** X3: the size that [size()] reports is the sum of the two counters, the
    new counter is at most 1024 * 64 and the tried counter at most
    256 * 64. *)
Theorem X3_table_capacity s :
  reachable s →
  AddrMan_size s = nNew s + nTried s
  ∧ 0 <= nNew s <= 65536 ∧ 0 <= nTried s <= 16384.
Proof.
  intros Hr. destruct (table_sizes s (reachable_Inv s Hr)) as (HN & HT & Hsz).
  change (ADDRMAN_NEW_BUCKET_COUNT * ADDRMAN_BUCKET_SIZE) with 65536 in HN.
  change (ADDRMAN_TRIED_BUCKET_COUNT * ADDRMAN_BUCKET_SIZE) with 16384 in HT.
  done.
Qed.

(** X5: [Good] on an address whose main entry is in the new table and whose
    tried slot is free returns [true]; afterwards the address has exactly
    one entry, it is in the tried table at that slot, its last success and
    last try are the time given, its attempts are [0], its time, services
    and source are as before, and one address has moved from the new
    counter to the tried counter. *)
Theorem X5_Good_promotes (addr : CService) (t : Z) s (it : node) :
  reachable s → in_s 64 t →
  ByAddress_find (addr, false) (m_index s) = Some it →
  fInTried it.2 = false →
  ByBucket_find
    (let b := GetTriedBucket it.2 (nKey s) (m_asmap s) in
     (true, b, GetBucketPosition it.2 (nKey s) false b)) (m_index s) = None →
  ∃ s' p e', Good addr t s = Some (true, s')
    ∧ (p, e') ∈ m_index s'
    ∧ service e' = addr ∧ is_alias e' = false ∧ fInTried e' = true
    ∧ m_bucket e' = GetTriedBucket it.2 (nKey s) (m_asmap s)
    ∧ m_bucketpos e'
      = GetBucketPosition it.2 (nKey s) false
          (GetTriedBucket it.2 (nKey s) (m_asmap s))
    ∧ nLastSuccess e' = t ∧ nLastTry e' = t ∧ nAttempts e' = 0
    ∧ nTime e' = nTime it.2 ∧ nServices e' = nServices it.2
    ∧ source e' = source it.2
    ∧ CountAddr addr s' = 1
    ∧ nTried s' = nTried s + 1 ∧ nNew s' = nNew s - 1
    ∧ AddrMan_size s' = AddrMan_size s
    ∧ nLastGood s' = t.
Proof.
  intros Hr Ht Hfind Hnew Hslot. pose proof (reachable_Inv s Hr) as HI.
  destruct (Check_tape s HI) as [t1 HC1].
  destruct (Good_promotes addr true t (set_insecure_rand t1 s) it
              (Inv_tape s t1 HI) Ht Hfind Hnew Hslot)
    as (s2 & p & e' & HG & HI2 & Hp & Hse & Hc & HnT & HnN & Hlg & _).
  destruct (checked_tape _ s t1 _ s2 HC1 HG HI2) as [t2 HP].
  exists (set_insecure_rand t2 s2), p, e'. split; [exact HP|].
  pose proof (find_main_elem _ _ _ Hfind) as (Hin & Hsv & Hal).
  destruct (same_entry_fields _ _ Hse)
    as (Hf1 & Hf2 & Hf3 & Hf4 & Hf5 & Hf6 & Hf7 & Hf8 & Hf9 & Hf10 & Hf11 & Hf12).
  destruct (Rebucket_fields (nKey s) (m_asmap s)
              (set_fInTried true
                 (set_nAttempts 0 (set_nLastTry t (set_nLastSuccess t it.2)))))
    as (Hr1 & Hr2 & Hr3 & Hr4).
  cbn [nKey m_asmap set_insecure_rand] in *.
  split; [done|]. split; [by rewrite Hf1, Hr1|].
  split. { rewrite Hf4. unfold is_alias in *. by rewrite Hr4. }
  split; [by rewrite Hf3, Hr2|].
  split. { rewrite Hf5. unfold Rebucket. by cbn. }
  split. { rewrite Hf6. unfold Rebucket. by cbn. }
  split; [by rewrite Hf11|]. split; [by rewrite Hf9|].
  split; [by rewrite Hf12|]. split; [by rewrite Hf7|].
  split; [by rewrite Hf8|]. split; [by rewrite Hf2, Hr3|].
  split.
  { rewrite CountAddr_count
      by apply (ok_sorted _ _ _ (inv_index _ (Inv_tape s2 t2 HI2))).
    exact Hc. }
  split; [exact HnT|]. split; [exact HnN|].
  split.
  { unfold AddrMan_size.
    rewrite (vRandom_length _ (Inv_tape s2 t2 HI2)), (vRandom_length _ HI).
    rewrite <- (inv_nNew _ (Inv_tape s2 t2 HI2)), <- (inv_nNew _ HI).
    rewrite <- (inv_nTried _ (Inv_tape s2 t2 HI2)), <- (inv_nTried _ HI).
    cbn [nNew nTried set_insecure_rand] in *. lia. }
  exact Hlg.
Qed.

(** X6: [Good] on an address whose main entry is already in the tried
    table returns [false] and only refreshes the statistics of that entry:
    no entry is added, removed or moved, and the counters, the random
    vector and the collision set stay as they are. *)
Theorem X6_Good_already_tried (addr : CService) (t : Z) s (it : node) :
  reachable s → in_s 64 t →
  ByAddress_find (addr, false) (m_index s) = Some it →
  fInTried it.2 = true →
  ∃ s', Good addr t s = Some (false, s')
    ∧ m_index s'
      = index_modify it.1
          (λ i, set_nAttempts 0 (set_nLastTry t (set_nLastSuccess t i)))
          (m_index s)
    ∧ nNew s' = nNew s ∧ nTried s' = nTried s ∧ vRandom s' = vRandom s
    ∧ m_tried_collisions s' = m_tried_collisions s
    ∧ nLastGood s' = t.
Proof.
  intros Hr Ht Hfind Htr. pose proof (reachable_Inv s Hr) as HI.
  destruct (Check_tape s HI) as [t1 HC1].
  destruct (Good_tried addr true t (set_insecure_rand t1 s) it
              (Inv_tape s t1 HI) Ht Hfind Htr) as [HG HI2].
  destruct (checked_tape _ s t1 _ _ HC1 HG HI2) as [t2 HP].
  eexists. split; [exact HP|]. done.
Qed.


(** X8: [Connected] replaces the time of the main entry by the time given
    when that is more than 20 minutes later than the stored time, and
    changes nothing otherwise; no other field and no other entry changes. *)
Theorem X8_Connected (addr : CService) (t : Z) s (it : node) :
  reachable s →
  ByAddress_find (addr, false) (m_index s) = Some it →
  ∃ s', Connected addr t s = Some s'
    ∧ m_index s'
      = (if 20 * 60 <? sub64 t (nTime it.2)
         then index_modify it.1 (set_nTime (wrapU 32 t)) (m_index s)
         else m_index s)
    ∧ nNew s' = nNew s ∧ nTried s' = nTried s ∧ vRandom s' = vRandom s
    ∧ m_tried_collisions s' = m_tried_collisions s
    ∧ nLastGood s' = nLastGood s.
Proof.
  intros Hr Hfind. pose proof (reachable_Inv s Hr) as HI.
  destruct (Check_tape s HI) as [r1 HC1].
  destruct (Connected_effect addr t (set_insecure_rand r1 s) it
              (Inv_tape s r1 HI) Hfind) as (HA & HIa & Hina).
  destruct (checked_tape_unit _ s r1 _ HC1 HA HIa) as [r2 HP].
  eexists. split; [exact HP|].
  cbn [m_index nNew nTried vRandom m_tried_collisions nLastGood
       set_insecure_rand set_index].
  split; [|done].
  destruct (20 * 60 <? sub64 t (nTime it.2)); [done|].
  unfold index_modify. rewrite <- (map_id (m_index s)) at 2.
  apply map_ext. intros [q e]. cbn. by destruct (decide _).
Qed.

(** X4: on a manager reached through the interface no assertion fails in
    [Add], [Good], [Attempt], [Connected], [SetServices],
    [SelectTriedCollision] (whatever the order of the nodes' addresses) and
    [FindAddressEntry]: each of them returns. *)
Theorem X4_operations_return s vAddr src pen now addr fc t v order :
  reachable s → Forall CAddress_in_range vAddr → in_s 64 t → in_u 64 v →
  ptr_order order s →
  (∃ r s', Add vAddr src pen now s = Some (r, s'))
  ∧ (∃ r s', Good addr t s = Some (r, s'))
  ∧ (∃ s', Attempt addr fc t s = Some s')
  ∧ (∃ s', Connected addr t s = Some s')
  ∧ (∃ s', SetServices addr v s = Some s')
  ∧ (∃ r s', SelectTriedCollision order s = Some (r, s'))
  ∧ (∃ r s', FindAddressEntry addr s = Some (r, s')).
Proof.
  intros Hr Hall Ht Hv Hord. pose proof (reachable_Inv s Hr) as HI.
  split_and!.
  - destruct (Add_returns vAddr src pen now s HI Hall) as (r & s' & H & _).
    by exists r, s'.
  - destruct (Good_returns addr t s HI Ht) as (r & s' & H & _).
    by exists r, s'.
  - destruct (Attempt_total addr fc t s HI Ht) as (s' & H & _). by exists s'.
  - destruct (Connected_total addr t s HI) as (s' & H & _). by exists s'.
  - destruct (SetServices_total addr v s HI Hv) as (s' & H & _). by exists s'.
  - destruct (SelectTriedCollision_total order s HI Hord) as (r & s' & H & _).
    by exists r, s'.
  - destruct (FindAddressEntry_total addr s HI) as (s' & H & _).
    by eexists _, s'.
Qed.

(** X9: every address that [GetAddr] returns is the address, time and
    services of a main entry of the manager that is not terrible at the
    time of the call and, when a network is asked for, is of that network;
    and no address is returned twice. *)
Theorem X9_GetAddr_contents (max_addresses max_pct : Z) (network : option Z)
    (now : Z) s :
  reachable s →
  ∃ r s', GetAddr max_addresses max_pct network now s = Some (r, s')
    ∧ (∀ ca, ca ∈ r →
         ∃ p e, (p, e) ∈ m_index s ∧ is_alias e = false
           ∧ ca = (service e, nTime e, nServices e)
           ∧ IsTerrible e now = false
           ∧ (∀ net, network = Some net → GetNetClass (service e) = net))
    ∧ NoDup r.*1.*1.
Proof.
  intros Hr. pose proof (reachable_Inv s Hr) as HI.
  destruct (Check_tape s HI) as [t1 HC1].
  destruct (GetAddr_spec max_addresses max_pct network now
              (set_insecure_rand t1 s) (Inv_tape s t1 HI))
    as (r & s2 & HG & Hg & _).
  destruct (checked_tape _ s t1 _ s2 HC1 HG (proj1 Hg)) as [t2 HP].
  exists r, (set_insecure_rand t2 s2). split; [exact HP|].
  apply (GetAddr_content _ _ _ _ _ _ _ (Inv_tape s t1 HI) HG).
Qed.

(** X10: [FindAddressEntry] returns nothing exactly when the manager has no
    entry of the address; otherwise it reports the table of the main entry,
    the number of entries of the address, and the bucket and position
    stored in the main entry. *)
Theorem X10_FindAddressEntry (addr : CService) s :
  reachable s →
  ∃ r s', FindAddressEntry addr s = Some (r, s') ∧ m_index s' = m_index s
    ∧ match r with
      | None => ∀ n, n ∈ m_index s → service n.2 ≠ addr
      | Some (tried, multiplicity, bucket, position) =>
          ∃ it : node,
            it ∈ m_index s ∧ service it.2 = addr ∧ is_alias it.2 = false
            ∧ tried = fInTried it.2
            ∧ multiplicity = count_nodes (has_service addr) (m_index s)
            ∧ bucket = m_bucket it.2 ∧ position = m_bucketpos it.2
      end.
Proof.
  intros Hr. pose proof (reachable_Inv s Hr) as HI.
  destruct (FindAddressEntry_total addr s HI) as (s' & H & _ & Hi).
  eexists _, s'. split; [exact H|]. split; [done|].
  unfold FindAddressEntry_.
  destruct (ByAddress_find (addr, false) (m_index s)) as [it|] eqn:Hfind.
  - pose proof (find_main_elem _ _ _ Hfind) as (Hin & Hsv & Hal).
    pose proof (ok_buckets _ _ _ (inv_index _ HI) _ Hin) as Hb.
    cbn [snd fst] in Hb.
    pose proof (f_equal m_bucket Hb) as Hb1.
    pose proof (f_equal m_bucketpos Hb) as Hb2.
    unfold Rebucket in Hb1, Hb2.
    assert (Hin' : it ∈ m_index s) by (by destruct it).
    destruct (fInTried it.2) eqn:Htr.
    + exists it. split; [done|]. split; [done|]. split; [done|].
      split; [done|]. split.
      { destruct (tried_alone _ _ _ it (inv_index _ HI) Hin' Htr) as [_ Halone].
        symmetry. apply (count_nodes_one _ _ it); [|done|done|].
        - apply NoDup_nodes, (ok_ptrs _ _ _ (inv_index _ HI)).
        - intros n Hn Hs. apply Halone; [done|]. unfold has_service in Hs.
          congruence. }
      cbn in Hb1, Hb2. done.
    + exists it. split; [done|]. split; [done|]. split; [done|].
      split; [done|]. split.
      { rewrite Hsv. apply CountAddr_count, (ok_sorted _ _ _ (inv_index _ HI)). }
      cbn in Hb1, Hb2. done.
  - by apply find_main_absent.
Qed.

(** X11: [SelectTriedCollision] returns nothing when the collision set is
    empty; what it returns otherwise is the address and last try of the
    entry in the tried slot that a member of the collision set hashes to;
    it changes neither the entries nor the collision set. *)
Theorem X11_SelectTriedCollision order s :
  reachable s → ptr_order order s →
  ∃ r s', SelectTriedCollision order s = Some (r, s')
    ∧ m_index s' = m_index s
    ∧ m_tried_collisions s' = m_tried_collisions s
    ∧ (size (m_tried_collisions s) = 0%nat → r = None)
    ∧ (∀ v, r = Some v →
         ∃ (it_new : ptr) (info_new : AddrInfo) (it_old : node),
           it_new ∈ m_tried_collisions s
           ∧ (it_new, info_new) ∈ m_index s
           ∧ it_old ∈ m_index s ∧ fInTried it_old.2 = true
           ∧ m_bucket it_old.2 = GetTriedBucket info_new (nKey s) (m_asmap s)
           ∧ m_bucketpos it_old.2
             = GetBucketPosition info_new (nKey s) false
                 (GetTriedBucket info_new (nKey s) (m_asmap s))
           ∧ v = ((service it_old.2, nTime it_old.2, nServices it_old.2),
                  nLastTry it_old.2)).
Proof.
  intros Hr Hord. pose proof (reachable_Inv s Hr) as HI.
  destruct (Check_tape s HI) as [t1 HC1].
  destruct (SelectTriedCollision_spec order (set_insecure_rand t1 s)
              (Inv_tape s t1 HI) (ptr_order_tape order t1 s Hord))
    as (r & s2 & HS & HI2 & Hi & Hc & H0 & Hv).
  destruct (checked_tape (SelectTriedCollision_ order) s t1 _ s2 HC1 HS HI2)
    as [t2 HP].
  exists r, (set_insecure_rand t2 s2). split; [exact HP|].
  split; [exact Hi|]. split; [exact Hc|]. split; [exact H0|].
  intros v Hrv. destruct (Hv v Hrv) as (a1 & i1 & o1 & ? & ? & ? & Hk & ->).
  exists a1, i1, o1. cbn [nKey m_asmap m_index m_tried_collisions
                          set_insecure_rand] in *.
  unfold ByBucketExtractor in Hk. cbn zeta in Hk.
  injection Hk as Hk1 Hk2 Hk3. by split_and!.
Qed.

(** X12: [Select] returns nothing, at once, when the manager is empty or
    when only new entries are asked for and there is none.  Whenever it
    returns an address, that is the address and last try of an entry of the
    manager, from the new table if only new entries were asked for or no
    address is tried, and from the tried table if no address is new; the
    entries stay as they are. *)
Theorem X12_Select (fuel : nat) (newOnly : bool) (now : Z) s :
  reachable s →
  ((m_index s = [] ∨ (newOnly = true ∧ nNew s = 0)) →
   ∃ s', Select fuel newOnly now s = Some (None, s'))
  ∧ (∀ r s', Select fuel newOnly now s = Some (r, s') →
       m_index s' = m_index s
       ∧ match r with
         | Some v =>
             ∃ it : node, it ∈ m_index s
               ∧ v = ((service it.2, nTime it.2, nServices it.2),
                      nLastTry it.2)
               ∧ (newOnly = true → fInTried it.2 = false)
               ∧ (nTried s = 0 → fInTried it.2 = false)
               ∧ (nNew s = 0 → fInTried it.2 = true)
         | None => m_index s = [] ∨ (newOnly = true ∧ nNew s = 0)
         end).
Proof.
  intros Hr. pose proof (reachable_Inv s Hr) as HI.
  destruct (Check_tape s HI) as [t1 HC1]. split.
  - intros Hempty.
    assert (HS : Select_ fuel newOnly now (set_insecure_rand t1 s)
                 = Some (None, set_insecure_rand t1 s)).
    { unfold Select_. cbn [m_index nNew set_insecure_rand].
      destruct (m_index s) as [|x l]; [done|].
      destruct Hempty as [?|[-> ->]]; done. }
    destruct (checked_tape _ s t1 _ _ HC1 HS (Inv_tape s t1 HI)) as [t2 HP].
    eexists. exact HP.
  - intros r s' H. unfold Select in H. rewrite HC1 in H.
    cbn [mbind option_bind] in H.
    destruct (Select_ fuel newOnly now (set_insecure_rand t1 s))
      as [[r0 s2]|] eqn:ES; [|done].
    cbn [mbind option_bind] in H.
    pose proof (Select_step _ _ _ _ _ _ (Inv_tape s t1 HI) ES) as [HI2 _].
    destruct (Check_tape s2 HI2) as [t2 HC2]. rewrite HC2 in H.
    cbn [mbind option_bind] in H. injection H as <- <-.
    destruct (Select_found _ _ _ _ _ _ (Inv_tape s t1 HI) ES) as [Hi Hres].
    cbn [m_index nNew nTried set_insecure_rand] in *. split; [done|].
    destruct r0 as [v|]; [|done].
    destruct Hres as (it & Hit & -> & H1 & H2 & H3).
    exists it. split; [done|]. split; [done|]. split; [done|].
    split; [|done]. intros H0. apply H2. lia.
Qed.

(** X13: [Add] never takes anything out of the tried table: the tried
    counter is as before, and every tried entry is still there, in its
    slot, with its source and its records of tries and successes; only its
    time and its services can have changed. *)
Theorem X13_Add_keeps_tried vAddr src pen now s :
  reachable s → Forall CAddress_in_range vAddr →
  ∃ r s', Add vAddr src pen now s = Some (r, s')
    ∧ nTried s' = nTried s
    ∧ ∀ n : node, n ∈ m_index s → fInTried n.2 = true →
        ∃ e', (n.1, e') ∈ m_index s'
          ∧ service e' = service n.2 ∧ source e' = source n.2
          ∧ fInTried e' = true
          ∧ m_bucket e' = m_bucket n.2 ∧ m_bucketpos e' = m_bucketpos n.2
          ∧ nLastTry e' = nLastTry n.2
          ∧ nLastCountAttempt e' = nLastCountAttempt n.2
          ∧ nLastSuccess e' = nLastSuccess n.2
          ∧ nAttempts e' = nAttempts n.2.
Proof.
  intros Hr Hall. pose proof (reachable_Inv s Hr) as HI.
  destruct (Add_public vAddr src pen now s HI Hall)
    as (t1 & t2 & added & s2 & HP & HL & HI2).
  eexists _, _. split; [exact HP|].
  destruct (Add_loop_tried _ _ _ _ _ _ _ _ (Inv_tape s t1 HI) Hall HL)
    as [HnT Hk].
  split; [exact HnT|]. intros n Hn Ht.
  destruct (Hk n Hn Ht) as (e' & He' & Hse).
  exists e'. split; [exact He'|].
  destruct (same_but_seen_fields _ _ Hse) as (?&?&?&?&?&?&?&?&?).
  split_and!; congruence.
Qed.

(** X14: when [Add] of one address returns [true], a new entry of that
    address with the source given is in the new table and the address has
    one entry more than before; when it returns [false], no entry was
    stored or removed. *)
Theorem X14_Add_one (addr : CService * Z * Z) src pen now s :
  reachable s → CAddress_in_range addr →
  ∃ r s', Add [addr] src pen now s = Some (r, s')
    ∧ if r
      then (∃ e', (next_ptr s, e') ∈ m_index s' ∧ service e' = addr.1.1
                  ∧ source e' = src ∧ fInTried e' = false)
           ∧ CountAddr addr.1.1 s' = CountAddr addr.1.1 s + 1
      else (m_index s').*1 = (m_index s).*1
           ∧ nNew s' = nNew s ∧ nTried s' = nTried s
           ∧ vRandom s' = vRandom s.
Proof.
  intros Hr Ha. pose proof (reachable_Inv s Hr) as HI.
  assert (Hall : Forall CAddress_in_range [addr]) by (by constructor).
  destruct (Add_public [addr] src pen now s HI Hall)
    as (t1 & t2 & added & s2 & HP & HL & HI2).
  eexists _, _. split; [exact HP|].
  cbn [Add_loop] in HL.
  destruct (AddSingle addr src pen now (set_insecure_rand t1 s))
    as [[r1 s1]|] eqn:HA; [|done].
  cbn [mbind option_bind] in HL. injection HL as <- <-.
  apply (AddSingle_result _ _ _ _ _ _ _ (Inv_tape s t1 HI) Ha) in HA.
  destruct r1; cbn [Z.add Z.ltb Z.compare].
  - destruct HA as (He & _ & Hc). split; [exact He|].
    rewrite !CountAddr_count;
      [exact Hc | apply (ok_sorted _ _ _ (inv_index _ HI))
       | apply (ok_sorted _ _ _ (inv_index _ (Inv_tape _ t2 HI2)))].
  - destruct HA as (?&?&?&?&?&_). done.
Qed.

(** X15: when [Add] returns [false], whatever the list of addresses, it has
    stored no entry and removed none: the nodes, the counters, the random
    vector and the collision set are as before, and an entry differs from
    what it was in its time and services at most. *)
Theorem X15_Add_false vAddr src pen now s s' :
  reachable s → Forall CAddress_in_range vAddr →
  Add vAddr src pen now s = Some (false, s') →
  (m_index s').*1 = (m_index s).*1
  ∧ nNew s' = nNew s ∧ nTried s' = nTried s ∧ vRandom s' = vRandom s
  ∧ m_tried_collisions s' = m_tried_collisions s
  ∧ ∀ n : node, n ∈ m_index s →
      ∃ e', (n.1, e') ∈ m_index s'
        ∧ set_nTime 0 (set_nServices 0 e') = set_nTime 0 (set_nServices 0 n.2).
Proof.
  intros Hr Hall HA. pose proof (reachable_Inv s Hr) as HI.
  destruct (Add_public vAddr src pen now s HI Hall)
    as (t1 & t2 & added & s2 & HP & HL & HI2).
  rewrite HA in HP. injection HP as Hadd ->.
  destruct (Add_loop_nothing _ _ _ _ _ _ _ _ (Inv_tape s t1 HI) Hall
              (Z.le_refl 0) HL) as [Hle Hsame].
  symmetry in Hadd. apply Z.ltb_ge in Hadd.
  destruct (Hsame ltac:(lia)) as (H1 & H2 & H3 & H4 & H5 & H6 & H7).
  cbn [m_index nNew nTried vRandom m_tried_collisions set_insecure_rand] in *.
  split_and!; try done.
  intros n Hn. destruct (H7 n Hn) as (e' & He' & Hse).
  exists e'. split; [done|].
  (* the random position is as before too *)
  assert (Hpos : nRandomPos e' = nRandomPos n.2).
  { destruct (is_alias n.2) eqn:Ea.
    - assert (Ha' : is_alias e' = true).
      { destruct (is_alias e') eqn:Ea'; [done|]. exfalso.
        destruct (inv_vRandom _ HI2) as [Hv1 _].
        destruct (Hv1 (n.1, e') He' Ea') as [Hp0 Hlk]. cbn [fst snd] in *.
        rewrite H5 in Hlk.
        destruct (inv_vRandom _ HI) as [_ Hv2].
        destruct (Hv2 _ _ Hlk) as (e0 & He0 & Hpe).
        pose proof (node_unique _ _ _ _ (ok_ptrs _ _ _ (inv_index _ HI))
                      He0 (ltac:(by destruct n) : (n.1, n.2) ∈ m_index s)).
        subst e0. unfold is_alias in Ea. lia. }
      unfold is_alias in *. lia.
    - destruct (inv_vRandom _ HI) as [Hv1 _].
      destruct (Hv1 n Hn Ea) as [Hp0 Hlk].
      rewrite <- H5 in Hlk.
      destruct (inv_vRandom _ HI2) as [_ Hv2].
      destruct (Hv2 _ _ Hlk) as (e0 & He0 & Hpe).
      pose proof (node_unique _ _ _ _ (ok_ptrs _ _ _ (inv_index _ HI2))
                    He0 He'). subst e0. lia. }
  unfold same_but_seen in Hse. destruct n as [q e], e, e'. cbn in *.
  injection Hse as -> -> -> -> -> -> -> -> ->. by subst.
Qed.

(** X16: [EraseInner] on the main entry of an address that has no alias
    removes the address: no entry of it is left, the container and the
    size go down by one, the counter of its table goes down by one, and the
    entries of the other addresses stay. *)
Theorem X16_Erase_lone s it e :
  Inv s → (it, e) ∈ m_index s → is_alias e = false →
  ByAddress_find (service e, true) (m_index s) = None →
  ∃ s', EraseInner it s = Some s'
    ∧ CountAddr (service e) s' = 0
    ∧ length (m_index s) = S (length (m_index s'))
    ∧ AddrMan_size s' = AddrMan_size s - 1
    ∧ nNew s' = nNew s - (if fInTried e then 0 else 1)
    ∧ nTried s' = nTried s - (if fInTried e then 1 else 0)
    ∧ (∀ n : node, n ∈ m_index s → service n.2 ≠ service e →
         ∃ e', (n.1, e') ∈ m_index s'
               ∧ set_nRandomPos 0 e' = set_nRandomPos 0 n.2)
    ∧ CheckAddrman s' = 0.
Proof.
  intros HI Hin Hal Hnone.
  destruct (Erase_lone s it e HI Hin Hal Hnone)
    as (s' & HE & HI' & Hno & Hk & Hlen & HnN & HnT & Hsz).
  exists s'. split; [done|]. split.
  { rewrite CountAddr_count by apply (ok_sorted _ _ _ (inv_index _ HI')).
    by apply count_nodes_absent. }
  split; [done|]. split; [done|]. split; [done|]. split; [done|].
  split; [|by apply CheckAddrman_ok].
  intros n Hn Hs. destruct (Hk n Hn Hs) as (e' & He' & _ & Hse). by exists e'.
Qed.

(** X17: [MakeTried] on a main entry of the new table whose tried slot is
    occupied puts the entry into that slot and moves the occupant back to
    the new table, as the only entry of its address, with its source and
    statistics, in the new bucket of its own source; the tried counter
    stays, and the new counter stays or goes down by one. *)
Theorem X17_MakeTried_evicts s it info (c : node) :
  Inv s → (it, info) ∈ m_index s → is_alias info = false →
  fInTried info = false → c ∈ m_index s →
  ByBucketExtractor c.2
  = (let b := GetTriedBucket info (nKey s) (m_asmap s) in
     (true, b, GetBucketPosition info (nKey s) false b)) →
  ∃ s' p e' pc ec, MakeTried it s = Some s'
    ∧ (p, e') ∈ m_index s' ∧ service e' = service info
    ∧ ByBucketExtractor e' = ByBucketExtractor c.2
    ∧ (pc, ec) ∈ m_index s' ∧ service ec = service c.2
    ∧ fInTried ec = false ∧ is_alias ec = false
    ∧ source ec = source c.2
    ∧ m_bucket ec = GetNewBucket c.2 (nKey s) (source c.2) (m_asmap s)
    ∧ nTime ec = nTime c.2 ∧ nServices ec = nServices c.2
    ∧ nLastTry ec = nLastTry c.2 ∧ nLastSuccess ec = nLastSuccess c.2
    ∧ nAttempts ec = nAttempts c.2
    ∧ CountAddr (service info) s' = 1 ∧ CountAddr (service c.2) s' = 1
    ∧ nTried s' = nTried s ∧ nNew s - 1 <= nNew s' <= nNew s
    ∧ CheckAddrman s' = 0.
Proof.
  intros HI Hin Hal Hf Hc Hslot.
  assert (Hslot' : ByBucketExtractor c.2
                   = ByBucketExtractor
                       (Rebucket (nKey s) (m_asmap s) (set_fInTried true info))).
  { rewrite Hslot. unfold ByBucketExtractor, Rebucket. by cbn. }
  destruct (MakeTried_occupied s it info c HI Hin Hal Hf Hc Hslot')
    as (s' & p & e' & pc & ec & HM & HI' & Hp & Hse & Hpc & Hsec & Hc1 & Hc2
        & HnT & HnN).
  exists s', p, e', pc, ec. split; [done|]. split; [done|].
  destruct (same_entry_fields _ _ Hse)
    as (E1 & _ & E3 & _ & E5 & E6 & _).
  destruct (same_entry_fields _ _ Hsec)
    as (F1 & F2 & F3 & F4 & F5 & F6 & F7 & F8 & F9 & F10 & F11 & F12).
  assert (Hct : fInTried c.2 = true).
  { unfold ByBucketExtractor in Hslot. cbn zeta in Hslot.
    by injection Hslot as -> _ _. }
  destruct (tried_alone _ _ _ c (inv_index _ HI) Hc Hct) as [Hca _].
  split; [by rewrite E1|].
  split.
  { rewrite Hslot'. unfold ByBucketExtractor. by rewrite E3, E5, E6. }
  split; [done|]. split; [by rewrite F1|]. split; [by rewrite F3|].
  split.
  { rewrite F4. unfold is_alias in *.
    by destruct (Rebucket_fields (nKey s) (m_asmap s) (set_fInTried false c.2))
      as (_ & _ & _ & ->). }
  split; [by rewrite F2|]. split; [by rewrite F5|].
  split; [by rewrite F7|]. split; [by rewrite F8|].
  split; [by rewrite F9|]. split; [by rewrite F11|].
  split; [by rewrite F12|].
  rewrite !CountAddr_count by apply (ok_sorted _ _ _ (inv_index _ HI')).
  split; [done|]. split; [done|]. split; [done|]. split; [done|].
  by apply CheckAddrman_ok.
Qed.

(** X18: whatever the stream, when the loop of [Unserialize] has read its
    entries into a new manager, the consistency checker returns [0] on
    what it has built: the exception for corrupt data at the end of
    [Unserialize] is never thrown. *)
Theorem X18_Unserialize_check_passes (k : nat) (format : Z) (v2 : bool)
    (read_new key key0 ratio : Z) asmap rand bs bs' s' :
  in_u 256 key →
  Unserialize_entries k format v2 0 read_new bs
    (set_nKey key (AddrMan_new key0 asmap ratio rand)) = Some (bs', s') →
  CheckAddrman s' = 0.
Proof.
  intros Hkey HU. apply CheckAddrman_ok.
  apply (Unserialize_entries_inv _ _ _ _ _ _ _ _ _
           (AddrMan_new_Inv key asmap ratio rand Hkey)) in HU; [done|].
  intros _ n Hn. by apply elem_of_nil in Hn.
Qed.

(** X19: [SwapRandom] on two positions of the random vector exchanges the
    two identifiers and leaves the others where they are; afterwards every
    identifier in the vector still names an entry whose random position is
    its place in the vector. *)
Theorem X19_SwapRandom s (pos1 pos2 : Z) :
  Inv s →
  0 <= pos1 < Z.of_nat (length (vRandom s)) →
  0 <= pos2 < Z.of_nat (length (vRandom s)) →
  ∃ s1, SwapRandom pos1 pos2 s = Some s1
    ∧ vRandom s1 !! Z.to_nat pos1 = vRandom s !! Z.to_nat pos2
    ∧ vRandom s1 !! Z.to_nat pos2 = vRandom s !! Z.to_nat pos1
    ∧ (∀ i : nat, i ≠ Z.to_nat pos1 → i ≠ Z.to_nat pos2 →
         vRandom s1 !! i = vRandom s !! i)
    ∧ (∀ (i : nat) p, vRandom s1 !! i = Some p →
         ∃ e, (p, e) ∈ m_index s1 ∧ nRandomPos e = Z.of_nat i)
    ∧ nNew s1 = nNew s ∧ nTried s1 = nTried s.
Proof.
  intros HI H1 H2.
  destruct (SwapRandom_spec s pos1 pos2 HI H1 H2)
    as (s1 & HS & HI1 & _ & _ & HnN & HnT & _).
  exists s1. split; [done|].
  assert (Hvec : vRandom s1 !! Z.to_nat pos1 = vRandom s !! Z.to_nat pos2
                 ∧ vRandom s1 !! Z.to_nat pos2 = vRandom s !! Z.to_nat pos1
                 ∧ (∀ i : nat, i ≠ Z.to_nat pos1 → i ≠ Z.to_nat pos2 →
                      vRandom s1 !! i = vRandom s !! i)).
  { destruct (decide (pos1 = pos2)) as [->|Hne].
    - unfold SwapRandom in HS. rewrite decide_True in HS by done.
      by injection HS as <-.
    - destruct (SwapRandom_vRandom s pos1 pos2 s1 HS Hne)
        as (it1 & it2 & Hi1 & Hi2 & -> & _).
      split; [|split].
      + rewrite list_lookup_insert_ne by lia.
        rewrite list_lookup_insert_eq by (rewrite ?length_insert; lia).
        by rewrite Hi2.
      + rewrite list_lookup_insert_eq by (rewrite ?length_insert; lia).
        by rewrite Hi1.
      + intros i N1 N2. by rewrite !list_lookup_insert_ne by done. }
  destruct Hvec as (V1 & V2 & V3). split; [done|]. split; [done|].
  split; [done|]. split; [|done].
  apply (inv_vRandom _ HI1).
Qed.

(** X1: the new bucket of an announcement is one of at most 64 buckets
    that the key and the group of the source determine, whatever the
    address; the tried bucket of an address is one of at most 8 buckets
    that the key and the group of the address determine. *)
Theorem X1_buckets_per_group (key : Z) (asmap : list bool) :
  (∀ src : CNetAddr, ∃ l : list Z,
     length l = 64%nat
     ∧ ∀ (i : AddrInfo) (src' : CNetAddr),
         GetGroup src' asmap = GetGroup src asmap →
         GetNewBucket i key src' asmap ∈ l)
  ∧ (∀ a : CService, ∃ l : list Z,
       length l = 8%nat
       ∧ ∀ i : AddrInfo,
           GetGroup (ToNetAddr (service i)) asmap
           = GetGroup (ToNetAddr a) asmap →
           GetTriedBucket i key asmap ∈ l).
Proof.
  split.
  - intros src.
    exists ((λ h : nat,
               GetCheapHash [HUint256 key; HBytes (GetGroup src asmap);
                             HUint64 (Z.of_nat h)]
               mod ADDRMAN_NEW_BUCKET_COUNT) <$> seq 0 64).
    split; [by rewrite length_fmap, length_seq|].
    intros i src' Hg.
    destruct (new_bucket_of_group key asmap i src') as (h & Hh & ->).
    rewrite Hg. apply list_elem_of_fmap. exists (Z.to_nat h).
    split; [by rewrite Z2Nat.id by lia|].
    apply elem_of_seq. unfold ADDRMAN_NEW_BUCKETS_PER_SOURCE_GROUP in Hh. lia.
  - intros a.
    exists ((λ h : nat,
               GetCheapHash [HUint256 key;
                             HBytes (GetGroup (ToNetAddr a) asmap);
                             HUint64 (Z.of_nat h)]
               mod ADDRMAN_TRIED_BUCKET_COUNT) <$> seq 0 8).
    split; [by rewrite length_fmap, length_seq|].
    intros i Hg.
    destruct (tried_bucket_of_group key asmap i) as (h & Hh & ->).
    rewrite Hg. apply list_elem_of_fmap. exists (Z.to_nat h).
    split; [by rewrite Z2Nat.id by lia|].
    apply elem_of_seq. unfold ADDRMAN_TRIED_BUCKETS_PER_GROUP in Hh. lia.
Qed.

End Behaviour.

(** * Instances of the further properties *)

Import Toy ToyLaws ToyStates ToyFacts.

Lemma not_found_None (o : option node) :
  bool_decide (is_Some o) = false → o = None.
Proof.
  intros H%bool_decide_eq_false. destruct o; [|done]. by destruct H.
Qed.

Lemma s_one_reachable : reachable s_one.
Proof. apply api_reachable_reachable, s_one_api. Qed.
Lemma s_alias_reachable : reachable s_alias.
Proof. apply api_reachable_reachable, s_alias_api. Qed.
Lemma s_twelve_reachable : reachable s_twelve.
Proof. apply api_reachable_reachable, s_twelve_api. Qed.
Lemma s_full_reachable : reachable s_full.
Proof. apply api_reachable_reachable, s_full_api. Qed.

Lemma ptr_order_by_compute (order : list ptr) (s : State) :
  bool_decide (NoDup order)
  && forallb (λ p, bool_decide (p ∈ order)) (elements (m_tried_collisions s))
  = true →
  ptr_order order s.
Proof.
  intros [Hnd Hall]%andb_true_iff. split.
  - by apply bool_decide_eq_true in Hnd.
  - intros p Hp. rewrite forallb_forall in Hall.
    apply elem_of_elements, list_elem_of_In in Hp.
    by apply Hall, bool_decide_eq_true in Hp.
Qed.

Lemma X2_checker_passes_witness : CheckAddrman (NT := NT) s_nine = 0.
Proof.
  refine (X2_checker_passes (NT := NT) (NL := NL) s_nine _).
  apply s_nine_reachable.
Defined.

Lemma X3_table_capacity_witness :
  AddrMan_size (NT := NT) s_full = nNew s_full + nTried s_full
  ∧ 0 <= nNew s_full <= 65536 ∧ 0 <= nTried s_full <= 16384.
Proof.
  refine (X3_table_capacity (NT := NT) (NL := NL) s_full _).
  apply s_full_reachable.
Defined.

Lemma X4_operations_return_witness :
  (∃ r s', Add (NT := NT) [(40%nat, 1000, 0)] 1%nat 0 1000 s_twelve
           = Some (r, s'))
  ∧ (∃ r s', Good (NT := NT) 1%nat 1000 s_twelve = Some (r, s'))
  ∧ (∃ s', Attempt (NT := NT) 1%nat true 1000 s_twelve = Some s')
  ∧ (∃ s', Connected (NT := NT) 1%nat 1000 s_twelve = Some s')
  ∧ (∃ s', SetServices (NT := NT) 1%nat 9 s_twelve = Some s')
  ∧ (∃ r s', SelectTriedCollision (NT := NT) (seq 0 13) s_twelve
             = Some (r, s'))
  ∧ (∃ r s', FindAddressEntry (NT := NT) 1%nat s_twelve = Some (r, s')).
Proof.
  refine (X4_operations_return (NT := NT) (NL := NL) s_twelve
            [(40%nat, 1000, 0)] 1%nat 0 1000 1%nat true 1000 9 (seq 0 13)
            _ _ _ _ _).
  - apply s_twelve_reachable.
  - constructor; [|constructor].
    split; apply in_u_by_compute; by vm_compute.
  - apply in_s_by_compute. by vm_compute.
  - apply in_u_by_compute. by vm_compute.
  - apply ptr_order_by_compute. by vm_compute.
Defined.

Lemma X5_Good_promotes_witness :
  let it := found (ByAddress_find (1%nat, false) (m_index s_twelve)) in
  ∃ s' p e', Good (NT := NT) 1%nat 1000 s_twelve = Some (true, s')
    ∧ (p, e') ∈ m_index s'
    ∧ service e' = 1%nat ∧ is_alias e' = false ∧ fInTried e' = true
    ∧ m_bucket e' = GetTriedBucket it.2 (nKey s_twelve) (m_asmap s_twelve)
    ∧ m_bucketpos e'
      = GetBucketPosition it.2 (nKey s_twelve) false
          (GetTriedBucket it.2 (nKey s_twelve) (m_asmap s_twelve))
    ∧ nLastSuccess e' = 1000 ∧ nLastTry e' = 1000 ∧ nAttempts e' = 0
    ∧ nTime e' = nTime it.2 ∧ nServices e' = nServices it.2
    ∧ source e' = source it.2
    ∧ CountAddr 1%nat s' = 1
    ∧ nTried s' = nTried s_twelve + 1 ∧ nNew s' = nNew s_twelve - 1
    ∧ AddrMan_size s' = AddrMan_size s_twelve
    ∧ nLastGood s' = 1000.
Proof.
  intros it.
  refine (X5_Good_promotes (NT := NT) (NL := NL) 1%nat 1000 s_twelve it
            _ _ _ _ _).
  - apply s_twelve_reachable.
  - apply in_s_by_compute. by vm_compute.
  - apply found_Some. by vm_compute.
  - by vm_compute.
  - apply not_found_None. by vm_compute.
Defined.

Lemma X6_Good_already_tried_witness :
  let it := found (ByAddress_find (1%nat, false) (m_index s_full)) in
  ∃ s', Good (NT := NT) 1%nat 2000 s_full = Some (false, s')
    ∧ m_index s'
      = index_modify it.1
          (λ i, set_nAttempts 0 (set_nLastTry 2000 (set_nLastSuccess 2000 i)))
          (m_index s_full)
    ∧ nNew s' = nNew s_full ∧ nTried s' = nTried s_full
    ∧ vRandom s' = vRandom s_full
    ∧ m_tried_collisions s' = m_tried_collisions s_full
    ∧ nLastGood s' = 2000.
Proof.
  intros it.
  refine (X6_Good_already_tried (NT := NT) (NL := NL) 1%nat 2000 s_full it
            _ _ _ _).
  - apply s_full_reachable.
  - apply in_s_by_compute. by vm_compute.
  - apply found_Some. by vm_compute.
  - by vm_compute.
Defined.


Lemma X8_Connected_witness :
  let it := found (ByAddress_find (1%nat, false) (m_index s_one)) in
  ∃ s', Connected (NT := NT) 1%nat 5000 s_one = Some s'
    ∧ m_index s'
      = (if 20 * 60 <? sub64 5000 (nTime it.2)
         then index_modify it.1 (set_nTime (wrapU 32 5000)) (m_index s_one)
         else m_index s_one)
    ∧ nNew s' = nNew s_one ∧ nTried s' = nTried s_one
    ∧ vRandom s' = vRandom s_one
    ∧ m_tried_collisions s' = m_tried_collisions s_one
    ∧ nLastGood s' = nLastGood s_one.
Proof.
  intros it.
  refine (X8_Connected (NT := NT) (NL := NL) 1%nat 5000 s_one it _ _).
  - apply s_one_reachable.
  - apply found_Some. by vm_compute.
Defined.

Lemma X9_GetAddr_contents_witness :
  ∃ r s', GetAddr (NT := NT) 5 50 None 1000 s_twelve = Some (r, s')
    ∧ (∀ ca, ca ∈ r →
         ∃ p e, (p, e) ∈ m_index s_twelve ∧ is_alias e = false
           ∧ ca = (service e, nTime e, nServices e)
           ∧ IsTerrible e 1000 = false
           ∧ (∀ net, None = Some net → GetNetClass (service e) = net))
    ∧ NoDup r.*1.*1.
Proof.
  refine (X9_GetAddr_contents (NT := NT) (NL := NL) 5 50 None 1000 s_twelve _).
  apply s_twelve_reachable.
Defined.

Lemma X10_FindAddressEntry_witness :
  ∃ r s', FindAddressEntry (NT := NT) 1%nat s_alias = Some (r, s')
    ∧ m_index s' = m_index s_alias
    ∧ match r with
      | None => ∀ n, n ∈ m_index s_alias → service n.2 ≠ 1%nat
      | Some (tried, multiplicity, bucket, position) =>
          ∃ it : node,
            it ∈ m_index s_alias ∧ service it.2 = 1%nat
            ∧ is_alias it.2 = false
            ∧ tried = fInTried it.2
            ∧ multiplicity = count_nodes (has_service 1%nat) (m_index s_alias)
            ∧ bucket = m_bucket it.2 ∧ position = m_bucketpos it.2
      end.
Proof.
  refine (X10_FindAddressEntry (NT := NT) (NL := NL) 1%nat s_alias _).
  apply s_alias_reachable.
Defined.

Lemma X11_SelectTriedCollision_witness :
  ∃ r s', SelectTriedCollision (NT := NT) (seq 0 13) s_full = Some (r, s')
    ∧ m_index s' = m_index s_full
    ∧ m_tried_collisions s' = m_tried_collisions s_full
    ∧ (size (m_tried_collisions s_full) = 0%nat → r = None)
    ∧ (∀ v, r = Some v →
         ∃ (it_new : ptr) (info_new : AddrInfo) (it_old : node),
           it_new ∈ m_tried_collisions s_full
           ∧ (it_new, info_new) ∈ m_index s_full
           ∧ it_old ∈ m_index s_full ∧ fInTried it_old.2 = true
           ∧ m_bucket it_old.2
             = GetTriedBucket info_new (nKey s_full) (m_asmap s_full)
           ∧ m_bucketpos it_old.2
             = GetBucketPosition info_new (nKey s_full) false
                 (GetTriedBucket info_new (nKey s_full) (m_asmap s_full))
           ∧ v = ((service it_old.2, nTime it_old.2, nServices it_old.2),
                  nLastTry it_old.2)).
Proof.
  refine (X11_SelectTriedCollision (NT := NT) (NL := NL) (seq 0 13) s_full
            _ _).
  - apply s_full_reachable.
  - apply ptr_order_by_compute. by vm_compute.
Defined.

Lemma run_result {A} (o : option (A * State)) (s0 : State) (r : A) :
  fst <$> o = Some r → o = Some (r, run s0 o).
Proof. destruct o as [[r0 s]|]; [|done]. cbn. by intros [= ->]. Qed.

Lemma range_by_compute (a b c : Z) :
  (a <=? b) && (b <? c) = true → a <= b < c.
Proof. intros [?%Z.leb_le ?%Z.ltb_lt]%andb_true_iff. by split. Qed.

Lemma all_in_range_by_compute (vAddr : list (nat * Z * Z)) :
  forallb (λ a : nat * Z * Z,
             (0 <=? a.1.2) && (a.1.2 <? 2 ^ 32)
             && ((0 <=? a.2) && (a.2 <? 2 ^ 64))) vAddr = true →
  Forall (CAddress_in_range (NT := NT)) vAddr.
Proof.
  intros Hall. apply Forall_forall. intros a Ha.
  rewrite forallb_forall in Hall.
  apply list_elem_of_In in Ha. specialize (Hall a Ha).
  apply andb_true_iff in Hall as [H1 H2].
  split; by apply in_u_by_compute.
Qed.

Lemma X12_Select_witness :
  ((m_index s_full = [] ∨ (true = true ∧ nNew s_full = 0)) →
   ∃ s', Select (NT := NT) 3 true 1000 s_full = Some (None, s'))
  ∧ (∀ r s', Select (NT := NT) 3 true 1000 s_full = Some (r, s') →
       m_index s' = m_index s_full
       ∧ match r with
         | Some v =>
             ∃ it : node, it ∈ m_index s_full
               ∧ v = ((service it.2, nTime it.2, nServices it.2),
                      nLastTry it.2)
               ∧ (true = true → fInTried it.2 = false)
               ∧ (nTried s_full = 0 → fInTried it.2 = false)
               ∧ (nNew s_full = 0 → fInTried it.2 = true)
         | None => m_index s_full = [] ∨ (true = true ∧ nNew s_full = 0)
         end).
Proof.
  refine (X12_Select (NT := NT) (NL := NL) 3 true 1000 s_full _).
  apply s_full_reachable.
Defined.

Lemma X13_Add_keeps_tried_witness :
  ∃ r s', Add (NT := NT) [(1%nat, 5000, 0); (40%nat, 5000, 0)] 1%nat 0 5000
            s_full = Some (r, s')
    ∧ nTried s' = nTried s_full
    ∧ ∀ n : node, n ∈ m_index s_full → fInTried n.2 = true →
        ∃ e', (n.1, e') ∈ m_index s'
          ∧ service e' = service n.2 ∧ source e' = source n.2
          ∧ fInTried e' = true
          ∧ m_bucket e' = m_bucket n.2 ∧ m_bucketpos e' = m_bucketpos n.2
          ∧ nLastTry e' = nLastTry n.2
          ∧ nLastCountAttempt e' = nLastCountAttempt n.2
          ∧ nLastSuccess e' = nLastSuccess n.2
          ∧ nAttempts e' = nAttempts n.2.
Proof.
  refine (X13_Add_keeps_tried (NT := NT) (NL := NL)
            [(1%nat, 5000, 0); (40%nat, 5000, 0)] 1%nat 0 5000 s_full _ _).
  - apply s_full_reachable.
  - apply all_in_range_by_compute. by vm_compute.
Defined.

Lemma X14_Add_one_witness :
  ∃ r s', Add (NT := NT) [(2%nat, 1000, 0)] 1%nat 0 1000 s_one = Some (r, s')
    ∧ if r
      then (∃ e', (next_ptr s_one, e') ∈ m_index s'
                  ∧ service e' = (2%nat, 1000, 0).1.1
                  ∧ source e' = 1%nat ∧ fInTried e' = false)
           ∧ CountAddr (2%nat, 1000, 0).1.1 s'
             = CountAddr (2%nat, 1000, 0).1.1 s_one + 1
      else (m_index s').*1 = (m_index s_one).*1
           ∧ nNew s' = nNew s_one ∧ nTried s' = nTried s_one
           ∧ vRandom s' = vRandom s_one.
Proof.
  refine (X14_Add_one (NT := NT) (NL := NL) (2%nat, 1000, 0) 1%nat 0 1000
            s_one _ _).
  - apply s_one_reachable.
  - split; apply in_u_by_compute; by vm_compute.
Defined.

Lemma X15_Add_false_witness :
  let s' := run s_one (Add [(1%nat, 1000, 0)] 1%nat 0 1000 s_one) in
  (m_index s').*1 = (m_index s_one).*1
  ∧ nNew s' = nNew s_one ∧ nTried s' = nTried s_one
  ∧ vRandom s' = vRandom s_one
  ∧ m_tried_collisions s' = m_tried_collisions s_one
  ∧ ∀ n : node, n ∈ m_index s_one →
      ∃ e', (n.1, e') ∈ m_index s'
        ∧ set_nTime 0 (set_nServices 0 e') = set_nTime 0 (set_nServices 0 n.2).
Proof.
  intros s'.
  refine (X15_Add_false (NT := NT) (NL := NL) [(1%nat, 1000, 0)] 1%nat 0 1000
            s_one s' _ _ _).
  - apply s_one_reachable.
  - apply all_in_range_by_compute. by vm_compute.
  - apply run_result. by vm_compute.
Defined.

Lemma X16_Erase_lone_witness :
  let e := entry_at 0 s_one in
  ∃ s', EraseInner (NT := NT) 0 s_one = Some s'
    ∧ CountAddr (service e) s' = 0
    ∧ length (m_index s_one) = S (length (m_index s'))
    ∧ AddrMan_size s' = AddrMan_size s_one - 1
    ∧ nNew s' = nNew s_one - (if fInTried e then 0 else 1)
    ∧ nTried s' = nTried s_one - (if fInTried e then 1 else 0)
    ∧ (∀ n : node, n ∈ m_index s_one → service n.2 ≠ service e →
         ∃ e', (n.1, e') ∈ m_index s'
               ∧ set_nRandomPos 0 e' = set_nRandomPos 0 n.2)
    ∧ CheckAddrman s' = 0.
Proof.
  intros e.
  refine (X16_Erase_lone (NT := NT) (NL := NL) s_one 0%nat e _ _ _ _).
  - apply api_reachable_Inv, s_one_api.
  - apply entry_at_elem. by vm_compute.
  - by vm_compute.
  - replace (service e) with 1%nat by (by vm_compute).
    apply not_found_None. by vm_compute.
Defined.

Lemma X17_MakeTried_evicts_witness :
  let info := entry_at 1 s_full in
  let c := found (ByBucket_find (true, 0, 0) (m_index s_full)) in
  ∃ s' p e' pc ec, MakeTried (NT := NT) 1 s_full = Some s'
    ∧ (p, e') ∈ m_index s' ∧ service e' = service info
    ∧ ByBucketExtractor e' = ByBucketExtractor c.2
    ∧ (pc, ec) ∈ m_index s' ∧ service ec = service c.2
    ∧ fInTried ec = false ∧ is_alias ec = false
    ∧ source ec = source c.2
    ∧ m_bucket ec
      = GetNewBucket c.2 (nKey s_full) (source c.2) (m_asmap s_full)
    ∧ nTime ec = nTime c.2 ∧ nServices ec = nServices c.2
    ∧ nLastTry ec = nLastTry c.2 ∧ nLastSuccess ec = nLastSuccess c.2
    ∧ nAttempts ec = nAttempts c.2
    ∧ CountAddr (service info) s' = 1 ∧ CountAddr (service c.2) s' = 1
    ∧ nTried s' = nTried s_full
    ∧ nNew s_full - 1 <= nNew s' <= nNew s_full
    ∧ CheckAddrman s' = 0.
Proof.
  intros info c.
  refine (X17_MakeTried_evicts (NT := NT) (NL := NL) s_full 1%nat info c
            _ _ _ _ _ _).
  - apply api_reachable_Inv, s_full_api.
  - apply entry_at_elem. by vm_compute.
  - by vm_compute.
  - by vm_compute.
  - apply found_elem; [|by vm_compute].
    intros n Hn. by apply ByBucket_find_Some in Hn as [Hn _].
  - by vm_compute.
Defined.

Lemma X18_Unserialize_check_passes_witness :
  CheckAddrman (NT := NT)
    (run s_new
       (Unserialize_entries 1 FILE_FORMAT true 0 1
          (ser_CAddress true (1%nat, 1000, 0)
           ++ ser_int64 0 ++ ser_int64 0 ++ ser_int64 0 ++ ser_int32 0
           ++ ser_uint32 9
           ++ concat (map (λ k : nat, ser_CNetAddr true (64 * k)%nat)
                        (seq 0 9)))
          (set_nKey 0 (AddrMan_new 0 [] 0 [])))) = 0.
Proof.
  refine (X18_Unserialize_check_passes (NT := NT) 1 FILE_FORMAT true
            1 0 0 0 [] [] _ [] _ _ _).
  - apply in_u_by_compute. by vm_compute.
  - apply run_result. by vm_compute.
Defined.

Lemma X19_SwapRandom_witness :
  ∃ s1, SwapRandom (NT := NT) 0 5 s_twelve = Some s1
    ∧ vRandom s1 !! Z.to_nat 0 = vRandom s_twelve !! Z.to_nat 5
    ∧ vRandom s1 !! Z.to_nat 5 = vRandom s_twelve !! Z.to_nat 0
    ∧ (∀ i : nat, i ≠ Z.to_nat 0 → i ≠ Z.to_nat 5 →
         vRandom s1 !! i = vRandom s_twelve !! i)
    ∧ (∀ (i : nat) p, vRandom s1 !! i = Some p →
         ∃ e, (p, e) ∈ m_index s1 ∧ nRandomPos e = Z.of_nat i)
    ∧ nNew s1 = nNew s_twelve ∧ nTried s1 = nTried s_twelve.
Proof.
  refine (X19_SwapRandom (NT := NT) s_twelve 0 5 _ _ _).
  - apply api_reachable_Inv, s_twelve_api.
  - apply range_by_compute. by vm_compute.
  - apply range_by_compute. by vm_compute.
Defined.
